(** * DiskImage: a shallow embedding of [src/machines/pcx86/modules/diskimage.js]

    The development follows the JavaScript class [DiskImage] method by method.
    JavaScript numbers that the code only ever uses as integers are modelled
    by [Z]; the 32-bit behaviour of the bitwise operators is written out.
    Mutable objects ([this], sectors, arrays, buffers) are threaded explicitly:
    a method that mutates its receiver returns the new receiver. *)

From Stdlib Require Import String Ascii.
From Stdlib Require Import ZArith List Bool Lia.
Import ListNotations.
Local Open Scope Z_scope.

(* ===================================================================== *)
(** * JavaScript integers and arrays *)
(* ===================================================================== *)

Module JS.

(** ToUint32 of ECMAScript, on an integer: the low 32 bits. *)
Definition toUint32 (z : Z) : Z := Z.land z 0xFFFFFFFF.

(** ToInt32 of ECMAScript, on an integer: the low 32 bits, read as a signed
    number. *)
Definition toInt32 (z : Z) : Z :=
  let u := toUint32 z in
  if u <? 0x80000000 then u else u - 0x100000000.

(** [x & y], [x | y], [x ^ y], [~x], [x << n], [x >> n]: both operands go
    through ToInt32 and the result is an int32; a shift count is taken
    modulo 32. *)
Definition band (x y : Z) : Z := Z.land (toInt32 x) (toInt32 y).
Definition bor (x y : Z) : Z := Z.lor (toInt32 x) (toInt32 y).
Definition bxor (x y : Z) : Z := Z.lxor (toInt32 x) (toInt32 y).
Definition bnot (x : Z) : Z := Z.lnot (toInt32 x).
Definition shl (x n : Z) : Z := toInt32 (Z.shiftl (toInt32 x) (Z.land n 31)).
Definition sar (x n : Z) : Z := Z.shiftr (toInt32 x) (Z.land n 31).

(** [(a / b) | 0] for integers [a] and [b]: the quotient is truncated toward
    zero and wrapped to 32 bits; [a / 0] is an infinity or NaN, which [| 0]
    turns into 0.  ([Z.quot a 0] is 0 as well.) *)
Definition divi (a b : Z) : Z := toInt32 (Z.quot a b).

(** A value that is [undefined], [null] or a number. *)
Inductive val : Type :=
| Undef
| Null
| Num (n : Z).

(** ToInt32 applied to a value: [undefined] becomes NaN and then 0, [null]
    becomes 0. *)
Definition valInt32 (v : val) : Z :=
  match v with
  | Undef => 0
  | Null => 0
  | Num n => toInt32 n
  end.

(** [v == undefined], which holds of [undefined] and of [null] *)
Definition isUndef (v : val) : bool :=
  match v with
  | Undef => true
  | Null => true
  | Num _ => false
  end.

(** [v === undefined] *)
Definition isUndefined (v : val) : bool :=
  match v with
  | Undef => true
  | Null => false
  | Num _ => false
  end.

(** [a === b] on values. *)
Definition strictEq (a b : val) : bool :=
  match a, b with
  | Undef, Undef => true
  | Null, Null => true
  | Num x, Num y => x =? y
  | _, _ => false
  end.

(** [(a + b) & (0xffffffff|0)]: a 32-bit wrapping sum; [null] counts as 0;
    when either operand is [undefined] the sum is NaN and the result 0. *)
Definition add32 (a b : val) : val :=
  match a, b with
  | Num x, Num y => Num (toInt32 (x + y))
  | Num x, Null => Num (toInt32 x)
  | Null, Num y => Num (toInt32 y)
  | Null, Null => Num 0
  | _, _ => Num 0
  end.

(** [a.length] *)
Definition len {A : Type} (a : list A) : Z := Z.of_nat (length a).

(** [a[i]] for an array whose cells are numbers, [null] or [undefined]; an index
    outside the array reads [undefined]. *)
Definition get (a : list val) (i : Z) : val :=
  if i <? 0 then Undef else nth (Z.to_nat i) a Undef.

(** [a[i] = v] for [0 <= i]: inside the array the cell is replaced, at or
    past the end the array grows (the cells in between are holes, which
    read as [undefined]). *)
Definition set (a : list val) (i : Z) (v : val) : list val :=
  if i <? len a
  then firstn (Z.to_nat i) a ++ v :: skipn (S (Z.to_nat i)) a
  else a ++ repeat Undef (Z.to_nat (i - len a)) ++ [v].

(** [a[i]] for an array of objects: [None] stands for [undefined]. *)
Definition item {A : Type} (a : list A) (i : Z) : option A :=
  if i <? 0 then None else nth_error a (Z.to_nat i).

(** [a[i]] for an array of numbers. *)
Definition cell (a : list Z) (i : Z) : val :=
  match item a i with
  | Some n => Num n
  | None => Undef
  end.

End JS.

Import JS.

(** Code that can throw returns an [option]; [None] is a thrown exception. *)
Notation "x <- e ;; k" :=
  (match e with
   | Some x => k
   | None => None
   end) (at level 61, e at next level, right associativity).

(* ===================================================================== *)
(** * DataBuffer *)
(* ===================================================================== *)

(** Modelled from the spec: the DataBuffer class (the "ByteView" of the spec,
    a random-access view over a byte buffer with little- and big-endian
    accessors) is imported by the callers and is not part of this file.  A
    buffer is the list of its bytes; an access outside the buffer throws. *)
Module DataBuffer.

Definition t : Type := list Z.

Definition length (db : t) : Z := len db.

Definition readUInt8 (db : t) (off : Z) : option Z := item db off.

Definition readUInt16LE (db : t) (off : Z) : option Z :=
  b0 <- readUInt8 db off ;;
  b1 <- readUInt8 db (off + 1) ;;
  Some (b0 + 256 * b1).

Definition readUInt16BE (db : t) (off : Z) : option Z :=
  b0 <- readUInt8 db off ;;
  b1 <- readUInt8 db (off + 1) ;;
  Some (256 * b0 + b1).

Definition readUInt32LE (db : t) (off : Z) : option Z :=
  b0 <- readUInt8 db off ;;
  b1 <- readUInt8 db (off + 1) ;;
  b2 <- readUInt8 db (off + 2) ;;
  b3 <- readUInt8 db (off + 3) ;;
  Some (b0 + 256 * b1 + 65536 * b2 + 16777216 * b3).

Definition readUInt32BE (db : t) (off : Z) : option Z :=
  b0 <- readUInt8 db off ;;
  b1 <- readUInt8 db (off + 1) ;;
  b2 <- readUInt8 db (off + 2) ;;
  b3 <- readUInt8 db (off + 3) ;;
  Some (16777216 * b0 + 65536 * b1 + 256 * b2 + b3).

Definition readInt32LE (db : t) (off : Z) : option Z :=
  u <- readUInt32LE db off ;; Some (toInt32 u).

Definition readInt32BE (db : t) (off : Z) : option Z :=
  u <- readUInt32BE db off ;; Some (toInt32 u).

(** [db.writeUInt8(value, offset)]: a value that is [undefined] or [null] is
    stored as 0. *)
Definition writeUInt8 (db : t) (value : val) (off : Z) : option t :=
  if (0 <=? off) && (off <? length db)
  then Some (firstn (Z.to_nat off) db
             ++ valInt32 value :: skipn (S (Z.to_nat off)) db)
  else None.

(** [db.slice(start, end)]: the bytes from [start] up to [end], both clamped
    to the buffer. *)
Definition slice (db : t) (start end_ : Z) : t :=
  firstn (Z.to_nat (end_ - Z.max 0 start)) (skipn (Z.to_nat start) db).

(** [db.fill(ab, start, end)] with an array of bytes: the range is filled
    with the bytes of [ab], repeated as often as needed; the range is
    clamped to the buffer. *)
Fixpoint cycle (ab cur : list Z) (n : nat) : list Z :=
  match n with
  | O => []
  | S n' =>
      match cur with
      | b :: cur' => b :: cycle ab cur' n'
      | [] =>
          match ab with
          | b :: ab' => b :: cycle ab ab' n'
          | [] => []
          end
      end
  end.

Definition fill (db : t) (ab : list Z) (start end_ : Z) : t :=
  let s := Z.to_nat (Z.min (Z.max 0 start) (length db)) in
  let e := Z.to_nat (Z.min (Z.max 0 end_) (length db)) in
  firstn s db ++ cycle ab ab (e - s) ++ skipn (Nat.max s e) db.

(** [db.new(cb); db.fill(0)]: a buffer of [cb] zero bytes. *)
Definition zeros (cb : Z) : t := repeat 0 (Z.to_nat cb).

(** [db.write(string, offset, length)]: at most [length] character codes of
    the string are stored from [offset] on, as many as fit. *)
Definition write (db : t) (codes : list Z) (off n : Z) : option t :=
  if (0 <=? off) && (off <=? length db)
  then
    let src := firstn (Z.to_nat (Z.min n (length db - off))) codes in
    Some (firstn (Z.to_nat off) db ++ src
          ++ skipn (Z.to_nat off + List.length src) db)
  else None.

(** [src.copy(target, targetStart)]: the bytes of [src] are stored in
    [target] from [targetStart] on, as many as fit. *)
Definition copy (src target : t) (targetStart : Z) : t :=
  let s := Z.to_nat (Z.min (Z.max 0 targetStart) (length target)) in
  let body := firstn (List.length target - s) src in
  firstn s target ++ body ++ skipn (s + List.length body) target.

(** The bytes of a well-formed buffer are octets. *)
Definition wf (db : t) : Prop := Forall (fun b => 0 <= b < 256) db.

End DataBuffer.

(* ===================================================================== *)
(** * Constants of the class *)
(* ===================================================================== *)

(** CPUx86.OPCODE.JMP and CPUx86.OPCODE.JMPS: cpux86.js is not part of this
    file; the values are the ones the comments of buildDiskFromBuffer give
    (0xE9 is JMP with a 2-byte displacement, 0xEB JMP with a 1-byte one). *)
Module OPCODE.
Definition JMP : Z := 0xE9.
Definition JMPS : Z := 0xEB.
End OPCODE.

Module BOOT.
Definition SIG_OFFSET : Z := 0x1FE.
Definition SIGNATURE : Z := 0xAA55.
End BOOT.

Module BPB.
Definition JMP_OPCODE : Z := 0x000.
Definition OEM_STRING : Z := 0x003.
Definition SECTOR_BYTES : Z := 0x00B.
Definition CLUSTER_SECS : Z := 0x00D.
Definition RESERVED_SECS : Z := 0x00E.
Definition TOTAL_FATS : Z := 0x010.
Definition ROOT_DIRENTS : Z := 0x011.
Definition TOTAL_SECS : Z := 0x013.
Definition MEDIA_ID : Z := 0x015.
Definition FAT_SECS : Z := 0x016.
Definition TRACK_SECS : Z := 0x018.
Definition TOTAL_HEADS : Z := 0x01A.
Definition HIDDEN_SECS : Z := 0x01C.
Definition LARGE_SECS : Z := 0x020.
End BPB.

Module FAT.
Definition MEDIA_160KB : Z := 0xFE.
Definition MEDIA_180KB : Z := 0xFC.
Definition MEDIA_320KB : Z := 0xFF.
Definition MEDIA_360KB : Z := 0xFD.
Definition MEDIA_720KB : Z := 0xF9.
Definition MEDIA_1200KB : Z := 0xF9.
Definition MEDIA_FIXED : Z := 0xF8.
Definition MEDIA_1440KB : Z := 0xF0.
Definition MEDIA_2880KB : Z := 0xF0.
(** The values of the object, in the order [for (let type in DiskImage.FAT)]
    visits them. *)
Definition values : list Z :=
  [MEDIA_160KB; MEDIA_180KB; MEDIA_320KB; MEDIA_360KB; MEDIA_720KB;
   MEDIA_1200KB; MEDIA_FIXED; MEDIA_1440KB; MEDIA_2880KB].
End FAT.

Module FAT12.
Definition MAX_CLUSTERS : Z := 4084.
Definition CLUSNUM_FREE : Z := 0.
Definition CLUSNUM_RES : Z := 1.
Definition CLUSNUM_MIN : Z := 2.
Definition CLUSNUM_MAX : Z := 0xFF6.
Definition CLUSNUM_BAD : Z := 0xFF7.
Definition CLUSNUM_EOC : Z := 0xFF8.
End FAT12.

Module FAT16.
Definition MAX_CLUSTERS : Z := 65524.
Definition CLUSNUM_MAX : Z := 0xFFF6.
Definition CLUSNUM_BAD : Z := 0xFFF7.
Definition CLUSNUM_EOC : Z := 0xFFF8.
End FAT16.

Module DIRENT.
Definition NAME : Z := 0x000.
Definition EXT : Z := 0x008.
Definition ATTR : Z := 0x00B.
Definition MODTIME : Z := 0x016.
Definition MODDATE : Z := 0x018.
Definition CLUSTER : Z := 0x01A.
Definition SIZE : Z := 0x01C.
Definition LENGTH : Z := 0x20.
Definition UNUSED : Z := 0x00.
Definition INVALID : Z := 0xE5.
End DIRENT.

Module ATTR.
Definition READONLY : Z := 0x01.
Definition HIDDEN : Z := 0x02.
Definition SYSTEM : Z := 0x04.
Definition VOLUME : Z := 0x08.
Definition SUBDIR : Z := 0x10.
Definition ARCHIVE : Z := 0x20.
End ATTR.

Module MBR.
Definition PARTITIONS_OFFSET : Z := 0x1BE.
Definition ENTRY_STATUS : Z := 0x00.
Definition ENTRY_TYPE : Z := 0x04.
Definition ENTRY_VBA_FIRST : Z := 0x08.
Definition ENTRY_VBA_TOTAL : Z := 0x0C.
Definition ENTRY_LENGTH : Z := 0x10.
Definition STATUS_ACTIVE : Z := 0x80.
Definition STATUS_INACTIVE : Z := 0x00.
Definition TYPE_EMPTY : Z := 0x00.
Definition TYPE_FAT12_PRIMARY : Z := 0x01.
Definition TYPE_FAT16_PRIMARY : Z := 0x04.
Definition TYPE_EXTENDED : Z := 0x05.
Definition SIG_OFFSET : Z := 0x1FE.
Definition SIGNATURE : Z := 0xAA55.
End MBR.

(** "PCJS.ORG" as character codes. *)
Definition PCJS_OEM : list Z := [0x50; 0x43; 0x4A; 0x53; 0x2E; 0x4F; 0x52; 0x47].

(** The bytes every default BPB starts with: the JMP instruction and the
    OEM signature. *)
Definition bpbHead : list Z := [0xEB; 0xFE; 0x90] ++ PCJS_OEM.

Definition aDefaultBPBs : list (list Z) :=
  [ (* 160Kb diskette *)
    bpbHead ++ [0x00; 0x02; 0x01; 0x01; 0x00; 0x02; 0x40; 0x00; 0x40; 0x01;
                0xFE; 0x01; 0x00; 0x08; 0x00; 0x01; 0x00;
                0x00; 0x00; 0x00; 0x00];
    (* 320Kb diskette *)
    bpbHead ++ [0x00; 0x02; 0x02; 0x01; 0x00; 0x02; 0x70; 0x00; 0x80; 0x02;
                0xFF; 0x01; 0x00; 0x08; 0x00; 0x02; 0x00;
                0x00; 0x00; 0x00; 0x00];
    (* 180Kb diskette *)
    bpbHead ++ [0x00; 0x02; 0x01; 0x01; 0x00; 0x02; 0x40; 0x00; 0x68; 0x01;
                0xFC; 0x02; 0x00; 0x09; 0x00; 0x01; 0x00;
                0x00; 0x00; 0x00; 0x00];
    (* 360Kb diskette *)
    bpbHead ++ [0x00; 0x02; 0x02; 0x01; 0x00; 0x02; 0x70; 0x00; 0xD0; 0x02;
                0xFD; 0x02; 0x00; 0x09; 0x00; 0x02; 0x00;
                0x00; 0x00; 0x00; 0x00];
    (* 1.2Mb diskette *)
    bpbHead ++ [0x00; 0x02; 0x01; 0x01; 0x00; 0x02; 0xE0; 0x00; 0x60; 0x09;
                0xF9; 0x07; 0x00; 0x0f; 0x00; 0x02; 0x00;
                0x00; 0x00; 0x00; 0x00];
    (* 720Kb diskette, 2 sectors/cluster *)
    bpbHead ++ [0x00; 0x02; 0x02; 0x01; 0x00; 0x02; 0x70; 0x00; 0xA0; 0x05;
                0xF9; 0x03; 0x00; 0x09; 0x00; 0x02; 0x00;
                0x00; 0x00; 0x00; 0x00];
    (* 720Kb diskette, 1 sector/cluster *)
    bpbHead ++ [0x00; 0x02; 0x01; 0x01; 0x00; 0x02; 0x70; 0x00; 0xA0; 0x05;
                0xF9; 0x05; 0x00; 0x09; 0x00; 0x02; 0x00;
                0x00; 0x00; 0x00; 0x00];
    (* 1.44Mb diskette *)
    bpbHead ++ [0x00; 0x02; 0x01; 0x01; 0x00; 0x02; 0xE0; 0x00; 0x40; 0x0B;
                0xF0; 0x09; 0x00; 0x12; 0x00; 0x02; 0x00;
                0x00; 0x00; 0x00; 0x00];
    (* 10Mb hard drive *)
    bpbHead ++ [0x00; 0x02; 0x08; 0x01; 0x00; 0x02; 0x00; 0x02; 0x03; 0x51;
                0xF8; 0x08; 0x00; 0x11; 0x00; 0x04; 0x00;
                0x01; 0x00; 0x00; 0x00] ].

(** [DiskImage.aDefaultBPBs[i][off]]; an offset past the template is
    [undefined], which every use turns into 0 (by [|| 0], or because it is
    only compared with bytes that the template has). *)
Definition defaultBPB (i off : Z) : Z :=
  match item aDefaultBPBs i with
  | Some bpb => match item bpb off with Some b => b | None => 0 end
  | None => 0
  end.

(** An entry of DiskImage.GEOMETRIES:
    [# cylinders, # heads, # sectors/track, # bytes/sector, media ID];
    the last two may be omitted. *)
Record Geometry : Type := mkGeometry {
  geoCylinders : Z;
  geoHeads : Z;
  geoSectors : Z;
  geoSectorBytes : val;
  geoMediaID : val
}.

Definition GEOMETRIES : list (Z * Geometry) :=
  [ (163840,   mkGeometry 40 1 8 Undef (Num 0xFE));
    (184320,   mkGeometry 40 1 9 Undef (Num 0xFC));
    (327680,   mkGeometry 40 2 8 Undef (Num 0xFF));
    (368640,   mkGeometry 40 2 9 Undef (Num 0xFD));
    (737280,   mkGeometry 80 2 9 Undef (Num 0xF9));
    (1228800,  mkGeometry 80 2 15 Undef (Num 0xF9));
    (1474560,  mkGeometry 80 2 18 Undef (Num 0xF0));
    (2949120,  mkGeometry 80 2 36 Undef (Num 0xF0));
    (10653696, mkGeometry 306 4 17 Undef Undef);
    (21411840, mkGeometry 615 4 17 Undef Undef);
    (256256,   mkGeometry 77 1 26 (Num 128) Undef);
    (2494464,  mkGeometry 203 2 12 (Num 512) Undef);
    (5242880,  mkGeometry 256 2 40 (Num 256) Undef);
    (10485760, mkGeometry 512 2 40 (Num 256) Undef) ].

(** [DiskImage.GEOMETRIES[cb]] *)
Fixpoint lookupGeometry (tbl : list (Z * Geometry)) (cb : Z) : option Geometry :=
  match tbl with
  | [] => None
  | (k, g) :: tbl' => if k =? cb then Some g else lookupGeometry tbl' cb
  end.

(** [v || dflt] for a number that may be missing: a missing or zero value
    yields the default. *)
Definition orElse (v : val) (dflt : Z) : Z :=
  match v with
  | Undef => dflt
  | Null => dflt
  | Num n => if n =? 0 then dflt else n
  end.

(* ===================================================================== *)
(** * Sectors, volumes and the disk object *)
(* ===================================================================== *)

(** A Sector object.  The fields carry the names of DiskImage.SECTOR; a
    property that may be absent is an [option].  [DATA] is the array of
    32-bit values: when it has fewer than [LENGTH/4] entries the last value
    is repeated. *)
Record Sector : Type := mkSector {
  CYLINDER : Z;                (* 'c' *)
  HEAD : Z;                    (* 'h' *)
  ID : val;                    (* 's' *)
  LENGTH : Z;                  (* 'l' *)
  DATA : list val;             (* 'd' *)
  FILE_INFO : option Z;        (* 'f' *)
  FILE_OFFSET : option Z;      (* 'o' *)
  DATA_CRC : option Z;
  DATA_ERROR : option Z;
  DATA_MARK : option Z;
  HEAD_CRC : option Z;
  HEAD_ERROR : option bool;
  iModify : option Z;
  cModify : option Z
}.

Definition setDATA (sector : Sector) (adw : list val) : Sector :=
  mkSector (CYLINDER sector) (HEAD sector) (ID sector) (LENGTH sector) adw
           (FILE_INFO sector) (FILE_OFFSET sector) (DATA_CRC sector)
           (DATA_ERROR sector) (DATA_MARK sector) (HEAD_CRC sector)
           (HEAD_ERROR sector) (iModify sector) (cModify sector).

Definition setDATA_ERROR (sector : Sector) (e : option Z) : Sector :=
  mkSector (CYLINDER sector) (HEAD sector) (ID sector) (LENGTH sector)
           (DATA sector) (FILE_INFO sector) (FILE_OFFSET sector)
           (DATA_CRC sector) e (DATA_MARK sector) (HEAD_CRC sector)
           (HEAD_ERROR sector) (iModify sector) (cModify sector).

Definition setModify (sector : Sector) (i c : option Z) : Sector :=
  mkSector (CYLINDER sector) (HEAD sector) (ID sector) (LENGTH sector)
           (DATA sector) (FILE_INFO sector) (FILE_OFFSET sector)
           (DATA_CRC sector) (DATA_ERROR sector) (DATA_MARK sector)
           (HEAD_CRC sector) (HEAD_ERROR sector) i c.

(** The disk data: cylinders of heads of tracks.  A track is an array of
    sector objects whose cells may be empty ([None]): [new Array(n)] starts
    with [n] empty cells. *)
Definition Track : Type := list (option Sector).
Definition DiskData : Type := list (list Track).

(** A VolInfo object, with the two FAT cache properties that getClusterEntry
    keeps on it.  A numeric property that has not been assigned yet is 0
    here; buildVolume assigns each one before it reads it. *)
Record VolInfo : Type := mkVolInfo {
  iVolume : Z;
  iPartition : Z;
  idMedia : Z;
  lbaStart : Z;
  lbaTotal : Z;
  nFATBits : Z;
  vbaFAT : Z;
  vbaRoot : Z;
  nEntries : Z;
  vbaData : Z;
  clusSecs : Z;
  clusMax : Z;
  clusBad : Z;
  clusFree : Z;
  clusTotal : Z;
  volSector : Z;               (* vol.cbSector *)
  vbaFATCache : val;
  sectorFATCache : option Sector
}.

(** Modelled from the spec: the FileInfo class lives in fileinfo.js, which is
    not part of this file; a FileInfo is the record the spec's data model
    gives. *)
Record FileInfo : Type := mkFileInfo {
  fileVolume : Z;
  filePath : string;
  fileName : string;
  fileAttr : Z;
  fileSize : Z;
  fileCluster : Z;
  aLBA : list Z
}.

(** The DiskImage object.  The constructor assigns [diskName], [hash],
    [args], [fWritable], [volTable] and [fileTable]; every other property is
    [undefined] until a builder assigns it. *)
Record DiskImage : Type := mkDiskImage {
  diskName : string;
  hash : string;
  fWritable : bool;
  volTable : list VolInfo;
  fileTable : list FileInfo;
  aDiskData : option DiskData;
  cbDiskData : val;
  dwChecksum : val;
  fromJSON : bool;
  nCylinders : val;
  nHeads : val;
  nSectors : val;
  cbSector : val;
  abOrigBPB : list Z;
  fBPBModified : bool;
  fXDFSupport : bool
}.

(** [new DiskImage(device, diskName, fWritable)] *)
Definition constructor (diskName : string) (fWritable : bool) : DiskImage :=
  {| diskName := diskName; hash := "none"; fWritable := fWritable;
     volTable := []; fileTable := [];
     aDiskData := None; cbDiskData := Undef; dwChecksum := Undef;
     fromJSON := false;
     nCylinders := Undef; nHeads := Undef; nSectors := Undef;
     cbSector := Undef; abOrigBPB := []; fBPBModified := false;
     fXDFSupport := false |}.

Definition setChecksum (this : DiskImage) (v : val) : DiskImage :=
  {| diskName := diskName this; hash := hash this;
     fWritable := fWritable this;
     volTable := volTable this; fileTable := fileTable this;
     aDiskData := aDiskData this; cbDiskData := cbDiskData this;
     dwChecksum := v; fromJSON := fromJSON this;
     nCylinders := nCylinders this; nHeads := nHeads this;
     nSectors := nSectors this; cbSector := cbSector this;
     abOrigBPB := abOrigBPB this; fBPBModified := fBPBModified this;
     fXDFSupport := fXDFSupport this |}.

(* ===================================================================== *)
(** * The sector codec: read, initSector, buildSector, rebuildSector *)
(* ===================================================================== *)

(** read(sector, iByte, fCompare): [fCompare] only silences a debug message.
    A [null] sector is [None]. *)
Definition read (sector : option Sector) (iByte : Z) : Z :=
  match sector with
  | None => -1
  | Some sector =>
      if iByte <? LENGTH sector then
        let adw := DATA sector in
        let idw := sar iByte 2 in
        let dw := if idw <? len adw then get adw idw
                  else get adw (len adw - 1) in
        band (sar (valInt32 dw) (shl (band iByte 0x3) 3)) 0xff
      else -1
  end.

(** The first loop of initSector, from index [idw] on for [n] more rounds:
    missing values are filled in and the length [cPrev] of the final run of
    equal values is counted.  The result is the state of [adw], [dwPrev] and
    [cPrev] after the loop. *)
Fixpoint initRun (dwPattern : val) (n : nat) (idw : Z) (adw : list val)
    (dwPrev : val) (cPrev : Z) : list val * val * Z :=
  match n with
  | O => (adw, dwPrev, cPrev)
  | S n' =>
      let dw0 := get adw idw in
      let dw := if isUndef dw0
                then (if negb (isUndef dwPattern) then dwPattern
                      else get adw (len adw - 1))
                else dw0 in
      let adw' := if isUndef dw0 then set adw idw dw else adw in
      if strictEq dwPrev dw
      then initRun dwPattern n' (idw + 1) adw' dwPrev (cPrev + 1)
      else initRun dwPattern n' (idw + 1) adw' dw 0
  end.

(** The checksum loop of initSector over the indices [idw .. idw+n). *)
Fixpoint sumWords (adw : list val) (n : nat) (idw : Z) (dwSum : val) : val :=
  match n with
  | O => dwSum
  | S n' => sumWords adw n' (idw + 1) (add32 dwSum (get adw idw))
  end.

(** initSector(sector, adw, cbSector, dwPattern).  The array [adw] is the
    sector's DATA array (the same object), so the sector returned carries the
    array as the function leaves it. *)
Definition initSector (this : DiskImage) (sector : Sector) (adw : list val)
    (cbSector : Z) (dwPattern : val) : Sector * DiskImage :=
  let cdw := sar cbSector 2 in
  let '(adw1, _, cPrev) := initRun dwPattern (Z.to_nat cdw) 0 adw Null 0 in
  let adw2 := firstn (Z.to_nat (len adw1 - cPrev)) adw1 in
  let cdw' := if len adw2 <? cdw then len adw2 - 1 else len adw2 in
  let dwSum := sumWords adw2 (Z.to_nat cdw') 0 (Num 0) in
  let this' := setChecksum this (add32 (dwChecksum this) dwSum) in
  let sector1 := setDATA sector adw2 in
  let sector2 := if fWritable this
                 then setModify sector1 (Some 0) (Some 0) else sector1 in
  (sector2, this').

(** The loop of buildSector: [n] more values are read, 4 bytes apart from
    offset [ib] on; past the end of the buffer (or without a buffer) the
    value is 0. *)
Fixpoint readWords (db : option DataBuffer.t) (n : nat) (ib : Z)
    : option (list val) :=
  match n with
  | O => Some []
  | S n' =>
      dw <- match db with
            | Some b => if ib <? DataBuffer.length b
                        then DataBuffer.readInt32LE b ib else Some 0
            | None => Some 0
            end ;;
      rest <- readWords db n' (ib + 4) ;;
      Some (Num dw :: rest)
  end.

(** buildSector(iCylinder, iHead, idSector, cbSector, db, ib) *)
Definition buildSector (this : DiskImage) (iCylinder iHead idSector cbSector : Z)
    (db : option DataBuffer.t) (ib : Z) : option (Sector * DiskImage) :=
  let cdw := sar cbSector 2 in
  adw <- readWords db (Z.to_nat cdw) ib ;;
  let sector :=
    {| CYLINDER := iCylinder; HEAD := iHead; ID := Num idSector;
       LENGTH := cbSector; DATA := adw;
       FILE_INFO := None; FILE_OFFSET := None; DATA_CRC := None;
       DATA_ERROR := None; DATA_MARK := None; HEAD_CRC := None;
       HEAD_ERROR := None; iModify := None; cModify := None |} in
  Some (initSector this sector adw cbSector (Num 0)).

(** A sector object as JSON.parse delivers it to rebuildSector: the current
    short property names, the deprecated long ones, and the properties that
    pass through.  An array of data holds numbers and, where the JSON text
    has [null], [Null]. *)
Record JSONSector : Type := mkJSONSector {
  json_c : val;
  json_h : val;
  json_s : val;
  json_l : val;
  json_d : option (list val);
  json_sector : val;
  json_length : val;
  json_data : option (list val);
  json_pattern : val;
  json_dataCRC : option Z;
  json_dataError : option Z;
  json_dataMark : option Z;
  json_headCRC : option Z;
  json_headError : option bool
}.

(** The three groups of rebuildSector that pick the sector ID and the legacy
    pattern, the sector length, and the data array. *)
Definition rebuildID (sector : JSONSector) : val * val :=
  if negb (isUndef (json_s sector)) then (json_s sector, Undef)
  else (json_sector sector, Num (orElse (json_pattern sector) 0)).

Definition rebuildLength (sector : JSONSector) : Z :=
  match json_l sector with
  | Num n => n
  | Undef => orElse (json_length sector) 512
  | Null => orElse (json_length sector) 512
  end.

Definition rebuildData (sector : JSONSector) : list val :=
  match json_d sector with
  | Some a => a
  | None =>
      match json_data sector with
      | None => [snd (rebuildID sector)]
      | Some a => a
      end
  end.

(** rebuildSector(iCylinder, iHead, sector) *)
Definition rebuildSector (this : DiskImage) (iCylinder iHead : Z)
    (sector : JSONSector) : Sector * DiskImage :=
  let '(idSector, dwPattern) := rebuildID sector in
  let cbSector := rebuildLength sector in
  let adw := rebuildData sector in
  let sector' :=
    {| CYLINDER := iCylinder; HEAD := iHead; ID := idSector;
       LENGTH := cbSector; DATA := adw;
       FILE_INFO := None; FILE_OFFSET := None;
       DATA_CRC := json_dataCRC sector; DATA_ERROR := json_dataError sector;
       DATA_MARK := json_dataMark sector; HEAD_CRC := json_headCRC sector;
       HEAD_ERROR := json_headError sector;
       iModify := None; cModify := None |} in
  initSector this sector' adw cbSector dwPattern.

(** write(sector, iByte, b): the result is [Some true], [Some false] or
    [None] for [null], together with the sector as the call leaves it. *)
Fixpoint fillPattern (adw : list val) (dwPattern : val) (n : nat) (i : Z)
    : list val :=
  match n with
  | O => adw
  | S n' => fillPattern (set adw i dwPattern) dwPattern n' (i + 1)
  end.

Definition write (this : DiskImage) (sector : Sector) (iByte b : Z)
    : option bool * Sector :=
  if negb (fWritable this) then (Some false, sector)
  else if iByte <? LENGTH sector then
    if negb (b =? read (Some sector) iByte) then
      let adw := DATA sector in
      let dwPattern := get adw (len adw - 1) in
      let idw := sar iByte 2 in
      let nShift := shl (band iByte 0x3) 3 in
      let adw1 := fillPattern adw dwPattern
                    (Z.to_nat (idw + 1 - len adw)) (len adw) in
      let '(iMod, cMod) :=
        match cModify sector, iModify sector with
        | Some cm, Some im =>
            if cm =? 0 then (Some idw, Some 1)
            else if idw <? im then (Some idw, Some (cm + (im - idw)))
            else if im + cm <=? idw
            then (Some im, Some (cm + (idw - (im + cm) + 1)))
            else (Some im, Some cm)
        | Some cm, None =>
            (* a comparison with [undefined] is false *)
            if cm =? 0 then (Some idw, Some 1) else (None, Some cm)
        | None, _ => (Some idw, Some 1)
        end in
      let dw := bor (band (valInt32 (get adw1 idw)) (bnot (shl 0xff nShift)))
                    (shl b nShift) in
      (Some true, setModify (setDATA sector (set adw1 idw (Num dw))) iMod cMod)
    else (Some true, sector)
  else (None, sector).

(** The value that stands at index [k] of a compressed DATA array: the stored
    value while [k] is inside the array, the last stored value past its end
    ([undefined] when nothing is stored). *)
Definition storedWord (adw : list val) (k : Z) : val :=
  match nth_error adw (Z.to_nat k) with
  | Some w => w
  | None => last adw Undef
  end.



(* ===================================================================== *)
(** * getData *)
(* ===================================================================== *)

(** The buffer of getData while its first loops run: the bytes written so
    far (last one first) and the bytes from the write position [ib] on.
    [dbDisk.writeUInt8(b, ib++)] replaces the byte at the position and moves
    on; at the end of the buffer it throws. *)
Definition Cursor : Type := (list Z * list Z)%type.

Definition cursorWrite (cur : Cursor) (b : Z) : option Cursor :=
  match snd cur with
  | [] => None
  | _ :: rest => Some (b :: fst cur, rest)
  end.

Definition cursorBuffer (cur : Cursor) : DataBuffer.t :=
  rev_append (fst cur) (snd cur).

(** [for (let i = 0; i < n; i++) dbDisk.writeUInt8(this.read(sector, i), ib++)],
    from index [i] on for [k] more rounds. *)
Fixpoint writeSector (sector : Sector) (k : nat) (i : Z) (cur : Cursor)
    : option Cursor :=
  match k with
  | O => Some cur
  | S k' =>
      cur' <- cursorWrite cur (read (Some sector) i) ;;
      writeSector sector k' (i + 1) cur'
  end.

Fixpoint writeTrack (track : Track) (cur : Cursor) : option Cursor :=
  match track with
  | [] => Some cur
  | None :: track' => writeTrack track' cur
  | Some sector :: track' =>
      cur' <- writeSector sector (Z.to_nat (LENGTH sector)) 0 cur ;;
      writeTrack track' cur'
  end.

Fixpoint writeCylinder (cylinder : list Track) (cur : Cursor) : option Cursor :=
  match cylinder with
  | [] => Some cur
  | track :: cylinder' =>
      cur' <- writeTrack track cur ;;
      writeCylinder cylinder' cur'
  end.

Fixpoint writeDisk (aDiskData : DiskData) (cur : Cursor) : option Cursor :=
  match aDiskData with
  | [] => Some cur
  | cylinder :: rest =>
      cur' <- writeCylinder cylinder cur ;;
      writeDisk rest cur'
  end.

(** The second loop of getData:
    [dbDisk.writeUInt8(this.abOrigBPB[i], off + i)] for [i] from [i] on, [k]
    more rounds. *)
Fixpoint restoreBPB (ab : list Z) (off : Z) (k : nat) (i : Z)
    (dbDisk : DataBuffer.t) : option DataBuffer.t :=
  match k with
  | O => Some dbDisk
  | S k' =>
      db' <- DataBuffer.writeUInt8 dbDisk (cell ab (i - BPB.JMP_OPCODE)) (off + i) ;;
      restoreBPB ab off k' (i + 1) db'
  end.

Definition setOrigBPB (this : DiskImage) (ab : list Z) : DiskImage :=
  {| diskName := diskName this; hash := hash this;
     fWritable := fWritable this;
     volTable := volTable this; fileTable := fileTable this;
     aDiskData := aDiskData this; cbDiskData := cbDiskData this;
     dwChecksum := dwChecksum this; fromJSON := fromJSON this;
     nCylinders := nCylinders this; nHeads := nHeads this;
     nSectors := nSectors this; cbSector := cbSector this;
     abOrigBPB := ab; fBPBModified := fBPBModified this;
     fXDFSupport := fXDFSupport this |}.

(** getData(dbDisk): the value returned, the object and the buffer after the
    call.  The assertions are diagnostics of the device and change nothing. *)
Definition getData (this : DiskImage) (dbDisk : DataBuffer.t)
    : option (bool * DiskImage * DataBuffer.t) :=
  match aDiskData this with
  | Some data =>
      cur <- writeDisk data ([], dbDisk) ;;
      let db1 := cursorBuffer cur in
      match abOrigBPB this with
      | off :: ab =>
          db2 <- restoreBPB ab off
                            (Z.to_nat (BPB.LARGE_SECS + 4 - BPB.JMP_OPCODE))
                            BPB.JMP_OPCODE db1 ;;
          Some (true, setOrigBPB this ab, db2)
      | [] => Some (true, this, db1)
      end
  | None => Some (false, this, dbDisk)
  end.


(* ===================================================================== *)
(** * buildDiskFromBuffer *)
(* ===================================================================== *)

Definition setBuildStart (this : DiskImage) : DiskImage :=
  {| diskName := diskName this; hash := hash this;
     fWritable := fWritable this;
     volTable := volTable this; fileTable := fileTable this;
     aDiskData := None; cbDiskData := Num 0;
     dwChecksum := Num 0; fromJSON := false;
     nCylinders := nCylinders this; nHeads := nHeads this;
     nSectors := nSectors this; cbSector := cbSector this;
     abOrigBPB := abOrigBPB this; fBPBModified := fBPBModified this;
     fXDFSupport := fXDFSupport this |}.

Definition setBPBModified (this : DiskImage) (f : bool) : DiskImage :=
  {| diskName := diskName this; hash := hash this;
     fWritable := fWritable this;
     volTable := volTable this; fileTable := fileTable this;
     aDiskData := aDiskData this; cbDiskData := cbDiskData this;
     dwChecksum := dwChecksum this; fromJSON := fromJSON this;
     nCylinders := nCylinders this; nHeads := nHeads this;
     nSectors := nSectors this; cbSector := cbSector this;
     abOrigBPB := abOrigBPB this; fBPBModified := f;
     fXDFSupport := fXDFSupport this |}.

Definition setDiskData (this : DiskImage) (data : option DiskData) : DiskImage :=
  {| diskName := diskName this; hash := hash this;
     fWritable := fWritable this;
     volTable := volTable this; fileTable := fileTable this;
     aDiskData := data; cbDiskData := cbDiskData this;
     dwChecksum := dwChecksum this; fromJSON := fromJSON this;
     nCylinders := nCylinders this; nHeads := nHeads this;
     nSectors := nSectors this; cbSector := cbSector this;
     abOrigBPB := abOrigBPB this; fBPBModified := fBPBModified this;
     fXDFSupport := fXDFSupport this |}.

Definition setHash (this : DiskImage) (h : string) : DiskImage :=
  {| diskName := diskName this; hash := h;
     fWritable := fWritable this;
     volTable := volTable this; fileTable := fileTable this;
     aDiskData := aDiskData this; cbDiskData := cbDiskData this;
     dwChecksum := dwChecksum this; fromJSON := fromJSON this;
     nCylinders := nCylinders this; nHeads := nHeads this;
     nSectors := nSectors this; cbSector := cbSector this;
     abOrigBPB := abOrigBPB this; fBPBModified := fBPBModified this;
     fXDFSupport := fXDFSupport this |}.

(** [this.nCylinders = c], [this.nHeads = h], [this.nSectors = s],
    [this.cbSector = cb] and [this.cbDiskData = n]. *)
Definition setGeometry (this : DiskImage) (c h s cb n : val) : DiskImage :=
  {| diskName := diskName this; hash := hash this;
     fWritable := fWritable this;
     volTable := volTable this; fileTable := fileTable this;
     aDiskData := aDiskData this; cbDiskData := n;
     dwChecksum := dwChecksum this; fromJSON := fromJSON this;
     nCylinders := c; nHeads := h; nSectors := s; cbSector := cb;
     abOrigBPB := abOrigBPB this; fBPBModified := fBPBModified this;
     fXDFSupport := fXDFSupport this |}.

Definition setNCylinders (this : DiskImage) (n : Z) : DiskImage :=
  setGeometry this (Num n) (nHeads this) (nSectors this) (cbSector this)
              (cbDiskData this).

Definition setNHeads (this : DiskImage) (n : Z) : DiskImage :=
  setGeometry this (nCylinders this) (Num n) (nSectors this) (cbSector this)
              (cbDiskData this).

Definition setTrackGeometry (this : DiskImage) (nSec cb : Z) : DiskImage :=
  setGeometry this (nCylinders this) (nHeads this) (Num nSec) (Num cb)
              (cbDiskData this).

(** [this.cbDiskData += n], on the number a builder has put there. *)
Definition addDiskData (this : DiskImage) (n : Z) : DiskImage :=
  setGeometry this (nCylinders this) (nHeads this) (nSectors this)
              (cbSector this)
              (match cbDiskData this with
               | Num m => Num (m + n)
               | Null => Num n
               | Undef => Undef
               end).

(** [if (hash)]: the argument is given and not the empty string. *)
Definition given (hash : option string) : bool :=
  match hash with
  | Some s => negb (String.eqb s "")
  | None => false
  end.

(** The search for an active partition entry,
    [for (offEntry = 0x1BE; offEntry <= 0x1EE; offEntry += 0x10)], [k] more
    rounds; the result is the offset of the boot sector, when an entry is
    active. *)
Fixpoint findActive (dbDisk : DataBuffer.t) (k : nat) (offEntry cbSector : Z)
    : option (option Z) :=
  match k with
  | O => Some None
  | S k' =>
      status <- DataBuffer.readUInt8 dbDisk offEntry ;;
      if 0x80 <=? status then
        lba <- DataBuffer.readUInt32LE dbDisk (offEntry + 0x08) ;;
        total <- DataBuffer.readUInt32LE dbDisk (offEntry + 0x0C) ;;
        Some (Some (lba * cbSector))
      else findActive dbDisk k' (offEntry + 0x10) cbSector
  end.

(** The offset of the boot sector: 0, or for a buffer of 3000000 bytes or
    more that ends its first sector with the signature, the first sector of
    the active partition. *)
Definition bootSectorOffset (dbDisk : DataBuffer.t) : option Z :=
  if 3000000 <=? DataBuffer.length dbDisk then
    wSig <- DataBuffer.readUInt16LE dbDisk BOOT.SIG_OFFSET ;;
    if wSig =? BOOT.SIGNATURE then
      found <- findActive dbDisk 4 0x1BE 512 ;;
      Some (match found with
            | Some off => off
            | None => 0
            end)
    else Some 0
  else Some 0.

(** [dbDisk.readUInt8(off + i)] for [k] values of [i] from [i] on. *)
Fixpoint readBytes (dbDisk : DataBuffer.t) (off : Z) (k : nat) (i : Z)
    : option (list Z) :=
  match k with
  | O => Some []
  | S k' =>
      b <- DataBuffer.readUInt8 dbDisk (off + i) ;;
      rest <- readBytes dbDisk off k' (i + 1) ;;
      Some (b :: rest)
  end.

(** What buildDiskFromBuffer knows about the geometry. *)
Record Shape : Type := mkShape {
  shCylinders : Z;
  shHeads : Z;
  shSectorsPerTrack : Z;
  shSector : Z;                (* cbSector *)
  shMediaID : Z
}.

(** The BPB probe: [fBPBExists], [bMediaIDBPB], the geometry and
    [fXDFOutput]. *)
Definition probeBPB (this : DiskImage) (dbDisk : DataBuffer.t)
    (offBootSector bByte0 cbSectorBPB : Z) (diskFormat : option Geometry)
    (sh : Shape) : option (bool * Z * Shape * bool) :=
  if ((bByte0 =? OPCODE.JMP) || (bByte0 =? OPCODE.JMPS))
     && (cbSectorBPB =? shSector sh)
  then
    nHeadsBPB <- DataBuffer.readUInt16LE dbDisk (offBootSector + BPB.TOTAL_HEADS) ;;
    nSectorsPerTrackBPB <-
      DataBuffer.readUInt16LE dbDisk (offBootSector + BPB.TRACK_SECS) ;;
    if negb (nHeadsBPB =? 0) && negb (nSectorsPerTrackBPB =? 0) then
      bMediaIDBPB <- DataBuffer.readUInt8 dbDisk (offBootSector + BPB.MEDIA_ID) ;;
      nSectorsTotalBPB <-
        DataBuffer.readUInt16LE dbDisk (offBootSector + BPB.TOTAL_SECS) ;;
      nSectorsHiddenBPB <-
        DataBuffer.readUInt16LE dbDisk (offBootSector + BPB.HIDDEN_SECS) ;;
      let sh' :=
        match diskFormat with
        | Some _ => sh        (* the mismatches are only reported *)
        | None =>
            mkShape (divi (DataBuffer.length dbDisk)
                          (nHeadsBPB * nSectorsPerTrackBPB * shSector sh))
                    nHeadsBPB nSectorsPerTrackBPB (shSector sh) bMediaIDBPB
        end in
      Some (true, bMediaIDBPB, sh',
            (nSectorsTotalBPB =? 3680) && fXDFSupport this)
    else Some (false, 0, sh, false)
  else Some (false, 0, sh, false).

(** The search of the table of default BPBs, from entry [i] on: the index of
    the first template with the media ID and the size of the disk (and, when
    the disk has a BPB, its cluster size), or -1. *)
Fixpoint findDefaultBPB (dbDisk : DataBuffer.t) (offBootSector : Z)
    (fBPBExists : bool) (bMediaID cbSector : Z) (k : nat) (i : Z) : option Z :=
  match k with
  | O => Some (-1)
  | S k' =>
      if defaultBPB i BPB.MEDIA_ID =? bMediaID then
        let cbDiskBPB := (defaultBPB i BPB.TOTAL_SECS
                          + defaultBPB i (BPB.TOTAL_SECS + 1) * 0x100)
                         * cbSector in
        if cbDiskBPB =? DataBuffer.length dbDisk then
          if negb fBPBExists then Some i
          else
            b <- DataBuffer.readUInt8 dbDisk (offBootSector + BPB.CLUSTER_SECS) ;;
            if b =? defaultBPB i BPB.CLUSTER_SECS then Some i
            else findDefaultBPB dbDisk offBootSector fBPBExists bMediaID
                                cbSector k' (i + 1)
        else findDefaultBPB dbDisk offBootSector fBPBExists bMediaID cbSector
                            k' (i + 1)
      else findDefaultBPB dbDisk offBootSector fBPBExists bMediaID cbSector
                          k' (i + 1)
  end.

(** The comparison of the BPB with the template [iBPB], for [k] offsets from
    [off] on: [fBPBWarning]. *)
Fixpoint verifyBPB (dbDisk : DataBuffer.t) (offBootSector iBPB : Z) (k : nat)
    (off : Z) (fBPBWarning : bool) : option bool :=
  match k with
  | O => Some fBPBWarning
  | S k' =>
      bActual <- DataBuffer.readUInt8 dbDisk (offBootSector + off) ;;
      let w := if negb (defaultBPB iBPB off =? bActual)
                  && negb (off =? BPB.TOTAL_FATS)
                  && negb (off =? BPB.ROOT_DIRENTS)
               then true else fBPBWarning in
      verifyBPB dbDisk offBootSector iBPB k' (off + 1) w
  end.

(** [dbDisk.writeUInt8(DiskImage.aDefaultBPBs[iBPB][i] || 0, offBootSector + i)]
    for [k] values of [i] from [i] on. *)
Fixpoint writeDefaultBPB (dbDisk : DataBuffer.t) (offBootSector iBPB : Z)
    (k : nat) (i : Z) : option DataBuffer.t :=
  match k with
  | O => Some dbDisk
  | S k' =>
      db' <- DataBuffer.writeUInt8 dbDisk (Num (defaultBPB iBPB i))
                                   (offBootSector + i) ;;
      writeDefaultBPB db' offBootSector iBPB k' (i + 1)
  end.

(** The block [if (iBPB >= 0) { ... }]: the shrinking of the track to the
    logical format, the verification of the BPB and its repair.  The result
    is the media ID, the logical number of sectors per track, the buffer and
    whether the BPB has been updated. *)
Definition repairBPB (dbDisk : DataBuffer.t) (forceBPB : bool)
    (offBootSector bByte0 bByte1 : Z) (fBPBExists : bool)
    (bMediaIDBPB bMediaID nSectorsPerTrack iBPB : Z)
    : option (Z * Z * DataBuffer.t * bool) :=
  if 0 <=? iBPB then
    bMediaIDBPB1 <-
      (if bMediaIDBPB =? 0
       then DataBuffer.readUInt8 dbDisk (offBootSector + 512)
       else Some bMediaIDBPB) ;;
    let shrink :=
      ((2 <=? iBPB) && (bMediaIDBPB1 =? FAT.MEDIA_320KB)
       && (bMediaID =? FAT.MEDIA_360KB))
      || ((bMediaIDBPB1 =? FAT.MEDIA_160KB) && (bMediaID =? FAT.MEDIA_180KB)) in
    let iBPB1 := if shrink then iBPB - 2 else iBPB in
    let bMediaID1 := if shrink then defaultBPB iBPB1 BPB.MEDIA_ID else bMediaID in
    let nLogical := if shrink then defaultBPB iBPB1 BPB.TRACK_SECS
                    else nSectorsPerTrack in
    fBPBWarning <-
      (if fBPBExists
       then verifyBPB dbDisk offBootSector iBPB1
                      (Z.to_nat (BPB.HIDDEN_SECS + 2 - BPB.SECTOR_BYTES))
                      BPB.SECTOR_BYTES false
       else Some false) ;;
    if negb fBPBExists || fBPBWarning then
      if ((bByte0 =? OPCODE.JMPS) && (0x22 <=? bByte1)) || forceBPB then
        let first := if forceBPB then 0 else BPB.SECTOR_BYTES in
        db' <- writeDefaultBPB dbDisk offBootSector iBPB1
                               (Z.to_nat (BPB.LARGE_SECS + 4 - first)) first ;;
        Some (bMediaID1, nLogical, db', true)
      else if (bByte0 =? 0xF6) && (bByte1 =? 0xF6) && (0xF8 <? bMediaIDBPB1) then
        db' <- writeDefaultBPB dbDisk offBootSector iBPB1
                               (Z.to_nat (BPB.LARGE_SECS + 4)) 0 ;;
        Some (bMediaID1, nLogical, db', false)
      else Some (bMediaID1, nLogical, dbDisk, false)
    else Some (bMediaID1, nLogical, dbDisk, false)
  else Some (bMediaID, nSectorsPerTrack, dbDisk, false).

(** The block that overwrites the OEM string: the buffer and whether it has
    been updated. *)
Definition updateOEM (dbDisk : DataBuffer.t) (forceBPB fBPBExists : bool)
    (offBootSector : Z) : option (DataBuffer.t * bool) :=
  sigOK <-
    (if fBPBExists
     then wSig <- DataBuffer.readUInt16LE dbDisk (offBootSector + BOOT.SIG_OFFSET) ;;
          Some (wSig =? BOOT.SIGNATURE)
     else Some false) ;;
  if sigOK || forceBPB then
    dw <- DataBuffer.readInt32BE dbDisk (BPB.OEM_STRING + offBootSector) ;;
    if negb (dw =? 0x50434A53) then
      db' <- DataBuffer.write dbDisk PCJS_OEM (BPB.OEM_STRING + offBootSector)
                              (len PCJS_OEM) ;;
      Some (db', true)
    else Some (dbDisk, false)
  else Some (dbDisk, false).

(** An entry of [aTracks]: sectors per track, bytes per sector, track data. *)
Definition TrackEntry : Type := (Z * Z * DataBuffer.t)%type.

(** The loop over the track table of a DSK header, [k] more tracks from the
    table offset [offTrack] on. *)
Fixpoint readTrackTable (dbDisk : DataBuffer.t) (k : nat) (offTrack : Z)
    : option (list TrackEntry) :=
  match k with
  | O => Some []
  | S k' =>
      nSectorsPerTrack <- DataBuffer.readUInt16LE dbDisk offTrack ;;
      cbSectorDSK <- DataBuffer.readUInt16LE dbDisk (offTrack + 2) ;;
      let cbTrack := nSectorsPerTrack * cbSectorDSK in
      offSector <- DataBuffer.readUInt32LE dbDisk (offTrack + 4) ;;
      let dbTrack := DataBuffer.slice dbDisk offSector (offSector + cbTrack) in
      rest <- readTrackTable dbDisk k' (offTrack + 8) ;;
      Some ((nSectorsPerTrack, cbSectorDSK, dbTrack) :: rest)
  end.

(** The block [if (!nHeads) { ... }] that reads a DSK header: the geometry,
    the logical number of sectors per track and the track table. *)
Definition probeDSK (dbDisk : DataBuffer.t) (offBootSector bByte0 : Z)
    (sh : Shape) (nLogical : Z) : option (Shape * Z * list TrackEntry) :=
  if shHeads sh =? 0 then
    if band bByte0 0xFE =? 0 then
      cbSectorDSK <- DataBuffer.readUInt16LE dbDisk (offBootSector + 0x06) ;;
      if band cbSectorDSK (cbSectorDSK - 1) =? 0 then
        nHeads <- DataBuffer.readUInt8 dbDisk (offBootSector + 0x01) ;;
        nCylinders <- DataBuffer.readUInt16LE dbDisk (offBootSector + 0x02) ;;
        nSectorsPerTrack <- DataBuffer.readUInt16LE dbDisk (offBootSector + 0x04) ;;
        let sh' := mkShape nCylinders nHeads nSectorsPerTrack cbSectorDSK
                           (shMediaID sh) in
        if nSectorsPerTrack * cbSectorDSK =? 0 then
          aTracks <- readTrackTable dbDisk (Z.to_nat (nHeads * nCylinders)) 0x08 ;;
          (* the loop leaves the values of the last track in the variables *)
          let nLast := match last aTracks (nSectorsPerTrack, 0, []) with
                       | (n, _, _) => n
                       end in
          Some (mkShape nCylinders nHeads nLast cbSectorDSK (shMediaID sh),
                nLast, aTracks)
        else Some (sh', nSectorsPerTrack, [])
      else Some (sh, nLogical, [])
    else Some (sh, nLogical, [])
  else Some (sh, nLogical, []).

(** The sizes and IDs of the sectors of an XDF track past cylinder 0. *)
Definition xdfSectorSize (iHead iSector : Z) : Z :=
  if iHead =? 0
  then (if iSector =? 1 then 1024 else if iSector =? 2 then 512
        else if iSector =? 3 then 2048 else 8192)
  else (if iSector =? 1 then 8192 else if iSector =? 2 then 2048
        else if iSector =? 3 then 1024 else 512).

Definition xdfSectorID (cbSectorThisTrack : Z) : Z :=
  if cbSectorThisTrack =? 512 then 2
  else if cbSectorThisTrack =? 1024 then 3
  else if cbSectorThisTrack =? 2048 then 4 else 6.

(** The loop over the sectors of a track, [k] more rounds from sector
    [iSector] at offset [offSector] of the track data: the sectors built,
    the object and [bMediaID] after the loop.  The calls modelled pass no
    sectorIDs, sectorErrors or suppData, so that the blocks applying them do
    nothing. *)
Fixpoint sectorLoop (this : DiskImage) (dbTrack : DataBuffer.t)
    (fXDFOutput : bool) (offBootSector cbSector cbTrack iCylinder iHead : Z)
    (k : nat) (iSector offSector cbSectorThisTrack bMediaID : Z)
    : option (list Sector * DiskImage * Z) :=
  match k with
  | O => Some ([], this, bMediaID)
  | S k' =>
      if offSector <? cbTrack then
        let cbThis := if fXDFOutput && negb (iCylinder =? 0)
                      then xdfSectorSize iHead iSector
                      else cbSectorThisTrack in
        let sectorID := if fXDFOutput && negb (iCylinder =? 0)
                        then xdfSectorID cbThis else iSector in
        let dbSector := DataBuffer.slice dbTrack offSector (offSector + cbThis) in
        bMediaID' <-
          (if negb (bMediaID =? 0) && (iCylinder =? 0) && (iHead =? 0)
              && (iSector =? divi offBootSector cbSector + 2)
           then bFATID <- DataBuffer.readUInt8 dbSector 0 ;; Some 0
           else Some bMediaID) ;;
        built <- buildSector this iCylinder iHead sectorID cbThis
                             (Some dbSector) 0 ;;
        let '(sector, this1) := built in
        let this2 := addDiskData this1 (LENGTH sector) in
        rest <- sectorLoop this2 dbTrack fXDFOutput offBootSector cbSector
                           cbTrack iCylinder iHead k' (iSector + 1)
                           (offSector + cbThis) cbThis bMediaID' ;;
        let '(sectors, this3, bMediaID'') := rest in
        Some (sector :: sectors, this3, bMediaID'')
      else Some ([], this, bMediaID)
  end.

(** [let aSectors = new Array(n)] with the sectors built stored from index 0
    on. *)
Definition trackArray (n : Z) (sectors : list Sector) : Track :=
  map Some sectors ++ repeat None (Z.to_nat n - List.length sectors).

(** The variables that the loop over the heads updates. *)
Record HeadState : Type := mkHeadState {
  hsThis : DiskImage;
  hsMediaID : Z;
  hsTracks : list TrackEntry;  (* aTracks from index iTrack on *)
  hsSectorsPerTrack : Z;
  hsLogical : Z;
  hsSector : Z;                (* cbSector *)
  hsTrack : Z;                 (* cbTrack *)
  hsOffHead : Z
}.

(** The loop over the heads of a cylinder, [k] more rounds from [iHead]. *)
Fixpoint headLoop (dbDisk : DataBuffer.t) (fTable fXDFOutput : bool)
    (offBootSector offTrack iCylinder : Z) (k : nat) (iHead : Z)
    (st : HeadState) : option (list Track * HeadState) :=
  match k with
  | O => Some ([], st)
  | S k' =>
      picked <-
        (if fTable then
           match hsTracks st with
           | (n, cb, dbTrack) :: tracks' =>
               Some (dbTrack, tracks', n, n, cb, n * cb)
           | [] => None
           end
         else
           Some (DataBuffer.slice dbDisk (offTrack + hsOffHead st)
                                  (offTrack + hsOffHead st + hsTrack st),
                 hsTracks st, hsSectorsPerTrack st, hsLogical st,
                 hsSector st, hsTrack st)) ;;
      let '(dbTrack, tracks', nSectorsPerTrack, nLogical, cbSector, cbTrack) :=
        picked in
      let this1 := setTrackGeometry (hsThis st) nLogical cbSector in
      let nSectorsThisTrack :=
        if fXDFOutput then (if iCylinder =? 0 then 19 else 4) else nLogical in
      built <- sectorLoop this1 dbTrack fXDFOutput offBootSector cbSector
                          cbTrack iCylinder iHead
                          (Z.to_nat nSectorsThisTrack) 1 0 cbSector
                          (hsMediaID st) ;;
      let '(sectors, this2, bMediaID) := built in
      rest <- headLoop dbDisk fTable fXDFOutput offBootSector offTrack
                       iCylinder k' (iHead + 1)
                       (mkHeadState this2 bMediaID tracks' nSectorsPerTrack
                                    nLogical cbSector cbTrack
                                    (hsOffHead st + cbTrack)) ;;
      let '(tracks, st') := rest in
      Some (trackArray nLogical sectors :: tracks, st')
  end.

(** The loop over the cylinders, [k] more rounds from [iCylinder], with the
    offset [offTrack] of the cylinder in the buffer. *)
Fixpoint cylinderLoop (dbDisk : DataBuffer.t) (fTable fXDFOutput : bool)
    (offBootSector nHeads : Z) (k : nat) (iCylinder offTrack : Z)
    (st : HeadState) : option (DiskData * HeadState) :=
  match k with
  | O => Some ([], st)
  | S k' =>
      let st0 := mkHeadState (setNHeads (hsThis st) nHeads) (hsMediaID st)
                             (hsTracks st) (hsSectorsPerTrack st)
                             (hsLogical st) (hsSector st) (hsTrack st) 0 in
      heads <- headLoop dbDisk fTable fXDFOutput offBootSector offTrack
                        iCylinder (Z.to_nat nHeads) 0 st0 ;;
      let '(aHeads, st1) := heads in
      rest <- cylinderLoop dbDisk fTable fXDFOutput offBootSector nHeads k'
                           (iCylinder + 1) (offTrack + hsOffHead st1) st1 ;;
      let '(cylinders, st2) := rest in
      Some (aHeads :: cylinders, st2)
  end.

(** buildDiskFromBuffer(dbDisk, hash, forceBPB): the value returned, the
    object and the buffer (which the function may modify) after the call.
    The messages printed are left out. *)
Definition buildDiskFromBuffer (this : DiskImage) (dbDisk : DataBuffer.t)
    (hash : option string) (forceBPB : bool)
    : option (bool * DiskImage * DataBuffer.t) :=
  let this0 := setBuildStart this in
  let cbDiskData := DataBuffer.length dbDisk in
  offBootSector <- bootSectorOffset dbDisk ;;
  bByte0 <- DataBuffer.readUInt8 dbDisk (offBootSector + BPB.JMP_OPCODE) ;;
  bByte1 <- DataBuffer.readUInt8 dbDisk (offBootSector + BPB.JMP_OPCODE + 1) ;;
  cbSectorBPB <- DataBuffer.readUInt16LE dbDisk (offBootSector + BPB.SECTOR_BYTES) ;;
  orig <- readBytes dbDisk offBootSector
                    (Z.to_nat (BPB.LARGE_SECS + 4 - BPB.JMP_OPCODE))
                    BPB.JMP_OPCODE ;;
  let this1 := setBPBModified (setOrigBPB this0 (offBootSector :: orig)) false in
  let diskFormat := lookupGeometry GEOMETRIES cbDiskData in
  let sh0 :=
    match diskFormat with
    | Some g => mkShape (geoCylinders g) (geoHeads g) (geoSectors g)
                        (orElse (geoSectorBytes g) 512)
                        (orElse (geoMediaID g) 0)
    | None => mkShape 0 0 0 512 0
    end in
  probe <- probeBPB this1 dbDisk offBootSector bByte0 cbSectorBPB diskFormat sh0 ;;
  let '(fBPBExists, bMediaIDBPB, sh1, fXDFOutput) := probe in
  iBPB <- (if shMediaID sh1 =? 0 then Some (-1)
           else findDefaultBPB dbDisk offBootSector fBPBExists (shMediaID sh1)
                               (shSector sh1) (List.length aDefaultBPBs) 0) ;;
  repaired <- repairBPB dbDisk forceBPB offBootSector bByte0 bByte1 fBPBExists
                        bMediaIDBPB (shMediaID sh1) (shSectorsPerTrack sh1) iBPB ;;
  let '(bMediaID, nLogical, db1, fUpdated) := repaired in
  let this2 := if fUpdated && given hash then setBPBModified this1 true
               else this1 in
  oem <- updateOEM db1 forceBPB fBPBExists offBootSector ;;
  let '(db2, fOEM) := oem in
  let this3 := if fOEM && given hash then setBPBModified this2 true
               else this2 in
  dsk <- probeDSK db2 offBootSector bByte0
                  (mkShape (shCylinders sh1) (shHeads sh1)
                           (shSectorsPerTrack sh1) (shSector sh1) bMediaID)
                  nLogical ;;
  let '(sh2, nLogical2, aTracks) := dsk in
  if negb (shHeads sh2 =? 0) then
    let this4 := match hash with
                 | Some h => if given hash then setHash this3 h else this3
                 | None => this3
                 end in
    let this5 := setNCylinders this4 (shCylinders sh2) in
    let st := mkHeadState this5 (shMediaID sh2) aTracks
                          (shSectorsPerTrack sh2) nLogical2 (shSector sh2)
                          (shSectorsPerTrack sh2 * shSector sh2) 0 in
    grid <- cylinderLoop db2 (negb (len aTracks =? 0)) fXDFOutput
                         offBootSector (shHeads sh2)
                         (Z.to_nat (shCylinders sh2)) 0 0 st ;;
    let '(data, st') := grid in
    Some (true, setDiskData (hsThis st') (Some data), db2)
  else Some (false, this3, db2).


(* ===================================================================== *)
(** * The builders of the FAT file system *)
(* ===================================================================== *)

(** buildFATEntry(abFAT, iFAT, v): the array after the call.  The array is a
    JS array of numbers that may have cells that are [undefined].  The
    indices are array indices for [0 <= iFAT] with [iFAT * 12 < 2^31]
    (otherwise [iBit >> 3] is negative and names no element). *)
Definition buildFATEntry (abFAT : list val) (iFAT v : Z) : list val :=
  let iBit := iFAT * 12 in
  let iByte := sar iBit 3 in
  if Z.rem iBit 8 =? 0 then
    let ab1 := set abFAT iByte (Num (band v 0xff)) in
    let iByte1 := iByte + 1 in
    let ab2 := if isUndefined (get ab1 iByte1) then set ab1 iByte1 (Num 0)
               else ab1 in
    set ab2 iByte1 (Num (bor (band (valInt32 (get ab2 iByte1)) 0xF0) (sar v 8)))
  else
    let ab1 := if isUndefined (get abFAT iByte) then set abFAT iByte (Num 0)
               else abFAT in
    let ab2 := set ab1 iByte
                   (Num (bor (band (valInt32 (get ab1 iByte)) 0x0F)
                             (shl (band v 0xF) 4))) in
    set ab2 (iByte + 1) (Num (sar v 4)).

(** A Date object, by what its getters return (local time): the getters of an
    invalid date return NaN, those of a valid date the fields.  NaN is written
    [Undef] here: like [undefined] it becomes 0 in a bit operation and makes a
    comparison false. *)
Inductive JSDate : Type :=
| InvalidDate
| ValidDate (fullYear month date hours minutes seconds : Z).

Definition getFullYear (d : JSDate) : val :=
  match d with InvalidDate => Undef | ValidDate y _ _ _ _ _ => Num y end.
Definition getMonth (d : JSDate) : val :=
  match d with InvalidDate => Undef | ValidDate _ m _ _ _ _ => Num m end.
Definition getDate (d : JSDate) : val :=
  match d with InvalidDate => Undef | ValidDate _ _ d _ _ _ => Num d end.
Definition getHours (d : JSDate) : val :=
  match d with InvalidDate => Undef | ValidDate _ _ _ h _ _ => Num h end.
Definition getMinutes (d : JSDate) : val :=
  match d with InvalidDate => Undef | ValidDate _ _ _ _ m _ => Num m end.
Definition getSeconds (d : JSDate) : val :=
  match d with InvalidDate => Undef | ValidDate _ _ _ _ _ s => Num s end.

(** [v + n] and [v < n], [v > n] for a number [v] that may be NaN; [null]
    counts as 0. *)
Definition addVal (v : val) (n : Z) : val :=
  match v with Num x => Num (x + n) | Null => Num n | Undef => Undef end.
Definition valLt (v : val) (n : Z) : bool :=
  match v with Num x => x <? n | Null => 0 <? n | Undef => false end.
Definition valGt (v : val) (n : Z) : bool :=
  match v with Num x => n <? x | Null => n <? 0 | Undef => false end.

(** buildDateTime(dateMod): the time in bits 0-15 and the date in bits 16-31,
    as a signed 32-bit number. *)
Definition buildDateTime (dateMod : JSDate) : Z :=
  let year := getFullYear dateMod in
  let month := addVal (getMonth dateMod) 1 in
  let day := getDate dateMod in
  let time := bor (bor (shl (band (valInt32 (getHours dateMod)) 0x1F) 11)
                       (shl (band (valInt32 (getMinutes dateMod)) 0x3F) 5))
                  (band (sar (valInt32 (getSeconds dateMod)) 1) 0x1F) in
  let '(year, month, day, time) :=
    if valLt year 1980 then (Num 1980, Num 1, Num 1, 1)
    else if valGt year 2099 then (Num 2099, Num 12, Num 31, 1)
    else (year, month, day, time) in
  let date := bor (bor (shl (band (valInt32 (addVal year (- 1980))) 0x7F) 9)
                       (shl (valInt32 month) 5))
                  (valInt32 day) in
  bor (shl (band date 0xffff) 16) (band time 0xffff).


(* ===================================================================== *)
(** * Access to the sectors of an image *)
(* ===================================================================== *)

(** [sector[ID] == idSector] for a number [idSector]. *)
Definition idEq (id : val) (idSector : Z) : bool :=
  match id with
  | Num n => n =? idSector
  | Null => false
  | Undef => false
  end.

(** The loop of seek over the track: the first sector with the ID. *)
Fixpoint findSector (track : Track) (idSector : Z) : option Sector :=
  match track with
  | [] => None
  | Some sector :: track' =>
      if idEq (ID sector) idSector then Some sector
      else findSector track' idSector
  | None :: track' => findSector track' idSector
  end.

(** seek(iCylinder, iHead, idSector), called as getSector calls it, without a
    previous sector and without a callback: the sector, or [None] for
    [null].  The property [this.drive] is assigned nowhere in the class, so
    that [drive] is [undefined] and the blocks that reformat a track while
    the drive is formatting are skipped.  Without disk data (before a build,
    or after one that failed) the access to [this.aDiskData[iCylinder]]
    throws. *)
Definition seek (this : DiskImage) (iCylinder iHead idSector : Z)
    : option (option Sector) :=
  data <- aDiskData this ;;
  Some (match item data iCylinder with
        | Some cylinder =>
            match item cylinder iHead with
            | Some track => findSector track idSector
            | None => None
            end
        | None => None
        end).

(** [a < v] for a property [v] that may be [undefined]; [null] counts
    as 0. *)
Definition ltVal (a : Z) (v : val) : bool :=
  match v with
  | Num n => a <? n
  | Null => a <? 0
  | Undef => false
  end.

(** getSector(lba).  When [nHeads * nSectors] is NaN or 0, the cylinder
    [(lba / nSectorsPerCylinder) | 0] is 0 and the sector number is NaN, which
    is the ID of no sector: seek(0, 0, NaN) finds nothing.  (A quotient of
    integers below 2^53 is truncated exactly.) *)
Definition getSector (this : DiskImage) (lba : Z) : option (option Sector) :=
  let unnumbered :=
    if ltVal 0 (nCylinders this)
    then data <- aDiskData this ;; Some None
    else Some None in
  match nHeads this, nSectors this with
  | Num h, Num s =>
      let nSectorsPerCylinder := h * s in
      if nSectorsPerCylinder =? 0 then unnumbered
      else
        let iCylinder := divi lba nSectorsPerCylinder in
        if ltVal iCylinder (nCylinders this) then
          let nSectorsRemaining := Z.rem lba nSectorsPerCylinder in
          let iHead := divi nSectorsRemaining s in
          let iSector := Z.rem nSectorsRemaining s + 1 in
          seek this iCylinder iHead iSector
        else Some None
  | _, _ => unnumbered
  end.

(** The loop [while (len--)] of getSectorData, at most [n] more rounds; it
    ends early when read returns -1. *)
Fixpoint sectorDataLoop (sector : Sector) (n : nat) (off dw nShift : Z) : Z :=
  match n with
  | O => dw
  | S n' =>
      let b := read (Some sector) off in
      if b <? 0 then dw
      else sectorDataLoop sector n' (off + 1) (bor dw (shl b nShift))
                          (nShift + 8)
  end.

(** getSectorData(sector, off, len).  The callers pass 1 to 4 for [len]; with
    a negative [len] the loop runs until read returns -1, at the end of the
    sector. *)
Definition getSectorData (sector : Sector) (off len : Z) : Z :=
  let rounds := if len <? 0 then Z.max 0 (LENGTH sector - off) + 1 else len in
  sectorDataLoop sector (Z.to_nat rounds) off 0 0.

(** [!v] for a property that may be [undefined] *)
Definition falsy (v : val) : bool :=
  match v with
  | Num n => n =? 0
  | Null => true
  | Undef => true
  end.

Definition setFATCache (vol : VolInfo) (vba : val) (sector : option Sector)
    : VolInfo :=
  mkVolInfo (iVolume vol) (iPartition vol) (idMedia vol) (lbaStart vol)
            (lbaTotal vol) (nFATBits vol) (vbaFAT vol) (vbaRoot vol)
            (nEntries vol) (vbaData vol) (clusSecs vol) (clusMax vol)
            (clusBad vol) (clusFree vol) (clusTotal vol) (volSector vol)
            vba sector.

(** getClusterEntry(vol, cluster, iByte): the value returned and the volume
    with the FAT sector it has cached. *)
Definition getClusterEntry (this : DiskImage) (vol : VolInfo)
    (cluster iByte : Z) : option (Z * VolInfo) :=
  let cbitsSector := volSector vol * 8 in
  let offBits := nFATBits vol * cluster + (if iByte =? 0 then 0 else 8) in
  let iSector := divi offBits cbitsSector in
  vol1 <-
    (if match sectorFATCache vol with Some _ => false | None => true end
        || falsy (vbaFATCache vol)
        || negb (idEq (vbaFATCache vol) (vbaFAT vol + iSector))
     then
       sector <- getSector this (lbaStart vol + (vbaFAT vol + iSector)) ;;
       Some (setFATCache vol (Num (vbaFAT vol + iSector)) sector)
     else Some vol) ;;
  match sectorFATCache vol1 with
  | Some sector =>
      (* [offBits % 0] is NaN, and [NaN | 0] is 0 *)
      let offBits1 := if cbitsSector =? 0 then 0
                      else toInt32 (Z.rem offBits cbitsSector) in
      let off := sar offBits1 3 in
      let w := getSectorData sector off 1 in
      let w' :=
        if iByte =? 0 then
          (if negb (band offBits1 0x7 =? 0) then sar w 4 else w)
        else if nFATBits vol =? 16 then shl w 8
        else if negb (band offBits1 0x7 =? 0) then shl w 4
        else shl (band w 0xf) 8 in
      Some (w', vol1)
  | None => Some (0, vol1)
  end.


(* ===================================================================== *)
(** * Files to be stored in a new image *)
(* ===================================================================== *)

(** A FileData object, by the properties that the builders read or assign:
    [size] is negative for a subdirectory, whose entries are in [files];
    [cluster] is assigned by buildFAT.  The objects form a tree: no object is
    in two arrays. *)
#[warnings="-register-all"] Inductive FileData : Type :=
| mkFileData (name : list Z) (attr : val) (size : Z) (date : option JSDate)
             (cluster : val) (files : list FileData) (data : DataBuffer.t).

Definition fdName (f : FileData) : list Z :=
  match f with mkFileData n _ _ _ _ _ _ => n end.
Definition fdAttr (f : FileData) : val :=
  match f with mkFileData _ a _ _ _ _ _ => a end.
Definition fdSize (f : FileData) : Z :=
  match f with mkFileData _ _ s _ _ _ _ => s end.
Definition fdDate (f : FileData) : option JSDate :=
  match f with mkFileData _ _ _ d _ _ _ => d end.
Definition fdCluster (f : FileData) : val :=
  match f with mkFileData _ _ _ _ c _ _ => c end.
Definition fdFiles (f : FileData) : list FileData :=
  match f with mkFileData _ _ _ _ _ l _ => l end.
Definition fdData (f : FileData) : DataBuffer.t :=
  match f with mkFileData _ _ _ _ _ _ d => d end.

(** [file.cluster = c] *)
Definition setCluster (f : FileData) (c : val) : FileData :=
  match f with mkFileData n a s d _ l b => mkFileData n a s d c l b end.

(** The object [f] with the objects of [file.files] in the state [l]. *)
Definition setFiles (f : FileData) (l : list FileData) : FileData :=
  match f with mkFileData n a s d c _ b => mkFileData n a s d c l b end.

(** The loop of calcFileSizes, from [cbTotal] on; [below file] is the
    recursive call on [file.files]. *)
Definition calcFileSizesLoop (below : FileData -> Z) (cbCluster : Z)
    : list FileData -> Z -> Z :=
  fix loop (aFileData : list FileData) (cbTotal : Z) : Z :=
    match aFileData with
    | [] => cbTotal
    | file :: rest =>
        let cb := fdSize file in
        let '(cb, cbSubTotal) :=
          if cb <? 0 then ((len (fdFiles file) + 2) * 32, below file)
          else (cb, 0) in
        let cbTotal := cbTotal + cb in
        let cb := Z.rem cb cbCluster in
        let cbTotal := if cb =? 0 then cbTotal else cbTotal + (cbCluster - cb) in
        loop rest (cbTotal + cbSubTotal)
    end.

(** [(cSectorsPerCluster || 1) * 512] *)
Definition clusterBytes (cSectorsPerCluster : val) : Z :=
  match cSectorsPerCluster with
  | Num n => if n =? 0 then 1 else n
  | Null => 1
  | Undef => 1
  end * 512.

(** calcFileSizes(file.files, cSectorsPerCluster) *)
Fixpoint calcFileSizesBelow (cSectorsPerCluster : val) (file : FileData) : Z :=
  match file with
  | mkFileData _ _ _ _ _ files _ =>
      calcFileSizesLoop (calcFileSizesBelow cSectorsPerCluster)
                        (clusterBytes cSectorsPerCluster) files 0
  end.

(** calcFileSizes(aFileData, cSectorsPerCluster); [Undef] stands for an
    argument that is left out. *)
Definition calcFileSizes (aFileData : list FileData) (cSectorsPerCluster : val)
    : Z :=
  calcFileSizesLoop (calcFileSizesBelow cSectorsPerCluster)
                    (clusterBytes cSectorsPerCluster) aFileData 0.

(** The loop [while (cFileClusters-- > 0)] of buildFAT: the array and
    [iCluster] after it. *)
Fixpoint chainLoop (cFileClusters : nat) (abFAT : list val) (iCluster : Z)
    : list val * Z :=
  match cFileClusters with
  | O => (abFAT, iCluster)
  | S more =>
      let iNextCluster := match more with O => 0xFFF | S _ => iCluster + 1 end in
      chainLoop more (buildFATEntry abFAT iCluster iNextCluster) (iCluster + 1)
  end.

(** One round of the first loop of buildFAT: the file with its cluster
    assigned, the array, [iCluster] and [cSubDirs] after it. *)
Definition assignClusters (cbCluster : Z) (file : FileData) (abFAT : list val)
    (iCluster cSubDirs : Z) : FileData * list val * Z * Z :=
  let cb := fdSize file in
  let '(cb, cSubDirs) :=
    if cb <? 0 then ((len (fdFiles file) + 2) * 32, cSubDirs + 1)
    else (cb, cSubDirs) in
  let cFileClusters := divi (cb + cbCluster - 1) cbCluster in
  if cFileClusters =? 0 then (setCluster file (Num 0), abFAT, iCluster, cSubDirs)
  else
    let '(abFAT1, iCluster1) :=
      chainLoop (Z.to_nat cFileClusters) abFAT iCluster in
    (setCluster file (Num iCluster), abFAT1, iCluster1, cSubDirs).

(** The first loop of buildFAT. *)
Fixpoint assignLoop (cbCluster : Z) (aFileData : list FileData)
    (abFAT : list val) (iCluster cSubDirs : Z)
    : list FileData * list val * Z * Z :=
  match aFileData with
  | [] => ([], abFAT, iCluster, cSubDirs)
  | file :: rest =>
      let '(file1, abFAT1, iCluster1, cSubDirs1) :=
        assignClusters cbCluster file abFAT iCluster cSubDirs in
      let '(rest1, abFAT2, iCluster2, cSubDirs2) :=
        assignLoop cbCluster rest abFAT1 iCluster1 cSubDirs1 in
      (file1 :: rest1, abFAT2, iCluster2, cSubDirs2)
  end.

(** The second loop of buildFAT over the files, which the first loop left in
    the state [assigned]; [below file abFAT iCluster] is the recursive call
    on [file.files].  (The first loop assigns [cluster] only, so the sizes
    and the [files] arrays are those of [aFileData].) *)
Definition subdirLoop
    (below : FileData -> list val -> Z -> FileData * list val * Z)
    : list FileData -> list FileData -> list val -> Z
      -> list FileData * list val * Z :=
  fix loop (aFileData assigned : list FileData) (abFAT : list val)
      (iCluster : Z) : list FileData * list val * Z :=
    match aFileData, assigned with
    | file :: rest, file1 :: rest1 =>
        let '(file2, abFAT1, iCluster1) :=
          if fdSize file <? 0 then
            let '(file', ab, i) := below file abFAT iCluster in
            (setFiles file1 (fdFiles file'), ab, i)
          else (file1, abFAT, iCluster) in
        let '(rest2, abFAT2, iCluster2) := loop rest rest1 abFAT1 iCluster1 in
        (file2 :: rest2, abFAT2, iCluster2)
    | _, _ => ([], abFAT, iCluster)
    end.

(** The body of buildFAT. *)
Definition buildFATLoops
    (below : FileData -> list val -> Z -> FileData * list val * Z)
    (cbCluster : Z) (aFileData : list FileData) (abFAT : list val)
    (iCluster : Z) : list FileData * list val * Z :=
  let '(assigned, abFAT1, iCluster1, cSubDirs) :=
    assignLoop cbCluster aFileData abFAT iCluster 0 in
  if cSubDirs =? 0 then (assigned, abFAT1, iCluster1)
  else subdirLoop below aFileData assigned abFAT1 iCluster1.

(** buildFAT(abFAT, file.files, iCluster, cbCluster): the object [file], the
    array and the result after the call. *)
Fixpoint buildFATBelow (cbCluster : Z) (file : FileData) (abFAT : list val)
    (iCluster : Z) {struct file} : FileData * list val * Z :=
  match file with
  | mkFileData n a s d c files b =>
      let '(files', abFAT', iCluster') :=
        buildFATLoops (buildFATBelow cbCluster) cbCluster files abFAT iCluster in
      (mkFileData n a s d c files' b, abFAT', iCluster')
  end.

(** buildFAT(abFAT, aFileData, iCluster, cbCluster): the files, the array and
    the result after the call. *)
Definition buildFAT (abFAT : list val) (aFileData : list FileData)
    (iCluster cbCluster : Z) : list FileData * list val * Z :=
  buildFATLoops (buildFATBelow cbCluster) cbCluster aFileData abFAT iCluster.


(* ===================================================================== *)
(** * Directories and the data area of a new image *)
(* ===================================================================== *)

(** JS strings as lists of code units, for strings of code units below 256
    (trim removes other code units as well); toUpperCase is for characters
    below 128 (of other characters it may make other or more code units). *)
Module Str.

(** The code units of a string literal. *)
Definition codes (s : string) : list Z :=
  map (fun a => Z.of_N (N_of_ascii a)) (list_ascii_of_string s).

(** [s.toUpperCase()] *)
Definition toUpperCase (s : list Z) : list Z :=
  map (fun c => if (97 <=? c) && (c <=? 122) then c - 32 else c) s.

Fixpoint indexFrom (s : list Z) (c i : Z) : Z :=
  match s with
  | [] => -1
  | x :: s' => if x =? c then i else indexFrom s' c (i + 1)
  end.

(** [s.indexOf(c)] for a string [c] of one character *)
Definition indexOf (s : list Z) (c : Z) : Z := indexFrom s c 0.

(** [s.lastIndexOf(c)] for a string [c] of one character *)
Definition lastIndexOf (s : list Z) (c : Z) : Z :=
  let r := indexOf (rev s) c in
  if r <? 0 then -1 else len s - 1 - r.

(** [s.substr(start)] for [0 <= start] *)
Definition substrFrom (s : list Z) (start : Z) : list Z :=
  skipn (Z.to_nat start) s.

(** [s.substr(start, length)] for [0 <= start] *)
Definition substr (s : list Z) (start length : Z) : list Z :=
  firstn (Z.to_nat length) (skipn (Z.to_nat start) s).

(** White space and line terminators below 256. *)
Definition isSpace (c : Z) : bool :=
  ((9 <=? c) && (c <=? 13)) || (c =? 32) || (c =? 160).

Fixpoint trimStart (s : list Z) : list Z :=
  match s with
  | [] => []
  | x :: s' => if isSpace x then trimStart s' else s
  end.

(** [s.trim()] *)
Definition trim (s : list Z) : list Z :=
  rev (trimStart (rev (trimStart s))).

(** [s.charCodeAt(i)] for [0 <= i < s.length] *)
Definition charCodeAt (s : list Z) (i : Z) : Z := nth (Z.to_nat i) s 0.

End Str.

(** The characters that buildShortName keeps. *)
Definition shortNameChars : list Z :=
  Str.codes "ABCDEFGHIJKLMNOPQRSTUVWXYZ0123456789!#$%&'()-@^_`{}~".

(** The last loop of buildShortName, from index [i] on: a character that is
    not at [iPeriod] and not one of [shortNameChars] becomes '_'. *)
Fixpoint replaceLoop (sName : list Z) (i iPeriod : Z) : list Z :=
  match sName with
  | [] => []
  | ch :: rest =>
      (if i =? iPeriod then ch
       else if Str.indexOf shortNameChars ch <? 0 then 95 else ch)
        :: replaceLoop rest (i + 1) iPeriod
  end.

(** buildShortName(sFile, fLabel) *)
Definition buildShortName (sFile : list Z) (fLabel : bool) : list Z :=
  let sName := Str.toUpperCase sFile in
  let iExt := Str.lastIndexOf sName 46 in
  let '(sName, sExt) :=
    if 0 <=? iExt then (Str.substr sName 0 iExt, Str.substrFrom sName (iExt + 1))
    else if fLabel && (8 <? len sName) then (sName, Str.substrFrom sName 8)
    else (sName, []) in
  let sName := Str.trim (Str.substr sName 0 8) in
  let sExt := Str.trim (Str.substr sExt 0 3) in
  let '(iPeriod, sName) :=
    match sExt with
    | [] => (-1, sName)
    | _ :: _ => (len sName, sName ++ [46] ++ sExt)
    end in
  replaceLoop sName 0 iPeriod.

(** The loops [for (i = 0; i < n; i++) ab[off++] = (i < s.length?
    s.charCodeAt(i) : 0x20)] of buildDirEntry, from [i] on with [count]
    rounds left: the array and [off] after them. *)
Fixpoint nameLoop (count : nat) (s : list Z) (i : Z) (ab : list val) (off : Z)
    : list val * Z :=
  match count with
  | O => (ab, off)
  | S more =>
      nameLoop more s (i + 1)
               (set ab off (Num (if i <? len s then Str.charCodeAt s i
                                 else 0x20)))
               (off + 1)
  end.

(** buildDirEntry(ab, off, sName, cbFile, bAttr, dateMod, iCluster): the
    array after the call and the result.  [dateMod] is [None] for [null] and
    [undefined]. *)
Definition buildDirEntry (ab : list val) (off : Z) (sName : list Z)
    (cbFile : Z) (bAttr : val) (dateMod : option JSDate) (iCluster : val)
    : list val * Z :=
  let offDir := off in
  let i := Str.indexOf sName 46 in
  let '(sName, sExt) :=
    if 0 <? i then (Str.substr sName 0 i, Str.substrFrom sName (i + 1))
    else (sName, []) in
  let '(ab, off) := nameLoop 8 sName 0 ab off in
  let '(ab, off) := nameLoop 3 sExt 0 ab off in
  let ab := set ab off bAttr in
  let off := off + 1 in
  let off := off + 10 in
  let '(ab, off) :=
    match dateMod with
    | Some dateMod =>
        let dateTime := buildDateTime dateMod in
        let ab := set ab off (Num (band dateTime 0xff)) in
        let ab := set ab (off + 1) (Num (band (sar dateTime 8) 0xff)) in
        let dateTime := sar dateTime 16 in
        let ab := set ab (off + 2) (Num (band dateTime 0xff)) in
        let ab := set ab (off + 3) (Num (band (sar dateTime 8) 0xff)) in
        (ab, off + 4)
    | None =>
        let ab := set ab off (Num 0) in
        let ab := set ab (off + 1) (Num 0) in
        let ab := set ab (off + 2) (Num 0) in
        let ab := set ab (off + 3) (Num 0) in
        (ab, off + 4)
    end in
  let ab := set ab off (Num (band (valInt32 iCluster) 0xff)) in
  let ab := set ab (off + 1) (Num (band (sar (valInt32 iCluster) 8) 0xff)) in
  let off := off + 2 in
  let cbFile := if cbFile <? 0 then 0 else cbFile in
  let ab := set ab off (Num (band cbFile 0xff)) in
  let ab := set ab (off + 1) (Num (band (sar cbFile 8) 0xff)) in
  let ab := set ab (off + 2) (Num (band (sar cbFile 16) 0xff)) in
  let ab := set ab (off + 3) (Num (band (sar cbFile 24) 0xff)) in
  let off := off + 4 in
  (ab, off - offDir).

(** [v >= 0] for a number or [undefined]; [null] counts as 0 *)
Definition geZero (v : val) : bool :=
  match v with
  | Num n => 0 <=? n
  | Null => true
  | Undef => false
  end.

(** The loop of buildDir: the array, [offDir] and [cEntries] after it.  A
    file without a cluster is skipped. *)
Fixpoint dirLoop (aFileData : list FileData) (abDir : list val)
    (offDir cEntries : Z) : list val * Z * Z :=
  match aFileData with
  | [] => (abDir, offDir, cEntries)
  | file :: rest =>
      if isUndefined (fdCluster file) then dirLoop rest abDir offDir cEntries
      else
        let name :=
          buildShortName (fdName file)
                         (negb (band (valInt32 (fdAttr file)) ATTR.VOLUME =? 0)) in
        let '(abDir, cb) :=
          buildDirEntry abDir offDir name (fdSize file) (fdAttr file)
                        (fdDate file) (fdCluster file) in
        dirLoop rest abDir (offDir + cb) (cEntries + 1)
  end.

(** buildDir(abDir, aFileData, dateMod, iCluster, iParentCluster): the array
    after the call and the result.  [Undef] stands for a cluster that is
    left out. *)
Definition buildDir (abDir : list val) (aFileData : list FileData)
    (dateMod : option JSDate) (iCluster iParentCluster : val)
    : list val * Z :=
  let iCluster := if isUndefined iCluster then Num (-1) else iCluster in
  let iParentCluster :=
    if isUndefined iParentCluster then Num (-1) else iParentCluster in
  let offDir := 0 in
  let cEntries := 0 in
  let '(abDir, offDir, cEntries) :=
    if geZero iCluster then
      let '(abDir, cb1) :=
        buildDirEntry abDir offDir (Str.codes ".") 0 (Num ATTR.SUBDIR) dateMod
                      iCluster in
      let offDir := offDir + cb1 in
      let '(abDir, cb2) :=
        buildDirEntry abDir offDir (Str.codes "..") 0 (Num ATTR.SUBDIR) dateMod
                      iParentCluster in
      (abDir, offDir + cb2, cEntries + 2)
    else (abDir, offDir, cEntries) in
  let '(abDir, _, cEntries) := dirLoop aFileData abDir offDir cEntries in
  (abDir, cEntries).

(** The calls that buildClusters makes on the buffers of the files: the
    buffer of a subdirectory is made anew with [cbData] bytes and filled
    from the array [abData], and the buffer of a file is copied into the
    buffer of the disk at [offDisk]. *)
Inductive BufferCall : Type :=
| callNewFill (file : FileData) (cbData : Z) (abData : list val)
| callCopy (file : FileData) (offDisk : Z).

(** One round of the first loop of buildClusters: the calls it makes, and
    [offDisk], [cClusters] and [cSubDirs] after it.  ([cbData % cbCluster] is
    NaN for a cluster size of 0, which counts as false.) *)
Definition clusterRound (file : FileData) (offDisk cbCluster : Z)
    (iParentCluster : val) (cClusters cSubDirs : Z)
    : list BufferCall * Z * Z * Z :=
  let cbData := fdSize file in
  let '(calls1, cbData, cSubDirs) :=
    if 0 <? cbData then ([], cbData, cSubDirs)
    else if cbData <? 0 then
      let '(abData, cEntries) :=
        buildDir [] (fdFiles file) (fdDate file) (fdCluster file)
                 iParentCluster in
      let cbData := cEntries * 32 in
      ([callNewFill file cbData abData], cbData, cSubDirs + 1)
    else ([], cbData, cSubDirs) in
  let calls2 := if cbData =? 0 then [] else [callCopy file offDisk] in
  let offDisk := offDisk + cbData in
  let cClusters := cClusters + divi cbData cbCluster in
  let cbPartial := if cbCluster =? 0 then 0 else Z.rem cbData cbCluster in
  if cbPartial =? 0 then (calls1 ++ calls2, offDisk, cClusters, cSubDirs)
  else (calls1 ++ calls2, offDisk + (cbCluster - cbPartial), cClusters + 1,
        cSubDirs).

(** The first loop of buildClusters. *)
Fixpoint clusterLoop (aFileData : list FileData) (offDisk cbCluster : Z)
    (iParentCluster : val) (cClusters cSubDirs : Z)
    : list BufferCall * Z * Z * Z :=
  match aFileData with
  | [] => ([], offDisk, cClusters, cSubDirs)
  | file :: rest =>
      let '(calls1, offDisk, cClusters, cSubDirs) :=
        clusterRound file offDisk cbCluster iParentCluster cClusters cSubDirs in
      let '(calls2, offDisk, cClusters, cSubDirs) :=
        clusterLoop rest offDisk cbCluster iParentCluster cClusters cSubDirs in
      (calls1 ++ calls2, offDisk, cClusters, cSubDirs)
  end.

(** The second loop of buildClusters; [below file offDisk] is the recursive
    call on [file.files]. *)
Definition subClusterLoop (below : FileData -> Z -> list BufferCall * Z)
    (cbCluster : Z) : list FileData -> Z -> Z -> list BufferCall * Z * Z :=
  fix loop (aFileData : list FileData) (offDisk cClusters : Z)
      : list BufferCall * Z * Z :=
    match aFileData with
    | [] => ([], offDisk, cClusters)
    | file :: rest =>
        if fdSize file <? 0 then
          let '(calls1, cSubClusters) := below file offDisk in
          let '(calls2, offDisk, cClusters) :=
            loop rest (offDisk + cSubClusters * cbCluster)
                 (cClusters + cSubClusters) in
          (calls1 ++ calls2, offDisk, cClusters)
        else loop rest offDisk cClusters
    end.

(** The body of buildClusters. *)
Definition buildClustersLoops (below : FileData -> Z -> list BufferCall * Z)
    (aFileData : list FileData) (offDisk cbCluster : Z) (iParentCluster : val)
    : list BufferCall * Z :=
  let '(calls1, offDisk, cClusters, cSubDirs) :=
    clusterLoop aFileData offDisk cbCluster iParentCluster 0 0 in
  if 0 <? cSubDirs then
    let '(calls2, _, cClusters) :=
      subClusterLoop below cbCluster aFileData offDisk cClusters in
    (calls1 ++ calls2, cClusters)
  else (calls1, cClusters).

(** buildClusters(dbDisk, file.files, offDisk, cbCluster, file.cluster,
    iLevel): the calls on the buffers and the result. *)
Fixpoint buildClustersBelow (cbCluster : Z) (file : FileData) (offDisk : Z)
    {struct file} : list BufferCall * Z :=
  match file with
  | mkFileData _ _ _ _ cluster files _ =>
      buildClustersLoops (buildClustersBelow cbCluster) files offDisk cbCluster
                         cluster
  end.

(** buildClusters(dbDisk, aFileData, offDisk, cbCluster, iParentCluster,
    iLevel): the calls on the buffers of the files, with [dbDisk] as the
    target of the copies, and the result.  [iLevel] is handed on only. *)
Definition buildClusters (aFileData : list FileData) (offDisk cbCluster : Z)
    (iParentCluster : val) (iLevel : Z) : list BufferCall * Z :=
  buildClustersLoops (buildClustersBelow cbCluster) aFileData offDisk cbCluster
                     iParentCluster.


(* ===================================================================== *)
(** * The sectors of a file *)
(* ===================================================================== *)

(** What a loop that need not end has done after a number of rounds: it has
    returned, it has thrown, or it has not ended yet. *)
Inductive Run (A : Type) : Type :=
| Returns (a : A)
| Throws
| MoreRounds.

Arguments Returns {A} a.
Arguments Throws {A}.
Arguments MoreRounds {A}.

(** The addresses that the [for] loop of convertClusterToSectors pushes for
    a cluster. *)
Definition clusterSectors (vol : VolInfo) (cluster : Z) : list Z :=
  let vba := vbaData vol + (cluster - FAT12.CLUSNUM_MIN) * clusSecs vol in
  map (fun i => lbaStart vol + (vba + Z.of_nat i))
      (seq 0 (Z.to_nat (clusSecs vol))).

(** The [do ... while] loop of convertClusterToSectors, run for at most
    [rounds] rounds: the array and the volume (with its cached FAT sector)
    after it.  The array is a list here, without the limit of a JavaScript
    array: a push onto an array of 2^32 - 1 elements throws a RangeError, so
    [MoreRounds] after rounds that have pushed more than that stands for a
    loop that has not returned. *)
Fixpoint convertLoop (rounds : nat) (this : DiskImage) (vol : VolInfo)
    (cluster : Z) (aLBA : list Z) : Run (list Z * VolInfo) :=
  match rounds with
  | O => MoreRounds
  | S more =>
      if cluster <? FAT12.CLUSNUM_MIN then Returns (aLBA, vol)
      else
        let aLBA := aLBA ++ clusterSectors vol cluster in
        match getClusterEntry this vol cluster 0 with
        | None => Throws
        | Some (w0, vol1) =>
            match getClusterEntry this vol1 cluster 1 with
            | None => Throws
            | Some (w1, vol2) =>
                let cluster := bor w0 w1 in
                if cluster <=? clusMax vol2
                then convertLoop more this vol2 cluster aLBA
                else Returns (aLBA, vol2)
            end
        end
  end.

(** convertClusterToSectors(vol, dir) for [dir.cluster = cluster], with the
    loop run for at most [rounds] rounds. *)
Definition convertClusterToSectors (rounds : nat) (this : DiskImage)
    (vol : VolInfo) (cluster : val) : Run (list Z * VolInfo) :=
  match cluster with
  | Undef => Returns ([], vol)
  | Null => Returns ([], vol)
  | Num c => if c =? 0 then Returns ([], vol) else convertLoop rounds this vol c []
  end.


(* ===================================================================== *)
(** * Reading directory entries and files *)
(* ===================================================================== *)

(** The loop [while (len--)] of getSectorString, at most [n] more rounds; it
    ends early at a byte that is 0 or at the end of the sector. *)
Fixpoint sectorStringLoop (sector : Sector) (n : nat) (off : Z) (s : list Z)
    : list Z :=
  match n with
  | O => s
  | S n' =>
      let b := read (Some sector) off in
      if b <=? 0 then s
      else sectorStringLoop sector n' (off + 1) (s ++ [b])
  end.

(** getSectorString(sector, off, len).  With a negative [len] the loop runs
    until read returns 0 or -1, at the end of the sector at the latest. *)
Definition getSectorString (sector : Sector) (off len : Z) : list Z :=
  let rounds := if len <? 0 then Z.max 0 (LENGTH sector - off) + 1 else len in
  sectorStringLoop sector (Z.to_nat rounds) off [].

(** A name that may be [undefined] or [null]. *)
Inductive nameVal : Type :=
| NoName
| NullName
| Name (s : list Z).

(** The properties of a DirInfo object that getDirEntry sets. *)
Record DirInfo : Type := mkDirInfo {
  dirName : nameVal;
  dirAttr : val;
  dirModDate : val;
  dirModTime : val;
  dirSize : val;
  dirCluster : val;
  dirLBA : option (list Z)
}.

(** The directory sector that a volume has cached: vol.lbaDirCache and
    vol.sectorDirCache. *)
Record DirCache : Type := mkDirCache {
  lbaDirCache : val;
  sectorDirCache : option Sector
}.

(** getDirEntry(vol, dir, lba, i), with the loop of convertClusterToSectors
    run for at most [rounds] rounds: the result, and [dir] and [vol] with its
    caches after the call. *)
Definition getDirEntry (rounds : nat) (this : DiskImage) (vol : VolInfo)
    (cache : DirCache) (dir : DirInfo) (lba i : Z)
    : Run (bool * DirInfo * VolInfo * DirCache) :=
  let fetched :=
    if match sectorDirCache cache with Some _ => false | None => true end
       || falsy (lbaDirCache cache)
       || negb (idEq (lbaDirCache cache) lba)
    then option_map (mkDirCache (Num lba)) (getSector this lba)
    else Some cache in
  match fetched with
  | None => Throws
  | Some cache =>
      match sectorDirCache cache with
      | Some sector =>
          let off := i * DIRENT.LENGTH in
          let b := getSectorData sector off 1 in
          if b =? DIRENT.UNUSED then Returns (false, dir, vol, cache)
          else if b =? DIRENT.INVALID then
            Returns (true,
                     mkDirInfo NullName (dirAttr dir) (dirModDate dir)
                               (dirModTime dir) (dirSize dir) (dirCluster dir)
                               (dirLBA dir),
                     vol, cache)
          else
            let name := Str.trim (getSectorString sector (off + DIRENT.NAME) 8) in
            let s := Str.trim (getSectorString sector (off + DIRENT.EXT) 3) in
            let name := match s with
                        | [] => name
                        | _ :: _ => name ++ [46] ++ s
                        end in
            let attr := getSectorData sector (off + DIRENT.ATTR) 1 in
            let modDate := getSectorData sector (off + DIRENT.MODDATE) 2 in
            let modTime := getSectorData sector (off + DIRENT.MODTIME) 2 in
            let size := getSectorData sector (off + DIRENT.SIZE) 4 in
            let size := if size <? 0 then 0 else size in
            let cluster := getSectorData sector (off + DIRENT.CLUSTER) 2 in
            match convertClusterToSectors rounds this vol (Num cluster) with
            | Returns (aLBA, vol) =>
                Returns (true,
                         mkDirInfo (Name name) (Num attr) (Num modDate)
                                   (Num modTime) (Num size) (Num cluster)
                                   (Some aLBA),
                         vol, cache)
            | Throws => Throws
            | MoreRounds => MoreRounds
            end
      | None => Returns (false, dir, vol, cache)
      end
  end.

(** The [for] loop of readSectorArray over a sector, from byte [i] on for at
    most [n] bytes: the array, [ib] and [cbRemain] after it, and whether read
    has failed (which sets [iLBA] to -1). *)
Fixpoint copyBytes (sector : Sector) (n : nat) (i : Z) (ab : list val)
    (ib cbRemain : Z) : list val * Z * Z * bool :=
  match n with
  | O => (ab, ib, cbRemain, false)
  | S n' =>
      let b := read (Some sector) i in
      if b <? 0 then (ab, ib, cbRemain, true)
      else copyBytes sector n' (i + 1) (set ab ib (Num b)) (ib + 1)
                     (cbRemain - 1)
  end.

(** The [while] loop of readSectorArray over the addresses that are left:
    the array and [cbRemain] after it; [None] when getSector throws. *)
Fixpoint readSectors (this : DiskImage) (aLBA : list Z) (ab : list val)
    (ib cbRemain : Z) : option (list val * Z) :=
  match aLBA with
  | [] => Some (ab, cbRemain)
  | lba :: rest =>
      if 0 <? cbRemain then
        sector <- getSector this lba ;;
        match sector with
        | None => Some (ab, cbRemain)
        | Some sector =>
            let cbSector := LENGTH sector in
            let cbRead := if cbSector <? cbRemain then cbSector else cbRemain in
            let '(ab, ib, cbRemain, failed) :=
              copyBytes sector (Z.to_nat cbRead) 0 ab ib cbRemain in
            if failed then Some (ab, cbRemain)
            else readSectors this rest ab ib cbRemain
        end
      else Some (ab, cbRemain)
  end.

(** readSectorArray(ab, aLBA): the array after the call and the result. *)
Definition readSectorArray (this : DiskImage) (ab : list val) (aLBA : list Z)
    : option (list val * Z) :=
  r <- readSectors this aLBA ab 0 (len ab) ;;
  let '(ab', cbRemain) := r in
  Some (ab', len ab' - cbRemain).


(* ===================================================================== *)
(** * The master boot record of a new image *)
(* ===================================================================== *)

(** buildData(cb, abInit): an array of [cb] cells; cell [i] holds
    [abInit && abInit[i] || 0].  [new Array(cb)] throws a RangeError for a
    length that is negative or above 2^32 - 1. *)
Definition buildData (cb : Z) (abInit : option (list val))
    : option (list val) :=
  if (cb <? 0) || (2 ^ 32 <=? cb) then None
  else Some (map (fun i =>
                    match abInit with
                    | Some a => if falsy (get a (Z.of_nat i)) then Num 0
                                else get a (Z.of_nat i)
                    | None => Num 0
                    end)
                 (seq 0 (Z.to_nat cb))).

(** buildMBR(cHeads, cSectorsPerTrack, cbSector, cTotalSectors); each pair
    of lines is an assignment [abSector[offSector++] = v]. *)
Definition buildMBR (cHeads cSectorsPerTrack cbSector cTotalSectors : Z)
    : option (list val) :=
  let offSector := 0x1EE in
  abSector <- buildData cbSector None ;;
  let abSector := set abSector offSector (Num 0x80) in
  let offSector := offSector + 1 in
  let abSector := set abSector offSector (Num 0x00) in
  let offSector := offSector + 1 in
  let abSector := set abSector offSector (Num 0x02) in
  let offSector := offSector + 1 in
  let abSector := set abSector offSector (Num 0x00) in
  let offSector := offSector + 1 in
  let abSector := set abSector offSector (Num 0x01) in
  let offSector := offSector + 1 in
  let abSector := set abSector offSector (Num (cHeads - 1)) in
  let offSector := offSector + 1 in
  let cCylinders := divi cTotalSectors (cHeads * cSectorsPerTrack) in
  let abSector :=
    set abSector offSector
        (Num (bor cSectorsPerTrack (sar (band cCylinders 0x300) 2))) in
  let offSector := offSector + 1 in
  let abSector := set abSector offSector (Num (band cCylinders 0xff)) in
  let offSector := offSector + 1 in
  let abSector := set abSector offSector (Num 1) in
  let offSector := offSector + 1 in
  let abSector := set abSector offSector (Num 0x00) in
  let offSector := offSector + 1 in
  let abSector := set abSector offSector (Num 0x00) in
  let offSector := offSector + 1 in
  let abSector := set abSector offSector (Num 0x00) in
  let offSector := offSector + 1 in
  let abSector := set abSector offSector (Num (band cTotalSectors 0xff)) in
  let offSector := offSector + 1 in
  let abSector :=
    set abSector offSector (Num (band (sar cTotalSectors 8) 0xff)) in
  let offSector := offSector + 1 in
  let abSector :=
    set abSector offSector (Num (band (sar cTotalSectors 16) 0xff)) in
  let offSector := offSector + 1 in
  let abSector :=
    set abSector offSector (Num (band (sar cTotalSectors 24) 0xff)) in
  let offSector := offSector + 1 in
  let abSector := set abSector offSector (Num 0x55) in
  let offSector := offSector + 1 in
  Some (set abSector offSector (Num 0xAA)).

(* ===================================================================== *)
(** * Vocabulary of the statements *)
(* ===================================================================== *)

(** The run counting of initSector on an array that the loop does not
    modify. *)
Fixpoint scan (l : list val) (dwPrev : val) (cPrev : Z) : val * Z :=
  match l with
  | [] => (dwPrev, cPrev)
  | dw :: l' =>
      if strictEq dwPrev dw then scan l' dwPrev (cPrev + 1)
      else scan l' dw 0
  end.

(** The value initSector stores in a missing cell of [adw]. *)
Definition fillValue (dwPattern : val) (adw : list val) : val :=
  if negb (isUndef dwPattern) then dwPattern else get adw (len adw - 1).

(** The values that an array stands for: a cell that is [undefined] or
    [null] stands for the fill value. *)
Definition filled (dwPattern : val) (adw : list val) : list val :=
  map (fun w => if isUndef w then fillValue dwPattern adw else w) adw.

(** The values that an array of at most [cdw] cells stands for in a sector of
    [cdw] values: past its end the fill value is repeated. *)
Definition padded (dwPattern : val) (adw : list val) (cdw : Z) : list val :=
  filled dwPattern adw
  ++ repeat (fillValue dwPattern adw) (Z.to_nat cdw - length adw).

(** Every value of the list is [null]. *)
Definition allNull (l : list val) : bool :=
  forallb (fun w => match w with Null => true | _ => false end) l.

(** The bytes of a buffer, 0 outside it, and the values that its bytes make
    from offset [ib] on: four bytes, the low one first, as a signed 32-bit
    number. *)
Definition bufferByte (db : option DataBuffer.t) (i : Z) : Z :=
  match db with
  | Some b => if i <? 0 then 0 else nth (Z.to_nat i) b 0
  | None => 0
  end.

Definition bufferWord (db : option DataBuffer.t) (ib : Z) : val :=
  Num (toInt32 (bufferByte db ib + 256 * bufferByte db (ib + 1)
                + 65536 * bufferByte db (ib + 2)
                + 16777216 * bufferByte db (ib + 3))).

Definition bufferWords (db : option DataBuffer.t) (ib : Z) (n : nat)
    : list val :=
  map (fun k => bufferWord db (ib + 4 * Z.of_nat k)) (seq 0 n).

(** [c] counts a run of equal values [p] at the end of [l]: the last [c+1]
    values of [l] are [p]. *)
Definition runInv (l : list val) (p : val) (c : Z) : Prop :=
  0 <= c < len l /\ forall j, len l - 1 - c <= j < len l -> get l j = p.

(** A compressed DATA array expanded to [cdw] values: the last stored value
    is repeated. *)
Definition expand (adw : list val) (cdw : Z) : list val :=
  map (fun k => storedWord adw (Z.of_nat k)) (seq 0 (Z.to_nat cdw)).

(** The three parts of the sector invariant: the stored array is no longer
    than the sector; expanding it gives back the original values, which
    amount to exactly [LENGTH] bytes; a sector of positive length stores
    something. *)
Definition storedBound (s : Sector) : Prop := len (DATA s) <= LENGTH s / 4.

Definition reconstructs (s : Sector) (orig : list val) : Prop :=
  expand (DATA s) (LENGTH s / 4) = orig /\ 4 * len orig = LENGTH s.

Definition nonEmpty (s : Sector) : Prop := 0 < LENGTH s -> DATA s <> [].

(** A series of writes to one sector, each a byte index and a byte; the
    result is the sector after the last write and the indices of the words
    that a write changed, in the order of the writes. *)
Fixpoint writeAll (this : DiskImage) (sector : Sector) (ws : list (Z * Z))
    : Sector * list Z :=
  match ws with
  | [] => (sector, [])
  | (iByte, b) :: ws' =>
      let changed := fWritable this && (iByte <? LENGTH sector)
                     && negb (b =? read (Some sector) iByte) in
      let '(sector', touched) :=
        writeAll this (snd (write this sector iByte b)) ws' in
      (sector', if changed then iByte / 4 :: touched else touched)
  end.

(** [iMod, iMod + cMod) is the least range of indices that covers [touched]:
    it contains every index of the list and both its ends are in the list. *)
Definition coversMinimally (iMod cMod : Z) (touched : list Z) : Prop :=
  (forall t, In t touched -> iMod <= t < iMod + cMod)
  /\ In iMod touched /\ In (iMod + cMod - 1) touched.

(** The modify markers of a sector agree with the words changed so far:
    nothing is marked while no word has changed; afterwards the markers give
    the least range that covers the changed words. *)
Definition modifyInv (sector : Sector) (touched : list Z) : Prop :=
  (touched = [] /\ cModify sector = Some 0
   /\ exists i0, iModify sector = Some i0)
  \/ (exists iMod cMod,
        iModify sector = Some iMod /\ cModify sector = Some cMod
        /\ 0 < cMod /\ coversMinimally iMod cMod touched).

(** The modify markers write assigns when it changes the word [idw]. *)
Definition newModify (sector : Sector) (idw : Z) : option Z * option Z :=
  match cModify sector, iModify sector with
  | Some cm, Some im =>
      if cm =? 0 then (Some idw, Some 1)
      else if idw <? im then (Some idw, Some (cm + (im - idw)))
      else if im + cm <=? idw
      then (Some im, Some (cm + (idw - (im + cm) + 1)))
      else (Some im, Some cm)
  | Some cm, None =>
      if cm =? 0 then (Some idw, Some 1) else (None, Some cm)
  | None, _ => (Some idw, Some 1)
  end.

(** Byte [j] (0 to 3) of a 32-bit value. *)
Definition byteOf (w j : Z) : Z := (toInt32 w / 2 ^ (j * 8)) mod 256.

(** The bytes of a sector as read returns them, and the bytes of a track, a
    cylinder and a disk in the order in which getData visits the sectors. *)
Definition sectorBytes (s : Sector) : list Z :=
  map (fun i => read (Some s) (Z.of_nat i)) (seq 0 (Z.to_nat (LENGTH s))).

Fixpoint trackBytes (track : Track) : list Z :=
  match track with
  | [] => []
  | None :: track' => trackBytes track'
  | Some s :: track' => sectorBytes s ++ trackBytes track'
  end.

Definition cylinderBytes (cylinder : list Track) : list Z :=
  concat (map trackBytes cylinder).

Definition diskBytes (data : DiskData) : list Z :=
  concat (map cylinderBytes data).

(** Two buffers of the same length that agree at every offset outside
    [off, off + n). *)
Definition agreeOutside (off n : Z) (a b : list Z) : Prop :=
  length a = length b
  /\ forall j : nat,
       (Z.of_nat j < off \/ off + n <= Z.of_nat j) -> nth j a 0 = nth j b 0.

(** The loop variables of an image that has no track table and whose tracks
    keep their physical number [nSPT] of sectors of [cb] bytes. *)
Definition regularState (st : HeadState) (nSPT cb : Z) : Prop :=
  hsSectorsPerTrack st = nSPT /\ hsLogical st = nSPT
  /\ hsSector st = cb /\ hsTrack st = nSPT * cb.

(** The buffer after the first loop of getData: the bytes of the sectors,
    one after the other, and behind them what the buffer held before. *)
Definition written (data : DiskData) (db : DataBuffer.t) : DataBuffer.t :=
  diskBytes data ++ skipn (length (diskBytes data)) db.

(** The checksum of an image: the number a stored value contributes, the
    stored values of a sector that are summed (all of them, or all but the
    last one when the sector stores fewer than [LENGTH/4] values), and the
    sums for a sector and for the sectors of a disk. *)
Definition wordValue (w : val) : Z :=
  match w with
  | Num n => n
  | Null => 0
  | Undef => 0
  end.

Definition summedWords (s : Sector) : list val :=
  let n := len (DATA s) in
  firstn (Z.to_nat (if n <? LENGTH s / 4 then n - 1 else n)) (DATA s).

Definition sectorSum (s : Sector) : Z :=
  fold_right Z.add 0 (map wordValue (summedWords s)).





(** The 12-bit entry [c] of a FAT whose byte at offset [k] is [f k]: entries
    are packed two to three bytes, the even ones in a byte and the low half
    of the next one, the odd ones in the high half of a byte and the next
    one. *)
Definition entry12 (f : Z -> Z) (c : Z) : Z :=
  let k := 3 * c / 2 in
  if Z.even c then f k + 256 * (f (k + 1) mod 16)
  else f k / 16 + 16 * f (k + 1).

(** The number in a cell of an array of bytes; a cell that is [undefined]
    counts as 0. *)
Definition byteAt (ab : list val) (k : Z) : Z := valInt32 (get ab k).

(** The cells of the array that hold a number hold a byte. *)
Definition byteCells (ab : list val) : Prop :=
  forall k, 0 <= byteAt ab k < 256.

(** A test that holds for every number from 0 to [n - 1]. *)
Definition allBelow (n : nat) (P : Z -> bool) : bool :=
  forallb P (map Z.of_nat (seq 0 n)).

(** The number that [n] bytes of a sector from offset [off] on stand for,
    the first byte being the lowest. *)
Fixpoint littleEndian (sector : Sector) (n : nat) (off : Z) : Z :=
  match n with
  | O => 0
  | S n' => read (Some sector) off + 256 * littleEndian sector n' (off + 1)
  end.


(** Byte [k] of the FAT of a volume, as getClusterEntry reads it: the byte of
    the sector [k / cbSector] of the FAT that getSectorData returns, and 0
    when getSector has no such sector. *)
Definition fatByte (this : DiskImage) (vol : VolInfo) (k : Z) : Z :=
  match getSector this (lbaStart vol + (vbaFAT vol + k / volSector vol)) with
  | Some (Some sector) => getSectorData sector (k mod volSector vol) 1
  | _ => 0
  end.

(** The 16-bit entry [c] of a FAT whose byte at offset [k] is [f k]. *)
Definition entry16 (f : Z -> Z) (c : Z) : Z := f (2 * c) + 256 * f (2 * c + 1).

(** The run that [c] counts at the end of [l] is as long as it can be: the
    value before it, if there is one, is another one. *)
Definition runMax (l : list val) (p : val) (c : Z) : Prop :=
  c + 1 < len l -> get l (len l - 2 - c) <> p.

(** A stored array is canonical when its last two values differ: no shorter
    array stands for the same sector. *)
Definition canonical (adw : list val) : Prop :=
  2 <= len adw -> get adw (len adw - 1) <> get adw (len adw - 2).

(** The 16-bit time and date of a FAT directory entry. *)
Definition fatTime (hours minutes seconds : Z) : Z :=
  hours * 2048 + minutes * 32 + seconds / 2.

Definition fatDate (year month day : Z) : Z :=
  (year - 1980) * 512 + month * 32 + day.

(** The bytes that a file takes in the data area before rounding: its size,
    or for a subdirectory 32 bytes for each entry and for "." and "..". *)
Definition entryBytes (f : FileData) : Z :=
  if fdSize f <? 0 then (len (fdFiles f) + 2) * 32 else fdSize f.

(** The clusters that a file of these bytes takes. *)
Definition clustersFor (cbCluster : Z) (f : FileData) : Z :=
  (entryBytes f + cbCluster - 1) / cbCluster.

(** The files of a tree in the order in which buildFAT comes to them: the
    files of the array, then what is below its first subdirectory, then what
    is below the second one, and so on. *)
Definition inOrder (below : FileData -> list FileData) (l : list FileData)
    : list FileData :=
  l ++ flat_map (fun f => if fdSize f <? 0 then below f else []) l.

Fixpoint filesBelow (f : FileData) : list FileData :=
  match f with
  | mkFileData _ _ _ _ _ files _ => inOrder filesBelow files
  end.

Definition allFiles (l : list FileData) : list FileData := inOrder filesBelow l.

(** What is below the subdirectories of a list. *)
Definition belowDirs (l : list FileData) : list FileData :=
  flat_map (fun f => if fdSize f <? 0 then filesBelow f else []) l.

(** A tree of files without the clusters that were assigned. *)
Fixpoint forget (f : FileData) : FileData :=
  match f with
  | mkFileData n a s d _ files b => mkFileData n a s d Undef (map forget files) b
  end.

(** The sizes are below 2^31 (so that [| 0] leaves the numbers of clusters
    as they are). *)
Definition fits (l : list FileData) : Prop :=
  Forall (fun f => entryBytes f < 2 ^ 31) l.

(** The entries of the FAT in [ab'] are those of the FAT in [ab], except
    entries [i .. i' - 1]. *)
Definition frame (ab ab' : list val) (i i' : Z) : Prop :=
  forall j, 0 <= j -> j < i \/ i' <= j ->
    entry12 (byteAt ab') j = entry12 (byteAt ab) j.

(** The clusters that the files of a list take together. *)
Definition totalClusters (cbCluster : Z) (l : list FileData) : Z :=
  fold_right (fun f n => clustersFor cbCluster f + n) 0 l.

(** Entries [c .. c + n - 1] of the FAT in the array are a chain: each one
    names the next one, and the last one holds 0xFFF. *)
Definition chained (ab : list val) (c n : Z) : Prop :=
  forall k, 0 <= k < n ->
    entry12 (byteAt ab) (c + k) = if k =? n - 1 then 0xFFF else c + k + 1.

(** The files of the list have their clusters one after the other from
    cluster [i] on, each with its chain in the FAT; a file that takes no
    cluster has cluster 0. *)
Fixpoint placed (cbCluster : Z) (ab : list val) (l : list FileData) (i : Z)
    : Prop :=
  match l with
  | [] => True
  | f :: l' =>
      let n := clustersFor cbCluster f in
      fdCluster f = Num (if n =? 0 then 0 else i)
      /\ chained ab i n
      /\ placed cbCluster ab l' (i + n)
  end.

(** What a call [below file abFAT iCluster], which stands for
    buildFAT(abFAT, file.files, iCluster, cbCluster), does when the sizes
    below [file] fit: it returns [iCluster] plus the clusters of the files
    below [file] and changes only their clusters; on an array of bytes that
    has room for them it changes only the entries of these clusters and
    places the files. *)
Definition callOk (cbCluster : Z)
    (below : FileData -> list val -> Z -> FileData * list val * Z)
    (x : FileData) : Prop :=
  forall ab i, fits (filesBelow x) ->
    exists x' ab',
      below x ab i = (x', ab', i + totalClusters cbCluster (filesBelow x))
      /\ forget x' = forget x
      /\ totalClusters cbCluster (filesBelow x')
         = totalClusters cbCluster (filesBelow x)
      /\ (byteCells ab -> 0 <= i ->
          i + totalClusters cbCluster (filesBelow x) <= 4096 ->
          byteCells ab'
          /\ frame ab ab' i (i + totalClusters cbCluster (filesBelow x))
          /\ placed cbCluster ab' (filesBelow x') i).

(** The cluster of a file, 0 when it has none. *)
Definition clusterNumber (f : FileData) : Z :=
  match fdCluster f with
  | Num c => c
  | Null => 0
  | Undef => 0
  end.

(** The copies into the buffer of the disk among the calls. *)
Definition copies (calls : list BufferCall) : list (FileData * Z) :=
  flat_map (fun c => match c with
                     | callCopy f off => [(f, off)]
                     | callNewFill _ _ _ => []
                     end) calls.

(** The files of the list that have bytes, each with the offset of its first
    cluster when cluster [i] is at offset [off]. *)
Definition atClusters (cbCluster off i : Z) (l : list FileData)
    : list (FileData * Z) :=
  map (fun f => (f, off + (clusterNumber f - i) * cbCluster))
      (filter (fun f => negb (entryBytes f =? 0)) l).

(** What a call [below file offDisk], which stands for buildClusters(dbDisk,
    file.files, offDisk, cbCluster, file.cluster, iLevel), does when the
    files below [file] are placed from cluster [j] on: it returns their
    clusters and copies those with bytes to their clusters, [offDisk] being
    the offset of cluster [j]. *)
Definition copyOk (cbCluster : Z) (below : FileData -> Z -> list BufferCall * Z)
    (x : FileData) : Prop :=
  forall ab off j, 0 <= j -> fits (filesBelow x) ->
    placed cbCluster ab (filesBelow x) j ->
    snd (below x off) = totalClusters cbCluster (filesBelow x)
    /\ copies (fst (below x off)) = atClusters cbCluster off j (filesBelow x).

(** One of the characters that buildShortName keeps. *)
Definition shortChar (c : Z) : Prop := In c shortNameChars.

(** The name [base], followed by a period and [ext] when [ext] is not
    empty. *)
Definition dotted (base ext : list Z) : list Z :=
  match ext with
  | [] => base
  | _ :: _ => base ++ 46 :: ext
  end.

(** The characters of a string with '_' for those that buildShortName does
    not keep. *)
Definition sanitize (s : list Z) : list Z :=
  map (fun ch => if Str.indexOf shortNameChars ch <? 0 then 95 else ch) s.

(** The string [s] cut or padded with spaces to [n] characters. *)
Definition padTo (n : nat) (s : list Z) : list Z :=
  firstn n (s ++ repeat 32 n).

(** The [n] low bytes of [x], the lowest one first. *)
Fixpoint bytesLE (n : nat) (x : Z) : list Z :=
  match n with
  | O => []
  | S n' => x mod 256 :: bytesLE n' (x / 256)
  end.

(** The [n] cells of an array from [off] on. *)
Definition cellsAt (ab : list val) (off : Z) (n : nat) : list val :=
  map (fun k => get ab (off + Z.of_nat k)) (seq 0 n).

(** The name and the extension that buildDirEntry stores for the short name
    [dotted base ext] with no period in [base]: without a base, the period
    and the extension are the name. *)
Definition storedName (base ext : list Z) : list Z * list Z :=
  match base with
  | [] => (dotted [] ext, [])
  | _ :: _ => (base, ext)
  end.

(** The FAT sector that the volume has cached is the one that getSector
    returns for the cached address. *)
Definition cacheOk (this : DiskImage) (vol : VolInfo) : Prop :=
  sectorFATCache vol = None
  \/ exists i, vbaFATCache vol = Num (vbaFAT vol + i)
               /\ getSector this (lbaStart vol + (vbaFAT vol + i))
                  = Some (sectorFATCache vol).

(** Entry [c] of the FAT of the volume, as getSector and getSectorData
    deliver its bytes. *)
Definition fatEntry (this : DiskImage) (vol : VolInfo) (c : Z) : Z :=
  if nFATBits vol =? 16 then entry16 (fatByte this vol) c
  else entry12 (fatByte this vol) c.

(** The clusters of a chain: [chain next clusMax c cs] when the loop of
    convertClusterToSectors, started at cluster [c] on a FAT whose entries
    are [next], comes to the clusters [cs] and then ends. *)
Inductive chain (next : Z -> Z) (clusMax : Z) : Z -> list Z -> Prop :=
| chain_low c : c < 2 -> chain next clusMax c []
| chain_end c : 2 <= c -> clusMax < next c -> chain next clusMax c [c]
| chain_step c cs :
    2 <= c -> next c <= clusMax -> chain next clusMax (next c) cs ->
    chain next clusMax c (c :: cs).


(** The volume [vol'] is [vol] with another cached FAT sector. *)
Definition sameVolume (vol vol' : VolInfo) : Prop :=
  exists v s, vol' = setFATCache vol v s.

(** A test for the characters that are at home in a stored name: from '!'
    to '~' and no period. *)
Definition plainChar (c : Z) : bool :=
  (33 <=? c) && (c <=? 126) && negb (c =? 46).

(** The bytes of the files of a list before rounding. *)
Definition totalBytes (l : list FileData) : Z :=
  fold_right (fun f n => entryBytes f + n) 0 l.

(** The clusters of a file: as many as it takes, from its first one on. *)
Definition fileClusters (cbCluster : Z) (f : FileData) : list Z :=
  map (fun k => clusterNumber f + Z.of_nat k)
      (seq 0 (Z.to_nat (clustersFor cbCluster f))).

(** The offset of a field of partition entry [iEntry] in a master boot
    record. *)
Definition partitionField (iEntry field : Z) : Z :=
  MBR.PARTITIONS_OFFSET + iEntry * MBR.ENTRY_LENGTH + field.

(** An array with the numbers of a list stored from an offset on. *)
Fixpoint stored (ab : list val) (off : Z) (vs : list Z) : list val :=
  match vs with
  | [] => ab
  | v :: vs' => stored (set ab off (Num v)) (off + 1) vs'
  end.

(* ===================================================================== *)
(** * Concrete inputs *)
(* ===================================================================== *)

(** A sector as JSON gives it, with the current property names. *)
Definition jsonSector (s l : Z) (d : list val) : JSONSector :=
  {| json_c := Undef; json_h := Undef; json_s := Num s; json_l := Num l;
     json_d := Some d; json_sector := Undef; json_length := Undef;
     json_data := None; json_pattern := Undef; json_dataCRC := None;
     json_dataError := None; json_dataMark := None; json_headCRC := None;
     json_headError := None |}.


(** A writable disk, and the sector of 512 zero bytes that buildSector makes
    for it. *)
Definition writableDisk : DiskImage := constructor "" true.

Definition zeroSector : Sector :=
  mkSector 0 0 (Num 1) 512 [Num 0] None None None None None None None
           (Some 0) (Some 0).

(** [b] stored at offset [off] of a buffer. *)
Definition poke (db : DataBuffer.t) (off : nat) (b : Z) : DataBuffer.t :=
  firstn off db ++ b :: skipn (S off) db.

(** Equality of two buffers, as a test. *)
Definition sameBytes (a b : DataBuffer.t) : bool :=
  (length a =? length b)%nat
  && forallb (fun p => fst p =? snd p) (combine a b).

Definition octets (db : DataBuffer.t) : bool :=
  forallb (fun b => (0 <=? b) && (b <? 256)) db.

(** A 160K image: a short jump at the start of the boot sector, no BPB, and
    the media ID 0xFE in the first byte of the FAT. *)
Definition image160K : DataBuffer.t :=
  poke (poke (poke (DataBuffer.zeros 163840) 0 0xEB) 1 0x27) 512 0xFE.

(** The object and the buffer that a build leaves. *)
Definition builtDisk (r : option (bool * DiskImage * DataBuffer.t))
    : DiskImage :=
  match r with Some (_, d, _) => d | None => writableDisk end.

Definition builtBuffer (r : option (bool * DiskImage * DataBuffer.t))
    : DataBuffer.t :=
  match r with Some (_, _, b) => b | None => [] end.

(** Whether a build returned [true]. *)
Definition succeeded (r : option (bool * DiskImage * DataBuffer.t)) : bool :=
  match r with Some (true, _, _) => true | _ => false end.

(** An image of one zero sector with 36 saved boot-sector bytes, the first of
    them 40, saved from offset 0. *)
Definition savedDisk : DiskImage :=
  setOrigBPB (setDiskData writableDisk (Some [[[Some zeroSector]]]))
             (0 :: 40 :: repeat 7 35).

(** A buffer with bytes stored at some offsets. *)
Definition pokes (db : DataBuffer.t) (l : list (nat * Z)) : DataBuffer.t :=
  fold_left (fun d p => poke d (fst p) (snd p)) l db.

(** An image of two sectors of 512 bytes that is no standard format: its BPB
    tells the geometry (1 head, 2 sectors per track, media ID 0xF8). *)
Definition image1K : DataBuffer.t :=
  pokes (DataBuffer.zeros 1024)
        [(0%nat, 0xEB); (1%nat, 0x3C); (12%nat, 2); (19%nat, 2); (21%nat, 0xF8);
         (24%nat, 2); (26%nat, 1); (600%nat, 7); (601%nat, 1)].

(** Whether the cells of an array that hold a number hold a byte. *)
Definition cellOctets (ab : list val) : bool :=
  forallb (fun w => match w with
                    | Num n => (0 <=? n) && (n <? 256)
                    | Null => true
                    | Undef => true
                    end) ab.

(** Whether a build returned [true] and left [n] sectors per track. *)
Definition builtWith (r : option (bool * DiskImage * DataBuffer.t)) (n : Z)
    : bool :=
  succeeded r && match nSectors (builtDisk r) with
                 | Num m => m =? n
                 | Null => false
                 | Undef => false
                 end.

(** An image of one sector that holds a FAT with the bytes FE FF FF FF 0F,
    and a volume whose FAT of 12-bit entries starts in that sector. *)
Definition fatSector : Sector :=
  mkSector 0 0 (Num 1) 512 [Num (-2); Num 15; Num 0] None None None None None
           None None None None.

Definition fatDisk : DiskImage :=
  setGeometry (setDiskData writableDisk (Some [[[Some fatSector]]]))
              (Num 1) (Num 1) (Num 1) (Num 512) (Num 512).

Definition fatVolume : VolInfo :=
  mkVolInfo 0 0 0xFE 0 1 12 0 0 0 0 1 0 0 0 0 512 Undef None.

(** A file of [size] bytes, each of them [b]. *)
Definition plainFile (name : list Z) (size b : Z) : FileData :=
  mkFileData name (Num ATTR.ARCHIVE) size None Undef []
             (repeat b (Z.to_nat size)).

(** A subdirectory. *)
Definition subdir (name : list Z) (files : list FileData) : FileData :=
  mkFileData name (Num ATTR.SUBDIR) (-1) None Undef files [].

(** Files A (700 bytes) and E (512 bytes) and a subdirectory D with the files
    B (empty) and C (513 bytes). *)
Definition exampleFiles : list FileData :=
  [ plainFile [65] 700 1;
    subdir [68] [plainFile [66] 0 2; plainFile [67] 513 3];
    plainFile [69] 512 4 ].

(** The FAT of a new image before its files are added: entries 0 and 1. *)
Definition emptyFAT : list val :=
  buildFATEntry (buildFATEntry [] 0 (bor 0xFE 0xF00)) 1 0xFFF.

(** A test for [fits]. *)
Definition fitting (l : list FileData) : bool :=
  forallb (fun f => entryBytes f <? 2 ^ 31) l.

(** A FAT sector with the chain 2, 3, 4 and a disk and a volume with it. *)
Definition chainSector : Sector :=
  mkSector 0 0 (Num 1) 512 [Num 0x03FFFFFE; Num 0x0FFF0040; Num 0]
           None None None None None None None None None.

Definition chainDisk : DiskImage :=
  setGeometry (setDiskData writableDisk (Some [[[Some chainSector]]]))
              (Num 1) (Num 1) (Num 1) (Num 512) (Num 512).

Definition chainVolume : VolInfo :=
  mkVolInfo 0 0 0xFE 0 1 12 0 1 0 8 1 0xFF6 0xFF7 0 0 512 Undef None.

(** A FAT sector in which cluster 2 names itself. *)
Definition cycleSector : Sector :=
  mkSector 0 0 (Num 1) 512 [Num 0x02FFFFFE; Num 0]
           None None None None None None None None None.

Definition cycleDisk : DiskImage :=
  setGeometry (setDiskData writableDisk (Some [[[Some cycleSector]]]))
              (Num 1) (Num 1) (Num 1) (Num 512) (Num 512).

(** The cells of a directory entry for README.TXT, a sector that holds them
    as its first entry and a disk with this sector. *)
Definition entryCells : list val :=
  fst (buildDirEntry [] 0 (dotted (Str.codes "README") (Str.codes "TXT")) 700
                     (Num ATTR.ARCHIVE) (Some (ValidDate 1990 0 1 12 30 10))
                     (Num 2)).

Definition dirSector : Sector :=
  match buildSector writableDisk 0 0 1 512
                    (Some (map (fun k => byteAt entryCells (Z.of_nat k))
                               (seq 0 32) ++ repeat 0 480)) 0 with
  | Some (s, _) => s
  | None => fatSector
  end.

Definition dirDisk : DiskImage :=
  setGeometry (setDiskData writableDisk (Some [[[Some dirSector]]]))
              (Num 1) (Num 1) (Num 1) (Num 512) (Num 512).

(** A test for the characters that buildShortName keeps. *)
Definition shortChars (l : list Z) : bool :=
  forallb (fun c => negb (Str.indexOf shortNameChars c <? 0)) l.

(** A sector with the FAT that buildFAT makes for the files of
    [exampleFiles], and a disk with this sector. *)
Definition builtFiles : list FileData :=
  fst (fst (buildFAT emptyFAT exampleFiles 2 512)).

Definition builtFAT : list val :=
  snd (fst (buildFAT emptyFAT exampleFiles 2 512)).

Definition builtFATSector : Sector :=
  match buildSector writableDisk 0 0 1 512
                    (Some (map (fun k => byteAt builtFAT (Z.of_nat k))
                               (seq 0 32) ++ repeat 0 480)) 0 with
  | Some (s, _) => s
  | None => fatSector
  end.

Definition builtFATDisk : DiskImage :=
  setGeometry (setDiskData writableDisk (Some [[[Some builtFATSector]]]))
              (Num 1) (Num 1) (Num 1) (Num 512) (Num 512).

(** The master boot record of a disk of 20808 sectors with 4 heads and 17
    sectors in a track, and a sector that holds its bytes. *)
Definition recordCells : list val :=
  match buildMBR 4 17 512 20808 with
  | Some ab => ab
  | None => []
  end.

Definition recordSector : Sector :=
  match buildSector writableDisk 0 0 1 512
                    (Some (map (fun k => byteAt recordCells (Z.of_nat k))
                               (seq 0 512))) 0 with
  | Some (s, _) => s
  | None => fatSector
  end.
(* ===================================================================== *)
(** * Facts about the 32-bit operators *)
(* ===================================================================== *)

Section Int32Facts.

(** ToInt32 in arithmetic. *)
Lemma toInt32_spec (z : Z) : toInt32 z = (z + 2 ^ 31) mod 2 ^ 32 - 2 ^ 31.
Proof.
  unfold toInt32, toUint32. cbv zeta.
  change 0xFFFFFFFF with (Z.ones 32). rewrite Z.land_ones by lia.
  rewrite <- (Zplus_mod_idemp_l z (2 ^ 31) (2 ^ 32)).
  pose proof (Z.mod_pos_bound z (2 ^ 32) ltac:(lia)) as Hb.
  set (u := z mod 2 ^ 32) in *.
  change (2 ^ 32) with 4294967296 in *. change (2 ^ 31) with 2147483648.
  change 0x80000000 with 2147483648. change 0x100000000 with 4294967296.
  destruct (u <? 2147483648) eqn:E.
  - apply Z.ltb_lt in E. rewrite Z.mod_small by lia. lia.
  - apply Z.ltb_ge in E.
    replace (u + 2147483648) with (u - 2147483648 + 1 * 4294967296) by lia.
    rewrite Z.mod_add by lia. rewrite Z.mod_small by lia. lia.
Qed.

(** A shift count in arithmetic. *)
Lemma shiftCount (n : Z) : Z.land n 31 = n mod 32.
Proof. change 31 with (Z.ones 5). apply Z.land_ones. lia. Qed.

Lemma toInt32_range (z : Z) : - 2 ^ 31 <= toInt32 z < 2 ^ 31.
Proof.
  rewrite toInt32_spec.
  pose proof (Z.mod_pos_bound (z + 2 ^ 31) (2 ^ 32) ltac:(lia)).
  change (2 ^ 32) with (2 * 2 ^ 31) in *. lia.
Qed.

Lemma toInt32_small (z : Z) : - 2 ^ 31 <= z < 2 ^ 31 -> toInt32 z = z.
Proof.
  intros Hz. rewrite toInt32_spec.
  rewrite Z.mod_small; [lia|].
  change (2 ^ 32) with (2 * 2 ^ 31). lia.
Qed.

Lemma toInt32_idem (z : Z) : toInt32 (toInt32 z) = toInt32 z.
Proof. apply toInt32_small, toInt32_range. Qed.

Lemma sar_small (x n : Z) :
  - 2 ^ 31 <= x < 2 ^ 31 -> 0 <= n < 32 -> sar x n = x / 2 ^ n.
Proof.
  intros Hx Hn. unfold sar. rewrite shiftCount.
  rewrite toInt32_small by assumption.
  rewrite Z.mod_small by assumption.
  apply Z.shiftr_div_pow2. lia.
Qed.

Lemma shl_small (x n : Z) :
  0 <= n < 32 -> - 2 ^ 31 <= x < 2 ^ 31 -> - 2 ^ 31 <= x * 2 ^ n < 2 ^ 31 ->
  shl x n = x * 2 ^ n.
Proof.
  intros Hn Hx Hxn. unfold shl. rewrite shiftCount.
  rewrite (toInt32_small x) by assumption.
  rewrite Z.mod_small by assumption.
  rewrite Z.shiftl_mul_pow2 by lia.
  apply toInt32_small; assumption.
Qed.

Lemma band_ones (x k : Z) :
  - 2 ^ 31 <= x < 2 ^ 31 -> 0 <= k < 32 ->
  band x (Z.ones k) = x mod 2 ^ k.
Proof.
  intros Hx Hk. unfold band.
  rewrite (toInt32_small x) by assumption.
  rewrite (toInt32_small (Z.ones k)).
  - apply Z.land_ones. lia.
  - rewrite Z.ones_equiv.
    assert (0 < 2 ^ k <= 2 ^ 31) by
      (split; [apply Z.pow_pos_nonneg; lia | apply Z.pow_le_mono_r; lia]).
    lia.
Qed.

Lemma band_3 (x : Z) : - 2 ^ 31 <= x < 2 ^ 31 -> band x 0x3 = x mod 4.
Proof. intros Hx. apply (band_ones x 2); [assumption | lia]. Qed.

Lemma band_ff (x : Z) : - 2 ^ 31 <= x < 2 ^ 31 -> band x 0xff = x mod 256.
Proof. intros Hx. apply (band_ones x 8); [assumption | lia]. Qed.

(** The shift count [(iByte & 0x3) << 3] of read and write. *)
Lemma byteShift (i : Z) :
  0 <= i < 2 ^ 31 -> shl (band i 0x3) 3 = 8 * (i mod 4).
Proof.
  intros Hi. rewrite band_3 by lia.
  pose proof (Z.mod_pos_bound i 4 ltac:(lia)).
  rewrite shl_small; change (2 ^ 3) with 8; change (2 ^ 31) with 2147483648; lia.
Qed.

Lemma div_pow2_range (w n : Z) :
  - 2 ^ 31 <= w < 2 ^ 31 -> 0 <= n -> - 2 ^ 31 <= w / 2 ^ n < 2 ^ 31.
Proof.
  intros Hw Hn.
  assert (0 < 2 ^ n) by (apply Z.pow_pos_nonneg; lia).
  split.
  - apply Z.div_le_lower_bound; [assumption|].
    assert (2 ^ n * - 2 ^ 31 <= 1 * - 2 ^ 31) by
      (apply Z.mul_le_mono_nonpos_r; lia).
    lia.
  - apply Z.div_lt_upper_bound; [assumption|].
    assert (1 * 2 ^ 31 <= 2 ^ n * 2 ^ 31) by
      (apply Z.mul_le_mono_nonneg_r; lia).
    lia.
Qed.

(** The byte that read extracts from a 32-bit value. *)
Lemma extractByte (w i : Z) :
  - 2 ^ 31 <= w < 2 ^ 31 -> 0 <= i < 2 ^ 31 ->
  band (sar w (shl (band i 0x3) 3)) 0xff = (w / 2 ^ (8 * (i mod 4))) mod 256.
Proof.
  intros Hw Hi. rewrite byteShift by assumption.
  pose proof (Z.mod_pos_bound i 4 ltac:(lia)).
  rewrite sar_small by (try assumption; lia).
  apply band_ff. apply div_pow2_range; [assumption | lia].
Qed.

End Int32Facts.

(* ===================================================================== *)
(** * read *)
(* ===================================================================== *)

Lemma get_nth_error (adw : list val) (k : Z) :
  0 <= k -> get adw k = match nth_error adw (Z.to_nat k) with
                        | Some w => w
                        | None => Undef
                        end.
Proof.
  intros Hk. unfold get.
  destruct (k <? 0) eqn:E; [apply Z.ltb_lt in E; lia|].
  generalize (Z.to_nat k) as n. clear.
  induction adw as [|a adw IH]; intros [|n]; simpl; auto.
Qed.

Lemma get_last (adw : list val) : get adw (len adw - 1) = last adw Undef.
Proof.
  unfold get, len.
  destruct adw as [|a adw]; [reflexivity|].
  destruct (_ <? 0) eqn:E; [apply Z.ltb_lt in E; simpl length in E; lia|].
  replace (Z.to_nat (Z.of_nat (length (a :: adw)) - 1)) with (length adw)
    by (simpl length; lia).
  clear E. revert a.
  induction adw as [|b adw IH]; intros a; [reflexivity|].
  simpl length. change (nth (S (length adw)) (a :: b :: adw) Undef)
    with (nth (length adw) (b :: adw) Undef).
  rewrite IH. reflexivity.
Qed.

Lemma read_word (adw : list val) (k : Z) :
  0 <= k ->
  (if k <? len adw then get adw k else get adw (len adw - 1)) = storedWord adw k.
Proof.
  intros Hk. unfold storedWord, len.
  destruct (k <? Z.of_nat (length adw)) eqn:E.
  - apply Z.ltb_lt in E. rewrite get_nth_error by assumption.
    destruct (nth_error adw (Z.to_nat k)) eqn:N; [reflexivity|].
    apply nth_error_None in N. lia.
  - apply Z.ltb_ge in E.
    assert (N : nth_error adw (Z.to_nat k) = None) by (apply nth_error_None; lia).
    rewrite N. apply get_last.
Qed.

(** The byte read returns inside the sector. *)
Lemma read_stored (sector : Sector) (i : Z) :
  0 <= i < 2 ^ 31 -> i < LENGTH sector ->
  read (Some sector) i
  = (valInt32 (storedWord (DATA sector) (i / 4)) / 2 ^ ((i mod 4) * 8)) mod 256.
Proof.
  intros Hi Hlen. unfold read.
  destruct (i <? LENGTH sector) eqn:E; [|apply Z.ltb_ge in E; lia].
  assert (Hs : sar i 2 = i / 4) by (apply (sar_small i 2); lia).
  rewrite Hs. rewrite read_word by (apply Z.div_pos; lia).
  assert (Hw : - 2 ^ 31 <= valInt32 (storedWord (DATA sector) (i / 4)) < 2 ^ 31)
    by (destruct (storedWord _ _); simpl; [lia | lia | apply toInt32_range]).
  rewrite extractByte by assumption.
  replace (8 * (i mod 4)) with (i mod 4 * 8) by lia. reflexivity.
Qed.

(** C2.  For every sector and every byte index [i] (a non-negative 32-bit
    integer): read returns -1 when [i] is at or past the sector's length;
    otherwise it returns the byte of the data value at index [i/4] (the last
    stored value when [i/4] is at or past the end of the stored array) that
    the shift by [(i mod 4)*8] and the 8-bit mask select, a number from 0 to
    255. *)
Theorem read_spec (sector : Sector) (i : Z) :
  0 <= i < 2 ^ 31 ->
  (LENGTH sector <= i -> read (Some sector) i = -1) /\
  (i < LENGTH sector ->
     read (Some sector) i
     = (valInt32 (storedWord (DATA sector) (i / 4)) / 2 ^ ((i mod 4) * 8)) mod 256
     /\ 0 <= read (Some sector) i <= 255).
Proof.
  intros Hi. unfold read. split.
  - intros Hlen. destruct (i <? LENGTH sector) eqn:E; [|reflexivity].
    apply Z.ltb_lt in E. lia.
  - intros Hlen.
    destruct (i <? LENGTH sector) eqn:E; [|apply Z.ltb_ge in E; lia].
    assert (Hs : sar i 2 = i / 4) by (apply (sar_small i 2); lia).
    rewrite Hs.
    assert (Hk : 0 <= i / 4) by (apply Z.div_pos; lia).
    rewrite read_word by assumption.
    assert (Hw : - 2 ^ 31 <= valInt32 (storedWord (DATA sector) (i / 4)) < 2 ^ 31)
      by (destruct (storedWord _ _); simpl; [lia | lia | apply toInt32_range]).
    rewrite extractByte by assumption.
    replace (8 * (i mod 4)) with (i mod 4 * 8) by lia.
    split; [reflexivity|].
    pose proof (Z.mod_pos_bound
                  (valInt32 (storedWord (DATA sector) (i / 4)) / 2 ^ (i mod 4 * 8))
                  256 ltac:(lia)).
    lia.
Qed.

(** A sector of 8 bytes that stores one value: byte 5 is byte 1 of the
    repeated value. *)
Lemma read_spec_witness :
  let sector := mkSector 0 0 (Num 1) 8 [Num 0x04030201] None None None None
                         None None None None None in
  (LENGTH sector <= 5 -> read (Some sector) 5 = -1) /\
  (5 < LENGTH sector ->
     read (Some sector) 5
     = (valInt32 (storedWord (DATA sector) (5 / 4)) / 2 ^ ((5 mod 4) * 8)) mod 256
     /\ 0 <= read (Some sector) 5 <= 255).
Proof.
  intros sector. apply (read_spec sector 5). lia.
Defined.

(* ===================================================================== *)
(** * Arrays and the loop of initSector *)
(* ===================================================================== *)

Section ArrayFacts.

Lemma len_nonneg {A} (a : list A) : 0 <= len a.
Proof. unfold len. lia. Qed.

Lemma len_app {A} (a b : list A) : len (a ++ b) = len a + len b.
Proof. unfold len. rewrite length_app. lia. Qed.

Lemma len_cons {A} (x : A) (a : list A) : len (x :: a) = len a + 1.
Proof. unfold len. simpl length. lia. Qed.

Lemma len_repeat {A} (x : A) (n : nat) : len (repeat x n) = Z.of_nat n.
Proof. unfold len. rewrite repeat_length. reflexivity. Qed.

Lemma len_map {A B} (f : A -> B) (a : list A) : len (map f a) = len a.
Proof. unfold len. rewrite length_map. reflexivity. Qed.

Lemma strictEq_eq (a b : val) : strictEq a b = true -> a = b.
Proof.
  destruct a, b; simpl; try discriminate; auto.
  intros H. apply Z.eqb_eq in H. congruence.
Qed.

Lemma get_ge (a : list val) (j : Z) : len a <= j -> get a j = Undef.
Proof.
  intros H. unfold get, len in *.
  destruct (j <? 0) eqn:E; [reflexivity|].
  apply Z.ltb_ge in E. apply nth_overflow. lia.
Qed.

Lemma get_neg (a : list val) (j : Z) : j < 0 -> get a j = Undef.
Proof. intros H. unfold get. apply Z.ltb_lt in H. rewrite H. reflexivity. Qed.

Lemma get_app_l (a b : list val) (j : Z) :
  j < len a -> get (a ++ b) j = get a j.
Proof.
  intros H. unfold get, len in *.
  destruct (j <? 0) eqn:E; [reflexivity|].
  apply Z.ltb_ge in E. apply app_nth1. lia.
Qed.

Lemma get_app_r (a b : list val) (j : Z) :
  len a <= j -> get (a ++ b) j = get b (j - len a).
Proof.
  intros H. unfold get, len in *.
  destruct (j <? 0) eqn:E; [apply Z.ltb_lt in E; lia|].
  destruct (j - Z.of_nat (length a) <? 0) eqn:E'; [apply Z.ltb_lt in E'; lia|].
  rewrite app_nth2 by lia. f_equal. lia.
Qed.

Lemma get_cons_0 (x : val) (a : list val) : get (x :: a) 0 = x.
Proof. reflexivity. Qed.

Lemma get_cons_S (x : val) (a : list val) (j : Z) :
  0 < j -> get (x :: a) j = get a (j - 1).
Proof.
  intros H. unfold get.
  destruct (j <? 0) eqn:E; [apply Z.ltb_lt in E; lia|].
  destruct (j - 1 <? 0) eqn:E'; [apply Z.ltb_lt in E'; lia|].
  replace (Z.to_nat j) with (S (Z.to_nat (j - 1))) by lia. reflexivity.
Qed.

Lemma get_defined_lt (a : list val) (j : Z) :
  isUndef (get a j) = false -> 0 <= j < len a.
Proof.
  intros H.
  destruct (Z.lt_ge_cases j 0) as [Hn|Hn]; [rewrite get_neg in H by assumption; discriminate|].
  destruct (Z.lt_ge_cases j (len a)) as [Hl|Hl]; [lia|].
  rewrite get_ge in H by assumption. discriminate.
Qed.

(** [skipn] steps over the array one cell at a time. *)
Lemma skipn_get (a : list val) (j : Z) :
  0 <= j < len a ->
  skipn (Z.to_nat j) a = get a j :: skipn (Z.to_nat (j + 1)) a.
Proof.
  intros H. unfold get, len in *.
  destruct (j <? 0) eqn:E; [apply Z.ltb_lt in E; lia|].
  replace (Z.to_nat (j + 1)) with (S (Z.to_nat j)) by lia.
  assert (Hn : (Z.to_nat j < length a)%nat) by lia.
  revert Hn. generalize (Z.to_nat j) as n. clear.
  induction a as [|x a IH]; intros [|n] Hn; simpl in *; try lia; auto.
  apply IH. lia.
Qed.

Lemma set_end (a : list val) (v : val) : set a (len a) v = a ++ [v].
Proof.
  unfold set. rewrite Z.ltb_irrefl.
  replace (len a - len a) with 0 by lia. reflexivity.
Qed.

Lemma set_same (a : list val) (j : Z) :
  0 <= j < len a -> set a j (get a j) = a.
Proof.
  intros H. unfold set.
  destruct (j <? len a) eqn:E; [|apply Z.ltb_ge in E; lia].
  transitivity (firstn (Z.to_nat j) a ++ skipn (Z.to_nat j) a);
    [|apply firstn_skipn].
  f_equal. rewrite (skipn_get a j) by assumption.
  replace (Z.to_nat (j + 1)) with (S (Z.to_nat j)) by lia. reflexivity.
Qed.

End ArrayFacts.

Section InitRunFacts.

Variable dwPattern : val.

Local Abbreviation fillValue := (fillValue dwPattern).
Local Abbreviation filled := (filled dwPattern).

Lemma scan_app (l1 l2 : list val) (p : val) (c : Z) :
  scan (l1 ++ l2) p c = let '(p1, c1) := scan l1 p c in scan l2 p1 c1.
Proof.
  revert p c. induction l1 as [|dw l1 IH]; intros p c; simpl; [reflexivity|].
  destruct (strictEq p dw); apply IH.
Qed.

Lemma initRun_plus (n1 n2 : nat) (idw : Z) (adw : list val)
      (p : val) (c : Z) :
  initRun dwPattern (n1 + n2) idw adw p c
  = let '(a1, p1, c1) := initRun dwPattern n1 idw adw p c in
    initRun dwPattern n2 (idw + Z.of_nat n1) a1 p1 c1.
Proof.
  revert idw adw p c.
  induction n1 as [|n1 IH]; intros idw adw p c.
  - simpl. f_equal. lia.
  - cbn [Nat.add initRun].
    replace (idw + Z.of_nat (S n1)) with (idw + 1 + Z.of_nat n1) by lia.
    destruct (strictEq p _); apply IH.
Qed.

(** A cell in the middle of an array, read and stored. *)
Lemma get_middle (pre tl : list val) (x : val) :
  get (pre ++ x :: tl) (len pre) = x.
Proof.
  rewrite get_app_r by lia. replace (len pre - len pre) with 0 by lia.
  reflexivity.
Qed.

Lemma set_middle (pre tl : list val) (x v : val) :
  set (pre ++ x :: tl) (len pre) v = pre ++ v :: tl.
Proof.
  unfold set. rewrite len_app, len_cons. pose proof (len_nonneg tl).
  destruct (len pre <? len pre + (len tl + 1)) eqn:E;
    [|apply Z.ltb_ge in E; lia].
  unfold len. rewrite Nat2Z.id.
  rewrite firstn_app, firstn_all, Nat.sub_diag. cbn [firstn].
  rewrite app_nil_r. f_equal.
  rewrite skipn_app, skipn_all2 by lia.
  replace (S (length pre) - length pre)%nat with 1%nat by lia. reflexivity.
Qed.

(** Filling a cell leaves the fill value as it is. *)
Lemma fillValue_keep (pre tl : list val) (x : val) :
  fillValue (pre ++ (if isUndef x then fillValue (pre ++ x :: tl) else x) :: tl)
  = fillValue (pre ++ x :: tl).
Proof.
  unfold fillValue.
  destruct (negb (isUndef dwPattern)); [reflexivity|].
  rewrite !len_app, !len_cons.
  destruct tl as [|t tl].
  - change (len (@nil val)) with 0.
    replace (len pre + (0 + 1) - 1) with (len pre) by lia.
    rewrite !get_middle. destruct (isUndef x); reflexivity.
  - pose proof (len_nonneg tl). rewrite len_cons.
    rewrite !(get_app_r pre) by lia.
    rewrite (get_cons_S x) by lia.
    rewrite (get_cons_S (if isUndef x then _ else x)) by lia. reflexivity.
Qed.

(** The loop over cells of the array: each cell that is [undefined] or
    [null] is filled, and the run is counted on the cells as filled. *)
Lemma initRun_cells (rest : list val) :
  forall pre post p c,
    initRun dwPattern (length rest) (len pre) (pre ++ rest ++ post) p c
    = let cells := map (fun w => if isUndef w
                                 then fillValue (pre ++ rest ++ post) else w)
                       rest in
      let '(p', c') := scan cells p c in (pre ++ cells ++ post, p', c').
Proof.
  induction rest as [|x rest IH]; intros pre post p c; cbv zeta.
  - reflexivity.
  - cbn [length initRun map scan app].
    rewrite get_middle.
    change (if negb (isUndef dwPattern) then dwPattern
            else get (pre ++ x :: rest ++ post)
                     (len (pre ++ x :: rest ++ post) - 1))
      with (fillValue (pre ++ x :: rest ++ post)).
    set (F := fillValue (pre ++ x :: rest ++ post)).
    set (dw := if isUndef x then F else x).
    assert (Ha : (if isUndef x then set (pre ++ x :: rest ++ post) (len pre) dw
                  else pre ++ x :: rest ++ post)
                 = (pre ++ [dw]) ++ rest ++ post).
    { rewrite <- app_assoc. cbn [app]. unfold dw.
      destruct (isUndef x); [apply set_middle | reflexivity]. }
    rewrite Ha.
    assert (Hl : len pre + 1 = len (pre ++ [dw]))
      by (rewrite len_app; reflexivity).
    rewrite Hl.
    assert (HF : fillValue ((pre ++ [dw]) ++ rest ++ post) = F).
    { rewrite <- app_assoc. cbn [app]. unfold dw, F.
      apply (fillValue_keep pre (rest ++ post) x). }
    assert (Hrec : forall p0 c0,
               initRun dwPattern (length rest) (len (pre ++ [dw]))
                       ((pre ++ [dw]) ++ rest ++ post) p0 c0
               = let cells := map (fun w => if isUndef w then F else w) rest in
                 let '(p', c') := scan cells p0 c0 in
                 (pre ++ dw :: cells ++ post, p', c')).
    { intros p0 c0. rewrite IH. rewrite HF. cbv zeta.
      destruct (scan _ p0 c0) as [p' c'].
      rewrite <- app_assoc. reflexivity. }
    destruct (strictEq p dw); apply Hrec.
Qed.

Lemma len_filled (adw : list val) : len (filled adw) = len adw.
Proof. unfold filled. apply len_map. Qed.

Lemma fillValue_filled (adw : list val) :
  fillValue (filled adw) = fillValue adw.
Proof.
  unfold fillValue at 1.
  destruct (negb (isUndef dwPattern)) eqn:E;
    [unfold fillValue; rewrite E; reflexivity|].
  rewrite len_filled.
  destruct adw as [|x adw] using rev_ind.
  - unfold fillValue. rewrite E. reflexivity.
  - unfold filled. rewrite map_app. cbn [map].
    rewrite len_app. change (len [x]) with 1.
    replace (len adw + 1 - 1)
      with (len (map (fun w => if isUndef w
                               then fillValue (adw ++ [x]) else w) adw))
      by (rewrite len_map; lia).
    rewrite get_middle.
    assert (HF : fillValue (adw ++ [x]) = x).
    { unfold fillValue. rewrite E.
      rewrite len_app. change (len [x]) with 1.
      replace (len adw + 1 - 1) with (len adw) by lia. apply get_middle. }
    rewrite HF. destruct (isUndef x); reflexivity.
Qed.

Lemma initRun_fill (n : nat) (adw : list val) (p : val) (c : Z) :
  initRun dwPattern n (len adw) adw p c
  = let '(p', c') := scan (repeat (fillValue adw) n) p c in
    (adw ++ repeat (fillValue adw) n, p', c').
Proof.
  revert adw p c.
  induction n as [|n IH]; intros adw p c.
  - simpl. rewrite app_nil_r. reflexivity.
  - cbn [initRun repeat scan].
    rewrite (get_ge adw (len adw)) by lia. cbn [isUndef].
    change (if negb (isUndef dwPattern) then dwPattern
            else get adw (len adw - 1)) with (fillValue adw).
    rewrite set_end.
    assert (HF : fillValue (adw ++ [fillValue adw]) = fillValue adw).
    { unfold fillValue.
      destruct (negb (isUndef dwPattern)); [reflexivity|].
      rewrite len_app. change (len [get adw (len adw - 1)]) with 1.
      rewrite get_app_r by lia.
      replace (len adw + 1 - 1 - len adw) with 0 by lia. reflexivity. }
    assert (Hrec : forall p0 c0,
               initRun dwPattern n (len adw + 1) (adw ++ [fillValue adw]) p0 c0
               = let '(p', c') := scan (repeat (fillValue adw) n) p0 c0 in
                 (adw ++ fillValue adw :: repeat (fillValue adw) n, p', c')).
    { intros p0 c0.
      replace (len adw + 1) with (len (adw ++ [fillValue adw]))
        by (rewrite len_app; reflexivity).
      rewrite IH. rewrite HF.
      rewrite <- app_assoc. reflexivity. }
    destruct (strictEq p (fillValue adw)); apply Hrec.
Qed.

(** The loop on an array that is no longer than the sector: its cells are
    filled, the array is padded with the fill value, and the run is counted
    on the result. *)
Lemma initRun_short (n : nat) (adw : list val) :
  len adw <= Z.of_nat n ->
  initRun dwPattern n 0 adw Null 0
  = let orig := filled adw ++ repeat (fillValue adw) (n - length adw) in
    let '(p, c) := scan orig Null 0 in (orig, p, c).
Proof.
  intros Hlen.
  replace n with (length adw + (n - length adw))%nat at 1
    by (unfold len in Hlen; lia).
  rewrite initRun_plus.
  pose proof (initRun_cells adw [] [] Null 0) as H.
  cbn [app] in H. rewrite !app_nil_r in H. change (len (@nil val)) with 0 in H.
  rewrite H. cbv zeta. fold (filled adw). rewrite scan_app.
  destruct (scan (filled adw) Null 0) as [p1 c1].
  replace (0 + Z.of_nat (length adw)) with (len (filled adw))
    by (rewrite len_filled; reflexivity).
  rewrite initRun_fill. rewrite fillValue_filled. reflexivity.
Qed.

(** The loop on an array that is at least as long as the sector: the first
    cells are filled and the run is counted on them. *)
Lemma initRun_long (n : nat) (adw : list val) :
  Z.of_nat n <= len adw ->
  initRun dwPattern n 0 adw Null 0
  = let cells := firstn n (filled adw) in
    let '(p, c) := scan cells Null 0 in (cells ++ skipn n adw, p, c).
Proof.
  intros Hlen.
  pose proof (initRun_cells (firstn n adw) [] (skipn n adw) Null 0) as H.
  cbn [app] in H. rewrite firstn_skipn in H.
  rewrite length_firstn in H.
  replace (Init.Nat.min n (length adw)) with n in H by (unfold len in Hlen; lia).
  change (len (@nil val)) with 0 in H. rewrite H. cbv zeta.
  unfold filled. rewrite firstn_map. reflexivity.
Qed.

Lemma filled_defined (adw : list val) :
  Forall (fun w => isUndef w = false) adw -> filled adw = adw.
Proof.
  intros H. unfold filled.
  generalize (fillValue adw) as F. intros F.
  induction H as [|w l Hw _ IH]; [reflexivity|].
  cbn [map]. rewrite Hw, IH. reflexivity.
Qed.

End InitRunFacts.

Section RunFacts.

Lemma runInv_single (dw : val) : runInv [dw] dw 0.
Proof.
  split; [change (len [dw]) with 1; lia|].
  intros j Hj. change (len [dw]) with 1 in Hj.
  replace j with 0 by lia. reflexivity.
Qed.

Lemma runInv_same (pre : list val) (p : val) (c : Z) :
  runInv pre p c -> runInv (pre ++ [p]) p (c + 1).
Proof.
  intros [Hc Hrun]. split; rewrite len_app; change (len [p]) with 1; [lia|].
  intros j Hj.
  destruct (Z.lt_ge_cases j (len pre)) as [Hlt|Hge].
  - rewrite get_app_l by assumption. apply Hrun. lia.
  - rewrite get_app_r by assumption.
    replace (j - len pre) with 0 by lia. reflexivity.
Qed.

Lemma runInv_new (pre : list val) (dw : val) : runInv (pre ++ [dw]) dw 0.
Proof.
  pose proof (len_nonneg pre).
  split; rewrite len_app; change (len [dw]) with 1; [lia|].
  intros j Hj. rewrite get_app_r by lia.
  replace (j - len pre) with 0 by lia. reflexivity.
Qed.

Lemma scan_runInv (l pre : list val) (p : val) (c : Z) :
  runInv pre p c ->
  exists p' c', scan l p c = (p', c') /\ runInv (pre ++ l) p' c'.
Proof.
  revert pre p c.
  induction l as [|dw l IH]; intros pre p c Hinv.
  - exists p, c. rewrite app_nil_r. split; [reflexivity | assumption].
  - cbn [scan].
    replace (pre ++ dw :: l) with ((pre ++ [dw]) ++ l)
      by (rewrite <- app_assoc; reflexivity).
    destruct (strictEq p dw) eqn:E.
    + apply strictEq_eq in E. subst dw.
      apply IH. apply runInv_same. assumption.
    + apply IH. apply runInv_new.
Qed.

Lemma allNull_app (a b : list val) :
  allNull (a ++ b) = allNull a && allNull b.
Proof. apply forallb_app. Qed.

(** The loop after values that are all [null]: while [dwPrev] is [null] as
    at the start, these values count as a run, the first one too. *)
Lemma scan_nulls (l pre : list val) :
  allNull pre = true ->
  exists p c,
    scan l Null (len pre) = (p, c)
    /\ if allNull l then p = Null /\ c = len pre + len l
       else runInv (pre ++ l) p c.
Proof.
  revert pre. induction l as [|dw l IH]; intros pre Hpre.
  - exists Null, (len pre). cbn [scan allNull forallb].
    change (len (@nil val)) with 0. split; [reflexivity|]. split; [reflexivity | lia].
  - assert (Hnew : forall w, strictEq Null w = false ->
               exists p c, scan l w 0 = (p, c)
                           /\ runInv (pre ++ w :: l) p c).
    { intros w _.
      replace (pre ++ w :: l) with ((pre ++ [w]) ++ l)
        by (rewrite <- app_assoc; reflexivity).
      apply scan_runInv. apply runInv_new. }
    destruct dw as [| |n]; cbn [scan strictEq].
    + destruct (Hnew Undef eq_refl) as (p & c & Hs & Hinv).
      exists p, c. split; [exact Hs | exact Hinv].
    + destruct (IH (pre ++ [Null])) as (p & c & Hs & H).
      { rewrite allNull_app, Hpre. reflexivity. }
      rewrite len_app in Hs. change (len [Null]) with 1 in Hs.
      exists p, c. split; [exact Hs|].
      change (allNull (Null :: l)) with (allNull l).
      destruct (allNull l).
      * destruct H as [-> ->]. split; [reflexivity|].
        unfold len. rewrite length_app. cbn [length]. lia.
      * rewrite <- app_assoc in H. exact H.
    + destruct (Hnew (Num n) eq_refl) as (p & c & Hs & Hinv).
      exists p, c. split; [exact Hs | exact Hinv].
Qed.

(** After the loop, [cPrev] counts the final run; when all values are
    [null], it counts them all. *)
Lemma scan_spec (l : list val) :
  exists p c,
    scan l Null 0 = (p, c)
    /\ if allNull l then c = len l else runInv l p c.
Proof.
  destruct (scan_nulls l [] eq_refl) as (p & c & Hs & H).
  change (len (@nil val)) with 0 in *. cbn [app] in H.
  exists p, c. split; [exact Hs|].
  destruct (allNull l); [lia | exact H].
Qed.

Lemma get_firstn (l : list val) (m : nat) (j : Z) :
  j < Z.of_nat m -> get (firstn m l) j = get l j.
Proof.
  intros Hj. unfold get.
  destruct (j <? 0) eqn:E; [reflexivity|]. apply Z.ltb_ge in E.
  assert (Hn : (Z.to_nat j < m)%nat) by lia.
  revert Hn. generalize (Z.to_nat j) as n. clear. revert m.
  induction l as [|x l IH]; intros m n Hn.
  - rewrite firstn_nil. reflexivity.
  - destruct m as [|m]; [lia|]. destruct n as [|n]; [reflexivity|].
    cbn [firstn nth]. apply IH. lia.
Qed.

Lemma storedWord_get (adw : list val) (k : Z) :
  0 <= k ->
  storedWord adw k = if k <? len adw then get adw k else get adw (len adw - 1).
Proof. intros Hk. symmetry. apply read_word. assumption. Qed.

Lemma len_firstn {A} (l : list A) (m : nat) :
  Z.of_nat m <= len l -> len (firstn m l) = Z.of_nat m.
Proof. unfold len. intros H. rewrite length_firstn. lia. Qed.

(** Dropping the counted run keeps every value readable: the last stored
    value stands for the values dropped. *)
Lemma storedWord_truncated (l : list val) (p : val) (c k : Z) :
  runInv l p c -> 0 <= k < len l ->
  storedWord (firstn (Z.to_nat (len l - c)) l) k = get l k.
Proof.
  intros [Hc Hrun] Hk.
  rewrite storedWord_get by lia.
  rewrite len_firstn by lia.
  rewrite Z2Nat.id by lia.
  destruct (k <? len l - c) eqn:E.
  - apply Z.ltb_lt in E. apply get_firstn. lia.
  - apply Z.ltb_ge in E. rewrite get_firstn by lia.
    rewrite (Hrun k) by lia. apply Hrun. lia.
Qed.

Lemma expand_nth (adw : list val) (cdw k : Z) :
  0 <= k < cdw -> get (expand adw cdw) k = storedWord adw k.
Proof.
  intros Hk. unfold expand, get.
  destruct (k <? 0) eqn:E; [apply Z.ltb_lt in E; lia|].
  rewrite (nth_indep _ Undef (storedWord adw (Z.of_nat 0)))
    by (rewrite length_map, length_seq; lia).
  rewrite (map_nth (fun k0 => storedWord adw (Z.of_nat k0))).
  rewrite seq_nth by lia. f_equal. lia.
Qed.

Lemma len_expand (adw : list val) (cdw : Z) :
  0 <= cdw -> len (expand adw cdw) = cdw.
Proof.
  intros H. unfold expand, len. rewrite length_map, length_seq. lia.
Qed.

(** Two arrays of the same length with the same cells are equal. *)
Lemma list_eq_get (a b : list val) :
  len a = len b -> (forall k, 0 <= k < len a -> get a k = get b k) -> a = b.
Proof.
  revert b. induction a as [|x a IH]; intros [|y b] Hlen Hget.
  - reflexivity.
  - rewrite len_cons in Hlen. pose proof (len_nonneg b). change (len []) with 0 in Hlen. lia.
  - rewrite len_cons in Hlen. pose proof (len_nonneg a). change (len []) with 0 in Hlen. lia.
  - rewrite !len_cons in Hlen. pose proof (len_nonneg a).
    f_equal.
    + specialize (Hget 0). rewrite len_cons in Hget. apply Hget. lia.
    + apply IH; [lia|]. intros k Hk.
      specialize (Hget (k + 1)). rewrite len_cons in Hget.
      rewrite !get_cons_S in Hget by lia.
      replace (k + 1 - 1) with k in Hget by lia. apply Hget. lia.
Qed.

Lemma expand_truncated (l : list val) (p : val) (c : Z) :
  runInv l p c -> expand (firstn (Z.to_nat (len l - c)) l) (len l) = l.
Proof.
  intros Hinv. pose proof (len_nonneg l).
  apply list_eq_get.
  - apply len_expand. assumption.
  - intros k Hk. rewrite len_expand in Hk by assumption.
    rewrite expand_nth by assumption.
    apply storedWord_truncated with (p := p); assumption.
Qed.

End RunFacts.

Section InitSectorFacts.

Lemma LENGTH_setDATA s adw : LENGTH (setDATA s adw) = LENGTH s.
Proof. reflexivity. Qed.

Lemma initSector_LENGTH this sector adw cb pat :
  LENGTH (fst (initSector this sector adw cb pat)) = LENGTH sector.
Proof.
  unfold initSector.
  destruct (initRun pat (Z.to_nat (sar cb 2)) 0 adw Null 0) as [[adw1 p] c].
  cbn [fst]. destruct (fWritable this); reflexivity.
Qed.

Lemma initSector_DATA this sector adw cb pat :
  DATA (fst (initSector this sector adw cb pat))
  = let '(adw1, _, cPrev) := initRun pat (Z.to_nat (sar cb 2)) 0 adw Null 0 in
    firstn (Z.to_nat (len adw1 - cPrev)) adw1.
Proof.
  unfold initSector.
  destruct (initRun pat (Z.to_nat (sar cb 2)) 0 adw Null 0) as [[adw1 p] c].
  cbn [fst]. destruct (fWritable this); reflexivity.
Qed.

Lemma len_padded pat adw cdw :
  len adw <= cdw -> len (padded pat adw cdw) = cdw.
Proof.
  intros H. unfold padded. rewrite len_app, len_filled, len_repeat.
  unfold len in *. lia.
Qed.

(** What initSector stores for an array that is no longer than the sector:
    the values that the array stands for, without their final run; nothing
    when all the values are [null]. *)
Lemma initSector_short this sector adw cb pat :
  0 <= cb < 2 ^ 31 -> len adw <= cb / 4 ->
  let s := fst (initSector this sector adw cb pat) in
  let orig := padded pat adw (cb / 4) in
  len (DATA s) <= cb / 4
  /\ if allNull orig then DATA s = []
     else expand (DATA s) (cb / 4) = orig /\ DATA s <> [].
Proof.
  intros Hcb Hlen. cbv zeta.
  rewrite initSector_DATA.
  assert (Hs : sar cb 2 = cb / 4) by (apply (sar_small cb 2); lia).
  rewrite Hs.
  assert (Hdiv : 0 <= cb / 4) by (apply Z.div_pos; lia).
  rewrite initRun_short by lia.
  cbv zeta. fold (padded pat adw (cb / 4)).
  set (orig := padded pat adw (cb / 4)).
  assert (Hfl : len orig = cb / 4) by (apply len_padded; assumption).
  destruct (scan_spec orig) as (p & c & Hscan & H).
  rewrite Hscan.
  destruct (allNull orig).
  - subst c. rewrite Z.sub_diag. cbn [Z.to_nat firstn].
    change (len (@nil val)) with 0. split; [lia | reflexivity].
  - pose proof H as [Hc _].
    split; [rewrite len_firstn by lia; lia|].
    split.
    + rewrite <- Hfl. apply expand_truncated with (p := p). assumption.
    + intros Hnil.
      assert (Hl : len (firstn (Z.to_nat (len orig - c)) orig) = len orig - c)
        by (rewrite len_firstn by lia; lia).
      rewrite Hnil in Hl. change (len (@nil val)) with 0 in Hl. lia.
Qed.

End InitSectorFacts.

Section BuildSectorFacts.

Lemma readWords_defined db n ib adw :
  readWords db n ib = Some adw ->
  length adw = n /\ Forall (fun w => isUndef w = false) adw.
Proof.
  revert ib adw. induction n as [|n IH]; intros ib adw H.
  - injection H as <-. split; [reflexivity | constructor].
  - cbn [readWords] in H.
    destruct (match db with
              | Some b => if ib <? DataBuffer.length b
                          then DataBuffer.readInt32LE b ib else Some 0
              | None => Some 0
              end) as [dw|]; [|discriminate].
    destruct (readWords db n (ib + 4)) as [rest|] eqn:E; [|discriminate].
    injection H as <-. destruct (IH _ _ E) as [Hl Hd].
    split; [simpl; congruence | constructor; [reflexivity | assumption]].
Qed.

Lemma allNull_defined (l : list val) :
  Forall (fun w => isUndef w = false) l -> l <> [] -> allNull l = false.
Proof.
  intros H Hl. destruct H as [|w l Hw _]; [congruence|].
  destruct w; [discriminate | discriminate | reflexivity].
Qed.

Lemma padded_defined pat adw :
  Forall (fun w => isUndef w = false) adw ->
  padded pat adw (len adw) = adw.
Proof.
  intros H. unfold padded. rewrite filled_defined by assumption.
  unfold len. rewrite Nat2Z.id, Nat.sub_diag. apply app_nil_r.
Qed.

(** A byte that the buffer has is the byte of [bufferByte]. *)
Lemma item_bufferByte (b : DataBuffer.t) (i x : Z) :
  item b i = Some x -> 0 <= i /\ bufferByte (Some b) i = x.
Proof.
  unfold item, bufferByte. destruct (i <? 0) eqn:E; [discriminate|].
  apply Z.ltb_ge in E. intros H. split; [assumption|].
  apply nth_error_nth. assumption.
Qed.

Lemma readInt32LE_word (b : DataBuffer.t) (p w : Z) :
  DataBuffer.readInt32LE b p = Some w ->
  0 <= p /\ Num w = bufferWord (Some b) p.
Proof.
  unfold DataBuffer.readInt32LE, DataBuffer.readUInt32LE, DataBuffer.readUInt8.
  intros H.
  destruct (item b p) as [b0|] eqn:E0; [|discriminate].
  destruct (item b (p + 1)) as [b1|] eqn:E1; [|discriminate].
  destruct (item b (p + 2)) as [b2|] eqn:E2; [|discriminate].
  destruct (item b (p + 3)) as [b3|] eqn:E3; [|discriminate].
  injection H as <-.
  apply item_bufferByte in E0, E1, E2, E3.
  destruct E0 as [H0 <-], E1 as [_ <-], E2 as [_ <-], E3 as [_ <-].
  split; [assumption | reflexivity].
Qed.

(** The values that buildSector reads are the values that the bytes of the
    buffer make. *)
Lemma readWords_words db n :
  forall ib ws, readWords db n ib = Some ws -> ws = bufferWords db ib n.
Proof.
  induction n as [|n IH]; intros ib ws H.
  - injection H as <-. reflexivity.
  - cbn [readWords] in H.
    destruct (match db with
              | Some b => if ib <? DataBuffer.length b
                          then DataBuffer.readInt32LE b ib else Some 0
              | None => Some 0
              end) as [dw|] eqn:Ed; [|discriminate].
    destruct (readWords db n (ib + 4)) as [rest|] eqn:Er; [|discriminate].
    injection H as <-.
    unfold bufferWords. cbn [seq map].
    rewrite <- seq_shift, map_map.
    rewrite (IH _ _ Er). unfold bufferWords.
    f_equal.
    + change (Z.of_nat 0) with 0. replace (ib + 4 * 0) with ib by lia.
      destruct db as [b|].
      * destruct (ib <? DataBuffer.length b) eqn:El.
        -- apply readInt32LE_word in Ed. apply Ed.
        -- apply Z.ltb_ge in El. unfold DataBuffer.length, len in El.
           injection Ed as <-. unfold bufferWord, bufferByte.
           pose proof (Zle_0_nat (length b)).
           repeat match goal with
                  | |- context [?a <? 0] =>
                      replace (a <? 0) with false
                        by (symmetry; apply Z.ltb_ge; lia)
                  end.
           rewrite !nth_overflow by lia. reflexivity.
      * injection Ed as <-. reflexivity.
    + apply map_ext. intros k. f_equal. lia.
Qed.

(** The sector buildSector returns. *)
Lemma buildSector_invariant this c h id cb db ib s this' :
  0 <= cb < 2 ^ 31 ->
  buildSector this c h id cb db ib = Some (s, this') ->
  LENGTH s = cb
  /\ len (DATA s) <= cb / 4
  /\ readWords db (Z.to_nat (cb / 4)) ib = Some (expand (DATA s) (cb / 4))
  /\ (4 <= cb -> DATA s <> []).
Proof.
  intros Hcb H. unfold buildSector in H.
  assert (Hs : sar cb 2 = cb / 4) by (apply (sar_small cb 2); lia).
  rewrite Hs in H.
  destruct (readWords db (Z.to_nat (cb / 4)) ib) as [adw|] eqn:E; [|discriminate].
  injection H as H.
  set (sector0 := {| CYLINDER := c; HEAD := h; ID := Num id; LENGTH := cb;
                     DATA := adw; FILE_INFO := None; FILE_OFFSET := None;
                     DATA_CRC := None; DATA_ERROR := None; DATA_MARK := None;
                     HEAD_CRC := None; HEAD_ERROR := None; iModify := None;
                     cModify := None |}) in *.
  assert (Hfst : s = fst (initSector this sector0 adw cb (Num 0)))
    by (rewrite H; reflexivity).
  destruct (readWords_defined _ _ _ _ E) as [Hl Hd].
  assert (Hdiv : 0 <= cb / 4) by (apply Z.div_pos; lia).
  assert (Hlen : len adw = cb / 4) by (unfold len; lia).
  pose proof (initSector_short this sector0 adw cb (Num 0) Hcb ltac:(lia))
    as Hinit.
  cbv zeta in Hinit. rewrite <- Hfst in Hinit.
  assert (Hp : padded (Num 0) adw (cb / 4) = adw)
    by (rewrite <- Hlen; apply padded_defined; assumption).
  rewrite Hp in Hinit.
  destruct Hinit as (Hb & Hinit).
  subst s. rewrite initSector_LENGTH. cbn [LENGTH].
  split; [reflexivity|]. split; [assumption|].
  destruct adw as [|w adw'] eqn:Ea.
  - change (len (@nil val)) with 0 in Hlen. cbn [allNull forallb] in Hinit.
    rewrite Hinit, <- Hlen. split; [reflexivity|].
    intros H4. assert (1 <= cb / 4) by (apply Z.div_le_lower_bound; lia). lia.
  - rewrite <- Ea in *.
    rewrite (allNull_defined adw Hd) in Hinit by (rewrite Ea; discriminate).
    destruct Hinit as [He Hn]. rewrite He.
    split; [reflexivity | intros _; assumption].
Qed.

(** The sector rebuildSector returns for an array that is no longer than
    the sector. *)
Lemma rebuildSector_invariant this c h j :
  let cb := rebuildLength j in
  let adw := rebuildData j in
  let s := fst (rebuildSector this c h j) in
  let orig := padded (snd (rebuildID j)) adw (cb / 4) in
  0 <= cb < 2 ^ 31 -> len adw <= cb / 4 ->
  LENGTH s = cb
  /\ len (DATA s) <= cb / 4
  /\ if allNull orig then DATA s = []
     else expand (DATA s) (cb / 4) = orig /\ DATA s <> [].
Proof.
  intros cb adw s orig Hcb Hlen. subst s orig. unfold rebuildSector.
  destruct (rebuildID j) as [idSector dwPattern] eqn:Eid.
  fold cb. fold adw. rewrite initSector_LENGTH. cbn [LENGTH snd].
  split; [reflexivity|].
  apply initSector_short; assumption.
Qed.

End BuildSectorFacts.

(* ===================================================================== *)
(** * The sector invariant *)
(* ===================================================================== *)

(** C3, as the claim states it, fails: rebuildSector keeps an array that is
    longer than the sector ({"s":1,"l":8,"d":[1,2,3]} stores 3 values for a
    sector of 2); buildSector stores nothing for a sector of 2 bytes; a
    sector of 6 bytes stores 4 bytes only; and rebuildSector stores nothing
    for a sector of 16 bytes whose values are all null
    ({"s":1,"l":16,"d":[null]}). *)
Lemma sector_invariant_counterexample :
  ~ storedBound (fst (rebuildSector (constructor "" false) 0 0
                                    (jsonSector 1 8 [Num 1; Num 2; Num 3])))
  /\ (exists s this',
         buildSector (constructor "" false) 0 0 1 2 (Some [1; 2]) 0
         = Some (s, this') /\ ~ nonEmpty s)
  /\ (exists s this',
         buildSector (constructor "" false) 0 0 1 6 (Some [1; 2; 3; 4; 5; 6]) 0
         = Some (s, this')
         /\ ~ reconstructs s (bufferWords (Some [1; 2; 3; 4; 5; 6]) 0
                                          (Z.to_nat (6 / 4))))
  /\ ~ nonEmpty (fst (rebuildSector (constructor "" false) 0 0
                                    (jsonSector 1 16 [Null]))).
Proof.
  split; [|split; [|split]].
  - unfold storedBound. vm_compute. intros H. apply H. reflexivity.
  - eexists. eexists. split; [vm_compute; reflexivity|].
    unfold nonEmpty. cbn [LENGTH DATA]. intros H. apply H; [lia | reflexivity].
  - eexists. eexists. split; [vm_compute; reflexivity|].
    unfold reconstructs. cbn [LENGTH DATA]. intros [_ H]. vm_compute in H.
    discriminate.
  - unfold nonEmpty. vm_compute. intros H. apply H; reflexivity.
Qed.

(** C3, amended.  Every sector that buildSector returns, and every sector
    that rebuildSector returns for a data array of at most length/4 values,
    satisfies (the length being a non-negative 32-bit integer): the stored
    array has at most length/4 entries.  For buildSector, repeating the last
    stored value to fill length/4 values gives back the values that the
    bytes of the buffer make from the offset on (0 past its end), which are
    exactly length bytes when the length is a multiple of 4, and the stored
    array is non-empty whenever the length is at least 4.  For rebuildSector
    the original values are the given array, with the legacy pattern or else
    the array's own last value in the place of a value that is null or
    missing; when they are all null (or there is none) nothing is stored, and
    otherwise repeating the last stored value gives them back (exactly length
    bytes when the length is a multiple of 4) and the stored array is
    non-empty. *)
Theorem sector_invariant :
  (forall this c h id cb db ib s this',
      0 <= cb < 2 ^ 31 ->
      buildSector this c h id cb db ib = Some (s, this') ->
      let orig := bufferWords db ib (Z.to_nat (cb / 4)) in
      LENGTH s = cb
      /\ storedBound s
      /\ expand (DATA s) (LENGTH s / 4) = orig
      /\ (cb mod 4 = 0 -> reconstructs s orig)
      /\ (4 <= LENGTH s -> DATA s <> []))
  /\ (forall this c h j,
        0 <= rebuildLength j < 2 ^ 31 ->
        len (rebuildData j) <= rebuildLength j / 4 ->
        let s := fst (rebuildSector this c h j) in
        let orig := padded (snd (rebuildID j)) (rebuildData j)
                           (rebuildLength j / 4) in
        LENGTH s = rebuildLength j
        /\ storedBound s
        /\ if allNull orig then DATA s = []
           else expand (DATA s) (LENGTH s / 4) = orig
                /\ (rebuildLength j mod 4 = 0 -> reconstructs s orig)
                /\ DATA s <> []).
Proof.
  split.
  - intros this c h id cb db ib s this' Hcb H orig.
    destruct (buildSector_invariant _ _ _ _ _ _ _ _ _ Hcb H)
      as (HL & Hb & Hr & Hn).
    apply readWords_words in Hr. fold orig in Hr.
    assert (Hdiv : 0 <= cb / 4) by (apply Z.div_pos; lia).
    unfold storedBound, reconstructs. rewrite HL.
    split; [reflexivity|]. split; [assumption|]. split; [assumption|].
    split; [|assumption].
    intros Hm. split; [assumption|]. rewrite <- Hr.
    rewrite len_expand by assumption.
    pose proof (Z.div_mod cb 4 ltac:(lia)). lia.
  - intros this c h j Hcb Hlen s orig.
    destruct (rebuildSector_invariant this c h j Hcb Hlen) as (HL & Hb & Hr).
    fold s in HL, Hb, Hr. fold orig in Hr.
    assert (Hdiv : 0 <= rebuildLength j / 4) by (apply Z.div_pos; lia).
    unfold storedBound, reconstructs. rewrite HL.
    split; [reflexivity|]. split; [assumption|].
    destruct (allNull orig); [assumption|].
    destruct Hr as [He Hn].
    split; [assumption|]. split; [|assumption].
    intros Hm. split; [assumption|]. rewrite <- He.
    rewrite len_expand by assumption.
    pose proof (Z.div_mod (rebuildLength j) 4 ltac:(lia)). lia.
Qed.

(** The invariant at a sector of 8 equal bytes built from a buffer and at the
    JSON sector {"s":1,"l":16,"d":[7,null,9]}, which stores 7 and 9. *)
Lemma sector_invariant_witness :
  expand [Num 0x05050505] (8 / 4)
  = bufferWords (Some [5; 5; 5; 5; 5; 5; 5; 5]) 0 (Z.to_nat (8 / 4))
  /\ expand (DATA (fst (rebuildSector (constructor "" false) 0 0
                          (jsonSector 1 16 [Num 7; Null; Num 9])))) (16 / 4)
     = [Num 7; Num 9; Num 9; Num 9].
Proof.
  split.
  - destruct (proj1 sector_invariant (constructor "" false) 0 0 1 8
                    (Some [5; 5; 5; 5; 5; 5; 5; 5]) 0
                    (mkSector 0 0 (Num 1) 8 [Num 0x05050505] None None None
                              None None None None None None)
                    (setChecksum (constructor "" false) (Num 0))
                    ltac:(lia) ltac:(vm_compute; reflexivity))
      as (_ & _ & Hr & _).
    exact Hr.
  - pose proof (proj2 sector_invariant (constructor "" false) 0 0
                      (jsonSector 1 16 [Num 7; Null; Num 9])
                      ltac:(vm_compute; split; [discriminate | reflexivity])
                      ltac:(vm_compute; discriminate)) as H.
    cbv zeta in H. destruct H as (_ & _ & H).
    change (allNull (padded (snd (rebuildID (jsonSector 1 16 [Num 7; Null; Num 9])))
                            (rebuildData (jsonSector 1 16 [Num 7; Null; Num 9]))
                            (rebuildLength (jsonSector 1 16 [Num 7; Null; Num 9]) / 4)))
      with false in H.
    destruct H as (H & _). exact H.
Defined.

(* ===================================================================== *)
(** * write *)
(* ===================================================================== *)

Section BitFacts.

Lemma toInt32_mod (x : Z) : toInt32 x mod 2 ^ 32 = x mod 2 ^ 32.
Proof.
  rewrite toInt32_spec.
  rewrite Zminus_mod, Zmod_mod, <- Zminus_mod.
  f_equal. lia.
Qed.

Lemma toInt32_testbit (x n : Z) :
  0 <= n < 32 -> Z.testbit (toInt32 x) n = Z.testbit x n.
Proof.
  intros Hn.
  rewrite <- (Z.mod_pow2_bits_low (toInt32 x) 32 n) by lia.
  rewrite toInt32_mod. apply Z.mod_pow2_bits_low. lia.
Qed.

(** The bits of the value write stores:
    [(w & ~(0xff << s)) | (b << s)] for a byte [b] and a shift of 0, 8, 16
    or 24. *)
Lemma replaceByte_testbit (w b s n : Z) :
  0 <= b < 256 -> 0 <= s <= 24 -> 0 <= n < 32 ->
  Z.testbit (bor (band w (bnot (shl 0xff s))) (shl b s)) n
  = if (s <=? n) && (n <? s + 8) then Z.testbit b (n - s) else Z.testbit w n.
Proof.
  intros Hb Hs Hn.
  unfold bor, band, bnot, shl. rewrite !shiftCount.
  rewrite Z.lor_spec, !toInt32_testbit by lia.
  rewrite Z.land_spec, !toInt32_testbit by lia.
  rewrite Z.lnot_spec by lia.
  rewrite !toInt32_testbit by lia.
  rewrite (Z.mod_small s 32) by lia.
  rewrite !Z.shiftl_spec by lia.
  rewrite (toInt32_small 255) by lia.
  rewrite (toInt32_small b) by lia.
  destruct (s <=? n) eqn:E1; cbn [andb].
  - apply Z.leb_le in E1.
    destruct (n <? s + 8) eqn:E2.
    + apply Z.ltb_lt in E2.
      assert (H255 : Z.testbit 255 (n - s) = true).
      { change 255 with (Z.ones 8). apply Z.ones_spec_low. lia. }
      rewrite H255. cbn [negb]. rewrite andb_false_r. reflexivity.
    + apply Z.ltb_ge in E2.
      assert (H255 : Z.testbit 255 (n - s) = false).
      { change 255 with (Z.ones 8). apply Z.ones_spec_high. lia. }
      assert (Hbb : Z.testbit b (n - s) = false).
      { rewrite <- (Z.mod_small b (2 ^ 8)) by lia.
        apply Z.mod_pow2_bits_high. lia. }
      rewrite H255, Hbb. cbn [negb]. rewrite andb_true_r, orb_false_r.
      reflexivity.
  - apply Z.leb_gt in E1.
    rewrite !(Z.testbit_neg_r _ (n - s)) by lia.
    cbn [negb]. rewrite andb_true_r, orb_false_r. reflexivity.
Qed.

(** The bits of a byte taken out of a value. *)
Lemma byteOf_testbit (w s n : Z) :
  0 <= s -> 0 <= n ->
  Z.testbit ((w / 2 ^ s) mod 256) n
  = if n <? 8 then Z.testbit w (n + s) else false.
Proof.
  intros Hs Hn. change 256 with (2 ^ 8).
  destruct (n <? 8) eqn:E.
  - apply Z.ltb_lt in E. rewrite Z.mod_pow2_bits_low by lia.
    rewrite <- Z.shiftr_div_pow2 by lia. apply Z.shiftr_spec. lia.
  - apply Z.ltb_ge in E. apply Z.mod_pow2_bits_high. lia.
Qed.

Lemma byte_testbit_small (b n : Z) :
  0 <= b < 256 -> 0 <= n -> Z.testbit b n = if n <? 8 then Z.testbit b n else false.
Proof.
  intros Hb Hn. destruct (n <? 8) eqn:E; [reflexivity|].
  apply Z.ltb_ge in E. rewrite <- (Z.mod_small b (2 ^ 8)) by lia.
  apply Z.mod_pow2_bits_high. lia.
Qed.

(** Byte [j'] of the value write stores when it replaces byte [j]. *)
Lemma replaceByte_byte (w b j j' : Z) :
  0 <= b < 256 -> 0 <= j < 4 -> 0 <= j' < 4 ->
  (toInt32 (bor (band w (bnot (shl 0xff (8 * j)))) (shl b (8 * j)))
     / 2 ^ (j' * 8)) mod 256
  = if j' =? j then b else (toInt32 w / 2 ^ (j' * 8)) mod 256.
Proof.
  intros Hb Hj Hj'.
  apply Z.bits_inj'. intros n Hn.
  rewrite byteOf_testbit by lia.
  destruct (j' =? j) eqn:E.
  - apply Z.eqb_eq in E. subst j'.
    rewrite (byte_testbit_small b n) by lia.
    destruct (n <? 8) eqn:E8; [|reflexivity]. apply Z.ltb_lt in E8.
    rewrite toInt32_testbit by lia.
    rewrite replaceByte_testbit by lia.
    replace ((8 * j <=? n + j * 8) && (n + j * 8 <? 8 * j + 8)) with true
      by (symmetry; apply andb_true_iff; split; [apply Z.leb_le | apply Z.ltb_lt]; lia).
    f_equal. lia.
  - apply Z.eqb_neq in E.
    rewrite byteOf_testbit by lia.
    destruct (n <? 8) eqn:E8; [|reflexivity]. apply Z.ltb_lt in E8.
    rewrite !toInt32_testbit by lia.
    rewrite replaceByte_testbit by lia.
    replace ((8 * j <=? n + j' * 8) && (n + j' * 8 <? 8 * j + 8)) with false;
      [reflexivity|].
    symmetry. apply andb_false_iff.
    destruct (Z.lt_ge_cases j' j); [left; apply Z.leb_gt | right; apply Z.ltb_ge]; lia.
Qed.

End BitFacts.

Section WriteFacts.

Lemma fillPattern_spec (adw : list val) (pat : val) (n : nat) :
  fillPattern adw pat n (len adw) = adw ++ repeat pat n.
Proof.
  revert adw. induction n as [|n IH]; intros adw.
  - simpl. rewrite app_nil_r. reflexivity.
  - cbn [fillPattern repeat]. rewrite set_end.
    replace (len adw + 1) with (len (adw ++ [pat]))
      by (rewrite len_app; reflexivity).
    rewrite IH, <- app_assoc. reflexivity.
Qed.

Lemma len_set (a : list val) (i : Z) (v : val) :
  0 <= i < len a -> len (set a i v) = len a.
Proof.
  intros Hi. unfold set.
  destruct (i <? len a) eqn:E; [|apply Z.ltb_ge in E; lia].
  unfold len in *. rewrite length_app, length_firstn, length_cons.
  rewrite length_skipn. lia.
Qed.

Lemma get_set (a : list val) (i k : Z) (v : val) :
  0 <= i < len a ->
  get (set a i v) k = if k =? i then v else get a k.
Proof.
  intros Hi. unfold set.
  destruct (i <? len a) eqn:E; [|apply Z.ltb_ge in E; lia].
  assert (Hf : len (firstn (Z.to_nat i) a) = i)
    by (rewrite len_firstn; lia).
  destruct (k =? i) eqn:Ek.
  - apply Z.eqb_eq in Ek. subst k.
    rewrite get_app_r by lia. rewrite Hf.
    replace (i - i) with 0 by lia. reflexivity.
  - apply Z.eqb_neq in Ek.
    destruct (Z.lt_ge_cases k i) as [Hlt|Hge].
    + rewrite get_app_l by lia. apply get_firstn. lia.
    + rewrite get_app_r by lia. rewrite Hf.
      rewrite get_cons_S by lia.
      unfold get.
      destruct (k - i - 1 <? 0) eqn:E1; [apply Z.ltb_lt in E1; lia|].
      destruct (k <? 0) eqn:E2; [apply Z.ltb_lt in E2; lia|].
      rewrite nth_skipn. f_equal. lia.
Qed.

Lemma write_readonly this sector iByte b :
  fWritable this = false -> write this sector iByte b = (Some false, sector).
Proof. intros H. unfold write. rewrite H. reflexivity. Qed.

Lemma write_outside this sector iByte b :
  fWritable this = true -> LENGTH sector <= iByte ->
  write this sector iByte b = (None, sector).
Proof.
  intros H Hl. unfold write. rewrite H. cbn [negb].
  destruct (iByte <? LENGTH sector) eqn:E; [apply Z.ltb_lt in E; lia|].
  reflexivity.
Qed.

Lemma write_same this sector iByte b :
  fWritable this = true -> iByte < LENGTH sector ->
  b = read (Some sector) iByte ->
  write this sector iByte b = (Some true, sector).
Proof.
  intros H Hl Hb. unfold write. rewrite H. cbn [negb].
  destruct (iByte <? LENGTH sector) eqn:E; [|apply Z.ltb_ge in E; lia].
  rewrite <- Hb, Z.eqb_refl. reflexivity.
Qed.

Lemma write_changed this sector iByte b :
  fWritable this = true -> 0 <= iByte < 2 ^ 31 -> iByte < LENGTH sector ->
  b <> read (Some sector) iByte ->
  let adw := DATA sector in
  let idw := iByte / 4 in
  let adw1 := adw ++ repeat (last adw Undef) (Z.to_nat (idw + 1 - len adw)) in
  let dw := bor (band (valInt32 (storedWord adw idw))
                      (bnot (shl 0xff (8 * (iByte mod 4)))))
                (shl b (8 * (iByte mod 4))) in
  write this sector iByte b
  = (Some true,
     setModify (setDATA sector (set adw1 idw (Num dw)))
               (fst (newModify sector idw)) (snd (newModify sector idw))).
Proof.
  intros H Hi Hl Hb adw idw adw1 dw. unfold write. rewrite H. cbn [negb].
  destruct (iByte <? LENGTH sector) eqn:E; [|apply Z.ltb_ge in E; lia].
  destruct (b =? read (Some sector) iByte) eqn:Eb;
    [apply Z.eqb_eq in Eb; contradiction|].
  cbn [negb].
  assert (Hs : sar iByte 2 = idw) by (apply (sar_small iByte 2); lia).
  rewrite Hs, byteShift by assumption.
  fold adw. rewrite fillPattern_spec, get_last. fold adw1.
  assert (Hidw : 0 <= idw) by (apply Z.div_pos; lia).
  assert (Hw : get adw1 idw = storedWord adw idw).
  { rewrite storedWord_get by assumption. unfold adw1.
    pose proof (len_nonneg adw).
    destruct (idw <? len adw) eqn:El.
    - apply Z.ltb_lt in El. apply get_app_l. assumption.
    - apply Z.ltb_ge in El. rewrite get_app_r by assumption.
      rewrite get_last.
      rewrite get_nth_error by lia.
      destruct (nth_error _ _) as [w|] eqn:En.
      + apply nth_error_In, repeat_spec in En. assumption.
      + apply nth_error_None in En. rewrite repeat_length in En. lia. }
  rewrite Hw. fold dw. unfold newModify.
  destruct (cModify sector) as [cm|]; [destruct (iModify sector) as [im|]|].
  - destruct (cm =? 0); [reflexivity|].
    destruct (idw <? im); [reflexivity|].
    destruct (im + cm <=? idw); reflexivity.
  - destruct (cm =? 0); reflexivity.
  - reflexivity.
Qed.

End WriteFacts.

Section ModifyRange.

Variable this : DiskImage.
Hypothesis writable : fWritable this = true.

Lemma write_LENGTH sector iByte b :
  LENGTH (snd (write this sector iByte b)) = LENGTH sector.
Proof.
  unfold write. rewrite writable. cbn [negb].
  destruct (iByte <? LENGTH sector); [|reflexivity].
  destruct (negb (b =? read (Some sector) iByte)); [|reflexivity].
  destruct (match cModify sector with
            | Some _ => _
            | None => _
            end) as [iMod cMod].
  reflexivity.
Qed.

(** One write that changes a byte extends the marked range to its word. *)
Lemma modifyInv_step sector touched iByte b :
  modifyInv sector touched ->
  0 <= iByte < 2 ^ 31 -> iByte < LENGTH sector ->
  b <> read (Some sector) iByte ->
  modifyInv (snd (write this sector iByte b)) (touched ++ [iByte / 4]).
Proof.
  intros Hinv Hi Hl Hb.
  rewrite write_changed by assumption. cbn [snd].
  unfold modifyInv, newModify. right. cbn [iModify cModify setModify].
  destruct Hinv as [(-> & Hc & i0 & Hi0) | (im & cm & Him & Hcm & Hpos & Hall & Hlo & Hhi)].
  - rewrite Hc, Hi0. cbn [Z.eqb fst snd].
    exists (iByte / 4), 1.
    split; [reflexivity|]. split; [reflexivity|]. split; [lia|].
    split; [|split].
    + intros t0 [<-|[]]. lia.
    + left. reflexivity.
    + left. lia.
  - rewrite Hcm, Him.
    destruct (cm =? 0) eqn:E0; [apply Z.eqb_eq in E0; lia|].
    destruct (iByte / 4 <? im) eqn:E1; [|destruct (im + cm <=? iByte / 4) eqn:E2];
      cbn [fst snd]; eexists; eexists; (split; [reflexivity|]);
      (split; [reflexivity|]).
    + apply Z.ltb_lt in E1. split; [lia|]. split; [|split].
      * intros t0 Ht. apply in_app_iff in Ht.
        destruct Ht as [Ht|[<-|[]]]; [apply Hall in Ht|]; lia.
      * apply in_app_iff. right. left. reflexivity.
      * apply in_app_iff. left.
        replace (iByte / 4 + (cm + (im - iByte / 4)) - 1) with (im + cm - 1) by lia.
        assumption.
    + apply Z.ltb_ge in E1. apply Z.leb_le in E2. split; [lia|]. split; [|split].
      * intros t0 Ht. apply in_app_iff in Ht.
        destruct Ht as [Ht|[<-|[]]]; [apply Hall in Ht|]; lia.
      * apply in_app_iff. left. assumption.
      * apply in_app_iff. right. left. lia.
    + apply Z.ltb_ge in E1. apply Z.leb_gt in E2. split; [lia|]. split; [|split].
      * intros t0 Ht. apply in_app_iff in Ht.
        destruct Ht as [Ht|[<-|[]]]; [apply Hall in Ht|]; lia.
      * apply in_app_iff. left. assumption.
      * apply in_app_iff. left. assumption.
Qed.

Lemma modifyInv_ext sector sector' touched :
  iModify sector' = iModify sector -> cModify sector' = cModify sector ->
  modifyInv sector touched -> modifyInv sector' touched.
Proof. unfold modifyInv. intros -> ->. auto. Qed.

(** A series of writes keeps the markers in step with the changed words. *)
Lemma writeAll_modifyInv (ws : list (Z * Z)) :
  forall sector touched,
    modifyInv sector touched ->
    Forall (fun w => 0 <= fst w < 2 ^ 31) ws ->
    modifyInv (fst (writeAll this sector ws))
              (touched ++ snd (writeAll this sector ws)).
Proof.
  induction ws as [|[iByte b] ws IH]; intros sector touched Hinv Hws.
  - cbn [writeAll fst snd]. rewrite app_nil_r. assumption.
  - inversion Hws as [|w ws0 Hw Hws']; subst. cbn [fst] in Hw.
    cbn [writeAll]. rewrite writable. cbn [andb].
    destruct (writeAll this (snd (write this sector iByte b)) ws)
      as [sector' touched'] eqn:Erec.
    cbn [fst snd].
    destruct (iByte <? LENGTH sector) eqn:El; cbn [andb].
    + apply Z.ltb_lt in El.
      destruct (b =? read (Some sector) iByte) eqn:Eb; cbn [negb].
      * apply Z.eqb_eq in Eb.
        specialize (IH (snd (write this sector iByte b)) touched).
        rewrite Erec in IH. cbn [fst snd] in IH. apply IH; [|assumption].
        rewrite write_same by assumption. assumption.
      * apply Z.eqb_neq in Eb.
        specialize (IH (snd (write this sector iByte b)) (touched ++ [iByte / 4])).
        rewrite Erec in IH. cbn [fst snd] in IH.
        rewrite <- app_assoc in IH. apply IH; [|assumption].
        apply modifyInv_step; assumption.
    + apply Z.ltb_ge in El.
      specialize (IH (snd (write this sector iByte b)) touched).
      rewrite Erec in IH. cbn [fst snd] in IH. apply IH; [|assumption].
      rewrite write_outside by assumption. assumption.
Qed.

End ModifyRange.

(** C6.  On a writable disk, (1) a write of a byte that differs from the
    current byte succeeds, extends the data array up to the target word with
    the current repeat pattern (the last stored value) and replaces that word
    by a value whose byte at the written position is the new byte and whose
    other bytes are unchanged; (2) over any series of writes to a freshly
    initialised sector, iModify and cModify delimit the least contiguous
    range of word indices that covers all the words changed so far; (3) on
    the sector buildSector makes from 512 zero bytes, writing 0x41 at byte
    100 gives iModify = 25 and cModify = 1, and then writing 0x42 at byte 50
    gives iModify = 12 and cModify = 14. *)
Theorem write_spec :
  (forall this sector iByte b,
      fWritable this = true -> 0 <= iByte < 2 ^ 31 -> iByte < LENGTH sector ->
      0 <= b < 256 -> b <> read (Some sector) iByte ->
      let adw := DATA sector in
      let idw := iByte / 4 in
      exists dw,
        write this sector iByte b
        = (Some true,
           setModify
             (setDATA sector
                (set (adw ++ repeat (last adw Undef)
                                    (Z.to_nat (idw + 1 - len adw)))
                     idw (Num dw)))
             (fst (newModify sector idw)) (snd (newModify sector idw)))
        /\ (forall j, 0 <= j < 4 ->
              byteOf dw j = if j =? iByte mod 4 then b
                            else byteOf (valInt32 (storedWord adw idw)) j))
  /\ (forall this sector ws,
        fWritable this = true -> modifyInv sector [] ->
        Forall (fun w => 0 <= fst w < 2 ^ 31) ws ->
        modifyInv (fst (writeAll this sector ws))
                  (snd (writeAll this sector ws)))
  /\ ((exists this',
         buildSector writableDisk 0 0 1 512 (Some (DataBuffer.zeros 512)) 0
         = Some (zeroSector, this'))
      /\ let s1 := snd (write writableDisk zeroSector 100 0x41) in
         let s2 := snd (write writableDisk s1 50 0x42) in
         iModify s1 = Some 25 /\ cModify s1 = Some 1
         /\ iModify s2 = Some 12 /\ cModify s2 = Some 14).
Proof.
  split; [|split].
  - intros this sector iByte b Hw Hi Hl Hb Hne adw idw.
    eexists. split; [apply write_changed; assumption|].
    intros j Hj. unfold byteOf.
    pose proof (Z.mod_pos_bound iByte 4 ltac:(lia)).
    rewrite replaceByte_byte by lia. reflexivity.
  - intros this sector ws Hw Hinv Hws.
    apply (writeAll_modifyInv this Hw ws sector [] Hinv Hws).
  - split; [eexists; vm_compute; reflexivity|].
    vm_compute. repeat split; reflexivity.
Qed.

(** The three parts at the writes of scenario S6. *)
Lemma write_spec_witness :
  (exists dw,
      write writableDisk zeroSector 100 0x41
      = (Some true,
         setModify
           (setDATA zeroSector
              (set (DATA zeroSector
                    ++ repeat (last (DATA zeroSector) Undef)
                              (Z.to_nat (100 / 4 + 1 - len (DATA zeroSector))))
                   (100 / 4) (Num dw)))
           (fst (newModify zeroSector (100 / 4)))
           (snd (newModify zeroSector (100 / 4))))
      /\ (forall j, 0 <= j < 4 ->
            byteOf dw j
            = if j =? 100 mod 4 then 0x41
              else byteOf (valInt32 (storedWord (DATA zeroSector) (100 / 4))) j))
  /\ modifyInv (fst (writeAll writableDisk zeroSector [(100, 0x41); (50, 0x42)]))
               (snd (writeAll writableDisk zeroSector [(100, 0x41); (50, 0x42)])).
Proof.
  split.
  - apply (proj1 write_spec writableDisk zeroSector 100 0x41);
      [reflexivity | lia | vm_compute; reflexivity | lia
       | vm_compute; discriminate].
  - apply (proj1 (proj2 write_spec) writableDisk zeroSector
                 [(100, 0x41); (50, 0x42)]).
    + reflexivity.
    + left. split; [reflexivity|]. split; [reflexivity|].
      exists 0. reflexivity.
    + repeat constructor; cbn [fst]; lia.
Defined.

(* ===================================================================== *)
(** * getData *)
(* ===================================================================== *)

Section GetDataFacts.

Lemma writeSector_spec (s : Sector) (k : nat) :
  forall (i : Z) (done rest : list Z),
    (k <= length rest)%nat ->
    writeSector s k i (done, rest)
    = Some (rev (map (fun j => read (Some s) (i + Z.of_nat j)) (seq 0 k)) ++ done,
            skipn k rest).
Proof.
  induction k as [|k IH]; intros i done rest Hk.
  - reflexivity.
  - destruct rest as [|b rest]; [simpl in Hk; lia|].
    cbn [writeSector cursorWrite snd fst].
    rewrite IH by (simpl in Hk; lia).
    cbn [seq map rev skipn]. f_equal. f_equal.
    rewrite <- seq_shift, map_map.
    replace (i + Z.of_nat 0) with i by lia.
    rewrite <- app_assoc. cbn [app]. f_equal. f_equal.
    apply map_ext. intros j. f_equal. lia.
Qed.

Lemma writeSector_bytes (s : Sector) (done rest : list Z) :
  (length (sectorBytes s) <= length rest)%nat ->
  writeSector s (Z.to_nat (LENGTH s)) 0 (done, rest)
  = Some (rev (sectorBytes s) ++ done, skipn (length (sectorBytes s)) rest).
Proof.
  intros H. unfold sectorBytes in *. rewrite length_map, length_seq in *.
  rewrite writeSector_spec by assumption. reflexivity.
Qed.

Lemma writeTrack_spec (track : Track) :
  forall done rest,
    (length (trackBytes track) <= length rest)%nat ->
    writeTrack track (done, rest)
    = Some (rev (trackBytes track) ++ done, skipn (length (trackBytes track)) rest).
Proof.
  induction track as [|[s|] track IH]; intros done rest H.
  - reflexivity.
  - cbn [trackBytes writeTrack] in *. rewrite length_app in H.
    rewrite writeSector_bytes by lia.
    rewrite IH by (rewrite length_skipn; lia).
    rewrite rev_app_distr, <- app_assoc, skipn_skipn, length_app.
    f_equal. f_equal. f_equal. lia.
  - cbn [trackBytes writeTrack]. apply IH. assumption.
Qed.

Lemma writeCylinder_spec (cylinder : list Track) :
  forall done rest,
    (length (cylinderBytes cylinder) <= length rest)%nat ->
    writeCylinder cylinder (done, rest)
    = Some (rev (cylinderBytes cylinder) ++ done,
            skipn (length (cylinderBytes cylinder)) rest).
Proof.
  unfold cylinderBytes.
  induction cylinder as [|track cylinder IH]; intros done rest H.
  - reflexivity.
  - cbn [map concat writeCylinder] in *. rewrite length_app in H.
    rewrite writeTrack_spec by lia.
    rewrite IH by (rewrite length_skipn; lia).
    rewrite rev_app_distr, <- app_assoc, skipn_skipn, length_app.
    f_equal. f_equal. f_equal. lia.
Qed.

Lemma writeDisk_spec (data : DiskData) :
  forall done rest,
    (length (diskBytes data) <= length rest)%nat ->
    writeDisk data (done, rest)
    = Some (rev (diskBytes data) ++ done, skipn (length (diskBytes data)) rest).
Proof.
  unfold diskBytes.
  induction data as [|cylinder data IH]; intros done rest H.
  - reflexivity.
  - cbn [map concat writeDisk] in *. rewrite length_app in H.
    rewrite writeCylinder_spec by lia.
    rewrite IH by (rewrite length_skipn; lia).
    rewrite rev_app_distr, <- app_assoc, skipn_skipn, length_app.
    f_equal. f_equal. f_equal. lia.
Qed.

(** The first loops of getData lay the bytes of the disk over the start of
    the buffer. *)
Lemma writeDisk_buffer (data : DiskData) (dbDisk : DataBuffer.t) :
  (length (diskBytes data) <= length dbDisk)%nat ->
  exists cur, writeDisk data ([], dbDisk) = Some cur
              /\ cursorBuffer cur
                 = diskBytes data ++ skipn (length (diskBytes data)) dbDisk.
Proof.
  intros H. eexists. split; [apply writeDisk_spec; assumption|].
  unfold cursorBuffer. cbn [fst snd]. rewrite app_nil_r.
  rewrite rev_append_rev, rev_involutive. reflexivity.
Qed.

End GetDataFacts.

Section BufferFacts.

Lemma item_nth (db : list Z) (p : Z) :
  0 <= p < len db -> item db p = Some (nth (Z.to_nat p) db 0).
Proof.
  intros Hp. unfold item.
  destruct (p <? 0) eqn:E; [apply Z.ltb_lt in E; lia|].
  apply nth_error_nth'. unfold len in Hp. lia.
Qed.

Lemma item_Some_lt {A} (db : list A) (p : Z) (x : A) :
  item db p = Some x -> 0 <= p < len db.
Proof.
  unfold item. destruct (p <? 0) eqn:E; [discriminate|].
  apply Z.ltb_ge in E. intros H.
  assert (Hn : nth_error db (Z.to_nat p) <> None) by congruence.
  apply nth_error_Some in Hn. unfold len. lia.
Qed.

Lemma readUInt8_nth (db : DataBuffer.t) (p b : Z) :
  DataBuffer.readUInt8 db p = Some b ->
  0 <= p < len db /\ b = nth (Z.to_nat p) db 0.
Proof.
  unfold DataBuffer.readUInt8. intros H.
  pose proof (item_Some_lt _ _ _ H) as Hp. split; [assumption|].
  rewrite item_nth in H by assumption. congruence.
Qed.

Lemma readUInt8_in (db : DataBuffer.t) (p : Z) :
  0 <= p < len db ->
  DataBuffer.readUInt8 db p = Some (nth (Z.to_nat p) db 0).
Proof. apply item_nth. Qed.

Lemma nth_update (db : list Z) (p j : nat) (x : Z) :
  (p < length db)%nat ->
  nth j (firstn p db ++ x :: skipn (S p) db) 0
  = if Nat.eqb j p then x else nth j db 0.
Proof.
  intros Hp.
  assert (Hf : length (firstn p db) = p) by (rewrite length_firstn; lia).
  destruct (Nat.eqb j p) eqn:E.
  - apply Nat.eqb_eq in E. subst j.
    rewrite app_nth2 by lia. rewrite Hf, Nat.sub_diag. reflexivity.
  - apply Nat.eqb_neq in E.
    destruct (Nat.lt_ge_cases j p) as [Hlt|Hge].
    + rewrite app_nth1 by lia. rewrite nth_firstn.
      apply Nat.ltb_lt in Hlt. rewrite Hlt. reflexivity.
    + rewrite app_nth2 by lia. rewrite Hf.
      destruct (j - p)%nat as [|m] eqn:Em; [lia|].
      cbn [nth]. rewrite nth_skipn. f_equal. lia.
Qed.

Lemma length_update (db : list Z) (p : nat) (x : Z) :
  (p < length db)%nat ->
  length (firstn p db ++ x :: skipn (S p) db) = length db.
Proof.
  intros Hp. rewrite length_app, length_firstn, length_cons, length_skipn. lia.
Qed.

(** The effect of [dbDisk.writeUInt8(b, p)]. *)
Lemma writeUInt8_spec (db db' : DataBuffer.t) (v : val) (p : Z) :
  DataBuffer.writeUInt8 db v p = Some db' ->
  0 <= p < len db
  /\ length db' = length db
  /\ forall j, nth j db' 0 = if Nat.eqb j (Z.to_nat p) then valInt32 v
                             else nth j db 0.
Proof.
  unfold DataBuffer.writeUInt8, DataBuffer.length.
  destruct ((0 <=? p) && (p <? len db)) eqn:E; [|discriminate].
  apply andb_true_iff in E. destruct E as [E1 E2].
  apply Z.leb_le in E1. apply Z.ltb_lt in E2.
  intros H. injection H as <-.
  assert (Hp : (Z.to_nat p < length db)%nat) by (unfold len in E2; lia).
  split; [lia|]. split; [apply length_update; assumption|].
  intros j. apply nth_update. assumption.
Qed.

Lemma writeUInt8_in (db : DataBuffer.t) (v : val) (p : Z) :
  0 <= p < len db -> exists db', DataBuffer.writeUInt8 db v p = Some db'.
Proof.
  intros Hp. unfold DataBuffer.writeUInt8, DataBuffer.length.
  replace ((0 <=? p) && (p <? len db)) with true; [eexists; reflexivity|].
  symmetry. apply andb_true_iff. split; [apply Z.leb_le | apply Z.ltb_lt]; lia.
Qed.

Lemma agreeOutside_refl off n a : agreeOutside off n a a.
Proof. split; auto. Qed.

Lemma agreeOutside_trans off n a b c :
  agreeOutside off n a b -> agreeOutside off n b c -> agreeOutside off n a c.
Proof.
  intros [H1 H2] [H3 H4]. split; [congruence|].
  intros j Hj. rewrite H2, H4 by assumption. reflexivity.
Qed.

Lemma writeUInt8_agree (db db' : DataBuffer.t) (v : val) (p off n : Z) :
  DataBuffer.writeUInt8 db v p = Some db' -> off <= p < off + n ->
  agreeOutside off n db db'.
Proof.
  intros H Hp. apply writeUInt8_spec in H. destruct H as (Hr & Hl & Hn).
  split; [congruence|]. intros j Hj. rewrite Hn.
  destruct (Nat.eqb j (Z.to_nat p)) eqn:E; [|reflexivity].
  apply Nat.eqb_eq in E. lia.
Qed.

Lemma Forall_firstn' {A} (P : A -> Prop) (n : nat) (l : list A) :
  Forall P l -> Forall P (firstn n l).
Proof.
  revert n. induction l as [|x l IH]; intros [|n] H; simpl; auto.
  inversion H; subst. constructor; auto.
Qed.

Lemma Forall_skipn' {A} (P : A -> Prop) (n : nat) (l : list A) :
  Forall P l -> Forall P (skipn n l).
Proof.
  revert n. induction l as [|x l IH]; intros [|n] H; simpl; auto.
  inversion H; subst. auto.
Qed.

Lemma wf_update (db : DataBuffer.t) (p : nat) (x : Z) :
  DataBuffer.wf db -> 0 <= x < 256 ->
  DataBuffer.wf (firstn p db ++ x :: skipn (S p) db).
Proof.
  unfold DataBuffer.wf. intros H Hx.
  apply Forall_app. split; [apply Forall_firstn'; assumption|].
  constructor; [assumption | apply Forall_skipn'; assumption].
Qed.

Lemma writeUInt8_wf (db db' : DataBuffer.t) (b p : Z) :
  DataBuffer.writeUInt8 db (Num b) p = Some db' -> DataBuffer.wf db ->
  0 <= b < 256 -> DataBuffer.wf db'.
Proof.
  unfold DataBuffer.writeUInt8.
  destruct (_ && _); [|discriminate]. intros H Hw Hb. injection H as <-.
  apply wf_update; [assumption|]. cbn [valInt32].
  rewrite toInt32_small; lia.
Qed.

End BufferFacts.

(* ===================================================================== *)
(** * buildDiskFromBuffer: what happens to the buffer *)
(* ===================================================================== *)

Section RepairFacts.

Lemma item_In {A} (l : list A) (i : Z) (x : A) : item l i = Some x -> In x l.
Proof.
  unfold item. destruct (i <? 0); [discriminate|]. apply nth_error_In.
Qed.

Lemma aDefaultBPBs_bytes : Forall (Forall (fun b => 0 <= b < 256)) aDefaultBPBs.
Proof.
  unfold aDefaultBPBs, bpbHead, PCJS_OEM. cbn [app].
  repeat (constructor; [repeat (constructor; [lia|]); constructor|]).
  constructor.
Qed.

Lemma defaultBPB_byte (i off : Z) : 0 <= defaultBPB i off < 256.
Proof.
  unfold defaultBPB.
  destruct (item aDefaultBPBs i) as [bpb|] eqn:E; [|lia].
  destruct (item bpb off) as [b|] eqn:E'; [|lia].
  pose proof aDefaultBPBs_bytes as H. rewrite Forall_forall in H.
  specialize (H bpb (item_In _ _ _ E)). rewrite Forall_forall in H.
  apply H. eapply item_In. eassumption.
Qed.

Lemma readBytes_spec (db : DataBuffer.t) (off : Z) (k : nat) :
  forall i l,
    readBytes db off k i = Some l ->
    length l = k
    /\ (forall j, (j < k)%nat ->
                  0 <= off + i + Z.of_nat j < len db
                  /\ nth j l 0 = nth (Z.to_nat (off + i + Z.of_nat j)) db 0).
Proof.
  induction k as [|k IH]; intros i l H.
  - injection H as <-. split; [reflexivity|]. intros j Hj. lia.
  - cbn [readBytes] in H.
    destruct (DataBuffer.readUInt8 db (off + i)) as [b|] eqn:Eb; [|discriminate].
    destruct (readBytes db off k (i + 1)) as [rest|] eqn:Er; [|discriminate].
    injection H as <-.
    apply readUInt8_nth in Eb. destruct Eb as [Hr Hb].
    destruct (IH _ _ Er) as [Hl Hn].
    split; [simpl; congruence|].
    intros [|j] Hj.
    + replace (off + i + Z.of_nat 0) with (off + i) by lia.
      split; [assumption | exact Hb].
    + specialize (Hn j ltac:(lia)).
      replace (off + i + Z.of_nat (S j)) with (off + (i + 1) + Z.of_nat j) by lia.
      exact Hn.
Qed.

Lemma writeDefaultBPB_spec (off iBPB : Z) (k : nat) :
  forall i db db',
    writeDefaultBPB db off iBPB k i = Some db' ->
    0 <= i -> DataBuffer.wf db ->
    agreeOutside off (i + Z.of_nat k) db db' /\ DataBuffer.wf db'.
Proof.
  induction k as [|k IH]; intros i db db' H Hi Hw.
  - injection H as <-. split; [apply agreeOutside_refl | assumption].
  - cbn [writeDefaultBPB] in H.
    destruct (DataBuffer.writeUInt8 db (Num (defaultBPB iBPB i)) (off + i))
      as [db1|] eqn:E; [|discriminate].
    pose proof (writeUInt8_wf _ _ _ _ E Hw (defaultBPB_byte _ _)) as Hw1.
    destruct (IH _ _ _ H ltac:(lia) Hw1) as [Ha Hw'].
    split; [|assumption].
    apply agreeOutside_trans with (b := db1).
    + eapply writeUInt8_agree; [eassumption | lia].
    + replace (i + Z.of_nat (S k)) with (i + 1 + Z.of_nat k) by lia. assumption.
Qed.

Lemma agreeOutside_weaken off n off' n' a b :
  off' <= off -> off + n <= off' + n' ->
  agreeOutside off n a b -> agreeOutside off' n' a b.
Proof.
  intros H1 H2 [Hl Hn]. split; [assumption|].
  intros j Hj. apply Hn. lia.
Qed.

End RepairFacts.

Section RepairFacts2.

Lemma splice_agree (db src : list Z) (p : nat) :
  (p + length src <= length db)%nat ->
  agreeOutside (Z.of_nat p) (Z.of_nat (length src)) db
               (firstn p db ++ src ++ skipn (p + length src) db).
Proof.
  intros H.
  assert (Hf : length (firstn p db) = p) by (rewrite length_firstn; lia).
  split.
  - rewrite !length_app, Hf, length_skipn. lia.
  - intros j Hj. destruct Hj as [Hj|Hj].
    + rewrite app_nth1 by lia. rewrite nth_firstn.
      replace (j <? p)%nat with true by (symmetry; apply Nat.ltb_lt; lia).
      reflexivity.
    + rewrite app_nth2 by lia. rewrite app_nth2 by lia.
      rewrite nth_skipn, Hf. f_equal. lia.
Qed.

Lemma write_spec_buffer (db db' : DataBuffer.t) (codes : list Z) (p n : Z) :
  DataBuffer.write db codes p n = Some db' ->
  DataBuffer.wf db -> Forall (fun b => 0 <= b < 256) codes -> 0 <= n ->
  agreeOutside p n db db' /\ DataBuffer.wf db'.
Proof.
  unfold DataBuffer.write, DataBuffer.length.
  destruct ((0 <=? p) && (p <=? len db)) eqn:E; [|discriminate].
  apply andb_true_iff in E. destruct E as [E1 E2].
  apply Z.leb_le in E1. apply Z.leb_le in E2.
  intros H Hw Hc Hn. injection H as <-.
  set (src := firstn (Z.to_nat (Z.min n (len db - p))) codes).
  assert (Hs : (length src <= Z.to_nat (Z.min n (len db - p)))%nat)
    by (unfold src; rewrite length_firstn; lia).
  split.
  - apply agreeOutside_weaken with (off := Z.of_nat (Z.to_nat p))
                                   (n := Z.of_nat (length src)); [lia|lia|].
    apply splice_agree. unfold len in *. lia.
  - unfold DataBuffer.wf. apply Forall_app. split; [apply Forall_firstn'; assumption|].
    apply Forall_app. split; [apply Forall_firstn'; assumption|].
    apply Forall_skipn'; assumption.
Qed.

Lemma repairBPB_spec db forceBPB off bByte0 bByte1 fBPBExists bMediaIDBPB
      bMediaID nSPT iBPB m nLogical db' fUpdated :
  repairBPB db forceBPB off bByte0 bByte1 fBPBExists bMediaIDBPB bMediaID
            nSPT iBPB = Some (m, nLogical, db', fUpdated) ->
  DataBuffer.wf db ->
  agreeOutside off 36 db db' /\ DataBuffer.wf db'.
Proof.
  unfold repairBPB. intros H Hw.
  destruct (0 <=? iBPB);
    [|injection H as <- <- <- <-; split; [apply agreeOutside_refl | assumption]].
  destruct (if bMediaIDBPB =? 0 then _ else _) as [m1|]; [|discriminate].
  destruct (if fBPBExists then _ else _) as [w|]; [|discriminate].
  destruct (negb fBPBExists || w);
    [|injection H as <- <- <- <-; split; [apply agreeOutside_refl | assumption]].
  destruct ((bByte0 =? OPCODE.JMPS) && (34 <=? bByte1) || forceBPB).
  - destruct (writeDefaultBPB _ _ _ _ _) as [db1|] eqn:E; [|discriminate].
    injection H as <- <- <- <-.
    apply writeDefaultBPB_spec in E;
      [|destruct forceBPB; unfold BPB.SECTOR_BYTES; lia | assumption].
    destruct E as [Ha Hw']. split; [|assumption].
    eapply agreeOutside_weaken; [| |exact Ha];
      destruct forceBPB; unfold BPB.SECTOR_BYTES, BPB.LARGE_SECS; lia.
  - destruct ((bByte0 =? 246) && (bByte1 =? 246) && (248 <? m1)).
    + destruct (writeDefaultBPB _ _ _ _ _) as [db1|] eqn:E; [|discriminate].
      injection H as <- <- <- <-.
      apply writeDefaultBPB_spec in E; [|lia | assumption].
      destruct E as [Ha Hw']. split; [|assumption].
      eapply agreeOutside_weaken; [| |exact Ha]; unfold BPB.LARGE_SECS; lia.
    + injection H as <- <- <- <-. split; [apply agreeOutside_refl | assumption].
Qed.

Lemma updateOEM_spec db forceBPB fBPBExists off db' fOEM :
  updateOEM db forceBPB fBPBExists off = Some (db', fOEM) ->
  DataBuffer.wf db ->
  agreeOutside off 36 db db' /\ DataBuffer.wf db'.
Proof.
  unfold updateOEM. intros H Hw.
  destruct (if fBPBExists then _ else _) as [sigOK|]; [|discriminate].
  destruct (sigOK || forceBPB);
    [|injection H as <- <-; split; [apply agreeOutside_refl | assumption]].
  destruct (DataBuffer.readInt32BE db (BPB.OEM_STRING + off)) as [dw|]; [|discriminate].
  destruct (negb (dw =? 1346587219));
    [|injection H as <- <-; split; [apply agreeOutside_refl | assumption]].
  destruct (DataBuffer.write db PCJS_OEM (BPB.OEM_STRING + off) (len PCJS_OEM))
    as [db1|] eqn:E; [|discriminate].
  injection H as <- <-.
  apply write_spec_buffer in E; [| assumption | | ].
  - destruct E as [Ha Hw']. split; [|assumption].
    eapply agreeOutside_weaken; [| |exact Ha];
      unfold BPB.OEM_STRING; change (len PCJS_OEM) with 8; lia.
  - unfold PCJS_OEM. repeat (constructor; [lia|]). constructor.
  - change (len PCJS_OEM) with 8. lia.
Qed.

End RepairFacts2.

(* ===================================================================== *)
(** * buildDiskFromBuffer: the bytes of the sectors *)
(* ===================================================================== *)

Section SectorBytes.

(** The four bytes of a little-endian 32-bit value. *)
Lemma le32_byte (b0 b1 b2 b3 j : Z) :
  0 <= b0 < 256 -> 0 <= b1 < 256 -> 0 <= b2 < 256 -> 0 <= b3 < 256 ->
  0 <= j < 4 ->
  (toInt32 (toInt32 (b0 + 256 * b1 + 65536 * b2 + 16777216 * b3))
     / 2 ^ (j * 8)) mod 256
  = if j =? 0 then b0 else if j =? 1 then b1 else if j =? 2 then b2 else b3.
Proof.
  intros H0 H1 H2 H3 Hj.
  set (u := b0 + 256 * b1 + 65536 * b2 + 16777216 * b3).
  assert (Hu : (toInt32 (toInt32 u) / 2 ^ (j * 8)) mod 256
               = (u / 2 ^ (j * 8)) mod 256).
  { apply Z.bits_inj'. intros n Hn.
    rewrite !byteOf_testbit by lia.
    destruct (n <? 8) eqn:E; [|reflexivity]. apply Z.ltb_lt in E.
    rewrite !toInt32_testbit by lia. reflexivity. }
  rewrite Hu. clear Hu. unfold u. clear u.
  assert (Hc : j = 0 \/ j = 1 \/ j = 2 \/ j = 3) by lia.
  destruct Hc as [-> | [-> | [-> | ->]]].
  - change (2 ^ (0 * 8)) with 1. rewrite Z.div_1_r. simpl Z.eqb. cbv iota.
    Z.div_mod_to_equations. lia.
  - change (2 ^ (1 * 8)) with 256. simpl Z.eqb. cbv iota. Z.div_mod_to_equations. lia.
  - change (2 ^ (2 * 8)) with 65536. simpl Z.eqb. cbv iota. Z.div_mod_to_equations. lia.
  - change (2 ^ (3 * 8)) with 16777216. simpl Z.eqb. cbv iota. Z.div_mod_to_equations. lia.
Qed.

Lemma readInt32LE_spec (b : DataBuffer.t) (p w : Z) :
  DataBuffer.readInt32LE b p = Some w ->
  0 <= p /\ p + 4 <= len b
  /\ w = toInt32 (nth (Z.to_nat p) b 0 + 256 * nth (Z.to_nat (p + 1)) b 0
                  + 65536 * nth (Z.to_nat (p + 2)) b 0
                  + 16777216 * nth (Z.to_nat (p + 3)) b 0).
Proof.
  unfold DataBuffer.readInt32LE, DataBuffer.readUInt32LE. intros H.
  destruct (DataBuffer.readUInt8 b p) as [b0|] eqn:E0; [|discriminate].
  destruct (DataBuffer.readUInt8 b (p + 1)) as [b1|] eqn:E1; [|discriminate].
  destruct (DataBuffer.readUInt8 b (p + 2)) as [b2|] eqn:E2; [|discriminate].
  destruct (DataBuffer.readUInt8 b (p + 3)) as [b3|] eqn:E3; [|discriminate].
  injection H as <-.
  apply readUInt8_nth in E0, E1, E2, E3.
  destruct E0 as [? ->], E1 as [? ->], E2 as [? ->], E3 as [? ->].
  repeat split; lia.
Qed.

Lemma readWords_get (b : DataBuffer.t) (n : nat) :
  forall ib ws k,
    readWords (Some b) n ib = Some ws ->
    0 <= ib -> 0 <= k < Z.of_nat n -> ib + 4 * Z.of_nat n <= len b ->
    get ws k
    = Num (toInt32 (nth (Z.to_nat (ib + 4 * k)) b 0
                    + 256 * nth (Z.to_nat (ib + 4 * k + 1)) b 0
                    + 65536 * nth (Z.to_nat (ib + 4 * k + 2)) b 0
                    + 16777216 * nth (Z.to_nat (ib + 4 * k + 3)) b 0)).
Proof.
  induction n as [|n IH]; intros ib ws k H Hib Hk Hlen; [lia|].
  cbn [readWords] in H.
  destruct (ib <? DataBuffer.length b) eqn:El;
    [|apply Z.ltb_ge in El; unfold DataBuffer.length in El; lia].
  destruct (DataBuffer.readInt32LE b ib) as [dw|] eqn:Ed; [|discriminate].
  destruct (readWords (Some b) n (ib + 4)) as [rest|] eqn:Er; [|discriminate].
  injection H as <-.
  destruct (Z.eq_dec k 0) as [->|Hk0].
  - rewrite get_cons_0. apply readInt32LE_spec in Ed.
    destruct Ed as (_ & _ & ->). replace (ib + 4 * 0) with ib by lia.
    reflexivity.
  - rewrite get_cons_S by lia.
    rewrite (IH (ib + 4) rest (k - 1) Er) by lia.
    repeat (f_equal; try lia).
Qed.

Lemma wf_nth (b : DataBuffer.t) (j : nat) : DataBuffer.wf b -> 0 <= nth j b 0 < 256.
Proof.
  intros Hw. destruct (Nat.lt_ge_cases j (length b)) as [H|H].
  - unfold DataBuffer.wf in Hw. rewrite Forall_forall in Hw.
    apply Hw. apply nth_In. assumption.
  - rewrite nth_overflow by assumption. lia.
Qed.

(** The bytes of a sector built from a buffer of exactly its size are the
    bytes of the buffer. *)
Lemma buildSector_bytes this c h id cb dbSector s this' :
  0 <= cb < 2 ^ 31 -> cb mod 4 = 0 -> DataBuffer.wf dbSector ->
  len dbSector = cb ->
  buildSector this c h id cb (Some dbSector) 0 = Some (s, this') ->
  sectorBytes s = dbSector.
Proof.
  intros Hcb Hm Hw Hlen H.
  destruct (buildSector_invariant _ _ _ _ _ _ _ _ _ Hcb H) as (HL & _ & Hr & _).
  assert (Hdiv : 0 <= cb / 4) by (apply Z.div_pos; lia).
  assert (H4 : cb = 4 * (cb / 4)) by (pose proof (Z.div_mod cb 4 ltac:(lia)); lia).
  unfold sectorBytes. rewrite HL.
  apply nth_ext with (d := 0) (d' := 0).
  - rewrite length_map, length_seq. unfold len in Hlen. lia.
  - intros j Hj. rewrite length_map, length_seq in Hj.
    rewrite (nth_indep _ 0 (read (Some s) (Z.of_nat 0)))
      by (rewrite length_map, length_seq; lia).
    rewrite (map_nth (fun i => read (Some s) (Z.of_nat i))).
    rewrite seq_nth by lia. cbn [Nat.add].
    set (i := Z.of_nat j).
    assert (Hi : 0 <= i < cb) by lia.
    rewrite (read_stored s i) by lia.
    assert (Hk : 0 <= i / 4 < cb / 4).
    { split; [apply Z.div_pos; lia|]. apply Z.div_lt_upper_bound; lia. }
    rewrite <- (expand_nth (DATA s) (cb / 4)) by assumption.
    rewrite (readWords_get dbSector (Z.to_nat (cb / 4)) 0 _ (i / 4) Hr)
      by lia.
    cbn [valInt32]. pose proof (Z.mod_pos_bound i 4 ltac:(lia)) as Hmod.
    rewrite le32_byte by (try apply wf_nth; try assumption; lia).
    pose proof (Z.div_mod i 4 ltac:(lia)) as Hdm.
    replace j with (Z.to_nat i) by lia.
    assert (Hc : i mod 4 = 0 \/ i mod 4 = 1 \/ i mod 4 = 2 \/ i mod 4 = 3) by lia.
    destruct Hc as [E | [E | [E | E]]]; rewrite E; simpl Z.eqb; cbv iota;
      f_equal; lia.
Qed.

End SectorBytes.

Section LoopBytes.

Lemma firstn_plus {A} (a b : nat) (l : list A) :
  firstn (a + b) l = firstn a l ++ firstn b (skipn a l).
Proof.
  revert l. induction a as [|a IH]; intros l; [reflexivity|].
  destruct l as [|x l]; [rewrite !firstn_nil; reflexivity|].
  cbn [Nat.add firstn skipn app]. f_equal. apply IH.
Qed.

Lemma slice_firstn_skipn (db : DataBuffer.t) (p n : Z) :
  0 <= p -> 0 <= n ->
  DataBuffer.slice db p (p + n) = firstn (Z.to_nat n) (skipn (Z.to_nat p) db).
Proof.
  intros Hp Hn. unfold DataBuffer.slice. f_equal. lia.
Qed.

Lemma len_slice (db : DataBuffer.t) (p n : Z) :
  0 <= p -> 0 <= n -> p + n <= len db ->
  len (firstn (Z.to_nat n) (skipn (Z.to_nat p) db)) = n.
Proof.
  intros Hp Hn Hl. unfold len in *. rewrite length_firstn, length_skipn. lia.
Qed.

Lemma wf_slice (db : DataBuffer.t) (a b : nat) :
  DataBuffer.wf db -> DataBuffer.wf (firstn a (skipn b db)).
Proof. intros H. apply Forall_firstn', Forall_skipn', H. Qed.

Lemma buildSector_this this c h id cb db ib s this' :
  buildSector this c h id cb db ib = Some (s, this') ->
  nSectors this' = nSectors this /\ fXDFSupport this' = fXDFSupport this
  /\ LENGTH s = cb.
Proof.
  unfold buildSector. destruct (readWords db _ ib) as [adw|]; [|discriminate].
  intros H. injection H as H.
  pose proof (initSector_LENGTH this
                {| CYLINDER := c; HEAD := h; ID := Num id; LENGTH := cb;
                   DATA := adw; FILE_INFO := None; FILE_OFFSET := None;
                   DATA_CRC := None; DATA_ERROR := None; DATA_MARK := None;
                   HEAD_CRC := None; HEAD_ERROR := None; iModify := None;
                   cModify := None |} adw cb (Num 0)) as HL.
  rewrite H in HL. cbn [fst LENGTH] in HL.
  unfold initSector in H.
  destruct (initRun _ _ _ _ _ _) as [[adw1 p] cPrev].
  injection H as _ <-. repeat split; assumption.
Qed.

(** The loop over the sectors of a track on an image without XDF output: the
    sectors hold the bytes of the track from [offSector] on. *)
Lemma sectorLoop_bytes dbTrack off cb cbTrack iC iH (k : nat) :
  0 < cb < 2 ^ 31 -> cb mod 4 = 0 -> DataBuffer.wf dbTrack ->
  len dbTrack = cbTrack ->
  forall this iSector offSector m sectors this' m',
    0 <= offSector -> offSector + Z.of_nat k * cb <= cbTrack ->
    sectorLoop this dbTrack false off cb cbTrack iC iH k iSector offSector cb m
    = Some (sectors, this', m') ->
    trackBytes (map Some sectors)
    = firstn (Z.to_nat (Z.of_nat k * cb)) (skipn (Z.to_nat offSector) dbTrack)
    /\ nSectors this' = nSectors this.
Proof.
  intros Hcb Hm Hw Hlen.
  induction k as [|k IH];
    intros this iSector offSector m sectors this' m' Ho Hk H.
  - injection H as <- <- <-. split; reflexivity.
  - cbn [sectorLoop] in H.
    destruct (offSector <? cbTrack) eqn:E; [|apply Z.ltb_ge in E; nia].
    cbn [andb] in H.
    destruct (if negb (m =? 0) && (iC =? 0) && (iH =? 0)
                 && (iSector =? divi off cb + 2) then _ else _)
      as [m1|]; [|discriminate].
    destruct (buildSector this iC iH iSector cb _ 0) as [[s this1]|] eqn:Eb;
      [|discriminate].
    destruct (sectorLoop _ _ _ _ _ _ _ _ k _ _ _ _) as [[[rest this3] m3]|] eqn:Er;
      [|discriminate].
    injection H as <- <- <-.
    rewrite slice_firstn_skipn in Eb by lia.
    pose proof (buildSector_this _ _ _ _ _ _ _ _ _ Eb) as (Hns & _ & HL).
    apply buildSector_bytes in Eb;
      [|lia|assumption|apply wf_slice; assumption|apply len_slice; nia].
    apply IH in Er; [|lia|nia].
    destruct Er as [Hr Hns'].
    split; [|rewrite Hns'; cbn; assumption].
    cbn [map trackBytes]. rewrite Eb, Hr.
    replace (Z.to_nat (Z.of_nat (S k) * cb)) with (Z.to_nat cb + Z.to_nat (Z.of_nat k * cb))%nat by nia.
    rewrite firstn_plus, skipn_skipn.
    f_equal. f_equal. f_equal. lia.
Qed.

Lemma trackBytes_app (a b : Track) :
  trackBytes (a ++ b) = trackBytes a ++ trackBytes b.
Proof.
  induction a as [|[s|] a IH]; cbn [app trackBytes]; [reflexivity| |assumption].
  rewrite IH, app_assoc. reflexivity.
Qed.

Lemma trackBytes_empty (n : nat) : trackBytes (repeat None n) = [].
Proof. induction n; [reflexivity | assumption]. Qed.

Lemma trackBytes_trackArray (n : Z) (sectors : list Sector) :
  trackBytes (trackArray n sectors) = trackBytes (map Some sectors).
Proof.
  unfold trackArray. rewrite trackBytes_app, trackBytes_empty, app_nil_r.
  reflexivity.
Qed.

End LoopBytes.

Section GridBytes.

Variable db : DataBuffer.t.
Variables off nSPT cb : Z.
Hypothesis Hcb : 0 < cb < 2 ^ 31.
Hypothesis Hm : cb mod 4 = 0.
Hypothesis Hw : DataBuffer.wf db.
Hypothesis HnSPT : 0 <= nSPT.

Lemma headLoop_bytes (offTrack iC : Z) (k : nat) :
  forall iHead st tracks st',
    regularState st nSPT cb ->
    0 <= offTrack + hsOffHead st ->
    offTrack + hsOffHead st + Z.of_nat k * (nSPT * cb) <= len db ->
    headLoop db false false off offTrack iC k iHead st = Some (tracks, st') ->
    cylinderBytes tracks
    = firstn (Z.to_nat (Z.of_nat k * (nSPT * cb)))
             (skipn (Z.to_nat (offTrack + hsOffHead st)) db)
    /\ regularState st' nSPT cb
    /\ hsOffHead st' = hsOffHead st + Z.of_nat k * (nSPT * cb)
    /\ (nSectors (hsThis st) = Num nSPT \/ (0 < k)%nat ->
        nSectors (hsThis st') = Num nSPT).
Proof.
  induction k as [|k IH]; intros iHead st tracks st' Hreg Ho Hlen H.
  - injection H as <- <-. repeat split; try apply Hreg; try lia.
    intros [Hn|Hn]; [assumption | lia].
  - cbn [headLoop] in H.
    destruct Hreg as (R1 & R2 & R3 & R4).
    rewrite R1, R2, R3, R4 in H. cbv iota beta in H.
    destruct (sectorLoop _ _ _ _ _ _ _ _ _ _ _ _ _) as [[[sectors this2] m]|] eqn:Es;
      [|discriminate].
    destruct (headLoop _ _ _ _ _ _ k _ _) as [[rest st1]|] eqn:Er; [|discriminate].
    injection H as <- <-.
    assert (Hp : 0 <= nSPT * cb) by nia.
    rewrite slice_firstn_skipn in Es by lia.
    apply sectorLoop_bytes in Es;
      [ | assumption | assumption | apply wf_slice; assumption
        | apply len_slice; nia | lia | lia ].
    destruct Es as [Hb Hns].
    apply IH in Er; [ | repeat split; reflexivity | cbn [hsOffHead]; lia
                      | cbn [hsOffHead]; lia ].
    cbn [hsOffHead hsThis] in Er. destruct Er as (Hrb & Hreg' & Hoff & Hn').
    split; [|split; [assumption|split; [lia|]]].
    + unfold cylinderBytes in *. cbn [map concat].
      rewrite trackBytes_trackArray, Hb, Hrb.
      rewrite Z2Nat.id by lia. change (Z.to_nat 0) with 0%nat. cbn [skipn].
      rewrite firstn_firstn, Nat.min_id.
      replace (Z.to_nat (Z.of_nat (S k) * (nSPT * cb)))
        with (Z.to_nat (nSPT * cb) + Z.to_nat (Z.of_nat k * (nSPT * cb)))%nat by nia.
      rewrite firstn_plus, skipn_skipn.
      f_equal. f_equal. f_equal. lia.
    + intros _. apply Hn'. left. rewrite Hns. reflexivity.
Qed.

Lemma cylinderLoop_bytes (nHeads : Z) (k : nat) :
  0 <= nHeads ->
  forall iC offTrack st data st',
    regularState st nSPT cb ->
    0 <= offTrack ->
    offTrack + Z.of_nat k * (nHeads * (nSPT * cb)) <= len db ->
    cylinderLoop db false false off nHeads k iC offTrack st = Some (data, st') ->
    diskBytes data
    = firstn (Z.to_nat (Z.of_nat k * (nHeads * (nSPT * cb))))
             (skipn (Z.to_nat offTrack) db)
    /\ regularState st' nSPT cb
    /\ (nSectors (hsThis st) = Num nSPT \/ ((0 < k)%nat /\ 0 < nHeads) ->
        nSectors (hsThis st') = Num nSPT).
Proof.
  intros HnH.
  induction k as [|k IH]; intros iC offTrack st data st' Hreg Ho Hlen H.
  - injection H as <- <-. repeat split; try apply Hreg.
    intros [Hn|Hn]; [assumption | lia].
  - cbn [cylinderLoop] in H.
    destruct (headLoop _ _ _ _ _ _ _ _ _) as [[aHeads st1]|] eqn:Eh; [|discriminate].
    destruct (cylinderLoop _ _ _ _ _ k _ _ _) as [[rest st2]|] eqn:Er; [|discriminate].
    injection H as <- <-.
    assert (Hp : 0 <= nHeads * (nSPT * cb)) by nia.
    apply headLoop_bytes in Eh;
      [ | destruct Hreg as (R1 & R2 & R3 & R4); repeat split; assumption
        | cbn [hsOffHead]; lia
        | cbn [hsOffHead]; rewrite Z2Nat.id by lia; nia ].
    cbn [hsOffHead hsThis] in Eh. rewrite Z2Nat.id in Eh by lia.
    destruct Eh as (Hb & Hreg1 & Hoff & Hn1).
    rewrite Hoff in Er.
    apply IH in Er; [ | assumption | lia | nia ].
    destruct Er as (Hrb & Hreg2 & Hn2).
    split; [|split; [assumption|]].
    + unfold diskBytes in *. cbn [map concat]. rewrite Hb, Hrb.
      replace (offTrack + 0) with offTrack by lia.
      replace (Z.to_nat (Z.of_nat (S k) * (nHeads * (nSPT * cb))))
        with (Z.to_nat (nHeads * (nSPT * cb))
              + Z.to_nat (Z.of_nat k * (nHeads * (nSPT * cb))))%nat by nia.
      rewrite firstn_plus, skipn_skipn.
      f_equal. f_equal. f_equal. lia.
    + intros Hn. apply Hn2. left. apply Hn1.
      destruct Hn as [Hn|[_ Hn]]; [left; exact Hn | right; lia].
Qed.

End GridBytes.

Section Assembly.

Lemma toInt32_byte (b : Z) : 0 <= b < 256 -> toInt32 b = b.
Proof.
  intros H. apply toInt32_small. change (2 ^ 31) with 2147483648. lia.
Qed.

Lemma cell_nth (ab : list Z) (i : Z) :
  0 <= i < len ab -> cell ab i = Num (nth (Z.to_nat i) ab 0).
Proof. intros H. unfold cell. rewrite item_nth by assumption. reflexivity. Qed.

Lemma restoreBPB_spec (ab : list Z) (off : Z) (k : nat) :
  Forall (fun b => 0 <= b < 256) ab ->
  forall i db,
    0 <= i -> 0 <= off -> i + Z.of_nat k <= len ab ->
    off + i + Z.of_nat k <= len db ->
    exists db',
      restoreBPB ab off k i db = Some db'
      /\ length db' = length db
      /\ forall j : nat,
           nth j db' 0
           = if (off + i <=? Z.of_nat j) && (Z.of_nat j <? off + i + Z.of_nat k)
             then nth (Z.to_nat (Z.of_nat j - off)) ab 0
             else nth j db 0.
Proof.
  intros Hab. induction k as [|k IH]; intros i db Hi Hoff Hk Hlen.
  - exists db. split; [reflexivity|]. split; [reflexivity|].
    intros j. destruct (off + i <=? Z.of_nat j) eqn:E1; [|reflexivity].
    destruct (Z.of_nat j <? off + i + Z.of_nat 0) eqn:E2; [|reflexivity].
    apply Z.leb_le in E1. apply Z.ltb_lt in E2. lia.
  - cbn [restoreBPB]. unfold BPB.JMP_OPCODE. rewrite Z.sub_0_r.
    destruct (writeUInt8_in db (cell ab i) (off + i) ltac:(lia)) as [db1 E].
    rewrite E. pose proof (writeUInt8_spec _ _ _ _ E) as (_ & Hl1 & Hn1).
    destruct (IH (i + 1) db1 ltac:(lia) Hoff ltac:(lia)
                 ltac:(unfold len in *; lia)) as (db' & Hr & Hl & Hn).
    exists db'. split; [assumption|]. split; [congruence|].
    intros j. rewrite Hn, Hn1.
    rewrite cell_nth by lia. cbn [valInt32].
    rewrite toInt32_byte
      by (apply (proj1 (Forall_forall _ ab) Hab); apply nth_In;
          unfold len in *; lia).
    destruct (Nat.eqb j (Z.to_nat (off + i))) eqn:Ej.
    + apply Nat.eqb_eq in Ej.
      replace ((off + (i + 1) <=? Z.of_nat j)) with false
        by (symmetry; apply Z.leb_gt; lia).
      replace ((off + i <=? Z.of_nat j)) with true
        by (symmetry; apply Z.leb_le; lia).
      replace (Z.of_nat j <? off + i + Z.of_nat (S k)) with true
        by (symmetry; apply Z.ltb_lt; lia).
      cbn [andb]. f_equal. lia.
    + apply Nat.eqb_neq in Ej.
      destruct (off + (i + 1) <=? Z.of_nat j) eqn:E1.
      * apply Z.leb_le in E1.
        replace ((off + i <=? Z.of_nat j)) with true
          by (symmetry; apply Z.leb_le; lia).
        replace (off + (i + 1) + Z.of_nat k) with (off + i + Z.of_nat (S k)) by lia.
        reflexivity.
      * apply Z.leb_gt in E1. cbn [andb].
        destruct (off + i <=? Z.of_nat j) eqn:E2; [|reflexivity].
        apply Z.leb_le in E2. lia.
Qed.

Lemma lookupGeometry_standard (n : Z) (g : Geometry) :
  lookupGeometry GEOMETRIES n = Some g ->
  let cb := orElse (geoSectorBytes g) 512 in
  0 < cb < 2 ^ 31 /\ cb mod 4 = 0
  /\ 0 < geoCylinders g /\ 0 < geoHeads g /\ 0 < geoSectors g
  /\ n = geoCylinders g * (geoHeads g * (geoSectors g * cb)).
Proof.
  unfold GEOMETRIES. cbn [lookupGeometry].
  repeat (destruct (_ =? n) eqn:E;
          [apply Z.eqb_eq in E; subst n; intros H; injection H as <-;
           vm_compute; repeat split; congruence
          | clear E]).
  discriminate.
Qed.

Lemma probeBPB_standard this db off b0 cbS g sh e m sh' x :
  probeBPB this db off b0 cbS (Some g) sh = Some (e, m, sh', x) ->
  sh' = sh /\ (fXDFSupport this = false -> x = false).
Proof.
  unfold probeBPB. intros H.
  destruct ((b0 =? OPCODE.JMP) || (b0 =? OPCODE.JMPS)) ; cbn [andb] in H;
    [|injection H as <- <- <- <-; split; auto].
  destruct (cbS =? shSector sh); [|injection H as <- <- <- <-; split; auto].
  destruct (DataBuffer.readUInt16LE db (off + BPB.TOTAL_HEADS)) as [nh|]; [|discriminate].
  destruct (DataBuffer.readUInt16LE db (off + BPB.TRACK_SECS)) as [ns|]; [|discriminate].
  destruct (negb (nh =? 0) && negb (ns =? 0));
    [|injection H as <- <- <- <-; split; auto].
  destruct (DataBuffer.readUInt8 db (off + BPB.MEDIA_ID)) as [mb|]; [|discriminate].
  destruct (DataBuffer.readUInt16LE db (off + BPB.TOTAL_SECS)) as [nt|]; [|discriminate].
  destruct (DataBuffer.readUInt16LE db (off + BPB.HIDDEN_SECS)) as [nhid|]; [|discriminate].
  injection H as <- <- <- <-. split; [reflexivity|].
  intros ->. apply andb_false_r.
Qed.

Lemma probeDSK_heads db off b0 sh nLogical :
  shHeads sh <> 0 -> probeDSK db off b0 sh nLogical = Some (sh, nLogical, []).
Proof.
  intros H. unfold probeDSK.
  destruct (shHeads sh =? 0) eqn:E; [apply Z.eqb_eq in E; contradiction|].
  reflexivity.
Qed.

Lemma readUInt32LE_nonneg (db : DataBuffer.t) (p v : Z) :
  DataBuffer.wf db -> DataBuffer.readUInt32LE db p = Some v -> 0 <= v.
Proof.
  intros Hw. unfold DataBuffer.readUInt32LE.
  destruct (DataBuffer.readUInt8 db p) as [b0|] eqn:E0; [|discriminate].
  destruct (DataBuffer.readUInt8 db (p + 1)) as [b1|] eqn:E1; [|discriminate].
  destruct (DataBuffer.readUInt8 db (p + 2)) as [b2|] eqn:E2; [|discriminate].
  destruct (DataBuffer.readUInt8 db (p + 3)) as [b3|] eqn:E3; [|discriminate].
  intros H.
  assert (Hv : b0 + 256 * b1 + 65536 * b2 + 16777216 * b3 = v) by congruence.
  clear H.
  apply readUInt8_nth in E0, E1, E2, E3.
  destruct E0 as [_ H0], E1 as [_ H1], E2 as [_ H2], E3 as [_ H3].
  pose proof (wf_nth db (Z.to_nat p) Hw).
  pose proof (wf_nth db (Z.to_nat (p + 1)) Hw).
  pose proof (wf_nth db (Z.to_nat (p + 2)) Hw).
  pose proof (wf_nth db (Z.to_nat (p + 3)) Hw).
  lia.
Qed.

Lemma findActive_nonneg (db : DataBuffer.t) (k : nat) :
  DataBuffer.wf db ->
  forall offEntry o,
    findActive db k offEntry 512 = Some (Some o) -> 0 <= o.
Proof.
  intros Hw. induction k as [|k IH]; intros offEntry o H.
  - discriminate.
  - cbn [findActive] in H.
    destruct (DataBuffer.readUInt8 db offEntry) as [st|]; [|discriminate].
    destruct (128 <=? st); [|eapply IH; eassumption].
    destruct (DataBuffer.readUInt32LE db (offEntry + 8)) as [lba|] eqn:E; [|discriminate].
    destruct (DataBuffer.readUInt32LE db (offEntry + 12)) as [tot|]; [|discriminate].
    injection H as <-.
    pose proof (readUInt32LE_nonneg _ _ _ Hw E). lia.
Qed.

Lemma bootSectorOffset_nonneg db off :
  DataBuffer.wf db -> bootSectorOffset db = Some off -> 0 <= off.
Proof.
  intros Hw. unfold bootSectorOffset.
  destruct (3000000 <=? DataBuffer.length db); [|intros H; injection H as <-; lia].
  destruct (DataBuffer.readUInt16LE db BOOT.SIG_OFFSET) as [w|]; [|discriminate].
  destruct (w =? BOOT.SIGNATURE); [|intros H; injection H as <-; lia].
  destruct (findActive db 4 446 512) as [[o|]|] eqn:E; [| |discriminate];
    intros H; injection H as <-; [|lia].
  eapply findActive_nonneg; eassumption.
Qed.

End Assembly.

Section LogicalSectors.

Lemma sectorLoop_this dbTrack fX off cb cbTrack iC iH (k : nat) :
  forall this iSector offSector cbThis m sectors this' m',
    sectorLoop this dbTrack fX off cb cbTrack iC iH k iSector offSector cbThis m
    = Some (sectors, this', m') ->
    nSectors this' = nSectors this.
Proof.
  induction k as [|k IH];
    intros this iSector offSector cbThis m sectors this' m' H.
  - injection H as _ <- _. reflexivity.
  - cbn [sectorLoop] in H.
    destruct (offSector <? cbTrack); [|injection H as _ <- _; reflexivity].
    destruct (if negb (m =? 0) && (iC =? 0) && (iH =? 0)
                 && (iSector =? divi off cb + 2) then _ else _)
      as [m1|]; [|discriminate].
    destruct (buildSector this iC iH _ _ _ 0) as [[s this1]|] eqn:Eb;
      [|discriminate].
    destruct (sectorLoop _ _ _ _ _ _ _ _ k _ _ _ _) as [[[rest this3] m3]|] eqn:Er;
      [|discriminate].
    injection H as _ <- _.
    apply IH in Er. rewrite Er. cbn.
    apply (buildSector_this _ _ _ _ _ _ _ _ _ Eb).
Qed.

(** Without a track table the loops keep the logical number of sectors per
    track and leave it in [this.nSectors]. *)
Lemma headLoop_logical db fX off offTrack iC (k : nat) :
  forall iHead st tracks st',
    headLoop db false fX off offTrack iC k iHead st = Some (tracks, st') ->
    hsLogical st' = hsLogical st
    /\ (nSectors (hsThis st) = Num (hsLogical st) \/ (0 < k)%nat ->
        nSectors (hsThis st') = Num (hsLogical st)).
Proof.
  induction k as [|k IH]; intros iHead st tracks st' H.
  - injection H as _ <-. split; [reflexivity|].
    intros [Hn|Hn]; [assumption | lia].
  - cbn [headLoop] in H.
    destruct (sectorLoop _ _ _ _ _ _ _ _ _ _ _ _ _) as [[[sectors this2] m]|] eqn:Es;
      [|discriminate].
    destruct (headLoop _ _ _ _ _ _ k _ _) as [[rest st1]|] eqn:Er; [|discriminate].
    injection H as _ <-.
    apply sectorLoop_this in Es. cbn in Es.
    apply IH in Er. cbn [hsLogical hsThis] in Er. destruct Er as [Hl Hn].
    split; [assumption|]. intros _. apply Hn. left. assumption.
Qed.

Lemma cylinderLoop_logical db fX off nHeads (k : nat) :
  forall iC offTrack st data st',
    cylinderLoop db false fX off nHeads k iC offTrack st = Some (data, st') ->
    hsLogical st' = hsLogical st
    /\ (nSectors (hsThis st) = Num (hsLogical st) \/ ((0 < k)%nat /\ 0 < nHeads) ->
        nSectors (hsThis st') = Num (hsLogical st)).
Proof.
  induction k as [|k IH]; intros iC offTrack st data st' H.
  - injection H as _ <-. split; [reflexivity|].
    intros [Hn|Hn]; [assumption | lia].
  - cbn [cylinderLoop] in H.
    destruct (headLoop _ _ _ _ _ _ _ _ _) as [[aHeads st1]|] eqn:Eh; [|discriminate].
    destruct (cylinderLoop _ _ _ _ _ k _ _ _) as [[rest st2]|] eqn:Er; [|discriminate].
    injection H as _ <-.
    apply headLoop_logical in Eh. cbn [hsLogical hsThis] in Eh.
    destruct Eh as [Hl1 Hn1].
    apply IH in Er. destruct Er as [Hl2 Hn2]. rewrite Hl1 in *.
    split; [assumption|]. intros Hn. apply Hn2. left. apply Hn1.
    destruct Hn as [Hn|[_ Hn]]; [left; exact Hn | right; lia].
Qed.

End LogicalSectors.

Section OrigBPB.

Lemma buildSector_orig this c h id cb db ib s this' :
  buildSector this c h id cb db ib = Some (s, this') ->
  abOrigBPB this' = abOrigBPB this.
Proof.
  unfold buildSector. destruct (readWords db _ ib) as [adw|]; [|discriminate].
  intros H. injection H as H. unfold initSector in H.
  destruct (initRun _ _ _ _ _ _) as [[adw1 p] cPrev].
  injection H as _ <-. reflexivity.
Qed.

Lemma sectorLoop_orig dbTrack fX off cb cbTrack iC iH (k : nat) :
  forall this iSector offSector cbThis m sectors this' m',
    sectorLoop this dbTrack fX off cb cbTrack iC iH k iSector offSector cbThis m
    = Some (sectors, this', m') ->
    abOrigBPB this' = abOrigBPB this.
Proof.
  induction k as [|k IH];
    intros this iSector offSector cbThis m sectors this' m' H.
  - injection H as _ <- _. reflexivity.
  - cbn [sectorLoop] in H.
    destruct (offSector <? cbTrack); [|injection H as _ <- _; reflexivity].
    destruct (if negb (m =? 0) && (iC =? 0) && (iH =? 0)
                 && (iSector =? divi off cb + 2) then _ else _)
      as [m1|]; [|discriminate].
    destruct (buildSector this iC iH _ _ _ 0) as [[s this1]|] eqn:Eb;
      [|discriminate].
    destruct (sectorLoop _ _ _ _ _ _ _ _ k _ _ _ _) as [[[rest this3] m3]|] eqn:Er;
      [|discriminate].
    injection H as _ <- _.
    apply IH in Er. rewrite Er. cbn.
    apply (buildSector_orig _ _ _ _ _ _ _ _ _ Eb).
Qed.

Lemma headLoop_orig db fT fX off offTrack iC (k : nat) :
  forall iHead st tracks st',
    headLoop db fT fX off offTrack iC k iHead st = Some (tracks, st') ->
    abOrigBPB (hsThis st') = abOrigBPB (hsThis st).
Proof.
  induction k as [|k IH]; intros iHead st tracks st' H.
  - injection H as _ <-. reflexivity.
  - cbn [headLoop] in H.
    destruct (if fT then _ else _) as [[[[[[dbT tr] n] nL] cbS] cbT]|];
      [|discriminate].
    cbv beta iota in H.
    destruct (sectorLoop _ _ _ _ _ _ _ _ _ _ _ _ _) as [[[sectors this2] m]|] eqn:Es;
      [|discriminate].
    destruct (headLoop _ _ _ _ _ _ k _ _) as [[rest st1]|] eqn:Er; [|discriminate].
    injection H as _ <-.
    apply sectorLoop_orig in Es. cbn in Es.
    apply IH in Er. cbn [hsThis] in Er. congruence.
Qed.

Lemma cylinderLoop_orig db fT fX off nHeads (k : nat) :
  forall iC offTrack st data st',
    cylinderLoop db fT fX off nHeads k iC offTrack st = Some (data, st') ->
    abOrigBPB (hsThis st') = abOrigBPB (hsThis st).
Proof.
  induction k as [|k IH]; intros iC offTrack st data st' H.
  - injection H as _ <-. reflexivity.
  - cbn [cylinderLoop] in H.
    destruct (headLoop _ _ _ _ _ _ _ _ _) as [[aHeads st1]|] eqn:Eh; [|discriminate].
    destruct (cylinderLoop _ _ _ _ _ k _ _ _) as [[rest st2]|] eqn:Er; [|discriminate].
    injection H as _ <-.
    apply headLoop_orig in Eh. cbn in Eh. apply IH in Er. congruence.
Qed.

End OrigBPB.


(* ===================================================================== *)
(** * The round trip through buildDiskFromBuffer and getData *)
(* ===================================================================== *)

Lemma wf_octets (db : DataBuffer.t) : octets db = true -> DataBuffer.wf db.
Proof.
  unfold octets, DataBuffer.wf. rewrite forallb_forall, Forall_forall.
  intros H x Hx. specialize (H x Hx). apply andb_true_iff in H.
  destruct H as [H1 H2]. apply Z.leb_le in H1. apply Z.ltb_lt in H2. lia.
Qed.

Lemma sameBytes_false (a b : DataBuffer.t) : sameBytes a b = false -> a <> b.
Proof.
  intros H ->. unfold sameBytes in H. rewrite Nat.eqb_refl in H.
  cbn [andb] in H.
  assert (Ht : forallb (fun p => fst p =? snd p) (combine b b) = true).
  { clear H. induction b as [|x b IH]; [reflexivity|].
    cbn. rewrite Z.eqb_refl. exact IH. }
  congruence.
Qed.

(** X1.  For a buffer [B] of octets whose length is a
    standard capacity of the geometry table, on an image without XDF support:
    when buildDiskFromBuffer succeeds and keeps the number of sectors per
    track of the geometry ([this.nSectors] after the call), getData into any
    buffer of the same length succeeds and leaves exactly the bytes of [B] in
    it.  The bytes of the BPB that the build replaced are put back by getData
    from [abOrigBPB], whatever [fBPBModified] says. *)
Theorem buffer_roundtrip this B hash forceBPB this' B1 B0 g :
  DataBuffer.wf B ->
  lookupGeometry GEOMETRIES (DataBuffer.length B) = Some g ->
  fXDFSupport this = false ->
  buildDiskFromBuffer this B hash forceBPB = Some (true, this', B1) ->
  nSectors this' = Num (geoSectors g) ->
  DataBuffer.length B0 = DataBuffer.length B ->
  exists this'', getData this' B0 = Some (true, this'', B).
Proof.
  intros Hw Hg HX H Hns HB0.
  pose proof (lookupGeometry_standard _ _ Hg) as Hstd. cbv zeta in Hstd.
  destruct Hstd as (Hcb & Hm & Hc & Hh & Hs & Htot).
  unfold buildDiskFromBuffer in H. cbv zeta in H. rewrite Hg in H.
  destruct (bootSectorOffset B) as [off|] eqn:Eoff; [|discriminate].
  destruct (DataBuffer.readUInt8 B (off + BPB.JMP_OPCODE)) as [b0|]; [|discriminate].
  destruct (DataBuffer.readUInt8 B (off + BPB.JMP_OPCODE + 1)) as [b1|]; [|discriminate].
  destruct (DataBuffer.readUInt16LE B (off + BPB.SECTOR_BYTES)) as [cbS|]; [|discriminate].
  destruct (readBytes B off _ BPB.JMP_OPCODE) as [orig|] eqn:Eorig; [|discriminate].
  destruct (probeBPB _ B off b0 cbS (Some g) _) as [[[[e mB] sh1] fX]|] eqn:Ep;
    [|discriminate].
  apply probeBPB_standard in Ep. destruct Ep as [-> HfX].
  specialize (HfX HX). subst fX. cbn [shMediaID shSector shSectorsPerTrack
                                      shCylinders shHeads] in H.
  destruct (if orElse (geoMediaID g) 0 =? 0 then _ else _) as [iBPB|]; [|discriminate].
  destruct (repairBPB _ _ _ _ _ _ _ _ _ _) as [[[[m nLogical] db1] fUpd]|] eqn:Er;
    [|discriminate].
  destruct (updateOEM db1 forceBPB e off) as [[db2 fOEM]|] eqn:Eo; [|discriminate].
  rewrite probeDSK_heads in H by (cbn [shHeads]; lia).
  cbn [shHeads shCylinders shSectorsPerTrack shSector shMediaID] in H.
  destruct (geoHeads g =? 0) eqn:Eh0; [apply Z.eqb_eq in Eh0; lia|].
  cbn [negb len length Z.of_nat Z.eqb] in H.
  destruct (cylinderLoop _ _ _ _ _ _ _ _ _) as [[data st']|] eqn:Eg; [|discriminate].
  injection H as <- <-.
  (* the buffer after the repairs *)
  apply repairBPB_spec in Er; [|assumption]. destruct Er as [Ha1 Hw1].
  apply updateOEM_spec in Eo; [|assumption]. destruct Eo as [Ha2 Hw2].
  pose proof (agreeOutside_trans _ _ _ _ _ Ha1 Ha2) as [Hlen Hagree].
  pose proof (bootSectorOffset_nonneg _ _ Hw Eoff) as Hoff.
  pose proof (cylinderLoop_orig _ _ _ _ _ _ _ _ _ _ _ Eg) as Horig.
  cbn [hsThis] in Horig.
  assert (Ho : abOrigBPB (hsThis st') = off :: orig).
  { rewrite Horig. destruct hash as [h|]; cbn [given andb];
      destruct fUpd, fOEM; cbn; try destruct (h =? "")%string; reflexivity. }
  clear Horig.
  (* the track keeps its physical number of sectors *)
  pose proof (cylinderLoop_logical _ _ _ _ _ _ _ _ _ _ Eg) as [_ Hlog].
  cbn [hsLogical hsThis] in Hlog. cbn [nSectors setDiskData] in Hns.
  rewrite Hlog in Hns by (right; lia). injection Hns as ->.
  (* the bytes of the sectors *)
  set (cb := orElse (geoSectorBytes g) 512) in *.
  unfold DataBuffer.length in *.
  assert (Hl2 : len db2 = len B) by (unfold len; lia).
  apply (cylinderLoop_bytes db2 off (geoSectors g) cb Hcb Hm Hw2 ltac:(lia)) in Eg;
    [ | lia | repeat split; reflexivity | lia
      | rewrite Z2Nat.id by lia; lia ].
  destruct Eg as (Hbytes & _ & _).
  rewrite Z2Nat.id in Hbytes by lia. rewrite <- Htot in Hbytes.
  change (Z.to_nat 0) with 0%nat in Hbytes. cbn [skipn] in Hbytes.
  rewrite <- Hl2 in Hbytes. unfold len in Hbytes at 1.
  rewrite Nat2Z.id, firstn_all in Hbytes.
  (* getData *)
  unfold getData. cbn [aDiskData abOrigBPB setDiskData].
  destruct (writeDisk_buffer data B0) as (cur & Hcur & Hbuf);
    [rewrite Hbytes; unfold len in *; lia|].
  rewrite Hcur.
  assert (Hdb : cursorBuffer cur = db2).
  { rewrite Hbuf, Hbytes. rewrite skipn_all2 by (unfold len in *; lia).
    apply app_nil_r. }
  rewrite Hdb. cbn [abOrigBPB setDiskData]. rewrite Ho.
  apply readBytes_spec in Eorig. destruct Eorig as [Hlo Hob].
  unfold len in *.
  change (Z.to_nat (BPB.LARGE_SECS + 4 - BPB.JMP_OPCODE)) with 36%nat in *.
  change BPB.JMP_OPCODE with 0 in *.
  assert (Hfo : Forall (fun b => 0 <= b < 256) orig).
  { apply Forall_forall. intros x Hx. apply In_nth with (d := 0) in Hx.
    destruct Hx as (j & Hj & <-). rewrite Hlo in Hj.
    destruct (Hob j Hj) as [Hr ->]. apply wf_nth. assumption. }
  destruct (restoreBPB_spec orig off 36 Hfo 0 db2) as (db3 & Hr & Hl3 & Hn3);
    [lia | lia | unfold len; lia | pose proof (Hob 35%nat ltac:(lia)); unfold len; lia |].
  rewrite Hr. cbn. eexists. do 2 f_equal.
  apply nth_ext with (d := 0) (d' := 0); [lia|].
  intros j Hj. rewrite Hn3.
  destruct ((off + 0 <=? Z.of_nat j) && (Z.of_nat j <? off + 0 + Z.of_nat 36)) eqn:Ein.
  - apply andb_true_iff in Ein. destruct Ein as [E1 E2].
    apply Z.leb_le in E1. apply Z.ltb_lt in E2.
    destruct (Hob (Z.to_nat (Z.of_nat j - off)) ltac:(lia)) as [_ ->].
    f_equal. lia.
  - symmetry. apply Hagree.
    apply andb_false_iff in Ein. destruct Ein as [E|E];
      [apply Z.leb_gt in E | apply Z.ltb_ge in E]; lia.
Qed.

(* ===================================================================== *)
(** * Further properties of the code *)
(* ===================================================================== *)

Lemma succeeded_eq r :
  succeeded r = true -> r = Some (true, builtDisk r, builtBuffer r).
Proof.
  destruct r as [[[[|] d] b]|]; intros H; try discriminate. reflexivity.
Qed.

Lemma builtWith_spec r n :
  builtWith r n = true ->
  r = Some (true, builtDisk r, builtBuffer r) /\ nSectors (builtDisk r) = Num n.
Proof.
  unfold builtWith. intros H. apply andb_true_iff in H. destruct H as [H1 H2].
  split; [apply succeeded_eq; assumption|].
  destruct (nSectors (builtDisk r)) as [| |m]; [discriminate | discriminate|].
  apply Z.eqb_eq in H2. congruence.
Qed.

(** The build of the 160K image, evaluated once. *)
Lemma image160K_built :
  octets image160K = true
  /\ builtWith (buildDiskFromBuffer writableDisk image160K None false) 8 = true.
Proof. split; vm_compute; reflexivity. Qed.

Lemma buffer_roundtrip_witness :
  exists this'',
    getData (builtDisk (buildDiskFromBuffer writableDisk image160K None false))
            (DataBuffer.zeros 163840) = Some (true, this'', image160K).
Proof.
  refine (buffer_roundtrip writableDisk image160K None false
            (builtDisk (buildDiskFromBuffer writableDisk image160K None false))
            (builtBuffer (buildDiskFromBuffer writableDisk image160K None false))
            (DataBuffer.zeros 163840)
            (mkGeometry 40 1 8 Undef (Num 0xFE)) _ _ _ _ _ _).
  - apply wf_octets. exact (proj1 image160K_built).
  - vm_compute. reflexivity.
  - reflexivity.
  - exact (proj1 (builtWith_spec _ _ (proj2 image160K_built))).
  - exact (proj2 (builtWith_spec _ _ (proj2 image160K_built))).
  - vm_compute. reflexivity.
Defined.

Section SavedBPB.

Lemma cell_byte (ab : list Z) (i : Z) :
  Forall (fun b => 0 <= b < 256) ab -> 0 <= i ->
  valInt32 (cell ab i) = nth (Z.to_nat i) ab 0.
Proof.
  intros Hab Hi. destruct (Z.lt_ge_cases i (len ab)) as [Hlt|Hge].
  - rewrite cell_nth by lia. cbn [valInt32]. apply toInt32_byte.
    apply (proj1 (Forall_forall _ ab) Hab). apply nth_In. unfold len in Hlt. lia.
  - unfold cell, item. destruct (i <? 0) eqn:E; [apply Z.ltb_lt in E; lia|].
    assert (Hn : nth_error ab (Z.to_nat i) = None)
      by (apply nth_error_None; unfold len in Hge; lia).
    rewrite Hn. cbn [valInt32]. symmetry. apply nth_overflow.
    unfold len in Hge. lia.
Qed.

(** The loop that puts the saved bytes back, for a saved array of any
    length: a missing value is stored as 0. *)
Lemma restoreBPB_total (ab : list Z) (off : Z) (k : nat) :
  Forall (fun b => 0 <= b < 256) ab ->
  forall i db,
    0 <= i -> 0 <= off -> off + i + Z.of_nat k <= len db ->
    exists db',
      restoreBPB ab off k i db = Some db'
      /\ length db' = length db
      /\ forall j : nat,
           nth j db' 0
           = if (off + i <=? Z.of_nat j) && (Z.of_nat j <? off + i + Z.of_nat k)
             then nth (Z.to_nat (Z.of_nat j - off)) ab 0
             else nth j db 0.
Proof.
  intros Hab. induction k as [|k IH]; intros i db Hi Hoff Hlen.
  - exists db. split; [reflexivity|]. split; [reflexivity|].
    intros j. destruct (off + i <=? Z.of_nat j) eqn:E1; [|reflexivity].
    destruct (Z.of_nat j <? off + i + Z.of_nat 0) eqn:E2; [|reflexivity].
    apply Z.leb_le in E1. apply Z.ltb_lt in E2. lia.
  - cbn [restoreBPB]. unfold BPB.JMP_OPCODE. rewrite Z.sub_0_r.
    destruct (writeUInt8_in db (cell ab i) (off + i) ltac:(lia)) as [db1 E].
    rewrite E. pose proof (writeUInt8_spec _ _ _ _ E) as (_ & Hl1 & Hn1).
    destruct (IH (i + 1) db1 ltac:(lia) Hoff
                 ltac:(unfold len in *; lia)) as (db' & Hr & Hl & Hn).
    exists db'. split; [assumption|]. split; [congruence|].
    intros j. rewrite Hn, Hn1. rewrite cell_byte by assumption.
    destruct (Nat.eqb j (Z.to_nat (off + i))) eqn:Ej.
    + apply Nat.eqb_eq in Ej.
      replace ((off + (i + 1) <=? Z.of_nat j)) with false
        by (symmetry; apply Z.leb_gt; lia).
      replace ((off + i <=? Z.of_nat j)) with true
        by (symmetry; apply Z.leb_le; lia).
      replace (Z.of_nat j <? off + i + Z.of_nat (S k)) with true
        by (symmetry; apply Z.ltb_lt; lia).
      cbn [andb]. f_equal. lia.
    + apply Nat.eqb_neq in Ej.
      destruct (off + (i + 1) <=? Z.of_nat j) eqn:E1.
      * apply Z.leb_le in E1.
        replace ((off + i <=? Z.of_nat j)) with true
          by (symmetry; apply Z.leb_le; lia).
        replace (off + (i + 1) + Z.of_nat k) with (off + i + Z.of_nat (S k)) by lia.
        reflexivity.
      * apply Z.leb_gt in E1. cbn [andb].
        destruct (off + i <=? Z.of_nat j) eqn:E2; [|reflexivity].
        apply Z.leb_le in E2. lia.
Qed.

(** One call of getData on an image that has saved boot-sector bytes. *)
Lemma getData_saved this data off ab db :
  aDiskData this = Some data ->
  abOrigBPB this = off :: ab ->
  Forall (fun b => 0 <= b < 256) ab ->
  (length (diskBytes data) <= length db)%nat ->
  0 <= off -> off + 36 <= len db ->
  exists out,
    getData this db = Some (true, setOrigBPB this ab, out)
    /\ length out = length db
    /\ forall j : nat,
         nth j out 0
         = if (off <=? Z.of_nat j) && (Z.of_nat j <? off + 36)
           then nth (Z.to_nat (Z.of_nat j - off)) ab 0
           else nth j (written data db) 0.
Proof.
  intros Hd Ho Hab Hlen Hoff Hfit. unfold getData. rewrite Hd, Ho.
  destruct (writeDisk_buffer data db Hlen) as (cur & Hcur & Hbuf).
  rewrite Hcur.
  change (Z.to_nat (BPB.LARGE_SECS + 4 - BPB.JMP_OPCODE)) with 36%nat.
  change BPB.JMP_OPCODE with 0.
  assert (Hl : length (cursorBuffer cur) = length db).
  { rewrite Hbuf, length_app, length_skipn. lia. }
  destruct (restoreBPB_total ab off 36 Hab 0 (cursorBuffer cur))
    as (out & Hr & Hlo & Hn); [lia | lia | unfold len in *; lia |].
  rewrite Hr. exists out. split; [reflexivity|]. split; [congruence|].
  intros j. rewrite Hn, Hbuf. rewrite Z.add_0_r. reflexivity.
Qed.

End SavedBPB.

(** X2.  getData cannot be repeated.  On an image with data and saved
    boot-sector bytes [off :: b0 :: orig], a first call writes the sectors
    and puts the saved bytes [b0 :: orig] back at offset [off]; it removes
    [off] from the saved array, so a second call takes the first saved byte
    [b0] for the offset and puts the remaining bytes [orig] (and a 0 for the
    missing last one) at [b0]. *)
Theorem getData_twice this data off b0 orig db1 db2 :
  aDiskData this = Some data ->
  abOrigBPB this = off :: b0 :: orig ->
  Forall (fun b => 0 <= b < 256) (b0 :: orig) ->
  (length (diskBytes data) <= length db1)%nat -> length db2 = length db1 ->
  0 <= off -> off + 36 <= len db1 -> b0 + 36 <= len db1 ->
  exists this1 out1 this2 out2,
    getData this db1 = Some (true, this1, out1)
    /\ getData this1 db2 = Some (true, this2, out2)
    /\ abOrigBPB this1 = b0 :: orig /\ abOrigBPB this2 = orig
    /\ (forall j : nat,
          nth j out1 0
          = if (off <=? Z.of_nat j) && (Z.of_nat j <? off + 36)
            then nth (Z.to_nat (Z.of_nat j - off)) (b0 :: orig) 0
            else nth j (written data db1) 0)
    /\ (forall j : nat,
          nth j out2 0
          = if (b0 <=? Z.of_nat j) && (Z.of_nat j <? b0 + 36)
            then nth (Z.to_nat (Z.of_nat j - b0)) orig 0
            else nth j (written data db2) 0).
Proof.
  intros Hd Ho Hab Hlen Hl2 Hoff Hfit Hfit2.
  destruct (getData_saved this data off (b0 :: orig) db1 Hd Ho Hab Hlen Hoff Hfit)
    as (out1 & H1 & _ & Hn1).
  assert (Hb0 : 0 <= b0 < 256) by (inversion Hab; assumption).
  assert (Hab' : Forall (fun b => 0 <= b < 256) orig) by (inversion Hab; assumption).
  destruct (getData_saved (setOrigBPB this (b0 :: orig)) data b0 orig db2)
    as (out2 & H2 & _ & Hn2);
    [exact Hd | reflexivity | assumption | lia | lia | unfold len in *; lia |].
  exists (setOrigBPB this (b0 :: orig)), out1,
         (setOrigBPB (setOrigBPB this (b0 :: orig)) orig), out2.
  repeat (split; [assumption || reflexivity|]). assumption.
Qed.

Lemma getData_twice_witness :
  exists this1 out1 this2 out2,
    getData savedDisk (DataBuffer.zeros 512) = Some (true, this1, out1)
    /\ getData this1 (DataBuffer.zeros 512) = Some (true, this2, out2)
    /\ abOrigBPB this1 = 40 :: repeat 7 35 /\ abOrigBPB this2 = repeat 7 35
    /\ (forall j : nat,
          nth j out1 0
          = if (0 <=? Z.of_nat j) && (Z.of_nat j <? 0 + 36)
            then nth (Z.to_nat (Z.of_nat j - 0)) (40 :: repeat 7 35) 0
            else nth j (written [[[Some zeroSector]]] (DataBuffer.zeros 512)) 0)
    /\ (forall j : nat,
          nth j out2 0
          = if (40 <=? Z.of_nat j) && (Z.of_nat j <? 40 + 36)
            then nth (Z.to_nat (Z.of_nat j - 40)) (repeat 7 35) 0
            else nth j (written [[[Some zeroSector]]] (DataBuffer.zeros 512)) 0).
Proof.
  apply (getData_twice savedDisk [[[Some zeroSector]]] 0 40 (repeat 7 35)
                       (DataBuffer.zeros 512) (DataBuffer.zeros 512)).
  - reflexivity.
  - reflexivity.
  - apply wf_octets. reflexivity.
  - vm_compute. lia.
  - reflexivity.
  - lia.
  - vm_compute. discriminate.
  - vm_compute. discriminate.
Defined.

Section ReadBuilt.

Lemma readWords_word (b : DataBuffer.t) (n : nat) :
  forall ib ws k,
    readWords (Some b) n ib = Some ws ->
    0 <= ib -> 0 <= k < Z.of_nat n ->
    get ws k
    = Num (toInt32 (nth (Z.to_nat (ib + 4 * k)) b 0
                    + 256 * nth (Z.to_nat (ib + 4 * k + 1)) b 0
                    + 65536 * nth (Z.to_nat (ib + 4 * k + 2)) b 0
                    + 16777216 * nth (Z.to_nat (ib + 4 * k + 3)) b 0)).
Proof.
  induction n as [|n IH]; intros ib ws k H Hib Hk; [lia|].
  cbn [readWords] in H.
  destruct (if ib <? DataBuffer.length b then DataBuffer.readInt32LE b ib
            else Some 0) as [dw|] eqn:Ed; [|discriminate].
  destruct (readWords (Some b) n (ib + 4)) as [rest|] eqn:Er; [|discriminate].
  injection H as <-.
  destruct (Z.eq_dec k 0) as [->|Hk0].
  - rewrite get_cons_0. replace (ib + 4 * 0) with ib by lia.
    destruct (ib <? DataBuffer.length b) eqn:El.
    + apply readInt32LE_spec in Ed. destruct Ed as (_ & _ & ->). reflexivity.
    + apply Z.ltb_ge in El. unfold DataBuffer.length, len in El.
      injection Ed as <-.
      rewrite !nth_overflow by lia. reflexivity.
  - rewrite get_cons_S by lia.
    rewrite (IH (ib + 4) rest (k - 1) Er) by lia.
    repeat (f_equal; try lia).
Qed.

End ReadBuilt.

(** X3.  Reading a sector that buildSector made from a buffer gives back the
    bytes of the buffer: byte [i] of the sector is the byte at [ib + i] of the
    buffer, and 0 past its end, for every [i] below the whole number of
    4-byte values of the sector. *)
Theorem read_buildSector this c h id cb db ib s this' i :
  0 <= cb < 2 ^ 31 -> DataBuffer.wf db -> 0 <= ib ->
  buildSector this c h id cb (Some db) ib = Some (s, this') ->
  0 <= i < 4 * (cb / 4) ->
  read (Some s) i = nth (Z.to_nat (ib + i)) db 0.
Proof.
  intros Hcb Hw Hib H Hi.
  destruct (buildSector_invariant _ _ _ _ _ _ _ _ _ Hcb H) as (HL & _ & Hr & _).
  assert (Hdiv : 0 <= cb / 4) by (apply Z.div_pos; lia).
  assert (H4 : 4 * (cb / 4) <= cb)
    by (pose proof (Z.div_mod cb 4 ltac:(lia));
        pose proof (Z.mod_pos_bound cb 4 ltac:(lia)); lia).
  rewrite (read_stored s i) by lia.
  assert (Hk : 0 <= i / 4 < cb / 4).
  { split; [apply Z.div_pos; lia|]. apply Z.div_lt_upper_bound; lia. }
  rewrite <- (expand_nth (DATA s) (cb / 4)) by assumption.
  rewrite (readWords_word db (Z.to_nat (cb / 4)) ib _ (i / 4) Hr) by lia.
  cbn [valInt32]. pose proof (Z.mod_pos_bound i 4 ltac:(lia)) as Hmod.
  rewrite le32_byte by (try apply wf_nth; try assumption; lia).
  pose proof (Z.div_mod i 4 ltac:(lia)) as Hdm.
  assert (Hc : i mod 4 = 0 \/ i mod 4 = 1 \/ i mod 4 = 2 \/ i mod 4 = 3) by lia.
  destruct Hc as [E | [E | [E | E]]]; rewrite E; simpl Z.eqb; cbv iota;
    f_equal; lia.
Qed.

Lemma read_buildSector_witness :
  read (Some (mkSector 0 0 (Num 1) 8 [Num 0x04030201; Num 0x08070605] None None
                       None None None None None None None)) 5
  = nth (Z.to_nat (2 + 5)) [9; 9; 1; 2; 3; 4; 5; 6; 7; 8; 9] 0.
Proof.
  apply (read_buildSector (constructor "" false) 0 0 1 8
                          [9; 9; 1; 2; 3; 4; 5; 6; 7; 8; 9] 2 _
                          (setChecksum (constructor "" false) (Num 0)) 5).
  - lia.
  - apply wf_octets. reflexivity.
  - lia.
  - vm_compute. reflexivity.
  - vm_compute. split; [discriminate | reflexivity].
Defined.

Section WriteRead.

(** The value that stands at index [k] after write has filled the array up
    to index [idw] with its last value and replaced the value at [idw]. *)
Lemma storedWord_written (adw : list val) (idw k : Z) (v : val) :
  0 <= idw -> 0 <= k ->
  storedWord (set (adw ++ repeat (last adw Undef) (Z.to_nat (idw + 1 - len adw)))
                  idw v) k
  = if (k =? idw) || ((len adw <=? idw + 1) && (idw <? k)) then v
    else storedWord adw k.
Proof.
  intros Hidw Hk.
  set (adw1 := adw ++ repeat (last adw Undef) (Z.to_nat (idw + 1 - len adw))).
  pose proof (len_nonneg adw) as Hn.
  assert (Hl1 : len adw1 = Z.max (len adw) (idw + 1)).
  { unfold adw1. rewrite len_app, len_repeat. lia. }
  assert (Hw : forall j, 0 <= j -> storedWord adw1 j = storedWord adw j).
  { intros j Hj. rewrite !storedWord_get by assumption. unfold adw1 at 2 3.
    rewrite <- get_last.
    destruct (j <? len adw) eqn:E1.
    - apply Z.ltb_lt in E1.
      replace (j <? len adw1) with true by (symmetry; apply Z.ltb_lt; lia).
      apply get_app_l. lia.
    - apply Z.ltb_ge in E1.
      assert (Hrep : forall i, len adw <= i < len adw1 ->
                get (adw ++ repeat (get adw (len adw - 1))
                              (Z.to_nat (idw + 1 - len adw))) i
                = get adw (len adw - 1)).
      { intros i Hi. rewrite get_app_r by lia.
        rewrite get_nth_error by lia.
        destruct (nth_error _ _) as [w|] eqn:En.
        - apply nth_error_In, repeat_spec in En. assumption.
        - apply nth_error_None in En. rewrite repeat_length in En. lia. }
      destruct (j <? len adw1) eqn:E2.
      + apply Z.ltb_lt in E2. apply Hrep. lia.
      + destruct (Z.eq_dec (len adw1) (len adw)) as [He|He].
        * rewrite He. apply get_app_l. 
          destruct (Z.eq_dec (len adw) 0) as [H0|H0]; [|lia].
          rewrite H0. simpl. lia.
        * apply Hrep. lia. }
  rewrite storedWord_get by assumption.
  rewrite len_set by lia. rewrite !get_set by lia.
  destruct (k =? idw) eqn:Ek.
  - apply Z.eqb_eq in Ek. subst k. cbn [orb].
    replace (idw <? len adw1) with true by (symmetry; apply Z.ltb_lt; lia).
    reflexivity.
  - apply Z.eqb_neq in Ek. cbn [orb].
    destruct (k <? len adw1) eqn:E1.
    + apply Z.ltb_lt in E1.
      replace ((len adw <=? idw + 1) && (idw <? k)) with false.
      * rewrite <- Hw by assumption. rewrite storedWord_get by assumption.
        replace (k <? len adw1) with true by (symmetry; apply Z.ltb_lt; lia).
        reflexivity.
      * symmetry. apply andb_false_iff.
        destruct (Z.le_gt_cases (len adw) (idw + 1));
          [right; apply Z.ltb_ge | left; apply Z.leb_gt]; lia.
    + apply Z.ltb_ge in E1.
      replace (idw <? k) with true by (symmetry; apply Z.ltb_lt; lia).
      rewrite andb_true_r.
      destruct (len adw <=? idw + 1) eqn:E2.
      * apply Z.leb_le in E2.
        replace (len adw1 - 1 =? idw) with true
          by (symmetry; apply Z.eqb_eq; lia).
        reflexivity.
      * apply Z.leb_gt in E2.
        replace (len adw1 - 1 =? idw) with false
          by (symmetry; apply Z.eqb_neq; lia).
        rewrite <- Hw by assumption. rewrite storedWord_get by assumption.
        replace (k <? len adw1) with false by (symmetry; apply Z.ltb_ge; lia).
        reflexivity.
Qed.

End WriteRead.

(** X4.  What a write changes, as read sees it.  On a writable disk, after a
    byte [b] is written at [iByte] inside the sector, read returns [b] at
    [iByte].  A byte [j] in another 4-byte value is unchanged, unless the
    write hit the last stored value or went past it
    ([DATA.length <= iByte/4 + 1]): then the changed value becomes the one
    that read repeats, and every byte [j] behind it reads as the byte at the
    same position of the changed value. *)
Theorem write_read this sector iByte b :
  fWritable this = true -> 0 <= iByte < 2 ^ 31 -> iByte < LENGTH sector ->
  0 <= b < 256 ->
  let sector' := snd (write this sector iByte b) in
  fst (write this sector iByte b) = Some true
  /\ LENGTH sector' = LENGTH sector
  /\ forall j, 0 <= j < 2 ^ 31 -> j < LENGTH sector ->
       read (Some sector') j
       = if (j / 4 =? iByte / 4)
            || ((len (DATA sector) <=? iByte / 4 + 1) && (iByte / 4 <? j / 4))
         then if j mod 4 =? iByte mod 4 then b
              else read (Some sector) (4 * (iByte / 4) + j mod 4)
         else read (Some sector) j.
Proof.
  intros Hw Hi Hl Hb sector'.
  assert (Hidw : 0 <= iByte / 4) by (apply Z.div_pos; lia).
  pose proof (Z.mod_pos_bound iByte 4 ltac:(lia)) as Hmi.
  pose proof (Z.div_mod iByte 4 ltac:(lia)) as Hdi.
  (* the bytes of the sector before the write *)
  assert (Hold : forall j, 0 <= j < 2 ^ 31 -> j < LENGTH sector ->
            (j / 4 =? iByte / 4)
            || ((len (DATA sector) <=? iByte / 4 + 1) && (iByte / 4 <? j / 4))
            = true ->
            read (Some sector) (4 * (iByte / 4) + j mod 4)
            = (valInt32 (storedWord (DATA sector) (iByte / 4))
                 / 2 ^ (j mod 4 * 8)) mod 256
            /\ storedWord (DATA sector) (j / 4)
               = storedWord (DATA sector) (iByte / 4)).
  { intros j Hj Hjl Hc.
    pose proof (Z.mod_pos_bound j 4 ltac:(lia)) as Hmj.
    pose proof (Z.div_mod j 4 ltac:(lia)) as Hdj.
    assert (Hge : iByte / 4 <= j / 4).
    { apply orb_true_iff in Hc. destruct Hc as [Hc|Hc].
      - apply Z.eqb_eq in Hc. lia.
      - apply andb_true_iff in Hc. destruct Hc as [_ Hc].
        apply Z.ltb_lt in Hc. lia. }
    split.
    - rewrite read_stored by lia.
      replace ((4 * (iByte / 4) + j mod 4) / 4) with (iByte / 4)
        by (apply Z.div_unique with (r := j mod 4); lia).
      replace ((4 * (iByte / 4) + j mod 4) mod 4) with (j mod 4)
        by (apply Z.mod_unique with (q := iByte / 4); lia).
      reflexivity.
    - apply orb_true_iff in Hc. destruct Hc as [Hc|Hc].
      + apply Z.eqb_eq in Hc. rewrite Hc. reflexivity.
      + apply andb_true_iff in Hc. destruct Hc as [Hc1 Hc2].
        apply Z.leb_le in Hc1. apply Z.ltb_lt in Hc2.
        rewrite !storedWord_get by lia.
        replace (j / 4 <? len (DATA sector)) with false
          by (symmetry; apply Z.ltb_ge; lia).
        destruct (iByte / 4 <? len (DATA sector)) eqn:E; [|reflexivity].
        apply Z.ltb_lt in E. f_equal. lia. }
  destruct (Z.eq_dec b (read (Some sector) iByte)) as [Heq|Hne].
  - (* nothing changes *)
    subst sector'. rewrite (write_same this sector iByte b) by (assumption || lia).
    cbn [fst snd]. split; [reflexivity|]. split; [reflexivity|].
    intros j Hj Hjl.
    pose proof (Z.mod_pos_bound j 4 ltac:(lia)) as Hmj.
    pose proof (Z.div_mod j 4 ltac:(lia)) as Hdj.
    destruct ((j / 4 =? iByte / 4) || _) eqn:Hc; [|reflexivity].
    destruct (Hold j Hj Hjl Hc) as [Hr Hs].
    destruct (j mod 4 =? iByte mod 4) eqn:Em.
    + apply Z.eqb_eq in Em. rewrite Heq.
      rewrite !read_stored by lia. rewrite Hs, Em. reflexivity.
    + rewrite Hr. rewrite read_stored by lia. rewrite Hs. reflexivity.
  - subst sector'.
    rewrite (write_changed this sector iByte b) by (assumption || lia).
    cbv zeta. cbn [fst snd]. split; [reflexivity|]. split; [reflexivity|].
    intros j Hj Hjl.
    pose proof (Z.mod_pos_bound j 4 ltac:(lia)) as Hmj.
    rewrite read_stored by (try assumption; cbn; lia).
    cbn [DATA setModify setDATA].
    rewrite storedWord_written by (try assumption; apply Z.div_pos; lia).
    destruct ((j / 4 =? iByte / 4) || _) eqn:Hc.
    + destruct (Hold j Hj Hjl Hc) as [Hr Hs]. cbn [valInt32].
      rewrite replaceByte_byte by lia.
      destruct (j mod 4 =? iByte mod 4); [reflexivity|].
      rewrite Hr. 
      replace (toInt32 (valInt32 (storedWord (DATA sector) (iByte / 4))))
        with (valInt32 (storedWord (DATA sector) (iByte / 4)));
        [reflexivity|].
      destruct (storedWord _ _); cbn [valInt32];
        [reflexivity | reflexivity | symmetry; apply toInt32_idem].
    + rewrite read_stored by lia. reflexivity.
Qed.

(** The sector of 512 zero bytes stores one value, so the byte 0x41 written at
    byte 100 is read back there and at bytes 104, 108 and so on. *)
Lemma write_read_witness :
  let sector' := snd (write writableDisk zeroSector 100 0x41) in
  fst (write writableDisk zeroSector 100 0x41) = Some true
  /\ LENGTH sector' = LENGTH zeroSector
  /\ forall j, 0 <= j < 2 ^ 31 -> j < LENGTH zeroSector ->
       read (Some sector') j
       = if (j / 4 =? 100 / 4)
            || ((len (DATA zeroSector) <=? 100 / 4 + 1) && (100 / 4 <? j / 4))
         then if j mod 4 =? 100 mod 4 then 0x41
              else read (Some zeroSector) (4 * (100 / 4) + j mod 4)
         else read (Some zeroSector) j.
Proof.
  apply (write_read writableDisk zeroSector 100 0x41).
  - reflexivity.
  - lia.
  - vm_compute. reflexivity.
  - lia.
Defined.

Section Checksum.

Lemma toInt32_congr (x y : Z) :
  x mod 2 ^ 32 = y mod 2 ^ 32 -> toInt32 x = toInt32 y.
Proof.
  intros H. rewrite !toInt32_spec.
  rewrite (Zplus_mod x), (Zplus_mod y), H. reflexivity.
Qed.

Lemma toInt32_add_l (x y : Z) : toInt32 (toInt32 x + y) = toInt32 (x + y).
Proof.
  apply toInt32_congr.
  rewrite (Zplus_mod (toInt32 x)), toInt32_mod, <- Zplus_mod. reflexivity.
Qed.

Lemma toInt32_add_r (x y : Z) : toInt32 (x + toInt32 y) = toInt32 (x + y).
Proof. rewrite Z.add_comm, toInt32_add_l. f_equal. lia. Qed.

(** The checksum loop of initSector over values that are all numbers. *)
Lemma sumWords_spec (adw : list val) (n : nat) :
  forall idw a,
    0 <= idw -> idw + Z.of_nat n <= len adw ->
    Forall (fun w => isUndef w = false) adw ->
    sumWords adw n idw (Num (toInt32 a))
    = Num (toInt32 (a + fold_right Z.add 0
                          (map wordValue (firstn n (skipn (Z.to_nat idw) adw))))).
Proof.
  induction n as [|n IH]; intros idw a Hidw Hlen Hd.
  - cbn [sumWords firstn map fold_right]. rewrite Z.add_0_r. reflexivity.
  - cbn [sumWords]. rewrite (skipn_get adw idw) by lia.
    cbn [firstn map fold_right].
    assert (Hg : exists w, get adw idw = Num w).
    { destruct (get adw idw) as [| |w] eqn:E; [| |eexists; reflexivity];
        (exfalso; rewrite get_nth_error in E by lia;
         destruct (nth_error adw (Z.to_nat idw)) as [v|] eqn:En;
         [ subst v; apply nth_error_In in En;
           rewrite Forall_forall in Hd; specialize (Hd _ En); discriminate
         | apply nth_error_None in En; unfold len in Hlen; lia ]). }
    destruct Hg as [w Hg]. rewrite Hg. cbn [add32 wordValue].
    rewrite toInt32_add_l. rewrite IH by (try assumption; lia).
    f_equal. f_equal. lia.
Qed.

(** buildSector adds the sum of the sector to the checksum of the image. *)
Lemma buildSector_checksum this c h id cb db ib s this' :
  0 <= cb < 2 ^ 31 ->
  buildSector this c h id cb db ib = Some (s, this') ->
  dwChecksum this' = add32 (dwChecksum this) (Num (toInt32 (sectorSum s))).
Proof.
  intros Hcb H. unfold buildSector in H.
  assert (Hs : sar cb 2 = cb / 4) by (apply (sar_small cb 2); lia).
  rewrite Hs in H.
  destruct (readWords db (Z.to_nat (cb / 4)) ib) as [adw|] eqn:E; [|discriminate].
  injection H as H.
  destruct (readWords_defined _ _ _ _ E) as [Hl Hd].
  assert (Hdiv : 0 <= cb / 4) by (apply Z.div_pos; lia).
  unfold initSector in H. rewrite Hs in H.
  rewrite initRun_long in H by (unfold len; lia).
  rewrite filled_defined in H by assumption.
  assert (Hf : firstn (Z.to_nat (cb / 4)) adw = adw)
    by (rewrite <- Hl; apply firstn_all).
  assert (Hk : skipn (Z.to_nat (cb / 4)) adw = [])
    by (rewrite <- Hl; apply skipn_all).
  cbv zeta in H. rewrite Hf, Hk, app_nil_r in H.
  destruct (scan adw Null 0) as [p cPrev].
  set (adw2 := firstn (Z.to_nat (len adw - cPrev)) adw) in *.
  assert (Hd2 : Forall (fun w => isUndef w = false) adw2)
    by (apply Forall_firstn'; assumption).
  assert (Hsum : forall n, Z.of_nat n <= len adw2 ->
            sumWords adw2 n 0 (Num 0)
            = Num (toInt32 (fold_right Z.add 0 (map wordValue (firstn n adw2))))).
  { intros n Hn. change (Num 0) with (Num (toInt32 0)).
    rewrite sumWords_spec by (try assumption; lia).
    change (Z.to_nat 0) with 0%nat. cbn [skipn]. reflexivity. }
  pose proof (len_nonneg adw2) as Hn2.
  assert (Hres : DATA s = adw2 /\ LENGTH s = cb
                 /\ dwChecksum this'
                    = add32 (dwChecksum this)
                        (sumWords adw2
                           (Z.to_nat (if len adw2 <? cb / 4 then len adw2 - 1
                                      else len adw2)) 0 (Num 0))).
  { destruct (fWritable this); injection H as <- <-; repeat split. }
  destruct Hres as (HD & HL & Hc). rewrite Hc. f_equal.
  rewrite Hsum by (destruct (len adw2 <? cb / 4); lia).
  unfold sectorSum, summedWords. rewrite HD, HL. reflexivity.
Qed.

End Checksum.

Section ChecksumLoops.

Local Abbreviation sized := (fun s : Sector => 0 <= LENGTH s < 2 ^ 31).





Local Abbreviation sizedEntry :=
  (fun e : TrackEntry => 0 <= snd (fst e) < 2 ^ 31).

Local Abbreviation sizedState :=
  (fun st : HeadState => 0 <= hsSector st < 2 ^ 31
                         /\ Forall sizedEntry (hsTracks st)).



End ChecksumLoops.

Section BuildFacts.





End BuildFacts.



(** X6.  What buildSector does to the checksum of the object: it adds the sum
    of the sector, wrapping to 32 bits; on an object whose checksum is still
    [undefined] (no build has set it to 0) the sum is NaN and the checksum
    becomes 0, whatever the sector holds.  (A checksum that is [null] counts
    as 0.) *)
Theorem buildSector_checksum_cases this c h id cb db ib s this' :
  0 <= cb < 2 ^ 31 ->
  buildSector this c h id cb db ib = Some (s, this') ->
  dwChecksum this'
  = match dwChecksum this with
    | Num a => Num (toInt32 (a + sectorSum s))
    | Null => Num (toInt32 (sectorSum s))
    | Undef => Num 0
    end.
Proof.
  intros Hcb H. rewrite (buildSector_checksum _ _ _ _ _ _ _ _ _ Hcb H).
  destruct (dwChecksum this) as [| |a]; [reflexivity | |].
  - cbn [add32]. rewrite toInt32_idem. reflexivity.
  - cbn [add32]. rewrite toInt32_add_r. reflexivity.
Qed.

Lemma buildSector_checksum_cases_witness :
  dwChecksum (setChecksum (constructor "" false) (Num 0))
  = match dwChecksum (constructor "" false) with
    | Num a =>
        Num (toInt32
               (a + sectorSum
                      (mkSector 0 0 (Num 1) 8 [Num 0x04030201; Num 0x08070605]
                                None None None None None None None None None)))
    | Null =>
        Num (toInt32
               (sectorSum
                  (mkSector 0 0 (Num 1) 8 [Num 0x04030201; Num 0x08070605]
                            None None None None None None None None None)))
    | Undef => Num 0
    end.
Proof.
  apply (buildSector_checksum_cases
           (constructor "" false) 0 0 1 8
           (Some [9; 9; 1; 2; 3; 4; 5; 6; 7; 8; 9]) 2).
  - lia.
  - vm_compute. reflexivity.
Defined.

(** X7.  buildDiskFromBuffer changes the caller's buffer only inside the 36
    bytes (jump, OEM name and BPB) at the offset of the boot sector, and it
    saves that offset and the 36 original bytes in [abOrigBPB], whether it
    returns true or false. *)
Theorem buildDiskFromBuffer_buffer this B hash forceBPB r this' B1 :
  DataBuffer.wf B ->
  buildDiskFromBuffer this B hash forceBPB = Some (r, this', B1) ->
  exists off,
    bootSectorOffset B = Some off
    /\ 0 <= off /\ off + 36 <= len B
    /\ agreeOutside off 36 B B1
    /\ DataBuffer.wf B1
    /\ abOrigBPB this'
       = off :: map (fun j => nth (Z.to_nat off + j) B 0) (seq 0 36).
Proof.
  intros Hw H. unfold buildDiskFromBuffer in H. cbv zeta in H.
  destruct (bootSectorOffset B) as [off|] eqn:Eoff; [|discriminate].
  destruct (DataBuffer.readUInt8 B (off + BPB.JMP_OPCODE)) as [b0|]; [|discriminate].
  destruct (DataBuffer.readUInt8 B (off + BPB.JMP_OPCODE + 1)) as [b1|]; [|discriminate].
  destruct (DataBuffer.readUInt16LE B (off + BPB.SECTOR_BYTES)) as [cbS|]; [|discriminate].
  destruct (readBytes B off _ BPB.JMP_OPCODE) as [orig|] eqn:Eorig; [|discriminate].
  destruct (probeBPB _ B off b0 cbS _ _) as [[[[e mB] sh1] fX]|] eqn:Ep;
    [|discriminate].
  destruct (if shMediaID sh1 =? 0 then _ else _) as [iBPB|]; [|discriminate].
  destruct (repairBPB _ _ _ _ _ _ _ _ _ _) as [[[[m nLogical] db1] fUpd]|] eqn:Er;
    [|discriminate].
  destruct (updateOEM db1 forceBPB e off) as [[db2 fOEM]|] eqn:Eo; [|discriminate].
  apply repairBPB_spec in Er; [|assumption]. destruct Er as [Ha1 Hw1].
  apply updateOEM_spec in Eo; [|assumption]. destruct Eo as [Ha2 Hw2].
  pose proof (agreeOutside_trans _ _ _ _ _ Ha1 Ha2) as Ha.
  pose proof (bootSectorOffset_nonneg _ _ Hw Eoff) as Hoff.
  change (Z.to_nat (BPB.LARGE_SECS + 4 - BPB.JMP_OPCODE)) with 36%nat in *.
  change BPB.JMP_OPCODE with 0 in *.
  apply readBytes_spec in Eorig. destruct Eorig as [Hlo Hob].
  assert (Horig : orig = map (fun j => nth (Z.to_nat off + j) B 0) (seq 0 36)).
  { apply nth_ext with (d := 0) (d' := 0).
    - rewrite length_map, length_seq. assumption.
    - intros j Hj. rewrite Hlo in Hj.
      rewrite (nth_indep (map (fun j => nth (Z.to_nat off + j) B 0) (seq 0 36))
                         0 (nth (Z.to_nat off + 0) B 0))
        by (rewrite length_map, length_seq; lia).
      rewrite (map_nth (fun j => nth (Z.to_nat off + j) B 0)).
      rewrite seq_nth by lia. destruct (Hob j Hj) as [_ ->].
      f_equal. lia. }
  assert (Hfit : off + 36 <= len B)
    by (destruct (Hob 35%nat ltac:(lia)) as [Hr _]; lia).
  assert (Hsaved : forall t : DiskImage,
            abOrigBPB t = off :: orig ->
            abOrigBPB (match hash with
                       | Some h => if given hash then setHash t h else t
                       | None => t
                       end) = off :: orig).
  { intros t Ht. destruct hash as [h|]; [|assumption].
    destruct (given (Some h)); assumption. }
  assert (H3 : abOrigBPB
                 (if fOEM && given hash
                  then setBPBModified
                         (if fUpd && given hash
                          then setBPBModified
                                 (setBPBModified
                                    (setOrigBPB (setBuildStart this) (off :: orig))
                                    false) true
                          else setBPBModified
                                 (setOrigBPB (setBuildStart this) (off :: orig))
                                 false) true
                  else if fUpd && given hash
                       then setBPBModified
                              (setBPBModified
                                 (setOrigBPB (setBuildStart this) (off :: orig))
                                 false) true
                       else setBPBModified
                              (setOrigBPB (setBuildStart this) (off :: orig))
                              false) = off :: orig).
  { destruct (fOEM && given hash), (fUpd && given hash); reflexivity. }
  destruct (probeDSK db2 off b0 _ nLogical) as [[[sh2 nLogical2] aTracks]|] eqn:Ed;
    [|discriminate].
  exists off. split; [reflexivity|]. split; [assumption|]. split; [assumption|].
  destruct (negb (shHeads sh2 =? 0)).
  - destruct (cylinderLoop _ _ _ _ _ _ _ _ _) as [[data st']|] eqn:Eg; [|discriminate].
    injection H as <- <- <-.
    split; [assumption|]. split; [assumption|].
    apply cylinderLoop_orig in Eg. cbn [hsThis abOrigBPB setDiskData] in *.
    rewrite Eg. rewrite <- Horig.
    change (abOrigBPB (setNCylinders ?t ?n)) with (abOrigBPB t).
    apply Hsaved. exact H3.
  - injection H as <- <- <-.
    split; [assumption|]. split; [assumption|].
    rewrite <- Horig. exact H3.
Qed.

Lemma buildDiskFromBuffer_buffer_witness :
  exists off,
    bootSectorOffset image1K = Some off
    /\ 0 <= off /\ off + 36 <= len image1K
    /\ agreeOutside off 36 image1K
         (builtBuffer (buildDiskFromBuffer writableDisk image1K None false))
    /\ DataBuffer.wf
         (builtBuffer (buildDiskFromBuffer writableDisk image1K None false))
    /\ abOrigBPB (builtDisk (buildDiskFromBuffer writableDisk image1K None false))
       = off :: map (fun j => nth (Z.to_nat off + j) image1K 0) (seq 0 36).
Proof.
  refine (buildDiskFromBuffer_buffer writableDisk image1K None false true
            (builtDisk (buildDiskFromBuffer writableDisk image1K None false))
            (builtBuffer (buildDiskFromBuffer writableDisk image1K None false))
            _ _).
  - apply wf_octets. vm_compute. reflexivity.
  - refine (succeeded_eq _ _). vm_compute. reflexivity.
Defined.

Section FATEntries.

Lemma allBelow_spec (n : nat) (P : Z -> bool) :
  allBelow n P = true -> forall x, 0 <= x < Z.of_nat n -> P x = true.
Proof.
  unfold allBelow. rewrite forallb_forall. intros H x Hx. apply H.
  apply in_map_iff. exists (Z.to_nat x). split; [lia|].
  apply in_seq. lia.
Qed.

(** The two ways in which buildFATEntry merges half a byte into a byte. *)
Lemma merge_high (x h : Z) :
  0 <= x < 256 -> 0 <= h < 16 -> bor (band x 0xF0) h = 16 * (x / 16) + h.
Proof.
  intros Hx Hh.
  assert (H : allBelow 256 (fun x => allBelow 16 (fun h =>
                bor (band x 0xF0) h =? 16 * (x / 16) + h)) = true)
    by (vm_compute; reflexivity).
  apply Z.eqb_eq.
  apply (allBelow_spec 16 _ (allBelow_spec 256 _ H x ltac:(lia)) h). lia.
Qed.

Lemma merge_low (x l : Z) :
  0 <= x < 256 -> 0 <= l < 16 ->
  bor (band x 0x0F) (shl l 4) = x mod 16 + 16 * l.
Proof.
  intros Hx Hl.
  assert (H : allBelow 256 (fun x => allBelow 16 (fun l =>
                bor (band x 0x0F) (shl l 4) =? x mod 16 + 16 * l)) = true)
    by (vm_compute; reflexivity).
  apply Z.eqb_eq.
  apply (allBelow_spec 16 _ (allBelow_spec 256 _ H x ltac:(lia)) l). lia.
Qed.

(** A cell read after an assignment to a cell, inside the array or past its
    end. *)
Lemma get_set_any (a : list val) (i k : Z) (v : val) :
  0 <= i -> get (set a i v) k = if k =? i then v else get a k.
Proof.
  intros Hi. destruct (Z.lt_ge_cases i (len a)) as [Hlt|Hge].
  - apply get_set. lia.
  - unfold set. destruct (i <? len a) eqn:E; [apply Z.ltb_lt in E; lia|].
    pose proof (len_nonneg a).
    destruct (k =? i) eqn:Ek.
    + apply Z.eqb_eq in Ek. subst k.
      rewrite get_app_r by lia. rewrite get_app_r by (rewrite len_repeat; lia).
      rewrite len_repeat. replace (i - len a - Z.of_nat (Z.to_nat (i - len a)))
        with 0 by lia. reflexivity.
    + apply Z.eqb_neq in Ek.
      destruct (Z.lt_ge_cases k 0) as [Hn|Hn]; [rewrite !get_neg by lia; reflexivity|].
      destruct (Z.lt_ge_cases k (len a)) as [Hk|Hk];
        [apply get_app_l; lia|].
      rewrite (get_ge a k) by lia. rewrite get_app_r by lia.
      destruct (Z.lt_ge_cases k i) as [Hki|Hki].
      * rewrite get_app_l by (rewrite len_repeat; lia).
        rewrite get_nth_error by lia.
        destruct (nth_error _ _) as [w|] eqn:En; [|reflexivity].
        apply nth_error_In, repeat_spec in En. assumption.
      * apply get_ge. rewrite len_app, len_repeat.
        change (len [v]) with 1. lia.
Qed.

Lemma byteAt_set (a : list val) (i k x : Z) :
  0 <= i -> byteAt (set a i (Num x)) k = if k =? i then toInt32 x else byteAt a k.
Proof.
  intros Hi. unfold byteAt. rewrite get_set_any by assumption.
  destruct (k =? i); reflexivity.
Qed.

(** Storing 0 in a cell that is [undefined] changes no byte. *)
Lemma byteAt_init (a : list val) (i k : Z) :
  0 <= i ->
  byteAt (if isUndefined (get a i) then set a i (Num 0) else a) k = byteAt a k.
Proof.
  intros Hi. destruct (isUndefined (get a i)) eqn:E; [|reflexivity].
  rewrite byteAt_set by assumption.
  destruct (k =? i) eqn:Ek; [|reflexivity].
  apply Z.eqb_eq in Ek. subst k. unfold byteAt.
  destruct (get a i); [reflexivity | discriminate | discriminate].
Qed.

(** The bytes of the array after buildFATEntry. *)
Lemma buildFATEntry_bytes (ab : list val) (iFAT v k : Z) :
  byteCells ab -> 0 <= iFAT -> iFAT * 12 < 2 ^ 31 -> 0 <= v < 4096 ->
  byteAt (buildFATEntry ab iFAT v) k
  = let b := 3 * iFAT / 2 in
    if Z.even iFAT
    then (if k =? b then v mod 256
          else if k =? b + 1 then 16 * (byteAt ab (b + 1) / 16) + v / 256
          else byteAt ab k)
    else (if k =? b then byteAt ab b mod 16 + 16 * (v mod 16)
          else if k =? b + 1 then v / 16
          else byteAt ab k).
Proof.
  intros Hab Hi Hbit Hv. cbv zeta. unfold buildFATEntry.
  assert (Hb : sar (iFAT * 12) 3 = 3 * iFAT / 2).
  { rewrite sar_small by lia. change (2 ^ 3) with 8.
    replace (iFAT * 12) with (3 * iFAT * 4) by lia.
    change 8 with (2 * 4). rewrite Z.div_mul_cancel_r by lia. reflexivity. }
  rewrite Hb. set (b := 3 * iFAT / 2).
  assert (Hb0 : 0 <= b) by (apply Z.div_pos; lia).
  assert (Hrem : (Z.rem (iFAT * 12) 8 =? 0) = Z.even iFAT).
  { rewrite Z.rem_mod_nonneg by lia.
    destruct (Z.even iFAT) eqn:E.
    - apply Z.even_spec in E. destruct E as [m ->]. apply Z.eqb_eq.
      replace (2 * m * 12) with (3 * m * 8) by lia. apply Z.mod_mul. lia.
    - apply Z.eqb_neq. rewrite <- Z.negb_odd in E.
      apply negb_false_iff, Z.odd_spec in E. destruct E as [m ->].
      replace ((2 * m + 1) * 12) with (4 + (3 * m + 1) * 8) by lia.
      rewrite Z.mod_add by lia. discriminate. }
  rewrite Hrem.
  assert (H256 : forall j, - 2 ^ 31 <= byteAt ab j < 2 ^ 31)
    by (intros j; specialize (Hab j); change (2 ^ 31) with 2147483648; lia).
  destruct (Z.even iFAT).
  - rewrite byteAt_set by lia.
    fold (byteAt (if isUndefined (get (set ab b (Num (band v 255))) (b + 1))
                  then set (set ab b (Num (band v 255))) (b + 1) (Num 0)
                  else set ab b (Num (band v 255))) (b + 1)).
    rewrite !byteAt_init by lia. rewrite !byteAt_set by lia.
    replace (b + 1 =? b) with false by (symmetry; apply Z.eqb_neq; lia).
    rewrite (sar_small v 8) by lia. change (2 ^ 8) with 256.
    assert (Hh : 0 <= v / 256 < 16)
      by (split; [apply Z.div_pos; lia | apply Z.div_lt_upper_bound; lia]).
    rewrite merge_high by (try apply Hab; assumption).
    destruct (k =? b + 1) eqn:E1.
    + apply Z.eqb_eq in E1. subst k.
      replace (b + 1 =? b) with false by (symmetry; apply Z.eqb_neq; lia).
      apply toInt32_small.
      pose proof (Hab (b + 1)).
      assert (0 <= byteAt ab (b + 1) / 16 < 16)
        by (split; [apply Z.div_pos; lia | apply Z.div_lt_upper_bound; lia]).
      change (2 ^ 31) with 2147483648. lia.
    + destruct (k =? b); [|reflexivity].
      rewrite band_ff by lia. apply toInt32_small.
      pose proof (Z.mod_pos_bound v 256 ltac:(lia)).
      change (2 ^ 31) with 2147483648. lia.
  - rewrite byteAt_set by lia.
    fold (byteAt (if isUndefined (get ab b) then set ab b (Num 0) else ab) b).
    rewrite byteAt_set by lia. rewrite !byteAt_init by lia.
    change 15 with (Z.ones 4). rewrite (band_ones v 4) by lia.
    change (2 ^ 4) with 16.
    pose proof (Z.mod_pos_bound v 16 ltac:(lia)) as Hm.
    change (Z.ones 4) with 15.
    rewrite merge_low by (try apply Hab; assumption).
    rewrite (sar_small v 4) by lia. change (2 ^ 4) with 16.
    destruct (k =? b + 1) eqn:E1.
    + apply Z.eqb_eq in E1. subst k.
      replace (b + 1 =? b) with false by (symmetry; apply Z.eqb_neq; lia).
      apply toInt32_small.
      assert (0 <= v / 16 < 256)
        by (split; [apply Z.div_pos; lia | apply Z.div_lt_upper_bound; lia]).
      change (2 ^ 31) with 2147483648. lia.
    + destruct (k =? b); [|reflexivity].
      apply toInt32_small. pose proof (Hab b).
      pose proof (Z.mod_pos_bound (byteAt ab b) 16 ltac:(lia)).
      change (2 ^ 31) with 2147483648. lia.
Qed.

End FATEntries.

Section FATEntries2.

Lemma parity (c : Z) :
  (Z.even c = true /\ exists m, c = 2 * m /\ 3 * c / 2 = 3 * m)
  \/ (Z.even c = false /\ exists m, c = 2 * m + 1 /\ 3 * c / 2 = 3 * m + 1).
Proof.
  destruct (Z.even c) eqn:E.
  - left. split; [reflexivity|]. apply Z.even_spec in E. destruct E as [m ->].
    exists m. split; [reflexivity|]. Z.div_mod_to_equations. lia.
  - right. split; [reflexivity|]. rewrite <- Z.negb_odd in E.
    apply negb_false_iff, Z.odd_spec in E. destruct E as [m ->].
    exists m. split; [reflexivity|]. Z.div_mod_to_equations. lia.
Qed.

Lemma nibbles (q h : Z) :
  0 <= h < 16 -> (16 * q + h) mod 16 = h /\ (16 * q + h) / 16 = q.
Proof. intros H. Z.div_mod_to_equations. lia. Qed.

Lemma nibbles' (l q : Z) :
  0 <= l < 16 -> (l + 16 * q) mod 16 = l /\ (l + 16 * q) / 16 = q.
Proof. intros H. Z.div_mod_to_equations. lia. Qed.

End FATEntries2.

(** The entries of the FAT after buildFATEntry. *)
Lemma buildFATEntry_entries (ab : list val) (iFAT v : Z) :
  byteCells ab -> 0 <= iFAT -> iFAT * 12 < 2 ^ 31 -> 0 <= v < 4096 ->
  let ab' := buildFATEntry ab iFAT v in
  byteCells ab'
  /\ entry12 (byteAt ab') iFAT = v
  /\ forall j, 0 <= j -> j <> iFAT ->
               entry12 (byteAt ab') j = entry12 (byteAt ab) j.
Proof.
  intros Hab Hi Hbit Hv ab'. subst ab'.
  pose proof (fun k => buildFATEntry_bytes ab iFAT v k Hab Hi Hbit Hv) as Hk.
  cbv zeta in Hk.
  assert (Hv256 : 0 <= v mod 256 < 256) by (apply Z.mod_pos_bound; lia).
  assert (Hv16 : 0 <= v mod 16 < 16) by (apply Z.mod_pos_bound; lia).
  assert (Hd256 : 0 <= v / 256 < 16)
    by (split; [apply Z.div_pos; lia | apply Z.div_lt_upper_bound; lia]).
  assert (Hd16 : 0 <= v / 16 < 256)
    by (split; [apply Z.div_pos; lia | apply Z.div_lt_upper_bound; lia]).
  assert (Hq : forall x, 0 <= x < 256 -> 0 <= x / 16 < 16)
    by (intros x Hx; split;
        [apply Z.div_pos; lia | apply Z.div_lt_upper_bound; lia]).
  assert (Hm : forall x, 0 <= x mod 16 < 16)
    by (intros x; apply Z.mod_pos_bound; lia).
  split; [|split].
  - intros k. rewrite Hk.
    destruct (Z.even iFAT).
    + destruct (k =? 3 * iFAT / 2); [assumption|].
      destruct (k =? 3 * iFAT / 2 + 1); [|apply Hab].
      specialize (Hq _ (Hab (3 * iFAT / 2 + 1))). lia.
    + destruct (k =? 3 * iFAT / 2); [specialize (Hm (byteAt ab (3 * iFAT / 2))); lia|].
      destruct (k =? 3 * iFAT / 2 + 1); [assumption | apply Hab].
  - unfold entry12. rewrite !Hk.
    destruct (parity iFAT) as [[E (m & -> & Hb)] | [E (m & -> & Hb)]];
      rewrite E, Hb.
    + rewrite Z.eqb_refl.
      replace (3 * m + 1 =? 3 * m) with false by (symmetry; apply Z.eqb_neq; lia).
      rewrite Z.eqb_refl.
      rewrite (proj1 (nibbles _ _ Hd256)).
      pose proof (Z.div_mod v 256 ltac:(lia)). lia.
    + rewrite Z.eqb_refl.
      replace (3 * m + 1 + 1 =? 3 * m + 1) with false
        by (symmetry; apply Z.eqb_neq; lia).
      rewrite Z.eqb_refl.
      rewrite (proj2 (nibbles' _ _ (Hm (byteAt ab (3 * m + 1))))).
      pose proof (Z.div_mod v 16 ltac:(lia)). lia.
  - intros j Hj Hne. unfold entry12. rewrite !Hk.
    destruct (parity iFAT) as [[E (m & -> & Hb)] | [E (m & -> & Hb)]];
      rewrite E, Hb;
      destruct (parity j) as [[Ej (n & -> & Hbj)] | [Ej (n & -> & Hbj)]];
      rewrite Ej, Hbj.
    + (* both even *)
      replace (3 * n =? 3 * m) with false by (symmetry; apply Z.eqb_neq; lia).
      replace (3 * n =? 3 * m + 1) with false by (symmetry; apply Z.eqb_neq; lia).
      replace (3 * n + 1 =? 3 * m) with false by (symmetry; apply Z.eqb_neq; lia).
      replace (3 * n + 1 =? 3 * m + 1) with false
        by (symmetry; apply Z.eqb_neq; lia).
      reflexivity.
    + (* the entry written is even, the other one odd *)
      replace (3 * n + 1 =? 3 * m) with false by (symmetry; apply Z.eqb_neq; lia).
      replace (3 * n + 1 + 1 =? 3 * m) with false
        by (symmetry; apply Z.eqb_neq; lia).
      replace (3 * n + 1 + 1 =? 3 * m + 1) with false
        by (symmetry; apply Z.eqb_neq; lia).
      destruct (3 * n + 1 =? 3 * m + 1) eqn:E1; [|reflexivity].
      apply Z.eqb_eq in E1. replace n with m by lia.
      rewrite (proj2 (nibbles _ _ Hd256)). reflexivity.
    + (* the entry written is odd, the other one even *)
      replace (3 * n =? 3 * m + 1) with false by (symmetry; apply Z.eqb_neq; lia).
      replace (3 * n =? 3 * m + 1 + 1) with false
        by (symmetry; apply Z.eqb_neq; lia).
      replace (3 * n + 1 =? 3 * m + 1 + 1) with false
        by (symmetry; apply Z.eqb_neq; lia).
      destruct (3 * n + 1 =? 3 * m + 1) eqn:E1; [|reflexivity].
      apply Z.eqb_eq in E1. replace n with m by lia.
      rewrite (proj1 (nibbles' _ _ (Hm (byteAt ab (3 * m + 1))))). reflexivity.
    + (* both odd *)
      replace (3 * n + 1 =? 3 * m + 1) with false
        by (symmetry; apply Z.eqb_neq; lia).
      replace (3 * n + 1 =? 3 * m + 1 + 1) with false
        by (symmetry; apply Z.eqb_neq; lia).
      replace (3 * n + 1 + 1 =? 3 * m + 1) with false
        by (symmetry; apply Z.eqb_neq; lia).
      replace (3 * n + 1 + 1 =? 3 * m + 1 + 1) with false
        by (symmetry; apply Z.eqb_neq; lia).
      reflexivity.
Qed.

(** X8.  buildFATEntry packs 12-bit entries.  On an array of bytes (cells that
    are [undefined] count as 0), after buildFATEntry(abFAT, iFAT, v) with
    [0 <= v < 4096] the array is still an array of bytes, entry [iFAT] of the
    FAT it holds is [v], and every other entry is what it was. *)
Theorem buildFATEntry_entry (ab : list val) (iFAT v : Z) :
  byteCells ab -> 0 <= iFAT -> iFAT * 12 < 2 ^ 31 -> 0 <= v < 4096 ->
  let ab' := buildFATEntry ab iFAT v in
  byteCells ab'
  /\ entry12 (byteAt ab') iFAT = v
  /\ forall j, 0 <= j -> j <> iFAT ->
               entry12 (byteAt ab') j = entry12 (byteAt ab) j.
Proof. exact (buildFATEntry_entries ab iFAT v). Qed.

Lemma byteCells_cellOctets (ab : list val) : cellOctets ab = true -> byteCells ab.
Proof.
  unfold cellOctets. rewrite forallb_forall. intros H k. unfold byteAt.
  destruct (Z.lt_ge_cases k 0) as [Hn|Hn]; [rewrite get_neg by lia; cbn; lia|].
  rewrite get_nth_error by lia.
  destruct (nth_error ab (Z.to_nat k)) as [w|] eqn:E; [|cbn; lia].
  apply nth_error_In in E. specialize (H w E).
  destruct w as [| |n]; [cbn; lia | cbn; lia|].
  apply andb_true_iff in H. destruct H as [H1 H2].
  apply Z.leb_le in H1. apply Z.ltb_lt in H2.
  cbn [valInt32]. rewrite toInt32_byte by lia. lia.
Qed.

(** The third entry of a FAT that holds the media entry 0xFFE and the entry
    0xFFF. *)
Lemma buildFATEntry_entry_witness :
  let ab := [Num 0xFE; Num 0xFF; Num 0xFF] in
  let ab' := buildFATEntry ab 2 0xFFF in
  byteCells ab'
  /\ entry12 (byteAt ab') 2 = 0xFFF
  /\ forall j, 0 <= j -> j <> 2 ->
               entry12 (byteAt ab') j = entry12 (byteAt ab) j.
Proof.
  apply (buildFATEntry_entry [Num 0xFE; Num 0xFF; Num 0xFF] 2 0xFFF).
  - apply byteCells_cellOctets. reflexivity.
  - lia.
  - reflexivity.
  - lia.
Defined.

Section SectorData.

Lemma read_range (sector : Sector) (i : Z) :
  (LENGTH sector <= i /\ read (Some sector) i = -1)
  \/ (i < LENGTH sector /\ 0 <= read (Some sector) i < 256).
Proof.
  unfold read. destruct (i <? LENGTH sector) eqn:E.
  - apply Z.ltb_lt in E. right. split; [assumption|].
    unfold band. change (toInt32 255) with (Z.ones 8).
    rewrite Z.land_ones by lia. apply Z.mod_pos_bound. lia.
  - apply Z.ltb_ge in E. left. split; [assumption | reflexivity].
Qed.

(** A byte put above a number that fits below it. *)
Lemma bor_shl_byte (dw b s : Z) :
  0 <= b < 256 -> s = 0 \/ s = 8 \/ s = 16 \/ s = 24 -> 0 <= dw < 2 ^ s ->
  bor dw (shl b s) = toInt32 (dw + b * 2 ^ s).
Proof.
  intros Hb Hs Hdw.
  assert (Hs' : 0 <= s <= 24) by lia.
  assert (Hp : 2 ^ s <= 2 ^ 24) by (apply Z.pow_le_mono_r; lia).
  change (2 ^ 24) with 16777216 in Hp.
  unfold bor, shl. rewrite shiftCount, (Z.mod_small s 32) by lia.
  rewrite (toInt32_small dw) by (change (2 ^ 31) with 2147483648; lia).
  rewrite (toInt32_small b) by (change (2 ^ 31) with 2147483648; lia).
  rewrite toInt32_idem. rewrite Z.shiftl_mul_pow2 by lia.
  set (y := toInt32 (b * 2 ^ s)).
  assert (Hland : Z.land dw y = 0).
  { apply Z.bits_inj'. intros n Hn. rewrite Z.land_spec, Z.bits_0.
    destruct (Z.lt_ge_cases n s) as [Hlt|Hge].
    - assert (Hy : Z.testbit y n = false).
      { unfold y. rewrite toInt32_testbit by lia.
        rewrite Z.mul_pow2_bits_low by lia. reflexivity. }
      rewrite Hy. apply andb_false_r.
    - assert (Hd : Z.testbit dw n = false).
      { destruct (Z.eq_dec dw 0) as [->|Hz]; [apply Z.bits_0|].
        apply Z.bits_above_log2; [lia|].
        apply Z.log2_lt_pow2; [lia|].
        assert (2 ^ s <= 2 ^ n) by (apply Z.pow_le_mono_r; lia). lia. }
      rewrite Hd. reflexivity. }
  pose proof (Z.add_lor_land dw y) as Hadd. rewrite Hland in Hadd.
  assert (Hlor : Z.lor dw y = dw + y) by lia. rewrite Hlor. clear Hadd Hlor Hland.
  assert (Hy : y = if b * 2 ^ s <? 2147483648 then b * 2 ^ s
                   else b * 2 ^ s - 4294967296).
  { unfold y. rewrite toInt32_spec.
    change (2 ^ 31) with 2147483648. change (2 ^ 32) with 4294967296.
    destruct (b * 2 ^ s <? 2147483648) eqn:E.
    - apply Z.ltb_lt in E. rewrite Z.mod_small by lia. lia.
    - apply Z.ltb_ge in E.
      assert (Hu : b * 2 ^ s < 4294967296)
        by (destruct Hs as [-> | [-> | [-> | ->]]]; lia).
      replace (b * 2 ^ s + 2147483648)
        with (b * 2 ^ s - 2147483648 + 1 * 4294967296) by lia.
      rewrite Z.mod_add by lia. rewrite Z.mod_small by lia. lia. }
  rewrite toInt32_spec.
  change (2 ^ 31) with 2147483648. change (2 ^ 32) with 4294967296.
  rewrite Hy. clear Hy y.
  destruct Hs as [-> | [-> | [-> | ->]]];
    match goal with
    | |- context [b * 2 ^ ?e] =>
        let v := eval cbv in (2 ^ e) in change (2 ^ e) with v in *
    end.
  - replace (b * 1 <? 2147483648) with true by (symmetry; apply Z.ltb_lt; lia).
    rewrite Z.mod_small by lia. lia.
  - replace (b * 256 <? 2147483648) with true by (symmetry; apply Z.ltb_lt; lia).
    rewrite Z.mod_small by lia. lia.
  - replace (b * 65536 <? 2147483648) with true
      by (symmetry; apply Z.ltb_lt; lia).
    rewrite Z.mod_small by lia. lia.
  - destruct (b * 16777216 <? 2147483648) eqn:E.
    + apply Z.ltb_lt in E. rewrite Z.mod_small by lia. lia.
    + apply Z.ltb_ge in E.
      replace (dw + b * 16777216 + 2147483648)
        with (dw + b * 16777216 - 2147483648 + 1 * 4294967296) by lia.
      rewrite Z.mod_add by lia. rewrite Z.mod_small by lia. lia.
Qed.

Lemma sectorDataLoop_spec (sector : Sector) (avail : nat) :
  forall (k : nat) (off V j : Z),
    (avail <= k)%nat ->
    ((0 < avail)%nat -> off + Z.of_nat avail <= LENGTH sector) ->
    ((avail < k)%nat -> LENGTH sector <= off + Z.of_nat avail) ->
    0 <= j -> j + Z.of_nat avail <= 4 -> 0 <= V < 2 ^ (8 * j) ->
    sectorDataLoop sector k off (toInt32 V) (8 * j)
    = toInt32 (V + 2 ^ (8 * j) * littleEndian sector avail off).
Proof.
  induction avail as [|a IH]; intros k off V j Hk Hin Hend Hj Hj4 HV.
  - cbn [littleEndian]. rewrite Z.mul_0_r, Z.add_0_r.
    destruct k as [|k]; [reflexivity|]. cbn [sectorDataLoop].
    destruct (read_range sector off) as [[_ ->] | [Hlt _]];
      [reflexivity | specialize (Hend ltac:(lia)); lia].
  - destruct k as [|k]; [lia|]. cbn [sectorDataLoop littleEndian].
    specialize (Hin ltac:(lia)).
    destruct (read_range sector off) as [[Hge _] | [_ Hb]]; [lia|].
    set (b := read (Some sector) off) in *.
    destruct (b <? 0) eqn:E; [apply Z.ltb_lt in E; lia|].
    assert (Hp : 2 ^ (8 * j) <= 2 ^ 24) by (apply Z.pow_le_mono_r; lia).
    assert (Hp0 : 0 < 2 ^ (8 * j)) by (apply Z.pow_pos_nonneg; lia).
    change (2 ^ 24) with 16777216 in Hp.
    rewrite (toInt32_small V) by (change (2 ^ 31) with 2147483648; lia).
    rewrite bor_shl_byte by (try assumption; lia).
    replace (8 * j + 8) with (8 * (j + 1)) by lia.
    assert (Hpow : 2 ^ (8 * (j + 1)) = 256 * 2 ^ (8 * j)).
    { replace (8 * (j + 1)) with (8 + 8 * j) by lia.
      rewrite Z.pow_add_r by lia. reflexivity. }
    rewrite (IH k (off + 1) (V + b * 2 ^ (8 * j)) (j + 1)); try lia.
    + rewrite Hpow. f_equal. ring.
    + rewrite Hpow. nia.
Qed.

End SectorData.

(** X9.  getSectorData reads a little-endian number: for [len] from 0 to 4
    it returns the number made of the bytes of the sector from [off] on, as
    many as [len] and the end of the sector allow, the first byte lowest,
    wrapped to a signed 32-bit number (so that four bytes with the top bit
    set give a negative number, and an offset at or past the end gives 0). *)
Theorem getSectorData_littleEndian (sector : Sector) (off len : Z) :
  0 <= len <= 4 ->
  getSectorData sector off len
  = toInt32 (littleEndian sector
               (Z.to_nat (Z.min len (Z.max 0 (LENGTH sector - off)))) off).
Proof.
  intros Hlen. unfold getSectorData.
  destruct (len <? 0) eqn:E; [apply Z.ltb_lt in E; lia|].
  pose proof (sectorDataLoop_spec sector
                (Z.to_nat (Z.min len (Z.max 0 (LENGTH sector - off))))
                (Z.to_nat len) off 0 0) as H.
  change (toInt32 0) with 0 in H. change (8 * 0) with 0 in H.
  rewrite H by (try (change (2 ^ 0) with 1); lia).
  f_equal. change (2 ^ 0) with 1. lia.
Qed.

Lemma getSectorData_littleEndian_witness :
  getSectorData (mkSector 0 0 (Num 1) 8 [Num 0x04030201; Num 0x08070605]
                          None None None None None None None None None) 6 4
  = toInt32
      (littleEndian
         (mkSector 0 0 (Num 1) 8 [Num 0x04030201; Num 0x08070605]
                   None None None None None None None None None)
         (Z.to_nat (Z.min 4 (Z.max 0 (8 - 6)))) 6).
Proof.
  apply (getSectorData_littleEndian
           (mkSector 0 0 (Num 1) 8 [Num 0x04030201; Num 0x08070605]
                     None None None None None None None None None) 6 4).
  lia.
Defined.

Section Grid.





End Grid.

Section GridLoops.

Variable db : DataBuffer.t.
Variables off nSPT cb : Z.
Hypothesis Hcb : 0 < cb < 2 ^ 31.
Hypothesis Hm : cb mod 4 = 0.
Hypothesis Hw : DataBuffer.wf db.
Hypothesis HnSPT : 0 <= nSPT.



End GridLoops.

Section Addressing.





End Addressing.



Section ClusterEntries.

Lemma getSectorData_byte (sector : Sector) (off : Z) :
  0 <= getSectorData sector off 1 < 256.
Proof.
  rewrite getSectorData_littleEndian by lia.
  destruct (Z.to_nat (Z.min 1 (Z.max 0 (LENGTH sector - off)))) as [|[|n]] eqn:E;
    [cbn; lia | | lia].
  cbn [littleEndian]. rewrite Z.mul_0_r, Z.add_0_r.
  destruct (read_range sector off) as [[Hge _] | [_ Hb]]; [lia|].
  rewrite toInt32_byte by assumption. assumption.
Qed.

Lemma getSector_data (this : DiskImage) (lba : Z) :
  aDiskData this <> None -> getSector this lba <> None.
Proof.
  intros Hd. unfold getSector, seek.
  destruct (aDiskData this) as [data|]; [|congruence].
  destruct (nHeads this) as [| |h];
    [destruct (ltVal 0 (nCylinders this)); discriminate
    |destruct (ltVal 0 (nCylinders this)); discriminate|].
  destruct (nSectors this) as [| |s];
    [destruct (ltVal 0 (nCylinders this)); discriminate
    |destruct (ltVal 0 (nCylinders this)); discriminate|].
  destruct (h * s =? 0); [destruct (ltVal 0 (nCylinders this)); discriminate|].
  destruct (ltVal _ (nCylinders this)); discriminate.
Qed.

(** One call of getClusterEntry on a volume with 12- or 16-bit entries: the
    part of the entry that the byte at offset [k] of the FAT gives. *)
Lemma getClusterEntry_byte this vol cluster iByte :
  aDiskData this <> None ->
  0 < volSector vol -> 8 * volSector vol < 2 ^ 31 ->
  0 <= cluster -> nFATBits vol * cluster + 8 < 2 ^ 31 ->
  0 < nFATBits vol -> nFATBits vol mod 4 = 0 ->
  (sectorFATCache vol = None
   \/ exists i, vbaFATCache vol = Num (vbaFAT vol + i)
                /\ getSector this (lbaStart vol + (vbaFAT vol + i))
                   = Some (sectorFATCache vol)) ->
  let offBits := nFATBits vol * cluster + (if iByte =? 0 then 0 else 8) in
  let k := offBits / 8 in
  let w := fatByte this vol k in
  exists vol',
    getClusterEntry this vol cluster iByte
    = Some (if iByte =? 0
            then (if offBits mod 8 =? 0 then w else sar w 4)
            else if nFATBits vol =? 16 then shl w 8
                 else if offBits mod 8 =? 0 then shl (band w 0xf) 8
                      else shl w 4,
            vol')
    /\ (sectorFATCache vol' = None
        \/ exists i, vbaFATCache vol' = Num (vbaFAT vol' + i)
                     /\ getSector this (lbaStart vol' + (vbaFAT vol' + i))
                        = Some (sectorFATCache vol'))
    /\ nFATBits vol' = nFATBits vol /\ volSector vol' = volSector vol
    /\ vbaFAT vol' = vbaFAT vol /\ lbaStart vol' = lbaStart vol.
Proof.
  intros Hd Hcb Hcb8 Hc Hbits Hn0 Hn4 Hcache offBits k w.
  set (cb := volSector vol) in *.
  assert (Hob : 0 <= offBits < 2 ^ 31).
  { unfold offBits. destruct (iByte =? 0); nia. }
  assert (Hquot : divi offBits (cb * 8) = k / cb).
  { unfold divi. rewrite Z.quot_div_nonneg by lia.
    unfold k. rewrite Z.div_div by lia.
    replace (8 * cb) with (cb * 8) by lia.
    apply toInt32_small.
    assert (0 <= offBits / (cb * 8) <= offBits).
    { split; [apply Z.div_pos; lia|]. apply Z.div_le_upper_bound; nia. }
    lia. }
  assert (Hrem : toInt32 (Z.rem offBits (cb * 8)) = offBits mod (cb * 8)).
  { rewrite Z.rem_mod_nonneg by lia.
    pose proof (Z.mod_pos_bound offBits (cb * 8) ltac:(lia)).
    apply toInt32_small. lia. }
  assert (Hoff : sar (offBits mod (cb * 8)) 3 = k mod cb).
  { pose proof (Z.mod_pos_bound offBits (cb * 8) ltac:(lia)).
    rewrite sar_small by lia. change (2 ^ 3) with 8.
    replace (cb * 8) with (8 * cb) by lia.
    rewrite Z.rem_mul_r by lia.
    replace (offBits mod 8 + 8 * ((offBits / 8) mod cb))
      with (offBits mod 8 + ((offBits / 8) mod cb) * 8) by lia.
    rewrite Z.div_add by lia.
    rewrite (Z.div_small (offBits mod 8)) by (apply Z.mod_pos_bound; lia).
    reflexivity. }
  assert (Hlow : band (offBits mod (cb * 8)) 7 = offBits mod 8).
  { pose proof (Z.mod_pos_bound offBits (cb * 8) ltac:(lia)).
    change 7 with (Z.ones 3). rewrite band_ones by lia.
    change (2 ^ 3) with 8.
    apply Z.mod_mod_divide. exists cb. lia. }
  unfold getClusterEntry. fold cb. fold offBits. cbv zeta.
  rewrite Hquot.
  (* the sector that the call uses *)
  assert (Hsec : exists vol1,
            (if match sectorFATCache vol with Some _ => false | None => true end
                || falsy (vbaFATCache vol)
                || negb (idEq (vbaFATCache vol) (vbaFAT vol + k / cb))
             then
               sector <- getSector this (lbaStart vol + (vbaFAT vol + k / cb)) ;;
               Some (setFATCache vol (Num (vbaFAT vol + k / cb)) sector)
             else Some vol) = Some vol1
            /\ getSector this (lbaStart vol + (vbaFAT vol + k / cb))
               = Some (sectorFATCache vol1)
            /\ vbaFATCache vol1 = Num (vbaFAT vol + k / cb)
            /\ nFATBits vol1 = nFATBits vol /\ volSector vol1 = volSector vol
            /\ vbaFAT vol1 = vbaFAT vol /\ lbaStart vol1 = lbaStart vol).
  { destruct (getSector this (lbaStart vol + (vbaFAT vol + k / cb)))
      as [sec|] eqn:Eg; [|exfalso; exact (getSector_data _ _ Hd Eg)].
    destruct (match sectorFATCache vol with Some _ => false | None => true end
              || falsy (vbaFATCache vol)
              || negb (idEq (vbaFATCache vol) (vbaFAT vol + k / cb))) eqn:Er.
    - eexists. split; [reflexivity|]. repeat split.
    - exists vol. split; [reflexivity|].
      apply orb_false_iff in Er. destruct Er as [Er E3].
      apply orb_false_iff in Er. destruct Er as [E1 E2].
      destruct (sectorFATCache vol) as [sc|] eqn:Esc; [|discriminate].
      destruct Hcache as [Hn|(i & Hv & Hgs)]; [discriminate|].
      rewrite Hv in E3. cbn [idEq] in E3. apply negb_false_iff, Z.eqb_eq in E3.
      assert (i = k / cb) by lia. subst i.
      rewrite Hv. rewrite Hgs in Eg. injection Eg as <-.
      repeat split. }
  destruct Hsec as (vol1 & -> & Hg1 & Hv1 & K1 & K2 & K3 & K4).
  replace (cb * 8 =? 0) with false by (symmetry; apply Z.eqb_neq; lia).
  rewrite Hrem, Hoff, Hlow.
  assert (Hw : w = match sectorFATCache vol1 with
                   | Some sector => getSectorData sector (k mod cb) 1
                   | None => 0
                   end).
  { unfold w, fatByte. fold cb. rewrite Hg1. reflexivity. }
  assert (Hinv : sectorFATCache vol1 = None
                 \/ exists i, vbaFATCache vol1 = Num (vbaFAT vol1 + i)
                              /\ getSector this (lbaStart vol1 + (vbaFAT vol1 + i))
                                 = Some (sectorFATCache vol1)).
  { right. exists (k / cb). rewrite K3, K4. split; assumption. }
  exists vol1. split; [|repeat split; assumption].
  destruct (sectorFATCache vol1) as [sector|] eqn:Esc.
  - rewrite <- Hw. f_equal. f_equal.
    destruct (iByte =? 0).
    + destruct (offBits mod 8 =? 0); reflexivity.
    + destruct (nFATBits vol =? 16); [reflexivity|].
      destruct (offBits mod 8 =? 0); reflexivity.
  - rewrite Hw. f_equal. f_equal.
    destruct (iByte =? 0).
    + destruct (offBits mod 8 =? 0); reflexivity.
    + destruct (nFATBits vol =? 16); [reflexivity|].
      destruct (offBits mod 8 =? 0); reflexivity.
Qed.

End ClusterEntries.

Section ClusterEntries2.

Lemma merge_nibble (a b : Z) :
  0 <= a < 16 -> 0 <= b < 256 -> bor a (shl b 4) = a + 16 * b.
Proof.
  intros Ha Hb.
  assert (H : allBelow 16 (fun a => allBelow 256 (fun b =>
                bor a (shl b 4) =? a + 16 * b)) = true)
    by (vm_compute; reflexivity).
  apply Z.eqb_eq.
  apply (allBelow_spec 256 _ (allBelow_spec 16 _ H a ltac:(lia)) b). lia.
Qed.

Lemma merge_byte (a b : Z) :
  0 <= a < 256 -> 0 <= b < 256 -> bor a (shl b 8) = a + 256 * b.
Proof.
  intros Ha Hb. rewrite bor_shl_byte by (try assumption; try lia).
  change (2 ^ 8) with 256. replace (a + b * 256) with (a + 256 * b) by lia.
  apply toInt32_small. change (2 ^ 31) with 2147483648. lia.
Qed.

Lemma fatByte_range this vol k : 0 <= fatByte this vol k < 256.
Proof.
  unfold fatByte. destruct (getSector _ _) as [[s|]|]; try lia.
  apply getSectorData_byte.
Qed.

Lemma fatByte_ext this vol vol' k :
  volSector vol' = volSector vol -> vbaFAT vol' = vbaFAT vol ->
  lbaStart vol' = lbaStart vol -> fatByte this vol' k = fatByte this vol k.
Proof. intros H1 H2 H3. unfold fatByte. rewrite H1, H2, H3. reflexivity. Qed.

End ClusterEntries2.

(** The two calls of getClusterEntry for a cluster. *)
Lemma getClusterEntry_pair this vol cluster :
  aDiskData this <> None ->
  0 < volSector vol -> 8 * volSector vol < 2 ^ 31 ->
  0 <= cluster -> nFATBits vol * cluster + 8 < 2 ^ 31 ->
  nFATBits vol = 12 \/ nFATBits vol = 16 ->
  cacheOk this vol ->
  exists w0 vol1 w1 vol2,
    getClusterEntry this vol cluster 0 = Some (w0, vol1)
    /\ getClusterEntry this vol1 cluster 1 = Some (w1, vol2)
    /\ cacheOk this vol2
    /\ (nFATBits vol2 = nFATBits vol /\ volSector vol2 = volSector vol
        /\ vbaFAT vol2 = vbaFAT vol /\ lbaStart vol2 = lbaStart vol)
    /\ bor w0 w1 = fatEntry this vol cluster.
Proof.
  intros Hd Hcb Hcb8 Hc Hbits Hn Hcache.
  assert (Hn0 : 0 < nFATBits vol) by lia.
  assert (Hn4 : nFATBits vol mod 4 = 0) by (destruct Hn as [-> | ->]; reflexivity).
  destruct (getClusterEntry_byte this vol cluster 0 Hd Hcb Hcb8 Hc Hbits Hn0 Hn4
              Hcache)
    as (vol1 & E0 & Hinv & K1 & K2 & K3 & K4).
  cbv zeta in E0. change (0 =? 0) with true in E0. cbv iota in E0.
  destruct (getClusterEntry_byte this vol1 cluster 1 Hd
              ltac:(rewrite K2; assumption) ltac:(rewrite K2; assumption) Hc
              ltac:(rewrite K1; assumption) ltac:(rewrite K1; assumption)
              ltac:(rewrite K1; assumption) Hinv)
    as (vol2 & E1 & Hinv2 & K1' & K2' & K3' & K4').
  cbv zeta in E1. change (1 =? 0) with false in E1. cbv iota in E1.
  rewrite K1 in E1.
  rewrite !(fatByte_ext this vol vol1) in E1 by assumption.
  rewrite Z.add_0_r in E0.
  eexists _, vol1, _, vol2. split; [exact E0|]. split; [exact E1|].
  split; [exact Hinv2|].
  split; [repeat split; congruence|]. unfold fatEntry.
  pose proof (fatByte_range this vol) as HF.
  destruct Hn as [Hn | Hn]; rewrite Hn.
  - (* 12 bits *)
    change (12 =? 16) with false. cbv iota.
    assert (Hk0 : 12 * cluster / 8 = 3 * cluster / 2).
    { replace (12 * cluster) with (3 * cluster * 4) by lia.
      change 8 with (2 * 4). apply Z.div_mul_cancel_r; lia. }
    assert (Hk1 : (12 * cluster + 8) / 8 = 3 * cluster / 2 + 1).
    { replace (12 * cluster + 8) with (12 * cluster + 1 * 8) by lia.
      rewrite Z.div_add by lia. rewrite Hk0. reflexivity. }
    assert (Hm1 : (12 * cluster + 8) mod 8 = 12 * cluster mod 8).
    { replace (12 * cluster + 8) with (12 * cluster + 1 * 8) by lia.
      apply Z.mod_add. lia. }
    rewrite Hk0, Hk1, Hm1. unfold entry12.
    destruct (parity cluster) as [[E (m & -> & Hb)] | [E (m & -> & Hb)]];
      rewrite E, Hb.
    + replace (12 * (2 * m) mod 8) with 0
        by (replace (12 * (2 * m)) with (3 * m * 8) by lia;
            symmetry; apply Z.mod_mul; lia).
      change (0 =? 0) with true. cbv iota.
      change 15 with (Z.ones 4).
      rewrite band_ones
        by (specialize (HF (3 * m + 1)); change (2 ^ 31) with 2147483648; lia).
      change (2 ^ 4) with 16.
      pose proof (Z.mod_pos_bound (fatByte this vol (3 * m + 1)) 16 ltac:(lia)).
      apply merge_byte; [apply HF | lia].
    + replace (12 * (2 * m + 1) mod 8) with 4
        by (replace (12 * (2 * m + 1)) with (4 + (3 * m + 1) * 8) by lia;
            rewrite Z.mod_add by lia; reflexivity).
      change (4 =? 0) with false. cbv iota.
      rewrite sar_small
        by (specialize (HF (3 * m + 1)); change (2 ^ 31) with 2147483648; lia).
      change (2 ^ 4) with 16.
      apply merge_nibble; [|apply HF].
      specialize (HF (3 * m + 1)).
      split; [apply Z.div_pos; lia | apply Z.div_lt_upper_bound; lia].
  - (* 16 bits *)
    change (16 =? 16) with true. cbv iota.
    replace (16 * cluster mod 8) with 0
      by (replace (16 * cluster) with (2 * cluster * 8) by lia;
          symmetry; apply Z.mod_mul; lia).
    change (0 =? 0) with true. cbv iota.
    replace (16 * cluster / 8) with (2 * cluster)
      by (replace (16 * cluster) with (2 * cluster * 8) by lia;
          symmetry; apply Z.div_mul; lia).
    replace ((16 * cluster + 8) / 8) with (2 * cluster + 1)
      by (replace (16 * cluster + 8) with ((2 * cluster + 1) * 8) by lia;
          symmetry; apply Z.div_mul; lia).
    unfold entry16. apply merge_byte; apply HF.
Qed.


(** X11.  getClusterEntry decodes the FAT.  On an image with disk data and a
    volume with 12- or 16-bit entries whose FAT cache is empty, the two calls
    for the low and the high part of entry [cluster], combined with [|] as
    the callers do, give the entry of the FAT that the sectors hold: for 12
    bits the packed entry (two entries in three bytes), for 16 bits the
    little-endian word.  A FAT sector that getSector does not find counts as
    zero bytes. *)
Theorem getClusterEntry_entry this vol cluster :
  aDiskData this <> None ->
  0 < volSector vol -> 8 * volSector vol < 2 ^ 31 ->
  0 <= cluster -> nFATBits vol * cluster + 8 < 2 ^ 31 ->
  nFATBits vol = 12 \/ nFATBits vol = 16 ->
  sectorFATCache vol = None ->
  exists w0 vol1 w1 vol2,
    getClusterEntry this vol cluster 0 = Some (w0, vol1)
    /\ getClusterEntry this vol1 cluster 1 = Some (w1, vol2)
    /\ bor w0 w1 = if nFATBits vol =? 16
                   then entry16 (fatByte this vol) cluster
                   else entry12 (fatByte this vol) cluster.
Proof.
  intros Hd Hcb Hcb8 Hc Hbits Hn Hcache.
  destruct (getClusterEntry_pair this vol cluster Hd Hcb Hcb8 Hc Hbits Hn
              (or_introl Hcache))
    as (w0 & vol1 & w1 & vol2 & E0 & E1 & _ & _ & E).
  exists w0, vol1, w1, vol2. split; [exact E0|]. split; [exact E1 | exact E].
Qed.

Lemma getClusterEntry_entry_witness :
  exists w0 vol1 w1 vol2,
    getClusterEntry fatDisk fatVolume 2 0 = Some (w0, vol1)
    /\ getClusterEntry fatDisk vol1 2 1 = Some (w1, vol2)
    /\ bor w0 w1 = if nFATBits fatVolume =? 16
                   then entry16 (fatByte fatDisk fatVolume) 2
                   else entry12 (fatByte fatDisk fatVolume) 2.
Proof.
  apply (getClusterEntry_entry fatDisk fatVolume 2).
  - discriminate.
  - reflexivity.
  - reflexivity.
  - lia.
  - reflexivity.
  - left. reflexivity.
  - reflexivity.
Defined.

Section Canonical.

Lemma strictEq_neq (a b : val) : strictEq a b = false -> a <> b.
Proof.
  destruct a as [| |x], b as [| |y]; cbn; intros H E; try discriminate.
  injection E as ->. rewrite Z.eqb_refl in H. discriminate.
Qed.

Lemma scan_runMax (l pre : list val) (p : val) (c : Z) :
  runInv pre p c -> runMax pre p c ->
  forall p' c', scan l p c = (p', c') -> runMax (pre ++ l) p' c'.
Proof.
  revert pre p c.
  induction l as [|dw l IH]; intros pre p c Hinv Hmax p' c' H.
  - cbn [scan] in H. injection H as <- <-. rewrite app_nil_r. assumption.
  - cbn [scan] in H.
    replace (pre ++ dw :: l) with ((pre ++ [dw]) ++ l)
      by (rewrite <- app_assoc; reflexivity).
    pose proof (len_nonneg pre) as Hn.
    pose proof Hinv as [Hc0 Hrun0].
    destruct (strictEq p dw) eqn:E.
    + apply strictEq_eq in E. subst dw.
      apply (IH (pre ++ [p]) p (c + 1)); [apply runInv_same; assumption| |exact H].
      unfold runMax in *. rewrite len_app. change (len [p]) with 1.
      intros Hc. rewrite get_app_l by lia.
      replace (len pre + 1 - 2 - (c + 1)) with (len pre - 2 - c) by lia.
      apply Hmax. lia.
    + apply strictEq_neq in E.
      apply (IH (pre ++ [dw]) dw 0); [apply runInv_new| |exact H].
      unfold runMax. rewrite len_app. change (len [dw]) with 1.
      intros Hc. rewrite get_app_l by lia.
      replace (len pre + 1 - 2 - 0) with (len pre - 1) by lia.
      rewrite (Hrun0 (len pre - 1)) by lia.
      assumption.
Qed.

Lemma allNull_get (l : list val) (j : Z) :
  allNull l = true -> 0 <= j < len l -> get l j = Null.
Proof.
  unfold allNull. rewrite forallb_forall. intros H Hj.
  rewrite get_nth_error by lia.
  destruct (nth_error l (Z.to_nat j)) as [w|] eqn:E.
  - apply nth_error_In in E. specialize (H _ E).
    destruct w; [discriminate | reflexivity | discriminate].
  - apply nth_error_None in E. unfold len in Hj. lia.
Qed.

(** The first value that is not [null] starts a run of its own. *)
Lemma scan_nulls_max (l : list val) :
  forall pre p c,
    allNull pre = true -> scan l Null (len pre) = (p, c) ->
    allNull l = false -> runMax (pre ++ l) p c.
Proof.
  induction l as [|dw l IH]; intros pre p c Hpre H Hl; [discriminate|].
  assert (Hnew : forall w, w <> Null -> scan l w 0 = (p, c) ->
                           runMax (pre ++ w :: l) p c).
  { intros w Hw Hs.
    replace (pre ++ w :: l) with ((pre ++ [w]) ++ l)
      by (rewrite <- app_assoc; reflexivity).
    apply (scan_runMax l (pre ++ [w]) w 0); [apply runInv_new| |exact Hs].
    unfold runMax. rewrite len_app. change (len [w]) with 1.
    intros Hc. rewrite get_app_l by lia.
    replace (len pre + 1 - 2 - 0) with (len pre - 1) by lia.
    rewrite allNull_get by (try assumption; lia). congruence. }
  destruct dw as [| |n]; cbn [scan strictEq] in H.
  - apply Hnew; [discriminate | exact H].
  - change (allNull (Null :: l)) with (allNull l) in Hl.
    replace (pre ++ Null :: l) with ((pre ++ [Null]) ++ l)
      by (rewrite <- app_assoc; reflexivity).
    apply IH; [rewrite allNull_app, Hpre; reflexivity | | exact Hl].
    rewrite len_app. exact H.
  - apply Hnew; [discriminate | exact H].
Qed.

Lemma scan_maximal (l : list val) (p : val) (c : Z) :
  scan l Null 0 = (p, c) -> allNull l = false ->
  runInv l p c /\ runMax l p c.
Proof.
  intros H Hl. split.
  - destruct (scan_spec l) as (p' & c' & Hs & Hinv).
    rewrite Hl in Hinv. rewrite H in Hs. injection Hs as <- <-. exact Hinv.
  - apply (scan_nulls_max l [] p c eq_refl H Hl).
Qed.

(** What initSector stores for an array that is no longer than the sector is
    canonical. *)
Lemma initSector_canonical this sector adw cb pat :
  0 <= cb < 2 ^ 31 -> len adw <= cb / 4 ->
  canonical (DATA (fst (initSector this sector adw cb pat))).
Proof.
  intros Hcb Hlen.
  rewrite initSector_DATA.
  assert (Hs : sar cb 2 = cb / 4) by (apply (sar_small cb 2); lia).
  rewrite Hs.
  assert (Hdiv : 0 <= cb / 4) by (apply Z.div_pos; lia).
  rewrite initRun_short by lia.
  cbv zeta.
  set (orig := filled pat adw
               ++ repeat (fillValue pat adw) (Z.to_nat (cb / 4) - length adw)).
  destruct (scan orig Null 0) as [p c] eqn:Escan.
  destruct (allNull orig) eqn:En.
  - destruct (scan_spec orig) as (p' & c' & Hs' & Hc).
    rewrite En in Hc. rewrite Escan in Hs'. injection Hs' as <- <-. subst c.
    rewrite Z.sub_diag. unfold canonical. cbn [Z.to_nat firstn].
    change (len (@nil val)) with 0. lia.
  - apply scan_maximal in Escan; [|exact En].
    destruct Escan as [[Hc Hrun] Hmax].
    unfold canonical. rewrite len_firstn by lia. rewrite Z2Nat.id by lia.
    intros H2. rewrite !get_firstn by lia.
    rewrite (Hrun (len orig - c - 1)) by lia.
    replace (len orig - c - 2) with (len orig - 2 - c) by lia.
    intros E. apply Hmax; [lia | symmetry; exact E].
Qed.

End Canonical.

(** X12.  The stored form of a sector is canonical.  In every sector made by
    buildSector, and in every sector made by rebuildSector from a data array
    of at most [length/4] values, the last two stored values differ (when
    two or more are stored): the final run of equal values is stored once. *)
Theorem sector_canonical :
  (forall this c h id cb db ib s this',
      0 <= cb < 2 ^ 31 ->
      buildSector this c h id cb db ib = Some (s, this') ->
      canonical (DATA s))
  /\ (forall this c h j,
        0 <= rebuildLength j < 2 ^ 31 ->
        len (rebuildData j) <= rebuildLength j / 4 ->
        canonical (DATA (fst (rebuildSector this c h j)))).
Proof.
  split.
  - intros this c h id cb db ib s this' Hcb H. unfold buildSector in H.
    assert (Hs : sar cb 2 = cb / 4) by (apply (sar_small cb 2); lia).
    rewrite Hs in H.
    destruct (readWords db (Z.to_nat (cb / 4)) ib) as [adw|] eqn:E; [|discriminate].
    injection H as H.
    destruct (readWords_defined _ _ _ _ E) as [Hl Hd].
    assert (Hdiv : 0 <= cb / 4) by (apply Z.div_pos; lia).
    set (sector0 := {| CYLINDER := c; HEAD := h; ID := Num id; LENGTH := cb;
                       DATA := adw; FILE_INFO := None; FILE_OFFSET := None;
                       DATA_CRC := None; DATA_ERROR := None; DATA_MARK := None;
                       HEAD_CRC := None; HEAD_ERROR := None; iModify := None;
                       cModify := None |}) in *.
    assert (Hfst : s = fst (initSector this sector0 adw cb (Num 0)))
      by (rewrite H; reflexivity).
    rewrite Hfst. apply initSector_canonical; [assumption | unfold len; lia].
  - intros this c h j Hcb Hlen. unfold rebuildSector.
    destruct (rebuildID j) as [idSector dwPattern] eqn:Eid.
    apply initSector_canonical; assumption.
Qed.

(** The sector of 16 bytes 1 0 0 0, 2 0 0 0, 2 0 0 0, 2 0 0 0 stores the
    values 1 and 2. *)
Lemma sector_canonical_witness :
  canonical (DATA (mkSector 0 0 (Num 1) 16 [Num 1; Num 2] None None None None
                            None None None None None)).
Proof.
  apply (proj1 sector_canonical (constructor "" false) 0 0 1 16
               (Some [1; 0; 0; 0; 2; 0; 0; 0; 2; 0; 0; 0; 2; 0; 0; 0]) 0 _
               (setChecksum (constructor "" false) (Num 0))).
  - lia.
  - vm_compute. reflexivity.
Defined.

Section DateTime.

Lemma time_bits (h m s : Z) :
  0 <= h < 24 -> 0 <= m < 60 -> 0 <= s < 60 ->
  bor (bor (shl (band h 0x1F) 11) (shl (band m 0x3F) 5)) (band (sar s 1) 0x1F)
  = fatTime h m s.
Proof.
  intros Hh Hm Hs.
  assert (H : allBelow 24 (fun h => allBelow 60 (fun m => allBelow 60 (fun s =>
                bor (bor (shl (band h 0x1F) 11) (shl (band m 0x3F) 5))
                    (band (sar s 1) 0x1F) =? fatTime h m s))) = true)
    by (vm_compute; reflexivity).
  apply Z.eqb_eq.
  apply (allBelow_spec 60 _
           (allBelow_spec 60 _ (allBelow_spec 24 _ H h ltac:(lia)) m ltac:(lia))
           s).
  lia.
Qed.

Lemma date_bits (y m d : Z) :
  0 <= y < 120 -> 0 <= m < 13 -> 0 <= d < 32 ->
  bor (bor (shl (band y 0x7F) 9) (shl m 5)) d = y * 512 + m * 32 + d.
Proof.
  intros Hy Hm Hd.
  assert (H : allBelow 120 (fun y => allBelow 13 (fun m => allBelow 32 (fun d =>
                bor (bor (shl (band y 0x7F) 9) (shl m 5)) d
                =? y * 512 + m * 32 + d))) = true)
    by (vm_compute; reflexivity).
  apply Z.eqb_eq.
  apply (allBelow_spec 32 _
           (allBelow_spec 13 _ (allBelow_spec 120 _ H y ltac:(lia)) m ltac:(lia))
           d).
  lia.
Qed.

(** A 16-bit number put above another one. *)
Lemma bor_high_low (D T : Z) :
  0 <= D < 65536 -> 0 <= T < 65536 ->
  toUint32 (bor (shl (band D 0xffff) 16) (band T 0xffff)) = D * 65536 + T.
Proof.
  intros HD HT.
  change 65535 with (Z.ones 16).
  rewrite !band_ones by (change (2 ^ 31) with 2147483648; lia).
  change (2 ^ 16) with 65536. rewrite !Z.mod_small by lia.
  unfold bor, shl, toUint32. rewrite shiftCount. change (16 mod 32) with 16.
  rewrite (toInt32_small D) by (change (2 ^ 31) with 2147483648; lia).
  rewrite (toInt32_small T) by (change (2 ^ 31) with 2147483648; lia).
  rewrite toInt32_idem. rewrite Z.shiftl_mul_pow2 by lia.
  change (2 ^ 16) with 65536. change 4294967295 with (Z.ones 32).
  rewrite Z.land_ones by lia.
  apply Z.bits_inj'. intros n Hn.
  destruct (Z.lt_ge_cases n 32) as [Hlt|Hge].
  - rewrite Z.mod_pow2_bits_low by lia. rewrite Z.lor_spec.
    rewrite toInt32_testbit by lia.
    assert (Hsum : D * 65536 + T = Z.lor (D * 65536) T).
    { pose proof (Z.add_lor_land (D * 65536) T) as Ha.
      assert (Hl : Z.land (D * 65536) T = 0).
      { apply Z.bits_inj'. intros k Hk. rewrite Z.land_spec, Z.bits_0.
        destruct (Z.lt_ge_cases k 16) as [Hk1|Hk1].
        - change 65536 with (2 ^ 16). rewrite Z.mul_pow2_bits_low by lia.
          reflexivity.
        - assert (Ht : Z.testbit T k = false).
          { destruct (Z.eq_dec T 0) as [->|Hz]; [apply Z.bits_0|].
            apply Z.bits_above_log2; [lia|].
            apply Z.log2_lt_pow2; [lia|].
            assert (2 ^ 16 <= 2 ^ k) by (apply Z.pow_le_mono_r; lia).
            change (2 ^ 16) with 65536 in *. lia. }
          rewrite Ht. apply andb_false_r. }
      lia. }
    rewrite Hsum, Z.lor_spec. reflexivity.
  - rewrite Z.mod_pow2_bits_high by lia.
    symmetry. destruct (Z.eq_dec (D * 65536 + T) 0) as [->|Hz]; [apply Z.bits_0|].
    apply Z.bits_above_log2; [lia|].
    apply Z.log2_lt_pow2; [lia|].
    assert (2 ^ 32 <= 2 ^ n) by (apply Z.pow_le_mono_r; lia).
    change (2 ^ 32) with 4294967296 in *. lia.
Qed.

End DateTime.

(** X13.  buildDateTime packs the fields of a date.  For a valid date from
    1980 to 2099 the result, read as an unsigned 32-bit number, has the FAT
    date [(year - 1980) * 512 + (month + 1) * 32 + day] in its high half and
    the FAT time [hours * 2048 + minutes * 32 + seconds / 2] in its low half;
    an earlier year gives 1980-01-01 and a later one 2099-12-31, both with
    the time 1; an invalid date gives 0. *)
Theorem buildDateTime_fields (y mo d h mi s : Z) :
  0 <= mo < 12 -> 1 <= d <= 31 -> 0 <= h < 24 -> 0 <= mi < 60 -> 0 <= s < 60 ->
  toUint32 (buildDateTime (ValidDate y mo d h mi s))
  = (if y <? 1980 then fatDate 1980 1 1 * 65536 + 1
     else if 2099 <? y then fatDate 2099 12 31 * 65536 + 1
     else fatDate y (mo + 1) d * 65536 + fatTime h mi s)
  /\ buildDateTime InvalidDate = 0.
Proof.
  intros Hmo Hd Hh Hmi Hs. split; [|reflexivity].
  unfold buildDateTime.
  cbn [getFullYear getMonth getDate getHours getMinutes getSeconds addVal
       valLt valGt valInt32].
  destruct (y <? 1980) eqn:E1; [vm_compute; reflexivity|].
  destruct (2099 <? y) eqn:E2; [vm_compute; reflexivity|].
  apply Z.ltb_ge in E1, E2. cbn [valInt32 addVal].
  rewrite (toInt32_small h), (toInt32_small mi), (toInt32_small s)
    by (change (2 ^ 31) with 2147483648; lia).
  rewrite (toInt32_small (y + - 1980)), (toInt32_small (mo + 1)), (toInt32_small d)
    by (change (2 ^ 31) with 2147483648; lia).
  rewrite time_bits by assumption.
  rewrite date_bits by lia.
  unfold fatDate, fatTime.
  assert (0 <= s / 2 < 30)
    by (split; [apply Z.div_pos; lia | apply Z.div_lt_upper_bound; lia]).
  rewrite bor_high_low by lia. lia.
Qed.

Lemma buildDateTime_fields_witness :
  toUint32 (buildDateTime (ValidDate 2044 6 15 12 30 45))
  = (if 2044 <? 1980 then fatDate 1980 1 1 * 65536 + 1
     else if 2099 <? 2044 then fatDate 2099 12 31 * 65536 + 1
     else fatDate 2044 (6 + 1) 15 * 65536 + fatTime 12 30 45)
  /\ buildDateTime InvalidDate = 0.
Proof.
  apply (buildDateTime_fields 2044 6 15 12 30 45); lia.
Defined.

(* ===================================================================== *)
(** * The clusters of the files of a new image *)
(* ===================================================================== *)

Section FileTrees.

(** Induction on a tree of files. *)
Lemma FileData_tree_ind (P : FileData -> Prop) :
  (forall n a s d c files b,
      Forall P files -> P (mkFileData n a s d c files b)) ->
  forall f, P f.
Proof.
  intros H. fix IH 1. intros [n a s d c files b]. apply H.
  induction files as [|x l IHl]; constructor; [apply IH | exact IHl].
Qed.

Lemma entryBytes_nonneg (f : FileData) : 0 <= entryBytes f.
Proof.
  unfold entryBytes. destruct (fdSize f <? 0) eqn:E.
  - pose proof (len_nonneg (fdFiles f)). lia.
  - apply Z.ltb_ge in E. exact E.
Qed.

Lemma clustersFor_nonneg (cb : Z) (f : FileData) :
  0 < cb -> 0 <= clustersFor cb f.
Proof.
  intros H. unfold clustersFor. pose proof (entryBytes_nonneg f).
  apply Z.div_pos; lia.
Qed.

Lemma totalClusters_nil (cb : Z) : totalClusters cb [] = 0.
Proof. reflexivity. Qed.

Lemma totalClusters_cons (cb : Z) (f : FileData) (l : list FileData) :
  totalClusters cb (f :: l) = clustersFor cb f + totalClusters cb l.
Proof. reflexivity. Qed.

Lemma totalClusters_nonneg (cb : Z) (l : list FileData) :
  0 < cb -> 0 <= totalClusters cb l.
Proof.
  intros H. induction l as [|f l IH].
  - rewrite totalClusters_nil. lia.
  - rewrite totalClusters_cons. pose proof (clustersFor_nonneg cb f H). lia.
Qed.

Lemma totalClusters_app (cb : Z) (l1 l2 : list FileData) :
  totalClusters cb (l1 ++ l2) = totalClusters cb l1 + totalClusters cb l2.
Proof.
  induction l1 as [|f l IH]; [reflexivity|].
  rewrite <- app_comm_cons, !totalClusters_cons, IH. lia.
Qed.

(** [((cb + cbCluster - 1) / cbCluster) | 0] is the number of clusters. *)
Lemma divi_clusters (cb : Z) (f : FileData) :
  0 < cb -> entryBytes f < 2 ^ 31 ->
  divi (entryBytes f + cb - 1) cb = clustersFor cb f.
Proof.
  intros Hcb Hfit. pose proof (entryBytes_nonneg f) as H0.
  change (2 ^ 31) with 2147483648 in Hfit.
  unfold divi, clustersFor. rewrite Z.quot_div_nonneg by lia.
  apply toInt32_small. split.
  - pose proof (Z.div_pos (entryBytes f + cb - 1) cb ltac:(lia) Hcb). lia.
  - change (2 ^ 31) with 2147483648. apply Z.div_lt_upper_bound; [lia|]. nia.
Qed.

(** The bytes of a file rounded up to whole clusters. *)
Lemma rounded_clusters (cb : Z) (f : FileData) :
  0 < cb ->
  entryBytes f
  + (if Z.rem (entryBytes f) cb =? 0 then 0 else cb - Z.rem (entryBytes f) cb)
  = cb * clustersFor cb f.
Proof.
  intros Hcb. pose proof (entryBytes_nonneg f) as H0.
  rewrite Z.rem_mod_nonneg by lia. unfold clustersFor.
  generalize dependent (entryBytes f). intros e H0.
  pose proof (Z.div_mod e cb ltac:(lia)) as D.
  pose proof (Z.mod_pos_bound e cb ltac:(lia)) as B.
  destruct (e mod cb =? 0) eqn:E.
  - apply Z.eqb_eq in E.
    assert (Q : (e + cb - 1) / cb = e / cb).
    { replace (e + cb - 1) with ((cb - 1) + (e / cb) * cb) by lia.
      rewrite Z.div_add by lia. rewrite Z.div_small by lia. lia. }
    lia.
  - apply Z.eqb_neq in E.
    assert (Q : (e + cb - 1) / cb = e / cb + 1).
    { replace (e + cb - 1) with ((e mod cb - 1) + (e / cb + 1) * cb) by lia.
      rewrite Z.div_add by lia. rewrite Z.div_small by lia. lia. }
    lia.
Qed.

Lemma filesBelow_eq (f : FileData) : filesBelow f = allFiles (fdFiles f).
Proof. destruct f; reflexivity. Qed.

Lemma allFiles_eq (l : list FileData) : allFiles l = l ++ belowDirs l.
Proof. reflexivity. Qed.

Lemma belowDirs_cons (f : FileData) (l : list FileData) :
  belowDirs (f :: l)
  = (if fdSize f <? 0 then filesBelow f else []) ++ belowDirs l.
Proof. reflexivity. Qed.

Lemma calcFileSizesBelow_eq (spc : val) (f : FileData) :
  calcFileSizesBelow spc f = calcFileSizes (fdFiles f) spc.
Proof. destruct f; reflexivity. Qed.

(** The loop of calcFileSizes adds, for each file, its clusters and what the
    call for its files returns. *)
Lemma calcFileSizesLoop_spec (below : FileData -> Z) (cb : Z)
    (l : list FileData) (acc : Z) :
  0 < cb ->
  calcFileSizesLoop below cb l acc
  = acc + cb * totalClusters cb l
    + fold_right (fun f n => (if fdSize f <? 0 then below f else 0) + n) 0 l.
Proof.
  intros Hcb. revert acc. induction l as [|f l IH]; intros acc; cbn [calcFileSizesLoop].
  - rewrite totalClusters_nil. cbn [fold_right]. lia.
  - pose proof (rounded_clusters cb f Hcb) as R. unfold entryBytes in R.
    rewrite totalClusters_cons. cbn [fold_right].
    destruct (fdSize f <? 0) eqn:E; cbv beta iota zeta.
    + rewrite IH.
      destruct (Z.rem ((len (fdFiles f) + 2) * 32) cb =? 0); lia.
    + rewrite IH.
      destruct (Z.rem (fdSize f) cb =? 0); lia.
Qed.

Lemma calcFileSizesLoop_tree (below : FileData -> Z) (cb : Z)
    (l : list FileData) :
  0 < cb ->
  Forall (fun x => below x = cb * totalClusters cb (filesBelow x)) l ->
  calcFileSizesLoop below cb l 0 = cb * totalClusters cb (allFiles l).
Proof.
  intros Hcb H. rewrite calcFileSizesLoop_spec by assumption.
  rewrite allFiles_eq, totalClusters_app.
  induction H as [|x l Hx Hl IHl].
  - unfold belowDirs. cbn [fold_right flat_map]. rewrite !totalClusters_nil. lia.
  - rewrite belowDirs_cons, totalClusters_app, totalClusters_cons.
    cbn [fold_right].
    destruct (fdSize x <? 0); [rewrite Hx | rewrite totalClusters_nil]; lia.
Qed.

Lemma calcFileSizesBelow_clusters (spc : val) (f : FileData) :
  0 < clusterBytes spc ->
  calcFileSizesBelow spc f
  = clusterBytes spc * totalClusters (clusterBytes spc) (filesBelow f).
Proof.
  intros Hcb.
  induction f as [n a s d c files b IH] using FileData_tree_ind.
  cbn [calcFileSizesBelow filesBelow]. fold (allFiles files).
  apply calcFileSizesLoop_tree; assumption.
Qed.

(** calcFileSizes returns the clusters of all files of the tree, in bytes. *)
Lemma calcFileSizes_clusters (spc : val) (l : list FileData) :
  0 < clusterBytes spc ->
  calcFileSizes l spc
  = clusterBytes spc * totalClusters (clusterBytes spc) (allFiles l).
Proof.
  intros Hcb. unfold calcFileSizes. apply calcFileSizesLoop_tree; [assumption|].
  apply Forall_forall. intros x _. apply calcFileSizesBelow_clusters, Hcb.
Qed.

End FileTrees.

Section Chains.

Lemma chainLoop_next (n : nat) (ab : list val) (i : Z) :
  snd (chainLoop n ab i) = i + Z.of_nat n.
Proof.
  revert ab i. induction n as [|n IH]; intros ab i.
  - cbn [chainLoop snd]. lia.
  - cbn [chainLoop]. rewrite IH. lia.
Qed.

Lemma frame_refl (ab : list val) (i i' : Z) : frame ab ab i i'.
Proof. intros j _ _. reflexivity. Qed.

Lemma frame_trans (ab ab1 ab2 : list val) (i i1 i2 : Z) :
  i <= i1 <= i2 -> frame ab ab1 i i1 -> frame ab1 ab2 i1 i2 ->
  frame ab ab2 i i2.
Proof.
  intros H F1 F2 j Hj Ho. rewrite F2 by lia. apply F1; lia.
Qed.

(** The loop of buildFAT that chains the clusters of a file. *)
Lemma chainLoop_spec (n : nat) (ab : list val) (i : Z) :
  byteCells ab -> 0 <= i -> i + Z.of_nat n <= 4096 ->
  byteCells (fst (chainLoop n ab i))
  /\ chained (fst (chainLoop n ab i)) i (Z.of_nat n)
  /\ frame ab (fst (chainLoop n ab i)) i (i + Z.of_nat n).
Proof.
  revert ab i. induction n as [|n IH]; intros ab i Hab Hi Hn.
  - cbn [chainLoop fst]. split; [exact Hab|]. split.
    + intros k Hk. lia.
    + apply frame_refl.
  - cbn [chainLoop].
    set (v := match n with O => 0xFFF | S _ => i + 1 end).
    assert (Hv : 0 <= v < 4096) by (subst v; destruct n; lia).
    destruct (buildFATEntry_entries ab i v Hab Hi ltac:(lia) Hv) as (B1 & E1 & F1).
    destruct (IH (buildFATEntry ab i v) (i + 1) B1 ltac:(lia) ltac:(lia))
      as (B2 & C2 & F2).
    split; [exact B2|]. split.
    + intros k Hk. destruct (Z.eq_dec k 0) as [->|Hk0].
      * rewrite Z.add_0_r. rewrite F2 by lia. rewrite E1.
        subst v. destruct n; [reflexivity|].
        replace (0 =? Z.of_nat (S (S n)) - 1) with false
          by (symmetry; apply Z.eqb_neq; lia).
        lia.
      * specialize (C2 (k - 1) ltac:(lia)).
        replace (i + 1 + (k - 1)) with (i + k) in C2 by lia.
        rewrite C2.
        destruct (Z.eqb_spec (k - 1) (Z.of_nat n - 1));
          destruct (Z.eqb_spec k (Z.of_nat (S n) - 1)); lia.
    + intros j Hj Ho. rewrite F2 by lia. apply F1; lia.
Qed.

End Chains.

Section Placement.

Variable cb : Z.
Hypothesis Hcb : 0 < cb.

Lemma placed_app (ab : list val) (l1 l2 : list FileData) (i : Z) :
  placed cb ab (l1 ++ l2) i
  <-> placed cb ab l1 i /\ placed cb ab l2 (i + totalClusters cb l1).
Proof.
  revert i. induction l1 as [|f l IH]; intros i.
  - cbn [app placed]. rewrite totalClusters_nil, Z.add_0_r. tauto.
  - rewrite <- app_comm_cons. cbn [placed]. rewrite IH, totalClusters_cons.
    rewrite Z.add_assoc. tauto.
Qed.

(** A placement stays when the entries of its clusters stay. *)
Lemma placed_keep (ab ab' : list val) (l : list FileData) (i : Z) :
  placed cb ab l i ->
  (forall j, i <= j < i + totalClusters cb l ->
             entry12 (byteAt ab') j = entry12 (byteAt ab) j) ->
  placed cb ab' l i.
Proof.
  revert i. induction l as [|f l IH]; intros i H K; [exact I|].
  cbn [placed] in *. destruct H as (Hc & Hch & Hl).
  rewrite totalClusters_cons in K.
  pose proof (clustersFor_nonneg cb f Hcb) as N1.
  pose proof (totalClusters_nonneg cb l Hcb) as N2.
  split; [exact Hc|]. split.
  - intros k Hk. rewrite K by lia. apply Hch, Hk.
  - apply IH; [exact Hl|]. intros j Hj. apply K. lia.
Qed.

(** A placement is about the clusters and the sizes of the files. *)
Lemma placed_ext (ab : list val) (l l' : list FileData) (i : Z) :
  Forall2 (fun x y => fdCluster y = fdCluster x /\ entryBytes y = entryBytes x)
          l l' ->
  placed cb ab l i -> placed cb ab l' i.
Proof.
  intros H. revert i. induction H as [|x y l l' (Hc & He) Hl IH]; intros i P;
    [exact I|].
  cbn [placed] in *. unfold clustersFor in *. rewrite Hc, He.
  destruct P as (P1 & P2 & P3). auto.
Qed.

Lemma totalClusters_ext (l l' : list FileData) :
  Forall2 (fun x y => entryBytes y = entryBytes x) l l' ->
  totalClusters cb l' = totalClusters cb l.
Proof.
  induction 1 as [|x y l l' He Hl IH]; [reflexivity|].
  rewrite !totalClusters_cons, IH. unfold clustersFor. rewrite He. reflexivity.
Qed.

Lemma entryBytes_setCluster (f : FileData) (c : val) :
  entryBytes (setCluster f c) = entryBytes f.
Proof. destruct f; reflexivity. Qed.

Lemma clustersFor_setCluster (f : FileData) (c : val) :
  clustersFor cb (setCluster f c) = clustersFor cb f.
Proof. destruct f; reflexivity. Qed.

Lemma forget_setCluster (f : FileData) (c : val) :
  forget (setCluster f c) = forget f.
Proof. destruct f; reflexivity. Qed.

Lemma fdFiles_setCluster (f : FileData) (c : val) :
  fdFiles (setCluster f c) = fdFiles f.
Proof. destruct f; reflexivity. Qed.

Lemma fdSize_setCluster (f : FileData) (c : val) :
  fdSize (setCluster f c) = fdSize f.
Proof. destruct f; reflexivity. Qed.

Lemma fdCluster_setCluster (f : FileData) (c : val) :
  fdCluster (setCluster f c) = c.
Proof. destruct f; reflexivity. Qed.

(** One round of the first loop of buildFAT. *)
Lemma assignClusters_eq (f : FileData) (ab : list val) (i s : Z) :
  entryBytes f < 2 ^ 31 ->
  assignClusters cb f ab i s
  = (setCluster f (Num (if clustersFor cb f =? 0 then 0 else i)),
     fst (chainLoop (Z.to_nat (clustersFor cb f)) ab i),
     i + clustersFor cb f,
     if fdSize f <? 0 then s + 1 else s).
Proof.
  intros Hf. pose proof (divi_clusters cb f Hcb Hf) as D. unfold entryBytes in D.
  pose proof (clustersFor_nonneg cb f Hcb) as N1.
  unfold assignClusters.
  assert (E : (if fdSize f <? 0 then ((len (fdFiles f) + 2) * 32, s + 1)
               else (fdSize f, s))
              = (if fdSize f <? 0 then (len (fdFiles f) + 2) * 32 else fdSize f,
                 if fdSize f <? 0 then s + 1 else s))
    by (destruct (fdSize f <? 0); reflexivity).
  rewrite E, D. clear E D.
  destruct (clustersFor cb f =? 0) eqn:Ez.
  - apply Z.eqb_eq in Ez. rewrite Ez. cbn [Z.to_nat chainLoop fst].
    rewrite Z.add_0_r. reflexivity.
  - apply Z.eqb_neq in Ez.
    pose proof (chainLoop_next (Z.to_nat (clustersFor cb f)) ab i) as Nx.
    destruct (chainLoop (Z.to_nat (clustersFor cb f)) ab i) as [abc ic].
    cbn [snd fst] in *. rewrite Z2Nat.id in Nx by lia. subst ic. reflexivity.
Qed.

(** The first loop of buildFAT. *)
Lemma assignLoop_spec (l : list FileData) (ab : list val) (i s : Z) :
  fits l ->
  exists l1 ab1 s1,
    assignLoop cb l ab i s = (l1, ab1, i + totalClusters cb l, s1)
    /\ Forall2 (fun x x1 => exists c, x1 = setCluster x c) l l1
    /\ (0 <= s -> s <= s1
        /\ (s1 = 0 -> Forall (fun x => (fdSize x <? 0) = false) l))
    /\ (byteCells ab -> 0 <= i -> i + totalClusters cb l <= 4096 ->
        byteCells ab1 /\ frame ab ab1 i (i + totalClusters cb l)
        /\ placed cb ab1 l1 i).
Proof.
  revert ab i s. induction l as [|f l IH]; intros ab i s Hfit.
  - exists [], ab, s. cbn [assignLoop]. rewrite totalClusters_nil, Z.add_0_r.
    split; [reflexivity|]. split; [constructor|]. split.
    + intros Hs. split; [lia | constructor].
    + intros Hab Hi Hn. split; [exact Hab|]. split; [apply frame_refl | exact I].
  - inversion Hfit as [|? ? Hf Hl]; subst.
    pose proof (clustersFor_nonneg cb f Hcb) as N1.
    pose proof (totalClusters_nonneg cb l Hcb) as N2.
    cbn [assignLoop]. rewrite assignClusters_eq by exact Hf.
    rewrite totalClusters_cons.
    destruct (IH (fst (chainLoop (Z.to_nat (clustersFor cb f)) ab i))
                 (i + clustersFor cb f)
                 (if fdSize f <? 0 then s + 1 else s) Hl)
      as (l1 & ab1 & s1 & E1 & R1 & S1 & C1).
    rewrite E1.
    eexists _, ab1, s1.
    split; [rewrite Z.add_assoc; reflexivity|].
    split; [constructor; [eexists; reflexivity | exact R1]|]. split.
    + intros Hs. destruct (fdSize f <? 0) eqn:Ed.
      * destruct (S1 ltac:(lia)) as [S2 S3]. split; [lia|]. intros Hz. lia.
      * destruct (S1 Hs) as [S2 S3]. split; [lia|]. intros Hz.
        constructor; [exact Ed | exact (S3 Hz)].
    + intros Hab Hi Hn.
      destruct (chainLoop_spec (Z.to_nat (clustersFor cb f)) ab i Hab Hi
                               ltac:(lia)) as (Bc & Chc & Fc).
      rewrite Z2Nat.id in Chc, Fc by lia.
      destruct (C1 Bc ltac:(lia) ltac:(lia)) as (B1 & F1 & P1).
      split; [exact B1|]. split.
      * rewrite Z.add_assoc.
        refine (frame_trans ab _ ab1 i (i + clustersFor cb f) _ _ Fc F1). lia.
      * cbn [placed]. rewrite !clustersFor_setCluster, fdCluster_setCluster. split; [reflexivity|]. split; [|exact P1].
        intros k Hk. rewrite F1 by lia. apply Chc, Hk.
Qed.

Lemma forget_fields (x y : FileData) :
  forget y = forget x ->
  fdSize y = fdSize x /\ map forget (fdFiles y) = map forget (fdFiles x)
  /\ len (fdFiles y) = len (fdFiles x) /\ entryBytes y = entryBytes x.
Proof.
  destruct x as [n a s d c l b], y as [n' a' s' d' c' l' b'].
  cbn [forget fdSize fdFiles]. intros H. injection H as -> -> -> -> Hl ->.
  assert (L : len l' = len l)
    by (rewrite <- (len_map forget l'), Hl; apply len_map).
  unfold entryBytes. cbn [fdSize fdFiles]. rewrite L. auto.
Qed.

Lemma forget_setFiles (x x' : FileData) (c : val) :
  forget x' = forget x ->
  forget (setFiles (setCluster x c) (fdFiles x')) = forget x.
Proof.
  intros H. destruct (forget_fields _ _ H) as (_ & Hl & _).
  destruct x as [n a s d c0 l b]. cbn [setCluster setFiles forget fdFiles] in *.
  rewrite Hl. reflexivity.
Qed.

Lemma subdirLoop_spec
    (below : FileData -> list val -> Z -> FileData * list val * Z)
    (l l1 : list FileData) :
  Forall2 (fun x x1 => exists c, x1 = setCluster x c) l l1 ->
  Forall (callOk cb below) l ->
  forall ab i, fits (belowDirs l) ->
  exists l2 ab2,
    subdirLoop below l l1 ab i = (l2, ab2, i + totalClusters cb (belowDirs l))
    /\ map forget l2 = map forget l
    /\ Forall2 (fun x1 x2 => fdCluster x2 = fdCluster x1
                             /\ entryBytes x2 = entryBytes x1) l1 l2
    /\ totalClusters cb (belowDirs l2) = totalClusters cb (belowDirs l)
    /\ (byteCells ab -> 0 <= i -> i + totalClusters cb (belowDirs l) <= 4096 ->
        byteCells ab2
        /\ frame ab ab2 i (i + totalClusters cb (belowDirs l))
        /\ placed cb ab2 (belowDirs l2) i).
Proof.
  induction 1 as [|x x1 l l1 [c ->] R IH]; intros Hok ab i Hfit.
  - exists [], ab. cbn [subdirLoop]. unfold belowDirs. cbn [flat_map].
    rewrite totalClusters_nil, Z.add_0_r.
    split; [reflexivity|]. split; [reflexivity|]. split; [constructor|].
    split; [reflexivity|]. intros Hab Hi Hn.
    split; [exact Hab|]. split; [apply frame_refl | exact I].
  - inversion Hok as [|? ? Hx Hl]; subst.
    rewrite belowDirs_cons in Hfit. apply Forall_app in Hfit.
    destruct Hfit as [Hfx Hfl].
    pose proof (totalClusters_nonneg cb (belowDirs l) Hcb) as N2.
    cbn [subdirLoop]. rewrite belowDirs_cons, totalClusters_app.
    destruct (fdSize x <? 0) eqn:Ed.
    + pose proof (totalClusters_nonneg cb (filesBelow x) Hcb) as N1.
      destruct (Hx ab i Hfx) as (x' & ab' & Ex & Fx & Tx & Cx).
      rewrite Ex.
      destruct (IH Hl ab' (i + totalClusters cb (filesBelow x)) Hfl)
        as (l2 & ab2 & E2 & F2 & R2 & T2 & C2).
      rewrite E2.
      destruct (forget_fields _ _ Fx) as (Hs & Hm & Hlen & He).
      assert (Hb : belowDirs (setFiles (setCluster x c) (fdFiles x') :: l2)
                   = filesBelow x' ++ belowDirs l2).
      { rewrite belowDirs_cons.
        replace (fdSize (setFiles (setCluster x c) (fdFiles x'))) with (fdSize x)
          by (destruct x; reflexivity).
        rewrite Ed. rewrite !filesBelow_eq.
        replace (fdFiles (setFiles (setCluster x c) (fdFiles x')))
          with (fdFiles x') by (destruct x; reflexivity).
        reflexivity. }
      eexists _, ab2. split; [rewrite Z.add_assoc; reflexivity|].
      split; [cbn [map]; rewrite F2, forget_setFiles by exact Fx; reflexivity|].
      split.
      { constructor; [|exact R2]. split; [destruct x; reflexivity|].
        unfold entryBytes.
        replace (fdSize (setFiles (setCluster x c) (fdFiles x'))) with (fdSize x)
          by (destruct x; reflexivity).
        replace (fdSize (setCluster x c)) with (fdSize x)
          by (destruct x; reflexivity).
        replace (fdFiles (setFiles (setCluster x c) (fdFiles x')))
          with (fdFiles x') by (destruct x; reflexivity).
        rewrite fdFiles_setCluster, Hlen. reflexivity. }
      split; [rewrite Hb, totalClusters_app, Tx, T2; reflexivity|].
      intros Hab Hi Hn.
      destruct (Cx Hab Hi ltac:(lia)) as (B1 & F1 & P1).
      destruct (C2 B1 ltac:(lia) ltac:(lia)) as (B2 & F2' & P2).
      split; [exact B2|]. split.
      * rewrite Z.add_assoc.
        refine (frame_trans ab ab' ab2 i _ _ _ F1 F2'). lia.
      * rewrite Hb. apply placed_app. split.
        -- apply (placed_keep ab'); [exact P1|]. intros j Hj.
           apply F2'; lia.
        -- rewrite Tx. exact P2.
    + destruct (IH Hl ab i Hfl) as (l2 & ab2 & E2 & F2 & R2 & T2 & C2).
      rewrite E2. rewrite totalClusters_nil, Z.add_0_l.
      assert (Hb : belowDirs (setCluster x c :: l2) = belowDirs l2).
      { rewrite belowDirs_cons, fdSize_setCluster, Ed. reflexivity. }
      eexists _, ab2. split; [reflexivity|].
      split; [cbn [map]; rewrite F2, forget_setCluster; reflexivity|].
      split; [constructor; [split; reflexivity | exact R2]|].
      split; [rewrite Hb; exact T2|].
      rewrite Hb. exact C2.
Qed.

Lemma subdirLoop_nodirs
    (below : FileData -> list val -> Z -> FileData * list val * Z)
    (l l1 : list FileData) (ab : list val) (i : Z) :
  Forall2 (fun x x1 => exists c, x1 = setCluster x c) l l1 ->
  Forall (fun x => (fdSize x <? 0) = false) l ->
  subdirLoop below l l1 ab i = (l1, ab, i).
Proof.
  induction 1 as [|x x1 l l1 _ R IH]; intros Hn; [reflexivity|].
  inversion Hn as [|? ? Hx Hl]; subst.
  cbn [subdirLoop]. rewrite Hx, (IH Hl). reflexivity.
Qed.

(** The two loops of buildFAT. *)
Lemma buildFATLoops_spec
    (below : FileData -> list val -> Z -> FileData * list val * Z)
    (l : list FileData) (ab : list val) (i : Z) :
  Forall (callOk cb below) l -> fits (allFiles l) ->
  exists l2 ab2,
    buildFATLoops below cb l ab i = (l2, ab2, i + totalClusters cb (allFiles l))
    /\ map forget l2 = map forget l
    /\ totalClusters cb (allFiles l2) = totalClusters cb (allFiles l)
    /\ (byteCells ab -> 0 <= i -> i + totalClusters cb (allFiles l) <= 4096 ->
        byteCells ab2
        /\ frame ab ab2 i (i + totalClusters cb (allFiles l))
        /\ placed cb ab2 (allFiles l2) i).
Proof.
  intros Hok Hfit. rewrite allFiles_eq in Hfit. apply Forall_app in Hfit.
  destruct Hfit as [Hf1 Hf2].
  pose proof (totalClusters_nonneg cb l Hcb) as N1.
  pose proof (totalClusters_nonneg cb (belowDirs l) Hcb) as N2.
  destruct (assignLoop_spec l ab i 0 Hf1) as (l1 & ab1 & s1 & E1 & R1 & S1 & C1).
  destruct (subdirLoop_spec below l l1 R1 Hok ab1 (i + totalClusters cb l) Hf2)
    as (l2 & ab2 & E2 & F2 & R2 & T2 & C2).
  assert (E : buildFATLoops below cb l ab i
              = subdirLoop below l l1 ab1 (i + totalClusters cb l)).
  { unfold buildFATLoops. rewrite E1.
    destruct (s1 =? 0) eqn:Es; [|reflexivity].
    apply Z.eqb_eq in Es. destruct (S1 ltac:(lia)) as [_ S3].
    symmetry. apply subdirLoop_nodirs; [exact R1 | exact (S3 Es)]. }
  assert (T1 : totalClusters cb l2 = totalClusters cb l).
  { rewrite (totalClusters_ext l1 l2).
    - apply totalClusters_ext.
      eapply Forall2_impl; [|exact R1]. intros x x1 [c ->].
      apply entryBytes_setCluster.
    - eapply Forall2_impl; [|exact R2]. intros x y [_ H]. exact H. }
  exists l2, ab2. rewrite E, E2, !allFiles_eq, !totalClusters_app, T1, T2.
  split; [rewrite Z.add_assoc; reflexivity|].
  split; [exact F2|]. split; [reflexivity|].
  intros Hab Hi Hn.
  destruct (C1 Hab Hi ltac:(lia)) as (B1 & F1 & P1).
  destruct (C2 B1 ltac:(lia) ltac:(lia)) as (B2 & F2' & P2).
  split; [exact B2|]. split.
  - rewrite Z.add_assoc. refine (frame_trans ab ab1 ab2 i _ _ _ F1 F2'). lia.
  - apply placed_app. split.
    + apply (placed_ext ab2 l1 l2 i R2).
      apply (placed_keep ab1); [exact P1|]. intros j Hj.
      apply F2'; [lia|].
      replace (totalClusters cb l1) with (totalClusters cb l) in Hj; [lia|].
      symmetry. apply totalClusters_ext.
      eapply Forall2_impl; [|exact R1]. intros x x1 [c ->].
      apply entryBytes_setCluster.
    + rewrite T1. exact P2.
Qed.

Lemma buildFATBelow_ok (f : FileData) : callOk cb (buildFATBelow cb) f.
Proof.
  induction f as [n a s d c files b IH] using FileData_tree_ind.
  intros ab i Hfit. cbn [filesBelow] in *. fold (allFiles files) in *.
  destruct (buildFATLoops_spec (buildFATBelow cb) files ab i IH Hfit)
    as (l2 & ab2 & E & F & T & C).
  cbn [buildFATBelow]. rewrite E.
  eexists _, ab2. split; [reflexivity|].
  cbn [forget filesBelow]. fold (allFiles l2).
  split; [rewrite F; reflexivity|]. split; [exact T | exact C].
Qed.

(** buildFAT: the files, the array and the result. *)
Lemma buildFAT_spec (ab : list val) (l : list FileData) (i : Z) :
  fits (allFiles l) ->
  exists l2 ab2,
    buildFAT ab l i cb = (l2, ab2, i + totalClusters cb (allFiles l))
    /\ map forget l2 = map forget l
    /\ totalClusters cb (allFiles l2) = totalClusters cb (allFiles l)
    /\ (byteCells ab -> 0 <= i -> i + totalClusters cb (allFiles l) <= 4096 ->
        byteCells ab2
        /\ frame ab ab2 i (i + totalClusters cb (allFiles l))
        /\ placed cb ab2 (allFiles l2) i).
Proof.
  intros Hfit. apply buildFATLoops_spec; [|exact Hfit].
  apply Forall_forall. intros x _. apply buildFATBelow_ok.
Qed.

End Placement.

Lemma fits_fitting (l : list FileData) : fitting l = true -> fits l.
Proof.
  unfold fitting, fits. rewrite forallb_forall, Forall_forall.
  intros H f Hf. apply Z.ltb_lt, H, Hf.
Qed.

(** X14.  calcFileSizes and buildFAT agree.  For a tree of files with sizes
    below 2^31 and a positive cluster size [(cSectorsPerCluster || 1) * 512],
    the number of bytes that calcFileSizes returns is the cluster size times
    the number of clusters that buildFAT allocates with this cluster size
    (its result minus the cluster it started with). *)
Theorem buildFAT_calcFileSizes (abFAT : list val) (aFileData : list FileData)
    (iCluster : Z) (cSectorsPerCluster : val) :
  0 < clusterBytes cSectorsPerCluster ->
  fits (allFiles aFileData) ->
  calcFileSizes aFileData cSectorsPerCluster
  = clusterBytes cSectorsPerCluster
    * (snd (buildFAT abFAT aFileData iCluster (clusterBytes cSectorsPerCluster))
       - iCluster).
Proof.
  intros Hcb Hfit. rewrite calcFileSizes_clusters by exact Hcb.
  destruct (buildFAT_spec _ Hcb abFAT aFileData iCluster Hfit)
    as (l2 & ab2 & E & _).
  rewrite E. cbn [snd]. f_equal. lia.
Qed.

Lemma buildFAT_calcFileSizes_witness :
  calcFileSizes exampleFiles (Num 1)
  = clusterBytes (Num 1)
    * (snd (buildFAT emptyFAT exampleFiles 2 (clusterBytes (Num 1))) - 2).
Proof.
  apply (buildFAT_calcFileSizes emptyFAT exampleFiles 2 (Num 1)).
  - reflexivity.
  - apply fits_fitting. reflexivity.
Defined.

(** X15.  buildFAT chains the clusters of the files.  For a tree of files
    with sizes below 2^31, a positive cluster size and an array of bytes, a
    call of buildFAT from cluster [iCluster] on that ends at or below cluster
    4096 changes nothing of the files but their clusters; it gives the files,
    in the order files of the array first and then the files below each of
    its subdirectories, clusters one after the other from [iCluster] on, a
    file of no bytes getting cluster 0; each file's clusters are a chain in
    the FAT (every entry names the next cluster, the last one holds 0xFFF);
    the result is the cluster after the last one, and the other entries of
    the FAT are what they were. *)
Theorem buildFAT_chains (abFAT : list val) (aFileData : list FileData)
    (iCluster cbCluster : Z) (aFileData' : list FileData) (abFAT' : list val)
    (iCluster' : Z) :
  0 < cbCluster -> fits (allFiles aFileData) -> byteCells abFAT ->
  0 <= iCluster ->
  buildFAT abFAT aFileData iCluster cbCluster = (aFileData', abFAT', iCluster') ->
  iCluster' <= 4096 ->
  map forget aFileData' = map forget aFileData
  /\ byteCells abFAT'
  /\ placed cbCluster abFAT' (allFiles aFileData') iCluster
  /\ iCluster' = iCluster + totalClusters cbCluster (allFiles aFileData')
  /\ frame abFAT abFAT' iCluster iCluster'.
Proof.
  intros Hcb Hfit Hab Hi E Hn.
  destruct (buildFAT_spec _ Hcb abFAT aFileData iCluster Hfit)
    as (l2 & ab2 & E2 & F & T & C).
  rewrite E in E2. injection E2 as <- <- ->.
  destruct (C Hab Hi Hn) as (B & Fr & P).
  split; [exact F|]. split; [exact B|]. split; [exact P|].
  split; [rewrite T; reflexivity | exact Fr].
Qed.

Lemma buildFAT_chains_witness :
  placed 512 (snd (fst (buildFAT emptyFAT exampleFiles 2 512)))
         (allFiles (fst (fst (buildFAT emptyFAT exampleFiles 2 512)))) 2.
Proof.
  destruct (buildFAT emptyFAT exampleFiles 2 512) as [[l ab] i] eqn:E.
  cbn [fst snd].
  refine (proj1 (proj2 (proj2
            (buildFAT_chains emptyFAT exampleFiles 2 512 l ab i _ _ _ _ E _)))).
  - reflexivity.
  - apply fits_fitting. reflexivity.
  - apply byteCells_cellOctets. reflexivity.
  - discriminate.
  - vm_compute in E. injection E as _ _ <-. discriminate.
Defined.

(* ===================================================================== *)
(** * The data area of a new image *)
(* ===================================================================== *)

Section DirCount.

Lemma nameLoop_off (n : nat) (s : list Z) (i : Z) (ab : list val) (off : Z) :
  snd (nameLoop n s i ab off) = off + Z.of_nat n.
Proof.
  revert i ab off. induction n as [|n IH]; intros i ab off.
  - cbn [nameLoop snd]. lia.
  - cbn [nameLoop]. rewrite IH. lia.
Qed.

(** buildDirEntry returns 32. *)
Lemma buildDirEntry_32 (ab : list val) (off : Z) (sName : list Z) (cbFile : Z)
    (bAttr : val) (dateMod : option JSDate) (iCluster : val) :
  snd (buildDirEntry ab off sName cbFile bAttr dateMod iCluster) = 32.
Proof.
  unfold buildDirEntry.
  destruct (if 0 <? Str.indexOf sName 46
            then (Str.substr sName 0 (Str.indexOf sName 46),
                  Str.substrFrom sName (Str.indexOf sName 46 + 1))
            else (sName, [])) as [n e].
  pose proof (nameLoop_off 8 n 0 ab off) as H1.
  destruct (nameLoop 8 n 0 ab off) as [ab1 off1]. cbn [snd] in H1.
  pose proof (nameLoop_off 3 e 0 ab1 off1) as H2.
  destruct (nameLoop 3 e 0 ab1 off1) as [ab2 off2]. cbn [snd] in H2.
  destruct dateMod; cbn [snd]; lia.
Qed.

Lemma dirLoop_count (l : list FileData) (ab : list val) (off n : Z) :
  Forall (fun f => geZero (fdCluster f) = true) l ->
  snd (dirLoop l ab off n) = n + len l.
Proof.
  intros H. revert ab off n. induction H as [|f l Hf Hl IH]; intros ab off n.
  - cbn [dirLoop snd]. change (len (@nil FileData)) with 0. lia.
  - cbn [dirLoop].
    assert (Hu : isUndefined (fdCluster f) = false)
      by (destruct (fdCluster f); [discriminate | reflexivity | reflexivity]).
    rewrite Hu.
    destruct (buildDirEntry ab off _ (fdSize f) (fdAttr f) (fdDate f)
                            (fdCluster f))
      as [ab1 cb1].
    rewrite IH, len_cons. lia.
Qed.

(** buildDir for a subdirectory whose files have clusters. *)
Lemma buildDir_count (ab : list val) (l : list FileData)
    (dateMod : option JSDate) (c p : val) :
  geZero c = true ->
  Forall (fun f => geZero (fdCluster f) = true) l ->
  snd (buildDir ab l dateMod c p) = len l + 2.
Proof.
  intros Hc Hl. unfold buildDir.
  assert (Hu : isUndefined c = false)
    by (destruct c; [discriminate | reflexivity | reflexivity]).
  rewrite Hu, Hc.
  destruct (buildDirEntry ab 0 (Str.codes ".") 0 (Num ATTR.SUBDIR) dateMod c)
    as [ab1 cb1].
  destruct (buildDirEntry ab1 (0 + cb1) (Str.codes "..") 0 (Num ATTR.SUBDIR)
                          dateMod (if isUndefined p then Num (-1) else p))
    as [ab2 cb2].
  pose proof (dirLoop_count l ab2 (0 + cb1 + cb2) (0 + 2) Hl) as H.
  destruct (dirLoop l ab2 (0 + cb1 + cb2) (0 + 2)) as [[ab3 off3] n3].
  cbn [snd] in *. lia.
Qed.

End DirCount.

Section Copies.

Variable cb : Z.
Hypothesis Hcb : 0 < cb.

Ltac pair_eq :=
  repeat match goal with
         | |- (_, _) = (_, _) => apply f_equal2
         end;
  try reflexivity; try lia.

Lemma copies_app (c1 c2 : list BufferCall) :
  copies (c1 ++ c2) = copies c1 ++ copies c2.
Proof. apply flat_map_app. Qed.

Lemma atClusters_app (off j : Z) (l1 l2 : list FileData) :
  atClusters cb off j (l1 ++ l2) = atClusters cb off j l1 ++ atClusters cb off j l2.
Proof. unfold atClusters. rewrite filter_app, map_app. reflexivity. Qed.

Lemma atClusters_shift (off j d : Z) (l : list FileData) :
  atClusters cb (off + cb * d) (j + d) l = atClusters cb off j l.
Proof.
  unfold atClusters. apply map_ext. intros f. f_equal. lia.
Qed.

(** The clusters of a file, as buildClusters counts them. *)
Lemma counted_clusters (f : FileData) :
  entryBytes f < 2 ^ 31 ->
  divi (entryBytes f) cb
  + (if Z.rem (entryBytes f) cb =? 0 then 0 else 1) = clustersFor cb f.
Proof.
  intros Hfit. pose proof (entryBytes_nonneg f) as H0.
  change (2 ^ 31) with 2147483648 in Hfit.
  unfold divi, clustersFor. rewrite Z.quot_div_nonneg, Z.rem_mod_nonneg by lia.
  generalize dependent (entryBytes f). intros e Hfit H0.
  pose proof (Z.div_mod e cb ltac:(lia)) as D.
  pose proof (Z.mod_pos_bound e cb ltac:(lia)) as B.
  assert (Hq : 0 <= e / cb <= e).
  { split; [apply Z.div_pos; lia|]. apply Z.div_le_upper_bound; [lia|]. nia. }
  rewrite toInt32_small by (change (2 ^ 31) with 2147483648; lia).
  destruct (e mod cb =? 0) eqn:E.
  - apply Z.eqb_eq in E.
    assert (Q : (e + cb - 1) / cb = e / cb).
    { replace (e + cb - 1) with ((cb - 1) + (e / cb) * cb) by lia.
      rewrite Z.div_add by lia. rewrite Z.div_small by lia. lia. }
    lia.
  - apply Z.eqb_neq in E.
    assert (Q : (e + cb - 1) / cb = e / cb + 1).
    { replace (e + cb - 1) with ((e mod cb - 1) + (e / cb + 1) * cb) by lia.
      rewrite Z.div_add by lia. rewrite Z.div_small by lia. lia. }
    lia.
Qed.

Lemma placed_numbered (ab : list val) (l : list FileData) (j : Z) :
  0 <= j -> placed cb ab l j ->
  Forall (fun f => geZero (fdCluster f) = true) l.
Proof.
  revert j. induction l as [|f l IH]; intros j Hj P; [constructor|].
  cbn [placed] in P. destruct P as (Hc & _ & Pl).
  pose proof (clustersFor_nonneg cb f Hcb) as N.
  constructor.
  - rewrite Hc. cbn [geZero]. destruct (clustersFor cb f =? 0); apply Z.leb_le; lia.
  - apply (IH (j + clustersFor cb f)); [lia | exact Pl].
Qed.

(** One round of the first loop of buildClusters, for a file that has its
    cluster and whose files have theirs. *)
Lemma clusterRound_spec (f : FileData) (off : Z) (p : val) (c s j : Z) :
  0 <= j -> entryBytes f < 2 ^ 31 ->
  fdCluster f = Num (if clustersFor cb f =? 0 then 0 else j) ->
  (fdSize f < 0 -> Forall (fun x => geZero (fdCluster x) = true) (fdFiles f)) ->
  exists calls,
    clusterRound f off cb p c s
    = (calls, off + cb * clustersFor cb f, c + clustersFor cb f,
       if fdSize f <? 0 then s + 1 else s)
    /\ copies calls = atClusters cb off j [f].
Proof.
  intros Hj Hfit Hc Hch.
  pose proof (counted_clusters f Hfit) as CC.
  pose proof (rounded_clusters cb f Hcb) as RC.
  pose proof (entryBytes_nonneg f) as H0.
  assert (Hn : entryBytes f <> 0 -> clusterNumber f = j).
  { intros He. unfold clusterNumber. rewrite Hc.
    destruct (clustersFor cb f =? 0) eqn:Ez; [|reflexivity].
    apply Z.eqb_eq in Ez. rewrite Ez in RC.
    destruct (Z.rem (entryBytes f) cb =? 0) eqn:Er; [lia|].
    apply Z.eqb_neq in Er. rewrite Z.rem_mod_nonneg in * by lia.
    pose proof (Z.mod_pos_bound (entryBytes f) cb Hcb). lia. }
  assert (Hat : atClusters cb off j [f]
                = if entryBytes f =? 0 then [] else [(f, off)]).
  { unfold atClusters. cbn [filter].
    destruct (entryBytes f =? 0) eqn:Ee; cbn [negb map]; [reflexivity|].
    apply Z.eqb_neq in Ee. rewrite (Hn Ee). do 2 f_equal. lia. }
  unfold clusterRound.
  assert (E : exists calls1,
             (if 0 <? fdSize f then ([], fdSize f, s)
              else if fdSize f <? 0 then
                let '(abData, cEntries) :=
                  buildDir [] (fdFiles f) (fdDate f) (fdCluster f) p in
                ([callNewFill f (cEntries * 32) abData], cEntries * 32, s + 1)
              else ([], fdSize f, s))
             = (calls1, entryBytes f, if fdSize f <? 0 then s + 1 else s)
             /\ copies calls1 = []).
  { unfold entryBytes. destruct (0 <? fdSize f) eqn:Ep.
    - apply Z.ltb_lt in Ep.
      replace (fdSize f <? 0) with false by (symmetry; apply Z.ltb_ge; lia).
      eexists. split; reflexivity.
    - destruct (fdSize f <? 0) eqn:Ed.
      + apply Z.ltb_lt in Ed.
        assert (Hg : geZero (fdCluster f) = true).
        { rewrite Hc. cbn [geZero].
          destruct (clustersFor cb f =? 0); apply Z.leb_le; lia. }
        pose proof (buildDir_count [] (fdFiles f) (fdDate f) (fdCluster f) p
                                   Hg (Hch Ed)) as Hcount.
        destruct (buildDir [] (fdFiles f) (fdDate f) (fdCluster f) p)
          as [abData cEntries].
        cbn [snd] in Hcount. subst cEntries.
        eexists. split; reflexivity.
      + eexists. split; reflexivity. }
  destruct E as (calls1 & E & Ecopies). rewrite E.
  replace (cb =? 0) with false by (symmetry; apply Z.eqb_neq; lia).
  exists (calls1 ++ if entryBytes f =? 0 then [] else [callCopy f off]).
  split.
  - revert CC RC. destruct (Z.rem (entryBytes f) cb =? 0); intros CC RC.
    + replace (off + entryBytes f) with (off + cb * clustersFor cb f) by lia.
      replace (c + divi (entryBytes f) cb) with (c + clustersFor cb f) by lia.
      reflexivity.
    + replace (off + entryBytes f + (cb - Z.rem (entryBytes f) cb))
        with (off + cb * clustersFor cb f) by lia.
      replace (c + divi (entryBytes f) cb + 1) with (c + clustersFor cb f)
        by lia.
      reflexivity.
  - rewrite copies_app, Ecopies, Hat.
    destruct (entryBytes f =? 0); reflexivity.
Qed.

(** The first loop of buildClusters. *)
Lemma clusterLoop_spec (ab : list val) (l : list FileData) :
  forall (off : Z) (p : val) (c s j : Z),
  0 <= j -> fits l -> placed cb ab l j ->
  Forall (fun f => fdSize f < 0 ->
                   Forall (fun x => geZero (fdCluster x) = true) (fdFiles f)) l ->
  exists calls s',
    clusterLoop l off cb p c s
    = (calls, off + cb * totalClusters cb l, c + totalClusters cb l, s')
    /\ copies calls = atClusters cb off j l
    /\ (0 <= s -> s <= s'
        /\ (s' <= 0 -> Forall (fun x => (fdSize x <? 0) = false) l)).
Proof.
  induction l as [|f l IH]; intros off p c s j Hj Hfit P R.
  - exists [], s. cbn [clusterLoop]. rewrite totalClusters_nil.
    split; [pair_eq|]. split; [reflexivity|].
    intros Hs. split; [lia | constructor].
  - inversion Hfit as [|? ? Hf Hl]; subst. inversion R as [|? ? Rf Rl]; subst.
    cbn [placed] in P. destruct P as (Pc & _ & Pl).
    pose proof (clustersFor_nonneg cb f Hcb) as N.
    destruct (clusterRound_spec f off p c s j Hj Hf Pc Rf) as (calls1 & E1 & C1).
    destruct (IH (off + cb * clustersFor cb f) p (c + clustersFor cb f)
                 (if fdSize f <? 0 then s + 1 else s) (j + clustersFor cb f)
                 ltac:(lia) Hl Pl Rl) as (calls2 & s' & E2 & C2 & S2).
    cbn [clusterLoop]. rewrite E1, E2. exists (calls1 ++ calls2), s'.
    rewrite totalClusters_cons. split; [pair_eq|]. split.
    + rewrite copies_app, C1, C2, atClusters_shift.
      change (f :: l) with ([f] ++ l). rewrite atClusters_app. reflexivity.
    + intros Hs. destruct (fdSize f <? 0) eqn:Ed.
      * destruct (S2 ltac:(lia)) as [S3 S4]. split; [lia|]. intros Hz. lia.
      * destruct (S2 Hs) as [S3 S4]. split; [lia|]. intros Hz.
        constructor; [exact Ed | exact (S4 Hz)].
Qed.

(** The second loop of buildClusters. *)
Lemma subClusterLoop_spec (below : FileData -> Z -> list BufferCall * Z)
    (l : list FileData) :
  Forall (copyOk cb below) l ->
  forall (ab : list val) (off c j : Z),
  0 <= j -> fits (belowDirs l) -> placed cb ab (belowDirs l) j ->
  exists calls off',
    subClusterLoop below cb l off c
    = (calls, off', c + totalClusters cb (belowDirs l))
    /\ copies calls = atClusters cb off j (belowDirs l).
Proof.
  induction 1 as [|x l Hx Hl IH]; intros ab off c j Hj Hfit P.
  - exists [], off. cbn [subClusterLoop]. unfold belowDirs. cbn [flat_map].
    rewrite totalClusters_nil. split; [pair_eq | reflexivity].
  - rewrite belowDirs_cons in *. apply Forall_app in Hfit.
    destruct Hfit as [Hfx Hfl]. apply placed_app in P. destruct P as [Px Pl].
    cbn [subClusterLoop]. rewrite totalClusters_app, atClusters_app.
    destruct (fdSize x <? 0) eqn:Ed.
    + pose proof (totalClusters_nonneg cb (filesBelow x) Hcb) as N.
      destruct (Hx ab off j Hj Hfx Px) as [Hn Hc].
      destruct (below x off) as [calls1 n1]. cbn [fst snd] in Hn, Hc. subst n1.
      destruct (IH ab (off + totalClusters cb (filesBelow x) * cb)
                   (c + totalClusters cb (filesBelow x))
                   (j + totalClusters cb (filesBelow x)) ltac:(lia) Hfl Pl)
        as (calls2 & off' & E2 & C2).
      rewrite E2. exists (calls1 ++ calls2), off'.
      split; [pair_eq|].
      rewrite copies_app, Hc, C2. f_equal.
      rewrite <- (atClusters_shift off j (totalClusters cb (filesBelow x))).
      f_equal. lia.
    + rewrite totalClusters_nil, Z.add_0_r in Pl.
      destruct (IH ab off c j Hj Hfl Pl) as (calls2 & off' & E2 & C2).
      rewrite E2. exists calls2, off'. rewrite totalClusters_nil.
      split; [pair_eq | exact C2].
Qed.

Lemma belowDirs_nodirs (l : list FileData) :
  Forall (fun x => (fdSize x <? 0) = false) l -> belowDirs l = [].
Proof.
  induction 1 as [|x l Hx Hl IH]; [reflexivity|].
  rewrite belowDirs_cons, Hx, IH. reflexivity.
Qed.

(** The files of a subdirectory of the list are below the list. *)
Lemma children_below (l : list FileData) (f : FileData) :
  In f l -> fdSize f < 0 -> incl (fdFiles f) (belowDirs l).
Proof.
  intros Hin Hd x Hx. unfold belowDirs. apply in_flat_map.
  exists f. split; [exact Hin|].
  replace (fdSize f <? 0) with true by (symmetry; apply Z.ltb_lt; exact Hd).
  rewrite filesBelow_eq, allFiles_eq. apply in_or_app. left. exact Hx.
Qed.

(** The two loops of buildClusters. *)
Lemma buildClustersLoops_spec (below : FileData -> Z -> list BufferCall * Z)
    (l : list FileData) (ab : list val) (off : Z) (p : val) (j : Z) :
  Forall (copyOk cb below) l ->
  0 <= j -> fits (allFiles l) -> placed cb ab (allFiles l) j ->
  snd (buildClustersLoops below l off cb p) = totalClusters cb (allFiles l)
  /\ copies (fst (buildClustersLoops below l off cb p))
     = atClusters cb off j (allFiles l).
Proof.
  intros Hok Hj Hfit P.
  pose proof (placed_numbered ab _ j Hj P) as Hnum.
  rewrite allFiles_eq in *. apply Forall_app in Hfit. destruct Hfit as [Hf1 Hf2].
  apply placed_app in P. destruct P as [P1 P2].
  pose proof (totalClusters_nonneg cb l Hcb) as N.
  assert (R : Forall (fun f => fdSize f < 0 ->
                Forall (fun x => geZero (fdCluster x) = true) (fdFiles f)) l).
  { apply Forall_forall. intros f Hin Hd. apply Forall_forall. intros x Hx.
    rewrite Forall_forall in Hnum. apply Hnum, in_or_app. right.
    exact (children_below l f Hin Hd x Hx). }
  destruct (clusterLoop_spec ab l off p 0 0 j Hj Hf1 P1 R)
    as (calls1 & s' & E1 & C1 & S1).
  unfold buildClustersLoops. rewrite E1.
  rewrite totalClusters_app, atClusters_app.
  destruct (0 <? s') eqn:Es.
  - destruct (subClusterLoop_spec below l Hok ab (off + cb * totalClusters cb l)
                (0 + totalClusters cb l) (j + totalClusters cb l)
                ltac:(lia) Hf2 P2) as (calls2 & off' & E2 & C2).
    rewrite E2. cbn [fst snd]. split; [lia|].
    rewrite copies_app, C1, C2, atClusters_shift. reflexivity.
  - apply Z.ltb_ge in Es. destruct (S1 ltac:(lia)) as [_ S2].
    rewrite (belowDirs_nodirs l (S2 Es)). cbn [fst snd].
    rewrite totalClusters_nil. split; [lia|].
    rewrite C1. unfold atClusters at 3. cbn [filter map].
    rewrite app_nil_r. reflexivity.
Qed.

Lemma buildClustersBelow_ok (f : FileData) : copyOk cb (buildClustersBelow cb) f.
Proof.
  induction f as [n a s d c files b IH] using FileData_tree_ind.
  intros ab off j Hj Hfit P. cbn [filesBelow] in *. fold (allFiles files) in *.
  cbn [buildClustersBelow].
  exact (buildClustersLoops_spec _ files ab off c j IH Hj Hfit P).
Qed.

(** buildClusters for files that are placed from cluster [j] on. *)
Lemma buildClusters_spec (l : list FileData) (ab : list val) (off : Z) (p : val)
    (level j : Z) :
  0 <= j -> fits (allFiles l) -> placed cb ab (allFiles l) j ->
  snd (buildClusters l off cb p level) = totalClusters cb (allFiles l)
  /\ copies (fst (buildClusters l off cb p level))
     = atClusters cb off j (allFiles l).
Proof.
  intros Hj Hfit P. apply (buildClustersLoops_spec _ l ab off p j); try assumption.
  apply Forall_forall. intros x _. apply buildClustersBelow_ok.
Qed.

(** What is the same up to clusters has the same sizes, at every depth. *)
Lemma forget_sizes_below (l : list FileData) :
  Forall (fun x => forall x', forget x' = forget x ->
            map entryBytes (filesBelow x') = map entryBytes (filesBelow x)) l ->
  forall l', map forget l' = map forget l ->
  map entryBytes l' = map entryBytes l
  /\ map entryBytes (belowDirs l') = map entryBytes (belowDirs l).
Proof.
  induction 1 as [|x l Hx Hl IH]; intros l' E.
  - destruct l'; [split; reflexivity | discriminate].
  - destruct l' as [|x' l']; [discriminate|]. cbn [map] in E.
    injection E as Ex El. destruct (IH l' El) as [IH1 IH2].
    destruct (forget_fields _ _ Ex) as (Hs & _ & _ & He).
    split; [cbn [map]; rewrite He, IH1; reflexivity|].
    rewrite !belowDirs_cons, !map_app, IH2, Hs.
    destruct (fdSize x <? 0); [rewrite (Hx x' Ex)|]; reflexivity.
Qed.

Lemma forget_sizes (f f' : FileData) :
  forget f' = forget f ->
  map entryBytes (filesBelow f') = map entryBytes (filesBelow f).
Proof.
  revert f'. induction f as [n a s d c files b IH] using FileData_tree_ind.
  intros [n' a' s' d' c' files' b'] E. cbn [forget] in E.
  injection E as _ _ _ _ El _. cbn [filesBelow]. fold (allFiles files').
  fold (allFiles files). rewrite !allFiles_eq, !map_app.
  destruct (forget_sizes_below files IH files' El) as [H1 H2].
  rewrite H1, H2. reflexivity.
Qed.

Lemma fits_forget (l l' : list FileData) :
  map forget l' = map forget l -> fits (allFiles l) -> fits (allFiles l').
Proof.
  intros E. unfold fits.
  assert (H : map entryBytes (allFiles l') = map entryBytes (allFiles l)).
  { rewrite !allFiles_eq, !map_app.
    destruct (forget_sizes_below l) with (l' := l') as [H1 H2];
      [|exact E | rewrite H1, H2; reflexivity].
    apply Forall_forall. intros x _ x'. apply forget_sizes. }
  intros F. apply (Forall_map entryBytes (fun e => e < 2 ^ 31)).
  rewrite H. apply (Forall_map entryBytes (fun e => e < 2 ^ 31)). exact F.
Qed.

End Copies.

(** X16.  buildClusters stores the files where buildFAT has put them.  For a
    tree of files with sizes below 2^31, a positive cluster size and an array
    of bytes, let buildFAT from cluster [iCluster] on end at or below cluster
    4096.  Then buildClusters returns the number of clusters that buildFAT
    allocated, and the copies it makes into the buffer of the disk are, in
    buildFAT's order, one for each file or subdirectory that has bytes, at
    [offDisk] plus the cluster size times the distance of the file's cluster
    from [iCluster]. *)
Theorem buildClusters_buildFAT (abFAT : list val) (aFileData : list FileData)
    (iCluster cbCluster : Z) (aFileData' : list FileData) (abFAT' : list val)
    (iCluster' offDisk : Z) (iParentCluster : val) (iLevel : Z) :
  0 < cbCluster -> fits (allFiles aFileData) -> byteCells abFAT ->
  0 <= iCluster ->
  buildFAT abFAT aFileData iCluster cbCluster = (aFileData', abFAT', iCluster') ->
  iCluster' <= 4096 ->
  snd (buildClusters aFileData' offDisk cbCluster iParentCluster iLevel)
  = iCluster' - iCluster
  /\ copies (fst (buildClusters aFileData' offDisk cbCluster iParentCluster
                                iLevel))
     = atClusters cbCluster offDisk iCluster (allFiles aFileData').
Proof.
  intros Hcb Hfit Hab Hi E Hn.
  destruct (buildFAT_spec _ Hcb abFAT aFileData iCluster Hfit)
    as (l2 & ab2 & E2 & F & T & C).
  rewrite E in E2. injection E2 as <- <- ->.
  destruct (C Hab Hi Hn) as (B & Fr & P).
  destruct (buildClusters_spec _ Hcb aFileData' abFAT' offDisk iParentCluster
              iLevel iCluster Hi (fits_forget aFileData aFileData' F Hfit) P)
    as [H1 H2].
  split; [rewrite H1, T; lia | exact H2].
Qed.

Lemma buildClusters_buildFAT_witness :
  snd (buildClusters (fst (fst (buildFAT emptyFAT exampleFiles 2 512)))
                     0x1C00 512 (Num 0) 0) = 8 - 2
  /\ copies (fst (buildClusters (fst (fst (buildFAT emptyFAT exampleFiles 2 512)))
                                0x1C00 512 (Num 0) 0))
     = atClusters 512 0x1C00 2
                  (allFiles (fst (fst (buildFAT emptyFAT exampleFiles 2 512)))).
Proof.
  refine (buildClusters_buildFAT emptyFAT exampleFiles 2 512 _
            (snd (fst (buildFAT emptyFAT exampleFiles 2 512))) 8 0x1C00 (Num 0) 0
            _ _ _ _ _ _).
  - reflexivity.
  - apply fits_fitting. reflexivity.
  - apply byteCells_cellOctets. reflexivity.
  - discriminate.
  - vm_compute. reflexivity.
  - discriminate.
Defined.

(* ===================================================================== *)
(** * Short names *)
(* ===================================================================== *)

Section ShortNames.

Lemma replaceLoop_plain (s : list Z) (i p : Z) :
  p < i \/ i + len s <= p -> replaceLoop s i p = sanitize s.
Proof.
  revert i. induction s as [|ch s IH]; intros i H; [reflexivity|].
  rewrite len_cons in H. pose proof (len_nonneg s) as N.
  cbn [replaceLoop sanitize map].
  replace (i =? p) with false by (symmetry; apply Z.eqb_neq; lia).
  f_equal. apply IH. lia.
Qed.

Lemma replaceLoop_dot (b e : list Z) (i : Z) :
  replaceLoop (b ++ 46 :: e) i (i + len b) = sanitize b ++ 46 :: sanitize e.
Proof.
  revert i. induction b as [|ch b IH]; intros i.
  - change (len (@nil Z)) with 0. rewrite Z.add_0_r. cbn [app replaceLoop].
    rewrite Z.eqb_refl. cbn [sanitize map app]. f_equal.
    apply replaceLoop_plain. lia.
  - rewrite len_cons. pose proof (len_nonneg b) as N.
    rewrite <- app_comm_cons. cbn [replaceLoop sanitize map app].
    replace (i =? i + (len b + 1)) with false by (symmetry; apply Z.eqb_neq; lia).
    f_equal. replace (i + (len b + 1)) with (i + 1 + len b) by lia. apply IH.
Qed.

Lemma indexFrom_In (s : list Z) (c i : Z) :
  (Str.indexFrom s c i <? 0) = false -> In c s.
Proof.
  revert i. induction s as [|x s IH]; intros i H; [discriminate|].
  cbn [Str.indexFrom] in H. destruct (x =? c) eqn:E.
  - left. apply Z.eqb_eq, E.
  - right. exact (IH _ H).
Qed.

Lemma sanitize_short (s : list Z) : Forall shortChar (sanitize s).
Proof.
  apply Forall_forall. intros c Hc. unfold sanitize in Hc.
  apply in_map_iff in Hc. destruct Hc as (ch & <- & _).
  destruct (Str.indexOf shortNameChars ch <? 0) eqn:E.
  - apply (indexFrom_In shortNameChars 95 0). reflexivity.
  - exact (indexFrom_In shortNameChars ch 0 E).
Qed.

Lemma len_sanitize (s : list Z) : len (sanitize s) = len s.
Proof. apply len_map. Qed.

Lemma length_trimStart (s : list Z) :
  (length (Str.trimStart s) <= length s)%nat.
Proof.
  induction s as [|x s IH]; [apply Nat.le_refl|].
  cbn [Str.trimStart]. destruct (Str.isSpace x); cbn [length]; lia.
Qed.

Lemma len_trim (s : list Z) : len (Str.trim s) <= len s.
Proof.
  unfold Str.trim, len. rewrite length_rev.
  pose proof (length_trimStart (rev (Str.trimStart s))) as H1.
  pose proof (length_trimStart s) as H2. rewrite length_rev in H1. lia.
Qed.

Lemma len_substr (s : list Z) (a n : Z) : 0 <= n -> len (Str.substr s a n) <= n.
Proof.
  intros Hn. unfold Str.substr, len.
  pose proof (firstn_le_length (Z.to_nat n) (skipn (Z.to_nat a) s)) as H.
  pose proof (length_firstn (Z.to_nat n) (skipn (Z.to_nat a) s)) as H1. lia.
Qed.

End ShortNames.

(** X17.  buildShortName returns a name in 8.3 form.  For a file name of
    characters below 128 the result is a base of at most 8 characters, followed
    by a period and an extension of 1 to 3 characters when there is one; all
    characters of the base and of the extension are among
    [ABCDEFGHIJKLMNOPQRSTUVWXYZ0123456789!#$%&'()-@^_`{}~], so the result has
    at most one period and no lower-case letter.  (The base may be empty.) *)
Theorem buildShortName_form (sFile : list Z) (fLabel : bool) :
  Forall (fun c => 0 <= c < 128) sFile ->
  exists base ext,
    buildShortName sFile fLabel = dotted base ext
    /\ len base <= 8 /\ len ext <= 3
    /\ Forall shortChar base /\ Forall shortChar ext.
Proof.
  intros _. unfold buildShortName.
  destruct (if 0 <=? Str.lastIndexOf (Str.toUpperCase sFile) 46
            then (Str.substr (Str.toUpperCase sFile) 0
                             (Str.lastIndexOf (Str.toUpperCase sFile) 46),
                  Str.substrFrom (Str.toUpperCase sFile)
                                 (Str.lastIndexOf (Str.toUpperCase sFile) 46 + 1))
            else if fLabel && (8 <? len (Str.toUpperCase sFile))
                 then (Str.toUpperCase sFile,
                       Str.substrFrom (Str.toUpperCase sFile) 8)
                 else (Str.toUpperCase sFile, [])) as [n0 e0].
  pose proof (len_trim (Str.substr n0 0 8)) as Lb.
  pose proof (len_substr n0 0 8 ltac:(lia)) as Lb'.
  pose proof (len_trim (Str.substr e0 0 3)) as Le.
  pose proof (len_substr e0 0 3 ltac:(lia)) as Le'.
  set (b := Str.trim (Str.substr n0 0 8)) in *.
  destruct (Str.trim (Str.substr e0 0 3)) as [|z e] eqn:Ee.
  - exists (sanitize b), []. cbn [dotted].
    split; [apply replaceLoop_plain; pose proof (len_nonneg b); lia|].
    rewrite len_sanitize. split; [lia|]. split; [discriminate|].
    split; [apply sanitize_short | constructor].
  - exists (sanitize b), (sanitize (z :: e)).
    split; [exact (replaceLoop_dot b (z :: e) 0)|].
    rewrite !len_sanitize. split; [lia|]. split; [lia|].
    split; apply sanitize_short.
Qed.

Lemma buildShortName_form_witness :
  exists base ext,
    buildShortName (Str.codes "my file name.text") false = dotted base ext
    /\ len base <= 8 /\ len ext <= 3
    /\ Forall shortChar base /\ Forall shortChar ext.
Proof.
  apply (buildShortName_form (Str.codes "my file name.text") false).
  repeat constructor; discriminate.
Defined.

(* ===================================================================== *)
(** * Directory entries *)
(* ===================================================================== *)

Section DirEntries.

Lemma land_255 (x : Z) : Z.land x 255 = x mod 256.
Proof. exact (Z.land_ones x 8 ltac:(lia)). Qed.

(** A byte of a 32-bit number: [(x >> s) & 0xff]. *)
Lemma byte_bits (x s : Z) :
  0 <= s <= 24 -> band (sar x s) 0xff = (toUint32 x / 2 ^ s) mod 2 ^ 8.
Proof.
  intros Hs. unfold band, sar, toUint32.
  rewrite (toInt32_small 255) by (change (2 ^ 31) with 2147483648; lia).
  replace (Z.land s 31) with s.
  2:{ change 31 with (Z.ones 5). rewrite Z.land_ones by lia.
      symmetry. apply Z.mod_small. change (2 ^ 5) with 32. lia. }
  rewrite <- Z.shiftr_div_pow2, <- Z.land_ones by lia.
  apply Z.bits_inj'. intros n Hn.
  rewrite !Z.land_spec. change 255 with (Z.ones 8).
  destruct (Z.ltb_spec n 8) as [Hlt|Hge].
  - rewrite toInt32_testbit by lia.
    rewrite !Z.shiftr_spec by lia.
    rewrite toInt32_testbit by lia. rewrite Z.land_spec.
    change 0xFFFFFFFF with (Z.ones 32).
    rewrite (Z.ones_spec_low 32 (n + s)) by lia.
    rewrite andb_true_r. reflexivity.
  - rewrite (Z.ones_spec_high 8 n) by lia. rewrite !andb_false_r. reflexivity.
Qed.

Lemma sar_0 (x : Z) : band (sar x 0) 0xff = band x 0xff.
Proof.
  unfold band, sar. change (Z.land 0 31) with 0. rewrite Z.shiftr_0_r.
  rewrite toInt32_idem. reflexivity.
Qed.

Lemma byte0 (x : Z) : band x 0xff = toUint32 x mod 256.
Proof.
  rewrite <- sar_0, (byte_bits x 0) by lia.
  change (2 ^ 0) with 1. rewrite Z.div_1_r. reflexivity.
Qed.

Lemma byte1 (x : Z) : band (sar x 8) 0xff = toUint32 x / 256 mod 256.
Proof. exact (byte_bits x 8 ltac:(lia)). Qed.

Lemma byte2 (x : Z) : band (sar x 16) 0xff = toUint32 x / 256 / 256 mod 256.
Proof.
  rewrite (byte_bits x 16) by lia. rewrite Z.div_div by lia. reflexivity.
Qed.

Lemma byte3 (x : Z) :
  band (sar x 24) 0xff = toUint32 x / 256 / 256 / 256 mod 256.
Proof.
  rewrite (byte_bits x 24) by lia. rewrite !Z.div_div by lia. reflexivity.
Qed.

Lemma sar_sar (x : Z) : sar (sar x 16) 8 = sar x 24.
Proof.
  unfold sar. change (Z.land 16 31) with 16. change (Z.land 8 31) with 8.
  change (Z.land 24 31) with 24.
  rewrite (toInt32_small (Z.shiftr (toInt32 x) 16)).
  - rewrite Z.shiftr_shiftr by lia. reflexivity.
  - rewrite Z.shiftr_div_pow2 by lia.
    apply div_pow2_range; [apply toInt32_range | lia].
Qed.

(** The cells after a loop over the characters of a name. *)
Lemma nameLoop_get (c : nat) (s : list Z) (i : Z) (ab : list val) (off k : Z) :
  0 <= off ->
  get (fst (nameLoop c s i ab off)) k
  = if (off <=? k) && (k <? off + Z.of_nat c)
    then Num (if i + (k - off) <? len s then Str.charCodeAt s (i + (k - off))
              else 32)
    else get ab k.
Proof.
  revert i ab off. induction c as [|c IH]; intros i ab off Hoff.
  - cbn [nameLoop fst].
    destruct (Z.leb_spec off k); destruct (Z.ltb_spec k (off + Z.of_nat 0));
      cbn [andb]; try reflexivity; lia.
  - cbn [nameLoop]. rewrite IH by lia. rewrite get_set_any by lia.
    destruct (Z.leb_spec (off + 1) k); destruct (Z.leb_spec off k);
      destruct (Z.ltb_spec k (off + 1 + Z.of_nat c));
      destruct (Z.ltb_spec k (off + Z.of_nat (S c)));
      destruct (Z.eqb_spec k off); cbn [andb]; try reflexivity; try lia.
    + replace (i + 1 + (k - (off + 1))) with (i + (k - off)) by lia.
      reflexivity.
    + subst k. replace (i + (off - off)) with i by lia. reflexivity.
Qed.

Lemma nameLoop_in (c : nat) (s : list Z) (ab : list val) (off : Z) (j : nat) :
  0 <= off -> (j < c)%nat ->
  get (fst (nameLoop c s 0 ab off)) (off + Z.of_nat j)
  = Num (nth j (padTo c s) 0).
Proof.
  intros Hoff Hj. rewrite nameLoop_get by exact Hoff.
  replace ((off <=? off + Z.of_nat j) && (off + Z.of_nat j <? off + Z.of_nat c))
    with true by (symmetry; apply andb_true_iff; split;
                  [apply Z.leb_le | apply Z.ltb_lt]; lia).
  replace (0 + (off + Z.of_nat j - off)) with (Z.of_nat j) by lia.
  f_equal. unfold padTo, Str.charCodeAt, len.
  rewrite nth_firstn. replace (j <? c)%nat with true
    by (symmetry; apply Nat.ltb_lt; exact Hj).
  rewrite Nat2Z.id.
  destruct (Z.ltb_spec (Z.of_nat j) (Z.of_nat (length s))) as [Hl|Hl].
  - rewrite app_nth1 by lia. reflexivity.
  - rewrite app_nth2 by lia. rewrite nth_repeat_lt by lia. reflexivity.
Qed.

Lemma nameLoop_out (c : nat) (s : list Z) (i : Z) (ab : list val) (off k : Z) :
  0 <= off -> k < off \/ off + Z.of_nat c <= k ->
  get (fst (nameLoop c s i ab off)) k = get ab k.
Proof.
  intros Hoff Hk. rewrite nameLoop_get by exact Hoff.
  destruct (Z.leb_spec off k); destruct (Z.ltb_spec k (off + Z.of_nat c));
    cbn [andb]; try reflexivity; lia.
Qed.

Lemma indexFrom_notin (s : list Z) (c i : Z) :
  ~ In c s -> Str.indexFrom s c i = -1.
Proof.
  revert i. induction s as [|x s IH]; intros i H; [reflexivity|].
  cbn [Str.indexFrom]. destruct (Z.eqb_spec x c) as [->|_].
  - exfalso. apply H. left. reflexivity.
  - apply IH. intros Hin. apply H. right. exact Hin.
Qed.

Lemma indexFrom_app (b e : list Z) (c i : Z) :
  ~ In c b -> Str.indexFrom (b ++ c :: e) c i = i + len b.
Proof.
  revert i. induction b as [|x b IH]; intros i H.
  - cbn [app Str.indexFrom]. rewrite Z.eqb_refl. change (len (@nil Z)) with 0. lia.
  - rewrite <- app_comm_cons. cbn [Str.indexFrom].
    destruct (Z.eqb_spec x c) as [->|_].
    + exfalso. apply H. left. reflexivity.
    + rewrite IH by (intros Hin; apply H; right; exact Hin).
      rewrite len_cons. lia.
Qed.

Lemma firstn_length_app (b l : list Z) : firstn (length b) (b ++ l) = b.
Proof. induction b as [|x b IH]; [reflexivity|]. cbn. rewrite IH. reflexivity. Qed.

Lemma skipn_length_app (b e : list Z) (c : Z) :
  skipn (S (length b)) (b ++ c :: e) = e.
Proof. induction b as [|x b IH]; [reflexivity|]. exact IH. Qed.

(** How buildDirEntry splits a short name. *)
Lemma splitName (base ext : list Z) :
  ~ In 46 base ->
  (if 0 <? Str.indexOf (dotted base ext) 46
   then (Str.substr (dotted base ext) 0 (Str.indexOf (dotted base ext) 46),
         Str.substrFrom (dotted base ext) (Str.indexOf (dotted base ext) 46 + 1))
   else (dotted base ext, []))
  = storedName base ext.
Proof.
  intros Hb. unfold Str.indexOf.
  destruct base as [|x base].
  - cbn [storedName]. destruct ext as [|y ext]; [reflexivity|].
    cbn [dotted app Str.indexFrom]. rewrite Z.eqb_refl. reflexivity.
  - cbn [storedName]. destruct ext as [|y ext].
    + cbn [dotted]. rewrite indexFrom_notin by exact Hb. reflexivity.
    + cbn [dotted]. rewrite indexFrom_app by exact Hb. rewrite Z.add_0_l.
      pose proof (len_nonneg (x :: base)) as N.
      replace (0 <? len (x :: base)) with true
        by (symmetry; apply Z.ltb_lt; rewrite len_cons in *;
            pose proof (len_nonneg base); lia).
      unfold Str.substr, Str.substrFrom.
      replace (Z.to_nat (len (x :: base))) with (length (x :: base))
        by (unfold len; lia).
      replace (Z.to_nat (len (x :: base) + 1)) with (S (length (x :: base)))
        by (unfold len; lia).
      change (Z.to_nat 0) with O. rewrite skipn_O.
      change (x :: base ++ 46 :: y :: ext) with ((x :: base) ++ 46 :: y :: ext).
      rewrite firstn_length_app, skipn_length_app. reflexivity.
Qed.

Lemma length_padTo (n : nat) (s : list Z) : length (padTo n s) = n.
Proof.
  unfold padTo. rewrite length_firstn, length_app, repeat_length. lia.
Qed.

Lemma map_nth_seq (l : list Z) :
  l = map (fun j => nth j l 0) (seq 0 (length l)).
Proof.
  induction l as [|x l IH]; [reflexivity|].
  cbn [length seq map nth]. f_equal.
  rewrite <- seq_shift, map_map. exact IH.
Qed.

Lemma cellsAt_padTo (ab : list val) (off : Z) (n : nat) (s : list Z) :
  (forall j, (j < n)%nat -> get ab (off + Z.of_nat j) = Num (nth j (padTo n s) 0)) ->
  cellsAt ab off n = map Num (padTo n s).
Proof.
  intros H. rewrite (map_nth_seq (padTo n s)) at 1.
  rewrite length_padTo, map_map. unfold cellsAt.
  apply map_ext_in. intros j Hj. apply in_seq in Hj. apply H. lia.
Qed.

End DirEntries.

Ltac eqb_decide :=
  repeat match goal with
         | |- context [?a =? ?b] =>
             first [ replace (a =? b) with true
                       by (symmetry; apply Z.eqb_eq; lia)
                   | replace (a =? b) with false
                       by (symmetry; apply Z.eqb_neq; lia) ]
         end.

Ltac cell := rewrite ?get_set_any by lia; eqb_decide.

Ltac cells tac :=
  repeat match goal with
         | |- _ :: _ = _ :: _ => apply f_equal2; [cell; tac|]
         end;
  try reflexivity.

(** The cells of a directory entry after buildDirEntry. *)
Lemma buildDirEntry_layout (ab : list val) (off : Z) (base ext : list Z)
    (cbFile : Z) (bAttr : val) (dateMod : option JSDate) (iCluster : val) :
  0 <= off -> ~ In 46 base ->
  let r := buildDirEntry ab off (dotted base ext) cbFile bAttr dateMod iCluster in
  snd r = DIRENT.LENGTH
  /\ cellsAt (fst r) (off + DIRENT.NAME) 8
     = map Num (padTo 8 (fst (storedName base ext)))
  /\ cellsAt (fst r) (off + DIRENT.EXT) 3
     = map Num (padTo 3 (snd (storedName base ext)))
  /\ get (fst r) (off + DIRENT.ATTR) = bAttr
  /\ cellsAt (fst r) (off + DIRENT.MODTIME) 4
     = map Num (bytesLE 4 match dateMod with
                          | Some d => toUint32 (buildDateTime d)
                          | None => 0
                          end)
  /\ cellsAt (fst r) (off + DIRENT.CLUSTER) 2
     = map Num (bytesLE 2 (toUint32 (valInt32 iCluster)))
  /\ cellsAt (fst r) (off + DIRENT.SIZE) 4
     = map Num (bytesLE 4 (toUint32 (Z.max 0 cbFile)))
  /\ forall k, k < off \/ off + 12 <= k < off + DIRENT.MODTIME
               \/ off + DIRENT.LENGTH <= k ->
               get (fst r) k = get ab k.
Proof.
  intros Hoff Hb r. subst r. unfold buildDirEntry.
  rewrite (splitName base ext Hb).
  destruct (storedName base ext) as [n e]. cbn [fst snd].
  pose proof (nameLoop_off 8 n 0 ab off) as L1.
  pose proof (fun j => nameLoop_in 8 n ab off j Hoff) as I1.
  pose proof (fun k => nameLoop_out 8 n 0 ab off k Hoff) as O1.
  destruct (nameLoop 8 n 0 ab off) as [ab1 off1]. cbn [fst snd] in L1, I1, O1.
  assert (Hoff1 : 0 <= off1) by lia.
  pose proof (nameLoop_off 3 e 0 ab1 off1) as L2.
  pose proof (fun j => nameLoop_in 3 e ab1 off1 j Hoff1) as I2.
  pose proof (fun k => nameLoop_out 3 e 0 ab1 off1 k Hoff1) as O2.
  destruct (nameLoop 3 e 0 ab1 off1) as [ab2 off2]. cbn [fst snd] in L2, I2, O2.
  change (Z.of_nat 8) with 8 in *. change (Z.of_nat 3) with 3 in *.
  subst off1 off2.
  replace (if cbFile <? 0 then 0 else cbFile) with (Z.max 0 cbFile)
    by (destruct (Z.ltb_spec cbFile 0); lia).
  unfold DIRENT.LENGTH, DIRENT.NAME, DIRENT.EXT, DIRENT.ATTR, DIRENT.MODTIME,
    DIRENT.CLUSTER, DIRENT.SIZE.
  destruct dateMod as [d|]; cbn [fst snd].
  all: split; [lia|].
  all: split; [apply cellsAt_padTo; intros j Hj; cell;
               rewrite O2 by lia;
               replace (off + 0 + Z.of_nat j) with (off + Z.of_nat j) by lia;
               apply I1, Hj|].
  all: split; [apply cellsAt_padTo; intros j Hj; cell;
               apply I2, Hj|].
  all: split; [cell; reflexivity|].
  all: split; [cbn [cellsAt map seq bytesLE];
               cells ltac:(rewrite ?sar_sar, ?byte3, ?byte2, ?byte1, ?byte0;
                           reflexivity)|].
  all: split; [cbn [cellsAt map seq bytesLE];
               cells ltac:(rewrite ?byte1, ?byte0; reflexivity)|].
  all: split; [cbn [cellsAt map seq bytesLE];
               cells ltac:(rewrite ?byte3, ?byte2, ?byte1, ?byte0; reflexivity)|].
  all: intros k Hk; cell; rewrite O2 by lia; apply O1; lia.
Qed.


(** X18.  buildDirEntry lays out a directory entry.  For a short name
    [base.ext] (or [base]) with no period in [base], the call returns 32 and
    leaves in the array, from [off] on: at the offsets of the table
    DiskImage.DIRENT, the name cut or padded with spaces to 8 characters
    (NAME), the extension cut or padded to 3 (EXT), the attribute as it was
    passed (ATTR), the four bytes of buildDateTime(dateMod), lowest first, or
    zeros without a date (MODTIME, with MODDATE in its upper half), the two
    low bytes of the cluster (CLUSTER) and the four bytes of the size, lowest
    first, 0 for a negative size (SIZE).  The ten cells from offset 12 on and
    all cells outside the entry are not written.  Without a base, the period
    and the extension are stored as the name, and the extension is blank. *)
Theorem buildDirEntry_fields (ab : list val) (off : Z) (base ext : list Z)
    (cbFile : Z) (bAttr : val) (dateMod : option JSDate) (iCluster : val) :
  0 <= off -> ~ In 46 base ->
  let r := buildDirEntry ab off (dotted base ext) cbFile bAttr dateMod iCluster in
  snd r = DIRENT.LENGTH
  /\ cellsAt (fst r) (off + DIRENT.NAME) 8
     = map Num (padTo 8 (fst (storedName base ext)))
  /\ cellsAt (fst r) (off + DIRENT.EXT) 3
     = map Num (padTo 3 (snd (storedName base ext)))
  /\ get (fst r) (off + DIRENT.ATTR) = bAttr
  /\ cellsAt (fst r) (off + DIRENT.MODTIME) 4
     = map Num (bytesLE 4 match dateMod with
                          | Some d => toUint32 (buildDateTime d)
                          | None => 0
                          end)
  /\ cellsAt (fst r) (off + DIRENT.CLUSTER) 2
     = map Num (bytesLE 2 (toUint32 (valInt32 iCluster)))
  /\ cellsAt (fst r) (off + DIRENT.SIZE) 4
     = map Num (bytesLE 4 (toUint32 (Z.max 0 cbFile)))
  /\ forall k, k < off \/ off + 12 <= k < off + DIRENT.MODTIME
               \/ off + DIRENT.LENGTH <= k ->
               get (fst r) k = get ab k.
Proof.
  exact (buildDirEntry_layout ab off base ext cbFile bAttr dateMod iCluster).
Qed.

Lemma buildDirEntry_fields_witness :
  snd (buildDirEntry [] 0 (dotted (Str.codes "README") (Str.codes "TXT")) 700
                     (Num ATTR.ARCHIVE) (Some (ValidDate 1990 0 1 12 30 10))
                     (Num 2)) = DIRENT.LENGTH
  /\ cellsAt (fst (buildDirEntry [] 0
                     (dotted (Str.codes "README") (Str.codes "TXT")) 700
                     (Num ATTR.ARCHIVE) (Some (ValidDate 1990 0 1 12 30 10))
                     (Num 2)))
             (0 + DIRENT.SIZE) 4
     = map Num (bytesLE 4 (toUint32 (Z.max 0 700))).
Proof.
  assert (H1 : 0 <= 0) by lia.
  assert (H2 : ~ In 46 (Str.codes "README"))
    by (intros H; vm_compute in H; intuition discriminate).
  pose proof (buildDirEntry_fields [] 0 (Str.codes "README") (Str.codes "TXT")
                700 (Num ATTR.ARCHIVE) (Some (ValidDate 1990 0 1 12 30 10))
                (Num 2) H1 H2) as H.
  cbv zeta in H. split; apply H.
Defined.

(* ===================================================================== *)
(** * Cluster chains *)
(* ===================================================================== *)

Section ClusterChains.


Lemma sameVolume_refl (vol : VolInfo) : sameVolume vol vol.
Proof.
  exists (vbaFATCache vol), (sectorFATCache vol). destruct vol. reflexivity.
Qed.

Lemma sameVolume_trans (v1 v2 v3 : VolInfo) :
  sameVolume v1 v2 -> sameVolume v2 v3 -> sameVolume v1 v3.
Proof.
  intros (a & b & ->) (c & d & ->). exists c, d. reflexivity.
Qed.

Lemma getClusterEntry_sameVolume this vol cluster iByte w vol' :
  getClusterEntry this vol cluster iByte = Some (w, vol') -> sameVolume vol vol'.
Proof.
  unfold getClusterEntry. intros H.
  destruct (match sectorFATCache vol with Some _ => false | None => true end
            || falsy (vbaFATCache vol)
            || negb (idEq (vbaFATCache vol)
                          (vbaFAT vol + divi (nFATBits vol * cluster
                                              + (if iByte =? 0 then 0 else 8))
                                             (volSector vol * 8)))).
  - destruct (getSector this _) as [sector|]; [|discriminate].
    cbn in H. destruct sector; injection H as _ <-; eexists _, _; reflexivity.
  - cbn in H. destruct (sectorFATCache vol); injection H as _ <-;
      apply sameVolume_refl.
Qed.

Lemma sameVolume_fields this (vol vol' : VolInfo) :
  sameVolume vol vol' ->
  clusMax vol' = clusMax vol /\ nFATBits vol' = nFATBits vol
  /\ volSector vol' = volSector vol
  /\ clusterSectors vol' = clusterSectors vol
  /\ fatEntry this vol' = fatEntry this vol.
Proof.
  intros (v & s & ->). repeat split; reflexivity.
Qed.

(** The loop of convertClusterToSectors along a chain. *)
Lemma convertLoop_chain this vol0 (c : Z) (cs : list Z) :
  aDiskData this <> None ->
  0 < volSector vol0 -> 8 * volSector vol0 < 2 ^ 31 ->
  nFATBits vol0 = 12 \/ nFATBits vol0 = 16 ->
  nFATBits vol0 * clusMax vol0 + 8 < 2 ^ 31 ->
  chain (fatEntry this vol0) (clusMax vol0) c cs ->
  nFATBits vol0 * c + 8 < 2 ^ 31 ->
  forall vol aLBA rounds,
  sameVolume vol0 vol -> cacheOk this vol -> (length cs < rounds)%nat ->
  exists vol',
    convertLoop rounds this vol c aLBA
    = Returns (aLBA ++ flat_map (clusterSectors vol0) cs, vol')
    /\ sameVolume vol0 vol'.
Proof.
  intros Hd Hcb Hcb8 Hn Hmax Hch.
  induction Hch as [c Hc | c Hc He | c cs Hc He Hch IH];
    intros Hbits vol aLBA rounds Hs Hok Hr.
  - destruct rounds as [|rounds]; [cbn in Hr; lia|]. cbn [convertLoop].
    replace (c <? FAT12.CLUSNUM_MIN) with true
      by (symmetry; apply Z.ltb_lt; exact Hc).
    exists vol. cbn [flat_map]. rewrite app_nil_r. split; [reflexivity | exact Hs].
  - destruct rounds as [|rounds]; [cbn in Hr; lia|]. cbn [convertLoop].
    replace (c <? FAT12.CLUSNUM_MIN) with false
      by (symmetry; apply Z.ltb_ge; exact Hc).
    destruct (sameVolume_fields this vol0 vol Hs) as (F1 & F2 & F3 & F4 & F5).
    destruct (getClusterEntry_pair this vol c Hd ltac:(rewrite F3; exact Hcb)
                ltac:(rewrite F3; exact Hcb8) ltac:(lia)
                ltac:(rewrite F2; exact Hbits) ltac:(rewrite F2; exact Hn) Hok)
      as (w0 & vol1 & w1 & vol2 & E0 & E1 & Hok2 & _ & E).
    rewrite E0, E1, E, F5.
    pose proof (sameVolume_trans _ _ _ Hs
                  (sameVolume_trans _ _ _
                     (getClusterEntry_sameVolume _ _ _ _ _ _ E0)
                     (getClusterEntry_sameVolume _ _ _ _ _ _ E1))) as Hs2.
    destruct (sameVolume_fields this vol0 vol2 Hs2) as (G1 & _).
    rewrite G1.
    replace (fatEntry this vol0 c <=? clusMax vol0) with false
      by (symmetry; apply Z.leb_gt; exact He).
    exists vol2. rewrite F4. cbn [flat_map]. rewrite app_nil_r.
    split; [reflexivity | exact Hs2].
  - destruct rounds as [|rounds]; [cbn in Hr; lia|]. cbn [convertLoop].
    replace (c <? FAT12.CLUSNUM_MIN) with false
      by (symmetry; apply Z.ltb_ge; exact Hc).
    destruct (sameVolume_fields this vol0 vol Hs) as (F1 & F2 & F3 & F4 & F5).
    destruct (getClusterEntry_pair this vol c Hd ltac:(rewrite F3; exact Hcb)
                ltac:(rewrite F3; exact Hcb8) ltac:(lia)
                ltac:(rewrite F2; exact Hbits) ltac:(rewrite F2; exact Hn) Hok)
      as (w0 & vol1 & w1 & vol2 & E0 & E1 & Hok2 & _ & E).
    rewrite E0, E1, E, F5.
    pose proof (sameVolume_trans _ _ _ Hs
                  (sameVolume_trans _ _ _
                     (getClusterEntry_sameVolume _ _ _ _ _ _ E0)
                     (getClusterEntry_sameVolume _ _ _ _ _ _ E1))) as Hs2.
    destruct (sameVolume_fields this vol0 vol2 Hs2) as (G1 & _).
    rewrite G1.
    replace (fatEntry this vol0 c <=? clusMax vol0) with true
      by (symmetry; apply Z.leb_le; exact He).
    assert (Hb' : nFATBits vol0 * fatEntry this vol0 c + 8 < 2 ^ 31).
    { assert (0 < nFATBits vol0) by lia. nia. }
    destruct (IH Hb' vol2 (aLBA ++ clusterSectors vol c) rounds Hs2 Hok2
                 ltac:(cbn [length] in Hr; lia)) as (vol' & E' & Hs').
    exists vol'. rewrite E', F4. cbn [flat_map]. rewrite <- app_assoc.
    split; [reflexivity | exact Hs'].
Qed.

(** The loop of convertClusterToSectors in a part of the FAT that it cannot
    leave. *)
Lemma convertLoop_inside this vol0 (inside : Z -> Prop) :
  aDiskData this <> None ->
  0 < volSector vol0 -> 8 * volSector vol0 < 2 ^ 31 ->
  nFATBits vol0 = 12 \/ nFATBits vol0 = 16 ->
  nFATBits vol0 * clusMax vol0 + 8 < 2 ^ 31 ->
  (forall x, inside x ->
             2 <= x <= clusMax vol0 /\ inside (fatEntry this vol0 x)) ->
  forall rounds c vol aLBA,
  inside c -> sameVolume vol0 vol -> cacheOk this vol ->
  convertLoop rounds this vol c aLBA = MoreRounds.
Proof.
  intros Hd Hcb Hcb8 Hn Hmax Hin.
  induction rounds as [|rounds IH]; intros c vol aLBA Hc Hs Hok; [reflexivity|].
  destruct (Hin c Hc) as [Hr Hnext]. destruct (Hin _ Hnext) as [Hr' _].
  cbn [convertLoop].
  replace (c <? FAT12.CLUSNUM_MIN) with false
    by (symmetry; apply Z.ltb_ge; unfold FAT12.CLUSNUM_MIN; lia).
  destruct (sameVolume_fields this vol0 vol Hs) as (F1 & F2 & F3 & F4 & F5).
  assert (Hbits : nFATBits vol0 * c + 8 < 2 ^ 31).
  { assert (0 < nFATBits vol0) by lia. nia. }
  destruct (getClusterEntry_pair this vol c Hd ltac:(rewrite F3; exact Hcb)
              ltac:(rewrite F3; exact Hcb8) ltac:(lia)
              ltac:(rewrite F2; exact Hbits) ltac:(rewrite F2; exact Hn) Hok)
    as (w0 & vol1 & w1 & vol2 & E0 & E1 & Hok2 & _ & E).
  rewrite E0, E1, E, F5.
  pose proof (sameVolume_trans _ _ _ Hs
                (sameVolume_trans _ _ _
                   (getClusterEntry_sameVolume _ _ _ _ _ _ E0)
                   (getClusterEntry_sameVolume _ _ _ _ _ _ E1))) as Hs2.
  destruct (sameVolume_fields this vol0 vol2 Hs2) as (G1 & _).
  rewrite G1.
  replace (fatEntry this vol0 c <=? clusMax vol0) with true
    by (symmetry; apply Z.leb_le; lia).
  apply IH; assumption.
Qed.

End ClusterChains.



(** X20.  convertClusterToSectors does not return on a FAT with a loop.  On
    an image with disk data and a volume with 12- or 16-bit FAT entries whose
    cache is empty, let cluster [c] be in a set of clusters from 2 to clusMax
    that the FAT does not lead out of (a cluster whose entry names the cluster
    itself, for one).  Then, whatever the number of rounds, the call has not
    returned; and while the sectors pushed so far, [clusSecs] in each round,
    fit a JavaScript array (fewer than 2^32), the loop has not ended in
    another way either: it is still running. *)
Theorem convertClusterToSectors_loop this vol (inside : Z -> Prop) (c : Z)
    (rounds : nat) :
  aDiskData this <> None ->
  0 < volSector vol -> 8 * volSector vol < 2 ^ 31 ->
  nFATBits vol = 12 \/ nFATBits vol = 16 ->
  nFATBits vol * clusMax vol + 8 < 2 ^ 31 ->
  sectorFATCache vol = None ->
  inside c ->
  (forall x, inside x ->
             2 <= x <= clusMax vol /\ inside (fatEntry this vol x)) ->
  (forall r, convertClusterToSectors rounds this vol (Num c) <> Returns r)
  /\ (Z.of_nat rounds * clusSecs vol < 2 ^ 32 ->
      convertClusterToSectors rounds this vol (Num c) = MoreRounds).
Proof.
  intros Hd Hcb Hcb8 Hn Hmax Hcache Hc Hin.
  assert (E : convertClusterToSectors rounds this vol (Num c) = MoreRounds).
  { unfold convertClusterToSectors. destruct (Hin c Hc) as [Hr _].
    replace (c =? 0) with false by (symmetry; apply Z.eqb_neq; lia).
    exact (convertLoop_inside this vol inside Hd Hcb Hcb8 Hn Hmax Hin rounds c
             vol [] Hc (sameVolume_refl vol) (or_introl Hcache)). }
  split; [intros r; rewrite E; discriminate | intros _; exact E].
Qed.

Lemma convertClusterToSectors_loop_witness :
  (forall r, convertClusterToSectors 1000 cycleDisk chainVolume (Num 2)
             <> Returns r)
  /\ convertClusterToSectors 1000 cycleDisk chainVolume (Num 2) = MoreRounds.
Proof.
  destruct (convertClusterToSectors_loop cycleDisk chainVolume (fun x => x = 2)
              2 1000) as [H1 H2].
  - discriminate.
  - reflexivity.
  - reflexivity.
  - left. reflexivity.
  - reflexivity.
  - reflexivity.
  - reflexivity.
  - intros x ->. split; [split; discriminate|]. vm_compute. reflexivity.
  - split; [exact H1 | apply H2; reflexivity].
Defined.

(* ===================================================================== *)
(** * Reading a directory entry *)
(* ===================================================================== *)

Section ReadEntries.

Lemma shortChar_plain (c : Z) : shortChar c -> plainChar c = true.
Proof.
  intros H.
  assert (A : forallb plainChar shortNameChars = true) by reflexivity.
  rewrite forallb_forall in A. apply A, H.
Qed.

Lemma plainChar_range (c : Z) :
  plainChar c = true -> 33 <= c <= 126 /\ c <> 46 /\ Str.isSpace c = false.
Proof.
  unfold plainChar, Str.isSpace. intros H.
  apply andb_true_iff in H. destruct H as [H H3].
  apply andb_true_iff in H. destruct H as [H1 H2].
  apply Z.leb_le in H1. apply Z.leb_le in H2.
  apply negb_true_iff, Z.eqb_neq in H3.
  split; [lia|]. split; [exact H3|].
  destruct (Z.leb_spec 9 c); destruct (Z.leb_spec c 13);
    destruct (Z.eqb_spec c 32); destruct (Z.eqb_spec c 160);
    cbn; try reflexivity; lia.
Qed.

(** The loop of getSectorString over bytes that are not 0. *)
Lemma sectorStringLoop_spec (sector : Sector) (n : nat) (off : Z) (s : list Z) :
  (forall j, (j < n)%nat -> 0 < read (Some sector) (off + Z.of_nat j)) ->
  sectorStringLoop sector n off s
  = s ++ map (fun j => read (Some sector) (off + Z.of_nat j)) (seq 0 n).
Proof.
  revert off s. induction n as [|n IH]; intros off s H.
  - cbn [sectorStringLoop seq map]. rewrite app_nil_r. reflexivity.
  - cbn [sectorStringLoop].
    pose proof (H O ltac:(lia)) as H0. change (Z.of_nat 0) with 0 in H0.
    rewrite Z.add_0_r in H0.
    replace (read (Some sector) off <=? 0) with false
      by (symmetry; apply Z.leb_gt; exact H0).
    rewrite IH.
    + rewrite <- app_assoc. cbn [seq map app]. rewrite Z.add_0_r.
      do 2 f_equal. rewrite <- seq_shift, map_map. apply map_ext.
      intros j. f_equal. lia.
    + intros j Hj. specialize (H (S j) ltac:(lia)).
      replace (off + 1 + Z.of_nat j) with (off + Z.of_nat (S j)) by lia.
      exact H.
Qed.

Lemma trimStart_spaces (k : nat) (l : list Z) :
  Str.trimStart (repeat 32 k ++ l) = Str.trimStart l.
Proof. induction k as [|k IH]; [reflexivity | exact IH]. Qed.

Lemma trimStart_plain (l : list Z) :
  Forall (fun c => Str.isSpace c = false) l -> Str.trimStart l = l.
Proof.
  intros H. destruct H as [|c l Hc Hl]; [reflexivity|].
  cbn [Str.trimStart]. rewrite Hc. reflexivity.
Qed.

Lemma Forall_cut (P : Z -> Prop) (n : nat) (l : list Z) :
  Forall P l -> Forall P (firstn n l).
Proof.
  intros H. revert n. induction H as [|x l Hx Hl IH]; intros n.
  - rewrite firstn_nil. constructor.
  - destruct n as [|n]; [constructor|]. cbn [firstn].
    constructor; [exact Hx | apply IH].
Qed.

(** trim takes the padding off a name. *)
Lemma trim_padded (s : list Z) (k : nat) :
  Forall (fun c => Str.isSpace c = false) s ->
  Str.trim (s ++ repeat 32 k) = s.
Proof.
  intros H. unfold Str.trim.
  assert (E : Str.trimStart (s ++ repeat 32 k) = s ++ repeat 32 k
              \/ (s = [] /\ Str.trimStart (s ++ repeat 32 k) = [])).
  { destruct H as [|c s Hc Hs].
    - right. split; [reflexivity|]. cbn [app].
      rewrite <- (app_nil_r (repeat 32 k)), trimStart_spaces. reflexivity.
    - left. cbn [app Str.trimStart]. rewrite Hc. reflexivity. }
  destruct E as [E | [-> E]]; rewrite E; [|reflexivity].
  rewrite rev_app_distr, rev_repeat, trimStart_spaces.
  rewrite trimStart_plain by (apply Forall_rev; exact H).
  apply rev_involutive.
Qed.

Lemma firstn_repeat_le (x : Z) (k n : nat) :
  (k <= n)%nat -> firstn k (repeat x n) = repeat x k.
Proof.
  revert n. induction k as [|k IH]; intros n H; [reflexivity|].
  destruct n as [|n]; [lia|]. cbn [repeat firstn]. rewrite IH by lia.
  reflexivity.
Qed.

Lemma padTo_short (n : nat) (s : list Z) :
  (length s <= n)%nat -> padTo n s = s ++ repeat 32 (n - length s).
Proof.
  intros H. unfold padTo. rewrite firstn_app, firstn_all2 by exact H.
  rewrite firstn_repeat_le by lia. reflexivity.
Qed.

(** getSectorData inside the sector. *)
Lemma getSectorData_inside (sector : Sector) (off len : Z) :
  0 <= len <= 4 -> off + len <= LENGTH sector ->
  getSectorData sector off len
  = toInt32 (littleEndian sector (Z.to_nat len) off).
Proof.
  intros Hlen Hin. unfold getSectorData.
  destruct (len <? 0) eqn:E; [apply Z.ltb_lt in E; lia|].
  pose proof (sectorDataLoop_spec sector (Z.to_nat len) (Z.to_nat len) off 0 0)
    as H.
  change (toInt32 0) with 0 in H. change (8 * 0) with 0 in H.
  rewrite H by (try (change (2 ^ 0) with 1); lia).
  f_equal. change (2 ^ 0) with 1. lia.
Qed.

(** The number that the bytes of a number stand for. *)
Lemma littleEndian_bytesLE (sector : Sector) (n : nat) (p x : Z) :
  (forall j, (j < n)%nat ->
             read (Some sector) (p + Z.of_nat j) = nth j (bytesLE n x) 0) ->
  littleEndian sector n p = x mod 256 ^ Z.of_nat n.
Proof.
  revert p x. induction n as [|n IH]; intros p x H.
  - cbn [littleEndian]. change (256 ^ Z.of_nat 0) with 1.
    rewrite Z.mod_1_r. reflexivity.
  - cbn [littleEndian].
    pose proof (H O ltac:(lia)) as H0. change (Z.of_nat 0) with 0 in H0.
    rewrite Z.add_0_r in H0. cbn [bytesLE nth] in H0. rewrite H0.
    rewrite (IH (p + 1) (x / 256)).
    + rewrite Nat2Z.inj_succ, Z.pow_succ_r by lia.
      symmetry. apply Z.rem_mul_r; [lia|]. apply Z.pow_pos_nonneg; lia.
    + intros j Hj. specialize (H (S j) ltac:(lia)). cbn [bytesLE nth] in H.
      replace (p + 1 + Z.of_nat j) with (p + Z.of_nat (S j)) by lia.
      exact H.
Qed.

Lemma bytesLE_range (n : nat) (x : Z) :
  Forall (fun b => 0 <= b < 256) (bytesLE n x).
Proof.
  revert x. induction n as [|n IH]; intros x; [constructor|].
  cbn [bytesLE]. constructor; [apply Z.mod_pos_bound; lia | apply IH].
Qed.

(** The cells of an array of bytes, read as numbers. *)
Lemma cellsAt_bytes (ab : list val) (p : Z) (n : nat) (l : list Z) :
  cellsAt ab p n = map Num l -> Forall (fun b => - 2 ^ 31 <= b < 2 ^ 31) l ->
  forall j, (j < n)%nat -> byteAt ab (p + Z.of_nat j) = nth j l 0.
Proof.
  intros E Hl j Hj. unfold byteAt.
  assert (L : length l = n).
  { apply (f_equal (@length val)) in E. unfold cellsAt in E.
    rewrite !length_map, length_seq in E. symmetry. exact E. }
  assert (G : get ab (p + Z.of_nat j) = Num (nth j l 0)).
  { apply (f_equal (fun c => nth j c Undef)) in E. unfold cellsAt in E.
    rewrite (nth_indep _ Undef (get ab (p + Z.of_nat 0))) in E
      by (rewrite length_map, length_seq; exact Hj).
    rewrite (map_nth (fun k => get ab (p + Z.of_nat k))) in E.
    rewrite seq_nth in E by exact Hj. cbn [Nat.add] in E. rewrite E.
    rewrite (nth_indep _ Undef (Num 0)) by (rewrite length_map; lia).
    apply (map_nth Num). }
  rewrite G. cbn [valInt32]. apply toInt32_small.
  rewrite Forall_forall in Hl. apply Hl, nth_In. lia.
Qed.

Lemma toUint32_mod (z : Z) : toUint32 z = z mod 2 ^ 32.
Proof. unfold toUint32. exact (Z.land_ones z 32 ltac:(lia)). Qed.

Lemma plain_padTo (n : nat) (s : list Z) :
  Forall (fun c => plainChar c = true) s ->
  Forall (fun b => 32 <= b <= 126) (padTo n s).
Proof.
  intros H. unfold padTo. apply Forall_cut, Forall_app. split.
  - eapply Forall_impl; [|exact H]. intros c Hc.
    destruct (plainChar_range c Hc) as (R & _). lia.
  - apply Forall_forall. intros x Hx. apply repeat_spec in Hx. lia.
Qed.

End ReadEntries.

(** X21.  getDirEntry reads back what buildDirEntry has stored.  Let a
    directory sector hold, at entry [i], the bytes of the cells that
    buildDirEntry leaves for a short name [base.ext] (or [base]) of 1 to 8 and
    0 to 3 of the characters that buildShortName keeps, an attribute byte, a
    size below 2^31 and a cluster below 65536.  Then getDirEntry for this
    entry, on a volume that has no directory sector cached and on an image on
    which getSector finds the sector, returns true with the name, the
    attribute, the size and the cluster that were stored, the upper and the
    lower half of buildDateTime(dateMod) as date and time (0 without a date)
    and the sectors that convertClusterToSectors returns for the cluster; it
    throws, or does not end, when convertClusterToSectors does. *)
Theorem getDirEntry_buildDirEntry (rounds : nat) this (vol : VolInfo)
    (cache : DirCache) (dir : DirInfo) (lba i : Z) (sector : Sector)
    (ab : list val) (base ext : list Z) (cbFile attr : Z)
    (dateMod : option JSDate) (cluster : Z) :
  getSector this lba = Some (Some sector) ->
  sectorDirCache cache = None ->
  0 <= i ->
  Forall shortChar base -> Forall shortChar ext ->
  1 <= len base <= 8 -> len ext <= 3 ->
  0 <= attr < 256 -> 0 <= cbFile < 2 ^ 31 -> 0 <= cluster < 65536 ->
  (forall k, 0 <= k < 32 ->
     read (Some sector) (i * DIRENT.LENGTH + k)
     = byteAt (fst (buildDirEntry ab (i * DIRENT.LENGTH) (dotted base ext)
                                  cbFile (Num attr) dateMod (Num cluster)))
              (i * DIRENT.LENGTH + k)) ->
  getDirEntry rounds this vol cache dir lba i
  = match convertClusterToSectors rounds this vol (Num cluster) with
    | Returns (aLBA, vol') =>
        let dt := match dateMod with
                  | Some d => toUint32 (buildDateTime d)
                  | None => 0
                  end in
        Returns (true,
                 mkDirInfo (Name (dotted base ext)) (Num attr)
                           (Num (dt / 65536)) (Num (dt mod 65536))
                           (Num cbFile) (Num cluster) (Some aLBA),
                 vol', mkDirCache (Num lba) (Some sector))
    | Throws => Throws
    | MoreRounds => MoreRounds
    end.
Proof.
  intros Hsec Hcache Hi Hb He Lb Le Ha Hs Hc Hread.
  unfold getDirEntry. rewrite Hcache, Hsec. cbn [orb option_map sectorDirCache].
  remember (i * DIRENT.LENGTH) as off eqn:Eoff.
  assert (Hoff : 0 <= off) by (subst off; unfold DIRENT.LENGTH; lia).
  assert (Pb : Forall (fun c => plainChar c = true) base)
    by (eapply Forall_impl; [|exact Hb]; intros c; apply shortChar_plain).
  assert (Pe : Forall (fun c => plainChar c = true) ext)
    by (eapply Forall_impl; [|exact He]; intros c; apply shortChar_plain).
  assert (Hdot : ~ In 46 base).
  { intros Hin. rewrite Forall_forall in Pb.
    destruct (plainChar_range 46 (Pb 46 Hin)) as (_ & N & _). apply N.
    reflexivity. }
  destruct (buildDirEntry_layout ab off base ext cbFile (Num attr) dateMod
              (Num cluster) Hoff Hdot) as (_ & LN & LE & LA & LT & LC & LS & _).
  set (ab' := fst (buildDirEntry ab off (dotted base ext) cbFile (Num attr)
                                 dateMod (Num cluster))) in *.
  replace (storedName base ext) with (base, ext) in LN, LE
    by (destruct base; [cbn in Lb; lia | reflexivity]).
  cbn [fst snd] in LN, LE.
  set (dt := match dateMod with
             | Some d => toUint32 (buildDateTime d)
             | None => 0
             end) in *.
  unfold DIRENT.NAME, DIRENT.EXT, DIRENT.ATTR, DIRENT.MODTIME, DIRENT.MODDATE,
    DIRENT.CLUSTER, DIRENT.SIZE, DIRENT.UNUSED, DIRENT.INVALID in *.
  assert (R : forall F n l,
             cellsAt ab' (off + F) n = map Num l ->
             Forall (fun b => - 2 ^ 31 <= b < 2 ^ 31) l ->
             0 <= F -> F + Z.of_nat n <= 32 ->
             forall j, (j < n)%nat ->
                       read (Some sector) (off + F + Z.of_nat j) = nth j l 0).
  { intros F n l E Hl HF Hn j Hj. rewrite <- Z.add_assoc, Hread by lia.
    rewrite Z.add_assoc. exact (cellsAt_bytes ab' (off + F) n l E Hl j Hj). }
  assert (Wide : forall l, Forall (fun b => 0 <= b < 256) l ->
                           Forall (fun b => - 2 ^ 31 <= b < 2 ^ 31) l).
  { intros l Hl. eapply Forall_impl; [|exact Hl]. cbv beta.
    change (2 ^ 31) with 2147483648. intros b Hb'. lia. }
  pose proof (plain_padTo 8 base Pb) as PN.
  pose proof (plain_padTo 3 ext Pe) as PE.
  assert (RN := R 0 8%nat (padTo 8 base) LN
                  ltac:(eapply Forall_impl; [|exact PN]; cbv beta;
                        change (2 ^ 31) with 2147483648; intros b Hb'; lia)
                  ltac:(lia) ltac:(lia)).
  assert (RE := R 8 3%nat (padTo 3 ext) LE
                  ltac:(eapply Forall_impl; [|exact PE]; cbv beta;
                        change (2 ^ 31) with 2147483648; intros b Hb'; lia)
                  ltac:(lia) ltac:(lia)).
  assert (RT := R 22 4%nat _ LT (Wide _ (bytesLE_range 4 dt))
                  ltac:(lia) ltac:(lia)).
  assert (RC := R 26 2%nat _ LC (Wide _ (bytesLE_range 2 _))
                  ltac:(lia) ltac:(lia)).
  assert (RS := R 28 4%nat _ LS (Wide _ (bytesLE_range 4 _))
                  ltac:(lia) ltac:(lia)).
  assert (RA : read (Some sector) (off + 11) = attr).
  { rewrite Hread by lia. unfold byteAt. rewrite LA. cbn [valInt32].
    apply toInt32_small. change (2 ^ 31) with 2147483648. lia. }
  assert (Hlen : off + 32 <= LENGTH sector).
  { pose proof (RS 3%nat ltac:(lia)) as H3.
    pose proof (bytesLE_range 4 (toUint32 (Z.max 0 cbFile))) as B.
    rewrite Forall_forall in B.
    assert (L3 : (3 < length (bytesLE 4 (toUint32 (Z.max 0 cbFile))))%nat)
      by (cbn [bytesLE length]; lia).
    specialize (B _ (nth_In _ 0 L3)).
    destruct (read_range sector (off + 28 + Z.of_nat 3)) as [[_ E]|[L _]]; lia. }
  (* the first byte *)
  assert (C0 : 33 <= nth 0 (padTo 8 base) 0 <= 126).
  { destruct base as [|c0 base]; [cbn in Lb; lia|].
    inversion Pb as [|? ? P0 _]; subst.
    destruct (plainChar_range c0 P0) as (Rg & _). exact Rg. }
  assert (EB : getSectorData sector off 1 = nth 0 (padTo 8 base) 0).
  { rewrite getSectorData_inside by lia. change (Z.to_nat 1) with 1%nat.
    cbn [littleEndian].
    pose proof (RN 0%nat ltac:(lia)) as H0. change (Z.of_nat 0) with 0 in H0.
    rewrite !Z.add_0_r in H0. rewrite H0, Z.mul_0_r, Z.add_0_r.
    apply toInt32_small. change (2 ^ 31) with 2147483648. lia. }
  rewrite EB.
  replace (nth 0 (padTo 8 base) 0 =? 0) with false
    by (symmetry; apply Z.eqb_neq; lia).
  replace (nth 0 (padTo 8 base) 0 =? 229) with false
    by (symmetry; apply Z.eqb_neq; lia).
  (* the name and the extension *)
  assert (Str8 : forall F n m s,
             m = Z.of_nat n ->
             (forall j, (j < n)%nat ->
                        read (Some sector) (off + F + Z.of_nat j)
                        = nth j (padTo n s) 0) ->
             Forall (fun c => plainChar c = true) s -> (length s <= n)%nat ->
             Str.trim (getSectorString sector (off + F) m) = s).
  { intros F n m s -> Rd Ps Ls. unfold getSectorString.
    replace (Z.of_nat n <? 0) with false by (symmetry; apply Z.ltb_ge; lia).
    rewrite Nat2Z.id, sectorStringLoop_spec.
    - cbn [app].
      replace (map (fun j => read (Some sector) (off + F + Z.of_nat j)) (seq 0 n))
        with (padTo n s).
      + rewrite padTo_short by exact Ls. apply trim_padded.
        eapply Forall_impl; [|exact Ps]. intros c Hpc.
        destruct (plainChar_range c Hpc) as (_ & _ & Sp). exact Sp.
      + rewrite (map_nth_seq (padTo n s)) at 1. rewrite length_padTo.
        apply map_ext_in. intros j Hj. apply in_seq in Hj.
        symmetry. apply Rd. lia.
    - intros j Hj. rewrite (Rd j Hj).
      pose proof (plain_padTo n s Ps) as P. rewrite Forall_forall in P.
      specialize (P (nth j (padTo n s) 0)
                    (nth_In _ 0 ltac:(rewrite length_padTo; exact Hj))).
      lia. }
  rewrite (Str8 0 8%nat 8 base eq_refl RN Pb ltac:(unfold len in Lb; lia)).
  rewrite (Str8 8 3%nat 3 ext eq_refl RE Pe ltac:(unfold len in Le; lia)).
  replace (match ext with [] => base | _ :: _ => base ++ [46] ++ ext end)
    with (dotted base ext) by (destruct ext; reflexivity).
  (* the numbers *)
  assert (Dt : 0 <= dt < 2 ^ 32).
  { subst dt. destruct dateMod as [d|]; [|change (2 ^ 32) with 4294967296; lia].
    rewrite toUint32_mod. apply Z.mod_pos_bound. lia. }
  assert (EA : getSectorData sector (off + 11) 1 = attr).
  { rewrite getSectorData_inside by lia. change (Z.to_nat 1) with 1%nat.
    cbn [littleEndian]. rewrite RA, Z.mul_0_r, Z.add_0_r.
    apply toInt32_small. change (2 ^ 31) with 2147483648. lia. }
  assert (ED : getSectorData sector (off + 24) 2 = dt / 65536).
  { rewrite getSectorData_inside by lia.
    change (Z.to_nat 2) with 2%nat.
    rewrite (littleEndian_bytesLE sector 2 (off + 24) (dt / 256 / 256)).
    - change (256 ^ Z.of_nat 2) with 65536. rewrite Z.div_div by lia.
      change (256 * 256) with 65536.
      assert (0 <= dt / 65536 < 65536).
      { split; [apply Z.div_pos; lia|]. apply Z.div_lt_upper_bound; [lia|].
        change (2 ^ 32) with 4294967296 in Dt. lia. }
      rewrite Z.mod_small by lia.
      apply toInt32_small. change (2 ^ 31) with 2147483648. lia.
    - intros j Hj. specialize (RT (2 + j)%nat ltac:(lia)).
      replace (off + 24 + Z.of_nat j) with (off + 22 + Z.of_nat (2 + j)) by lia.
      rewrite RT. destruct j as [|[|j]]; [reflexivity | reflexivity | lia]. }
  assert (ET : getSectorData sector (off + 22) 2 = dt mod 65536).
  { rewrite getSectorData_inside by lia.
    change (Z.to_nat 2) with 2%nat.
    rewrite (littleEndian_bytesLE sector 2 (off + 22) dt).
    - change (256 ^ Z.of_nat 2) with 65536.
      pose proof (Z.mod_pos_bound dt 65536 ltac:(lia)).
      apply toInt32_small. change (2 ^ 31) with 2147483648. lia.
    - intros j Hj. specialize (RT j ltac:(lia)). rewrite RT.
      destruct j as [|[|j]]; [reflexivity | reflexivity | lia]. }
  assert (ES : getSectorData sector (off + 28) 4 = cbFile).
  { rewrite getSectorData_inside by lia.
    change (Z.to_nat 4) with 4%nat.
    rewrite (littleEndian_bytesLE sector 4 (off + 28) _ RS).
    change (256 ^ Z.of_nat 4) with (2 ^ 32).
    rewrite toUint32_mod, Z.mod_mod by lia.
    replace (Z.max 0 cbFile) with cbFile by lia.
    change (2 ^ 31) with 2147483648 in Hs.
    rewrite Z.mod_small by (change (2 ^ 32) with 4294967296; lia).
    apply toInt32_small. change (2 ^ 31) with 2147483648. lia. }
  assert (EC : getSectorData sector (off + 26) 2 = cluster).
  { rewrite getSectorData_inside by lia.
    change (Z.to_nat 2) with 2%nat.
    rewrite (littleEndian_bytesLE sector 2 (off + 26) _ RC).
    change (256 ^ Z.of_nat 2) with 65536.
    cbn [valInt32]. rewrite toUint32_mod.
    rewrite (toInt32_small cluster) by (change (2 ^ 31) with 2147483648; lia).
    rewrite (Z.mod_small cluster) by (change (2 ^ 32) with 4294967296; lia).
    rewrite Z.mod_small by lia.
    apply toInt32_small. change (2 ^ 31) with 2147483648. lia. }
  rewrite EA, ED, ET, ES, EC.
  replace (cbFile <? 0) with false by (symmetry; apply Z.ltb_ge; lia).
  reflexivity.
Qed.

Lemma shortChars_spec (l : list Z) : shortChars l = true -> Forall shortChar l.
Proof.
  unfold shortChars. rewrite forallb_forall, Forall_forall. intros H c Hc.
  apply (indexFrom_In shortNameChars c 0). apply negb_true_iff, H, Hc.
Qed.

Lemma getDirEntry_buildDirEntry_witness :
  getDirEntry 4 dirDisk chainVolume (mkDirCache Undef None)
              (mkDirInfo NoName Undef Undef Undef Undef Undef None) 0 0
  = match convertClusterToSectors 4 dirDisk chainVolume (Num 2) with
    | Returns (aLBA, vol') =>
        let dt := toUint32 (buildDateTime (ValidDate 1990 0 1 12 30 10)) in
        Returns (true,
                 mkDirInfo (Name (dotted (Str.codes "README") (Str.codes "TXT")))
                           (Num ATTR.ARCHIVE) (Num (dt / 65536))
                           (Num (dt mod 65536)) (Num 700) (Num 2) (Some aLBA),
                 vol', mkDirCache (Num 0) (Some dirSector))
    | Throws => Throws
    | MoreRounds => MoreRounds
    end.
Proof.
  refine (getDirEntry_buildDirEntry 4 dirDisk chainVolume (mkDirCache Undef None)
            (mkDirInfo NoName Undef Undef Undef Undef Undef None) 0 0 dirSector
            [] (Str.codes "README") (Str.codes "TXT") 700 ATTR.ARCHIVE
            (Some (ValidDate 1990 0 1 12 30 10)) 2 _ _ _ _ _ _ _ _ _ _ _).
  - vm_compute. reflexivity.
  - reflexivity.
  - lia.
  - apply shortChars_spec. reflexivity.
  - apply shortChars_spec. reflexivity.
  - split; discriminate.
  - discriminate.
  - split; [discriminate | reflexivity].
  - split; [discriminate | reflexivity].
  - split; [discriminate | reflexivity].
  - intros k Hk.
    assert (A : allBelow 32
                  (fun k => read (Some dirSector) (0 * DIRENT.LENGTH + k)
                            =? byteAt entryCells (0 * DIRENT.LENGTH + k))
                = true) by (vm_compute; reflexivity).
    apply Z.eqb_eq. exact (allBelow_spec 32 _ A k Hk).
Defined.

(* ===================================================================== *)
(** * Reading the bytes of a file *)
(* ===================================================================== *)

Ltac tuple_eq :=
  repeat match goal with
         | |- (_, _) = (_, _) => apply f_equal2
         end;
  try reflexivity; try lia.

Section ReadArray.

Lemma nth_sectorBytes (s : Sector) (j : nat) :
  (j < Z.to_nat (LENGTH s))%nat ->
  nth j (sectorBytes s) 0 = read (Some s) (Z.of_nat j).
Proof.
  intros Hj. unfold sectorBytes.
  rewrite (nth_indep _ 0 (read (Some s) (Z.of_nat 0)))
    by (rewrite length_map, length_seq; exact Hj).
  rewrite (map_nth (fun i => read (Some s) (Z.of_nat i))).
  rewrite seq_nth by exact Hj. reflexivity.
Qed.

Lemma length_sectorBytes (s : Sector) :
  length (sectorBytes s) = Z.to_nat (LENGTH s).
Proof. unfold sectorBytes. rewrite length_map, length_seq. reflexivity. Qed.

(** Arrays of the same length with the same cells are the same. *)
Lemma array_ext (a b : list val) :
  len a = len b -> (forall j, 0 <= j -> get a j = get b j) -> a = b.
Proof.
  intros L H. apply (nth_ext a b Undef Undef); [unfold len in L; lia|].
  intros n Hn. specialize (H (Z.of_nat n) ltac:(lia)).
  unfold get in H.
  replace (Z.of_nat n <? 0) with false in H by (symmetry; apply Z.ltb_ge; lia).
  rewrite Nat2Z.id in H. exact H.
Qed.

(** The loop of readSectorArray over the bytes of a sector. *)
Lemma copyBytes_spec (sector : Sector) (n : nat) :
  forall (i : Z) (ab : list val) (ib cb : Z),
  0 <= i -> ((0 < n)%nat -> i + Z.of_nat n <= LENGTH sector) ->
  0 <= ib -> ib + Z.of_nat n <= len ab ->
  exists ab',
    copyBytes sector n i ab ib cb
    = (ab', ib + Z.of_nat n, cb - Z.of_nat n, false)
    /\ len ab' = len ab
    /\ forall j, get ab' j
                 = if (ib <=? j) && (j <? ib + Z.of_nat n)
                   then Num (read (Some sector) (i + (j - ib)))
                   else get ab j.
Proof.
  induction n as [|n IH]; intros i ab ib cb Hi Hn Hib Hlen.
  - exists ab. cbn [copyBytes]. change (Z.of_nat 0) with 0.
    rewrite Z.add_0_r, Z.sub_0_r. split; [reflexivity|].
    split; [reflexivity|]. intros j.
    destruct (Z.leb_spec ib j); destruct (Z.ltb_spec j ib); cbn [andb];
      try reflexivity; lia.
  - specialize (Hn ltac:(lia)). cbn [copyBytes].
    destruct (read_range sector i) as [[L _]|[_ R]]; [lia|].
    replace (read (Some sector) i <? 0) with false
      by (symmetry; apply Z.ltb_ge; lia).
    destruct (IH (i + 1) (set ab ib (Num (read (Some sector) i))) (ib + 1)
                 (cb - 1) ltac:(lia) ltac:(intros _; lia) ltac:(lia)
                 ltac:(rewrite len_set by lia; lia))
      as (ab' & E & L' & G).
    exists ab'. rewrite E. split; [tuple_eq|].
    split; [rewrite L', len_set by lia; reflexivity|].
    intros j. rewrite G, get_set_any by lia.
    destruct (Z.leb_spec (ib + 1) j); destruct (Z.leb_spec ib j);
      destruct (Z.ltb_spec j (ib + 1 + Z.of_nat n));
      destruct (Z.ltb_spec j (ib + Z.of_nat (S n)));
      destruct (Z.eqb_spec j ib); cbn [andb]; try reflexivity; try lia.
    + do 2 f_equal. lia.
    + subst j. do 2 f_equal. lia.
Qed.

(** The loop of readSectorArray over the sectors. *)
Lemma readSectors_spec this (rest : list Z) (aLBA : list Z)
    (sectors : list Sector) :
  Forall2 (fun lba s => getSector this lba = Some (Some s)) aLBA sectors ->
  rest = [] \/ (exists lba rest', rest = lba :: rest'
                                   /\ getSector this lba = Some None) ->
  forall (ab : list val) (ib cb : Z),
  0 <= ib -> 0 <= cb -> ib + cb = len ab ->
  let bytes := flat_map sectorBytes sectors in
  let m := Z.min cb (len bytes) in
  exists ab',
    readSectors this (aLBA ++ rest) ab ib cb = Some (ab', cb - m)
    /\ len ab' = len ab
    /\ forall j, get ab' j
                 = if (ib <=? j) && (j <? ib + m)
                   then Num (nth (Z.to_nat (j - ib)) bytes 0)
                   else get ab j.
Proof.
  intros HF Hrest.
  induction HF as [|lba s aLBA sectors Hs HF IH]; intros ab ib cb Hib Hcb Hlen.
  - cbn [flat_map app]. change (len (@nil Z)) with 0.
    replace (Z.min cb 0) with 0 by lia. cbv zeta.
    exists ab. rewrite Z.sub_0_r, Z.add_0_r.
    split; [|split; [reflexivity|]].
    + destruct Hrest as [-> | (lba & rest' & -> & Hn)]; [reflexivity|].
      cbn [readSectors]. rewrite Hn. cbn.
      destruct (0 <? cb); reflexivity.
    + intros j. destruct (Z.leb_spec ib j); destruct (Z.ltb_spec j ib);
        cbn [andb]; try reflexivity; lia.
  - cbn [flat_map]. rewrite len_app. cbv zeta.
    rewrite <- app_comm_cons. cbn [readSectors].
    pose proof (len_nonneg (flat_map sectorBytes sectors)) as N.
    assert (Ls : len (sectorBytes s) = Z.max 0 (LENGTH s))
      by (unfold len; rewrite length_sectorBytes; lia).
    destruct (Z.ltb_spec 0 cb) as [Hpos|Hz].
    + rewrite Hs. cbn.
      set (cbRead := if LENGTH s <? cb then LENGTH s else cb).
      assert (Hk : Z.of_nat (Z.to_nat cbRead)
                   = Z.min cb (Z.max 0 (LENGTH s)))
        by (subst cbRead; destruct (Z.ltb_spec (LENGTH s) cb); lia).
      destruct (copyBytes_spec s (Z.to_nat cbRead) 0 ab ib cb ltac:(lia)
                  ltac:(intros Hp; lia) Hib ltac:(lia))
        as (ab1 & E1 & L1 & G1).
      rewrite E1.
      destruct (IH ab1 (ib + Z.of_nat (Z.to_nat cbRead))
                   (cb - Z.of_nat (Z.to_nat cbRead)) ltac:(lia) ltac:(lia)
                   ltac:(lia)) as (ab' & E' & L' & G').
      cbv zeta in E', G'. rewrite E'.
      exists ab'. split; [do 2 f_equal; lia|]. split; [lia|].
      intros j. rewrite G', G1. rewrite Ls.
      destruct (Z.leb_spec (ib + Z.of_nat (Z.to_nat cbRead)) j);
        destruct (Z.ltb_spec j
                    (ib + Z.of_nat (Z.to_nat cbRead)
                     + Z.min (cb - Z.of_nat (Z.to_nat cbRead))
                             (len (flat_map sectorBytes sectors))));
        destruct (Z.leb_spec ib j);
        destruct (Z.ltb_spec j (ib + Z.of_nat (Z.to_nat cbRead)));
        destruct (Z.ltb_spec j
                    (ib + Z.min cb (Z.max 0 (LENGTH s)
                                    + len (flat_map sectorBytes sectors))));
        cbn [andb]; try reflexivity; try lia.
      * f_equal. rewrite app_nth2 by (unfold len in Ls; lia).
        f_equal. unfold len in Ls. lia.
      * f_equal. rewrite app_nth1 by (unfold len in Ls; lia).
        rewrite nth_sectorBytes by lia. f_equal. lia.
    + exists ab. assert (cb = 0) by lia. subst cb.
      replace (Z.min 0 (len (sectorBytes s)
                        + len (flat_map sectorBytes sectors))) with 0 by lia.
      rewrite Z.sub_0_r, Z.add_0_r. split; [reflexivity|].
      split; [reflexivity|]. intros j.
      destruct (Z.leb_spec ib j); destruct (Z.ltb_spec j ib); cbn [andb];
        try reflexivity; lia.
Qed.

End ReadArray.

(** X22.  readSectorArray copies the bytes of the sectors.  When getSector
    finds a sector for each of the first addresses and the addresses end
    there, or getSector finds no sector for the next one, readSectorArray
    returns the number of bytes of these sectors, or the length of the array
    if that is less, and leaves this many bytes in the array from index 0 on:
    the bytes that read returns for the sectors, in the order of the
    addresses.  The other cells of the array stay as they are. *)
Theorem readSectorArray_bytes this (ab : list val) (aLBA rest : list Z)
    (sectors : list Sector) :
  Forall2 (fun lba s => getSector this lba = Some (Some s)) aLBA sectors ->
  rest = [] \/ (exists lba rest', rest = lba :: rest'
                                   /\ getSector this lba = Some None) ->
  let bytes := flat_map sectorBytes sectors in
  let n := Z.min (len ab) (len bytes) in
  readSectorArray this ab (aLBA ++ rest)
  = Some (map Num (firstn (Z.to_nat n) bytes) ++ skipn (Z.to_nat n) ab, n).
Proof.
  intros HF Hrest bytes n. unfold readSectorArray.
  pose proof (len_nonneg ab) as Na. pose proof (len_nonneg bytes) as Nb.
  assert (Hn0 : 0 <= n <= len ab /\ n <= len bytes) by (subst n; lia).
  destruct (readSectors_spec this rest aLBA sectors HF Hrest ab 0 (len ab)
              ltac:(lia) Na ltac:(lia)) as (ab' & E & L & G).
  cbv zeta in E, G. fold bytes in E, G. fold n in E, G.
  rewrite E. cbn. rewrite L. f_equal. f_equal; [|lia].
  apply array_ext.
  - rewrite L, len_app, len_map. unfold len.
    rewrite length_firstn, length_skipn. unfold len in *. lia.
  - intros j Hj. rewrite G.
    destruct (Z.ltb_spec j (0 + n)) as [Hlt|Hge].
    + replace (0 <=? j) with true by (symmetry; apply Z.leb_le; lia).
      cbn [andb]. rewrite Z.sub_0_r.
      rewrite get_app_l
        by (rewrite len_map; unfold len; rewrite length_firstn;
            unfold len in *; lia).
      rewrite get_nth_error by lia.
      rewrite nth_error_map.
      rewrite (nth_error_nth' _ 0)
        by (rewrite length_firstn; unfold len in *; lia).
      cbn [option_map]. f_equal. rewrite nth_firstn.
      replace (Z.to_nat j <? Z.to_nat n)%nat with true
        by (symmetry; apply Nat.ltb_lt; lia).
      reflexivity.
    + rewrite andb_false_r.
      rewrite get_app_r
        by (rewrite len_map; unfold len; rewrite length_firstn;
            unfold len in *; lia).
      rewrite len_map.
      replace (len (firstn (Z.to_nat n) bytes)) with n
        by (unfold len; rewrite length_firstn; unfold len in *; lia).
      rewrite !get_nth_error by lia.
      rewrite nth_error_skipn.
      replace (Z.to_nat n + Z.to_nat (j - n))%nat with (Z.to_nat j) by lia.
      reflexivity.
Qed.

Lemma readSectorArray_bytes_witness :
  let bytes := flat_map sectorBytes [chainSector] in
  let n := Z.min (len (repeat Undef 6)) (len bytes) in
  readSectorArray chainDisk (repeat Undef 6) ([0] ++ [5])
  = Some (map Num (firstn (Z.to_nat n) bytes)
          ++ skipn (Z.to_nat n) (repeat Undef 6), n).
Proof.
  apply (readSectorArray_bytes chainDisk (repeat Undef 6) [0] [5] [chainSector]).
  - constructor; [reflexivity | constructor].
  - right. exists 5, []. split; reflexivity.
Defined.

(* ===================================================================== *)
(** * The size of the files, and their chains read back *)
(* ===================================================================== *)

Section Sizes.

(** The least number of clusters that hold the bytes. *)
Lemma clusters_least (cb e k : Z) :
  0 < cb -> e <= cb * k -> (e + cb - 1) / cb <= k.
Proof.
  intros Hcb H.
  assert (L : (e + cb - 1) / cb <= (cb - 1 + k * cb) / cb)
    by (apply Z.div_le_mono; lia).
  assert (Q : (cb - 1 + k * cb) / cb = k).
  { rewrite Z.div_add by lia.
    assert (Q0 : (cb - 1) / cb = 0) by (apply Z.div_small; lia).
    lia. }
  lia.
Qed.

Lemma rounded_bounds (spc : Z) (f : FileData) :
  1 <= spc ->
  entryBytes f <= 512 * clustersFor 512 f
  /\ 512 * clustersFor 512 f <= spc * 512 * clustersFor (spc * 512) f.
Proof.
  intros Hs.
  pose proof (rounded_clusters 512 f ltac:(lia)) as R1.
  pose proof (rounded_clusters (spc * 512) f ltac:(lia)) as R2.
  assert (P1 : 0 <= (if Z.rem (entryBytes f) 512 =? 0 then 0
                     else 512 - Z.rem (entryBytes f) 512)).
  { pose proof (entryBytes_nonneg f) as H0.
    rewrite Z.rem_mod_nonneg by lia.
    pose proof (Z.mod_pos_bound (entryBytes f) 512 ltac:(lia)).
    destruct (entryBytes f mod 512 =? 0); lia. }
  assert (P2 : 0 <= (if Z.rem (entryBytes f) (spc * 512) =? 0 then 0
                     else spc * 512 - Z.rem (entryBytes f) (spc * 512))).
  { pose proof (entryBytes_nonneg f) as H0.
    rewrite Z.rem_mod_nonneg by lia.
    pose proof (Z.mod_pos_bound (entryBytes f) (spc * 512) ltac:(lia)).
    destruct (entryBytes f mod (spc * 512) =? 0); lia. }
  split; [lia|].
  assert (K : clustersFor 512 f <= spc * clustersFor (spc * 512) f).
  { unfold clustersFor at 1. apply clusters_least; lia. }
  lia.
Qed.

End Sizes.

(** X23.  One sector for each cluster is the best case.  The number that
    calcFileSizes returns without a cluster size (or for one sector in a
    cluster) is at least the bytes of all files and subdirectories of the
    tree, and at most the number that it returns for any number of sectors in
    a cluster from 1 on: a disk format that has not room for the first number
    has not room for the files. *)
Theorem calcFileSizes_best_case (aFileData : list FileData)
    (cSectorsPerCluster : Z) :
  1 <= cSectorsPerCluster ->
  totalBytes (allFiles aFileData) <= calcFileSizes aFileData Undef
  /\ calcFileSizes aFileData Undef
     <= calcFileSizes aFileData (Num cSectorsPerCluster).
Proof.
  intros Hs.
  rewrite (calcFileSizes_clusters Undef) by reflexivity.
  assert (Hcb : clusterBytes (Num cSectorsPerCluster) = cSectorsPerCluster * 512).
  { unfold clusterBytes.
    replace (cSectorsPerCluster =? 0) with false
      by (symmetry; apply Z.eqb_neq; lia).
    reflexivity. }
  rewrite (calcFileSizes_clusters (Num cSectorsPerCluster)) by (rewrite Hcb; lia).
  rewrite Hcb. change (clusterBytes Undef) with 512.
  induction (allFiles aFileData) as [|f l IH].
  - rewrite !totalClusters_nil. cbn [totalBytes fold_right]. lia.
  - rewrite !totalClusters_cons. cbn [totalBytes fold_right].
    fold (totalBytes l).
    destruct (rounded_bounds cSectorsPerCluster f Hs) as [B1 B2]. lia.
Qed.

Lemma calcFileSizes_best_case_witness :
  totalBytes (allFiles exampleFiles) <= calcFileSizes exampleFiles Undef
  /\ calcFileSizes exampleFiles Undef <= calcFileSizes exampleFiles (Num 2).
Proof.
  apply (calcFileSizes_best_case exampleFiles 2). lia.
Defined.

Section ChainsBack.

(** A file of a placement has its chain. *)
Lemma placed_In (cb : Z) (ab : list val) (l : list FileData) (f : FileData) :
  0 < cb -> In f l ->
  forall i, placed cb ab l i ->
  exists j, i <= j /\ j + clustersFor cb f <= i + totalClusters cb l
            /\ fdCluster f = Num (if clustersFor cb f =? 0 then 0 else j)
            /\ chained ab j (clustersFor cb f).
Proof.
  intros Hcb. induction l as [|x l IH]; intros Hin i P; [destruct Hin|].
  cbn [placed] in P. destruct P as (Pc & Pch & Pl).
  rewrite totalClusters_cons.
  pose proof (clustersFor_nonneg cb x Hcb) as N1.
  pose proof (totalClusters_nonneg cb l Hcb) as N2.
  destruct Hin as [-> | Hin].
  - exists i. split; [lia|]. split; [lia|]. split; [exact Pc | exact Pch].
  - destruct (IH Hin _ Pl) as (j & J1 & J2 & J3 & J4).
    exists j. split; [lia|]. split; [lia|]. split; [exact J3 | exact J4].
Qed.

(** A chain that buildFAT has written is a chain for the loop of
    convertClusterToSectors. *)
Lemma chained_chain (next : Z -> Z) (ab : list val) (clusMax : Z) (n : nat) :
  forall c,
  2 <= c -> c + Z.of_nat n <= clusMax -> clusMax < 0xFFF ->
  (forall x, c <= x <= c + Z.of_nat n -> next x = entry12 (byteAt ab) x) ->
  chained ab c (Z.of_nat (S n)) ->
  chain next clusMax c (map (fun k => c + Z.of_nat k) (seq 0 (S n))).
Proof.
  induction n as [|n IH]; intros c Hc Hmax Hff Hn Hch.
  - cbn [seq map]. rewrite Z.add_0_r. apply chain_end; [exact Hc|].
    rewrite Hn by lia. specialize (Hch 0 ltac:(lia)).
    rewrite Z.add_0_r in Hch. rewrite Hch. cbn. exact Hff.
  - change (seq 0 (S (S n))) with (0%nat :: seq 1 (S n)).
    cbn [map]. change (Z.of_nat 0) with 0. rewrite Z.add_0_r.
    assert (E : next c = c + 1).
    { rewrite Hn by lia. specialize (Hch 0 ltac:(lia)).
      rewrite Z.add_0_r in Hch. rewrite Hch.
      replace (0 =? Z.of_nat (S (S n)) - 1) with false
        by (symmetry; apply Z.eqb_neq; lia).
      lia. }
    apply chain_step; [exact Hc | lia |].
    rewrite E.
    replace (map (fun k => c + Z.of_nat k) (seq 1 (S n)))
      with (map (fun k => c + 1 + Z.of_nat k) (seq 0 (S n)))
      by (rewrite <- (seq_shift (S n) 0), map_map; apply map_ext;
          intros k; lia).
    apply IH; [lia | lia | exact Hff | intros x Hx; apply Hn; lia |].
    intros k Hk. specialize (Hch (k + 1) ltac:(lia)).
    replace (c + 1 + k) with (c + (k + 1)) by lia. rewrite Hch.
    destruct (Z.eqb_spec (k + 1) (Z.of_nat (S (S n)) - 1));
      destruct (Z.eqb_spec k (Z.of_nat (S n) - 1)); lia.
Qed.

End ChainsBack.

(** X24.  The chain of a file is read back as buildFAT has written it.  For
    a tree of files with sizes below 2^31, a positive cluster size and an
    array of bytes, let buildFAT from cluster [iCluster], 2 or more, end at or
    below cluster 0xFF7, and let the FAT of a volume with 12-bit entries and
    clusMax 0xFF6 hold the bytes of the array.  Then for each file of the
    tree whose sectors fit a JavaScript array (fewer than 2^32)
    convertClusterToSectors, after a round for each cluster of the file,
    returns the sectors of the clusters that the file takes, from its first
    cluster on in rising order, and no sector for a file of no bytes. *)
Theorem convertClusterToSectors_buildFAT this (vol : VolInfo)
    (abFAT : list val) (aFileData : list FileData) (iCluster cbCluster : Z)
    (aFileData' : list FileData) (abFAT' : list val) (iCluster' : Z)
    (f : FileData) (rounds : nat) :
  0 < cbCluster -> fits (allFiles aFileData) -> byteCells abFAT ->
  2 <= iCluster ->
  buildFAT abFAT aFileData iCluster cbCluster = (aFileData', abFAT', iCluster') ->
  iCluster' <= FAT12.CLUSNUM_BAD ->
  aDiskData this <> None ->
  0 < volSector vol -> 8 * volSector vol < 2 ^ 31 ->
  nFATBits vol = 12 -> clusMax vol = FAT12.CLUSNUM_MAX ->
  sectorFATCache vol = None ->
  (forall k, 0 <= k <= 3 * iCluster' / 2 -> fatByte this vol k = byteAt abFAT' k) ->
  In f (allFiles aFileData') ->
  clustersFor cbCluster f * clusSecs vol < 2 ^ 32 ->
  (Z.to_nat (clustersFor cbCluster f) < rounds)%nat ->
  exists vol',
    convertClusterToSectors rounds this vol (fdCluster f)
    = Returns (flat_map (clusterSectors vol) (fileClusters cbCluster f), vol').
Proof.
  intros Hcb Hfit Hab Hi E Hn Hd Hvs Hvs8 Hbits Hmax Hcache Hfat Hin _ Hr.
  unfold FAT12.CLUSNUM_BAD in Hn. unfold FAT12.CLUSNUM_MAX in Hmax.
  destruct (buildFAT_spec _ Hcb abFAT aFileData iCluster Hfit)
    as (l2 & ab2 & E2 & F & T & C).
  rewrite E in E2. injection E2 as <- <- ->.
  destruct (C Hab ltac:(lia) ltac:(lia)) as (B & Fr & P).
  destruct (placed_In cbCluster abFAT' _ f Hcb Hin _ P)
    as (j & J1 & J2 & J3 & J4).
  rewrite T in J2.
  pose proof (clustersFor_nonneg cbCluster f Hcb) as N.
  unfold fileClusters, clusterNumber. rewrite J3.
  destruct (Z.eqb_spec (clustersFor cbCluster f) 0) as [Ez|Ez].
  - rewrite Ez. cbn. exists vol. reflexivity.
  - destruct (Z.to_nat (clustersFor cbCluster f)) as [|n] eqn:En; [lia|].
    assert (En' : clustersFor cbCluster f = Z.of_nat (S n)) by lia.
    rewrite En' in J2, J4.
    assert (Hnext : forall x, j <= x <= j + Z.of_nat n ->
                      fatEntry this vol x = entry12 (byteAt abFAT') x).
    { intros x Hx. unfold fatEntry. rewrite Hbits. change (12 =? 16) with false.
      cbv iota. unfold entry12.
      assert (D : 0 <= 3 * x / 2 /\ 3 * x / 2 + 1
                                    <= 3 * (iCluster
                                            + totalClusters cbCluster
                                                (allFiles aFileData)) / 2).
      { split; [apply Z.div_pos; lia|].
        assert (3 * x / 2 + 1 = (3 * x + 1 * 2) / 2)
          by (rewrite Z.div_add by lia; reflexivity).
        assert ((3 * x + 1 * 2) / 2
                <= 3 * (iCluster + totalClusters cbCluster (allFiles aFileData))
                   / 2) by (apply Z.div_le_mono; lia).
        lia. }
      rewrite !Hfat by lia. reflexivity. }
    pose proof (chained_chain (fatEntry this vol) abFAT' (clusMax vol) n j
                  ltac:(lia) ltac:(lia) ltac:(lia) Hnext J4) as Hch.
    unfold convertClusterToSectors.
    replace (j =? 0) with false by (symmetry; apply Z.eqb_neq; lia).
    destruct (convertLoop_chain this vol j _ Hd Hvs Hvs8 (or_introl Hbits)
                ltac:(rewrite Hbits, Hmax; reflexivity) Hch
                ltac:(rewrite Hbits; change (2 ^ 31) with 2147483648; lia)
                vol [] rounds (sameVolume_refl vol) (or_introl Hcache)
                ltac:(rewrite length_map, length_seq; lia))
      as (vol' & E' & _).
    exists vol'. exact E'.
Qed.

Lemma convertClusterToSectors_buildFAT_witness :
  exists vol',
    convertClusterToSectors 3 builtFATDisk chainVolume
      (fdCluster (hd (plainFile [] 0 0) builtFiles))
    = Returns (flat_map (clusterSectors chainVolume)
                 (fileClusters 512 (hd (plainFile [] 0 0) builtFiles)),
               vol').
Proof.
  refine (convertClusterToSectors_buildFAT builtFATDisk chainVolume emptyFAT
            exampleFiles 2 512 builtFiles builtFAT 8 _ 3
            _ _ _ _ _ _ _ _ _ _ _ _ _ _ _ _).
  - reflexivity.
  - apply fits_fitting. reflexivity.
  - apply byteCells_cellOctets. reflexivity.
  - discriminate.
  - vm_compute. reflexivity.
  - discriminate.
  - vm_compute. discriminate.
  - reflexivity.
  - reflexivity.
  - reflexivity.
  - reflexivity.
  - reflexivity.
  - intros k Hk.
    assert (A : allBelow 13
                  (fun k => fatByte builtFATDisk chainVolume k
                            =? byteAt builtFAT k)
                = true) by (vm_compute; reflexivity).
    apply Z.eqb_eq. apply (allBelow_spec 13 _ A k).
    change (3 * 8 / 2) with 12 in Hk. lia.
  - vm_compute. left. reflexivity.
  - vm_compute. reflexivity.
  - vm_compute. lia.
Defined.

(* ===================================================================== *)
(** * The master boot record *)
(* ===================================================================== *)

Section BootRecord.

Lemma buildData_zero (cb : Z) (ab : list val) (k : Z) :
  buildData cb None = Some ab -> byteAt ab k = 0.
Proof.
  unfold buildData. destruct ((cb <? 0) || (2 ^ 32 <=? cb)); [discriminate|].
  intros [= <-]. unfold byteAt, get.
  destruct (k <? 0); [reflexivity|].
  assert (A : forall (l : list nat) n,
             valInt32 (nth n (map (fun _ : nat => Num 0) l) Undef) = 0)
    by (induction l as [|x l IH]; intros [|n]; cbn; auto).
  exact (A _ _).
Qed.

(** The cells of an array after numbers have been stored one after the
    other. *)
Lemma stored_get (vs : list Z) :
  forall ab off k,
    0 <= off ->
    get (stored ab off vs) k
    = if (off <=? k) && (k <? off + len vs)
      then Num (nth (Z.to_nat (k - off)) vs 0)
      else get ab k.
Proof.
  induction vs as [|v vs IH]; intros ab off k Hoff.
  - cbn [stored]. change (len (@nil Z)) with 0.
    destruct (Z.leb_spec off k); destruct (Z.ltb_spec k (off + 0));
      cbn [andb]; try reflexivity; lia.
  - cbn [stored].
    rewrite IH by lia. rewrite get_set_any by lia. rewrite len_cons.
    pose proof (len_nonneg vs) as Hn.
    destruct (Z.leb_spec (off + 1) k); destruct (Z.ltb_spec k (off + 1 + len vs));
      destruct (Z.leb_spec off k); destruct (Z.ltb_spec k (off + (len vs + 1)));
      destruct (Z.eqb_spec k off); cbn [andb]; try reflexivity; try lia.
    + replace (Z.to_nat (k - off)) with (S (Z.to_nat (k - (off + 1)))) by lia.
      reflexivity.
    + subst k. replace (off - off) with 0 by lia. reflexivity.
Qed.

(** The array that buildMBR returns. *)
Lemma buildMBR_stored (cHeads cSectorsPerTrack cbSector cTotalSectors : Z)
    (ab : list val) :
  buildMBR cHeads cSectorsPerTrack cbSector cTotalSectors = Some ab ->
  exists a0,
    buildData cbSector None = Some a0
    /\ ab = stored a0 0x1EE
              [0x80; 0x00; 0x02; 0x00; 0x01; cHeads - 1;
               bor cSectorsPerTrack
                   (sar (band (divi cTotalSectors (cHeads * cSectorsPerTrack))
                              0x300) 2);
               band (divi cTotalSectors (cHeads * cSectorsPerTrack)) 0xff;
               1; 0x00; 0x00; 0x00;
               band cTotalSectors 0xff; band (sar cTotalSectors 8) 0xff;
               band (sar cTotalSectors 16) 0xff;
               band (sar cTotalSectors 24) 0xff; 0x55; 0xAA].
Proof.
  unfold buildMBR. destruct (buildData cbSector None) as [a0|]; [|discriminate].
  intros [= <-]. exists a0. split; [reflexivity|].
  cbv zeta. cbn [stored]. reflexivity.
Qed.

(** A value of up to four bytes that a sector holds where the array holds
    its bytes. *)
Lemma getSectorData_stored (sector : Sector) (a0 : list val) (vs : list Z)
    (p : Z) (n : nat) (x : Z) :
  (forall k, byteAt a0 k = 0) ->
  512 <= LENGTH sector ->
  (forall k, 0 <= k < 512 ->
             read (Some sector) k = byteAt (stored a0 0x1EE vs) k) ->
  0 <= p -> p + Z.of_nat n <= 512 -> (n <= 4)%nat ->
  0 <= x < 2 ^ 31 ->
  (forall j, (j < n)%nat ->
     nth j (bytesLE n x) 0
     = if (0x1EE <=? p + Z.of_nat j) && (p + Z.of_nat j <? 0x1EE + len vs)
       then toInt32 (nth (Z.to_nat (p + Z.of_nat j - 0x1EE)) vs 0) else 0) ->
  x < 256 ^ Z.of_nat n ->
  getSectorData sector p (Z.of_nat n) = x.
Proof.
  intros Hz HL Hr Hp Hpn Hn Hx Hb Hxn.
  rewrite getSectorData_inside by lia. rewrite Nat2Z.id.
  rewrite (littleEndian_bytesLE sector n p x).
  - rewrite Z.mod_small by lia. apply toInt32_small.
    change (2 ^ 31) with 2147483648 in *. lia.
  - intros j Hj. rewrite Hr by lia. rewrite (Hb j Hj).
    unfold byteAt. rewrite stored_get by lia.
    destruct ((0x1EE <=? p + Z.of_nat j) && (p + Z.of_nat j <? 0x1EE + len vs));
      [reflexivity | apply Hz].
Qed.

End BootRecord.

(** X25.  The master boot record that buildMBR makes holds one partition,
    in the last of the four entries of the table DiskImage.MBR.  When the
    first 512 bytes of a sector are the bytes of the array that buildMBR
    returns for a number of sectors below 2^31, then getSectorData reads
    status INACTIVE and type EMPTY in entries 0 to 2, and in entry 3 status
    ACTIVE, type FAT12_PRIMARY, 1 as the first sector of the volume and the
    number of sectors as its size; the two bytes at SIG_OFFSET are the
    SIGNATURE. *)
Theorem buildMBR_partition (cHeads cSectorsPerTrack cbSector cTotalSectors : Z)
    (abSector : list val) (sector : Sector) :
  buildMBR cHeads cSectorsPerTrack cbSector cTotalSectors = Some abSector ->
  0 <= cTotalSectors < 2 ^ 31 ->
  512 <= LENGTH sector ->
  (forall k, 0 <= k < 512 -> read (Some sector) k = byteAt abSector k) ->
  (forall iEntry, 0 <= iEntry < 3 ->
     getSectorData sector (partitionField iEntry MBR.ENTRY_STATUS) 1
     = MBR.STATUS_INACTIVE
     /\ getSectorData sector (partitionField iEntry MBR.ENTRY_TYPE) 1
        = MBR.TYPE_EMPTY)
  /\ getSectorData sector (partitionField 3 MBR.ENTRY_STATUS) 1
     = MBR.STATUS_ACTIVE
  /\ getSectorData sector (partitionField 3 MBR.ENTRY_TYPE) 1
     = MBR.TYPE_FAT12_PRIMARY
  /\ getSectorData sector (partitionField 3 MBR.ENTRY_VBA_FIRST) 4 = 1
  /\ getSectorData sector (partitionField 3 MBR.ENTRY_VBA_TOTAL) 4
     = cTotalSectors
  /\ getSectorData sector MBR.SIG_OFFSET 2 = MBR.SIGNATURE.
Proof.
  intros E Hc HL Hr.
  destruct (buildMBR_stored _ _ _ _ _ E) as (a0 & E0 & ->).
  pose proof (fun k => buildData_zero cbSector a0 k E0) as Hz.
  set (vs := [0x80; 0x00; 0x02; 0x00; 0x01; cHeads - 1;
              bor cSectorsPerTrack
                  (sar (band (divi cTotalSectors (cHeads * cSectorsPerTrack))
                             0x300) 2);
              band (divi cTotalSectors (cHeads * cSectorsPerTrack)) 0xff;
              1; 0x00; 0x00; 0x00;
              band cTotalSectors 0xff; band (sar cTotalSectors 8) 0xff;
              band (sar cTotalSectors 16) 0xff;
              band (sar cTotalSectors 24) 0xff; 0x55; 0xAA]) in *.
  assert (Hlen : len vs = 18) by reflexivity.
  unfold partitionField, MBR.PARTITIONS_OFFSET, MBR.ENTRY_LENGTH,
    MBR.ENTRY_STATUS, MBR.ENTRY_TYPE,
    MBR.ENTRY_VBA_FIRST, MBR.ENTRY_VBA_TOTAL,
    MBR.STATUS_INACTIVE, MBR.STATUS_ACTIVE,
    MBR.TYPE_EMPTY, MBR.TYPE_FAT12_PRIMARY,
    MBR.SIG_OFFSET, MBR.SIGNATURE.
  assert (G : forall p n x,
             0 <= p -> p + Z.of_nat n <= 512 -> (n <= 4)%nat ->
             0 <= x < 2147483648 -> x < 256 ^ Z.of_nat n ->
             (forall j, (j < n)%nat ->
                nth j (bytesLE n x) 0
                = if (0x1EE <=? p + Z.of_nat j)
                     && (p + Z.of_nat j <? 0x1EE + len vs)
                  then toInt32 (nth (Z.to_nat (p + Z.of_nat j - 0x1EE)) vs 0)
                  else 0) ->
             getSectorData sector p (Z.of_nat n) = x).
  { intros p n x Hp Hpn Hn Hx Hxn Hb.
    apply (getSectorData_stored sector a0 vs p n x); assumption. }
  assert (T : cTotalSectors = toUint32 cTotalSectors).
  { rewrite toUint32_mod. rewrite Z.mod_small; [reflexivity|].
    change (2 ^ 31) with 2147483648 in Hc. change (2 ^ 32) with 4294967296.
    lia. }
  change (2 ^ 31) with 2147483648 in *.
  split; [|split; [|split; [|split; [|split]]]].
  - intros iEntry Hi.
    split.
    + apply (G _ 1%nat 0);
        [lia | lia | lia | lia | change (256 ^ Z.of_nat 1) with 256; lia|].
      intros j Hj. replace j with 0%nat by lia. rewrite Hlen.
      replace (0x1EE <=? 0x1BE + iEntry * 0x10 + 0x00 + Z.of_nat 0) with false
        by (symmetry; apply Z.leb_gt; lia).
      reflexivity.
    + apply (G _ 1%nat 0);
        [lia | lia | lia | lia | change (256 ^ Z.of_nat 1) with 256; lia|].
      intros j Hj. replace j with 0%nat by lia. rewrite Hlen.
      replace (0x1EE <=? 0x1BE + iEntry * 0x10 + 0x04 + Z.of_nat 0) with false
        by (symmetry; apply Z.leb_gt; lia).
      reflexivity.
  - apply (G _ 1%nat 0x80);
      [lia | lia | lia | lia | change (256 ^ Z.of_nat 1) with 256; lia|].
    intros j Hj. replace j with 0%nat by lia. reflexivity.
  - apply (G _ 1%nat 0x01);
      [lia | lia | lia | lia | change (256 ^ Z.of_nat 1) with 256; lia|].
    intros j Hj. replace j with 0%nat by lia. reflexivity.
  - apply (G _ 4%nat 1);
      [lia | lia | lia | lia
      | change (256 ^ Z.of_nat 4) with 4294967296; lia|].
    intros j Hj.
    destruct j as [|[|[|[|j]]]]; [reflexivity | reflexivity | reflexivity
                                  | reflexivity | lia].
  - apply (G _ 4%nat cTotalSectors);
      [lia | lia | lia | lia
      | change (256 ^ Z.of_nat 4) with 4294967296; lia|].
    intros j Hj. rewrite Hlen.
    assert (R : forall b, 0 <= b < 256 -> toInt32 b = b)
      by (intros b Hb; apply toInt32_byte; exact Hb).
    pose proof (Z.mod_pos_bound (toUint32 cTotalSectors) 256 ltac:(lia)) as B0.
    pose proof (Z.mod_pos_bound (toUint32 cTotalSectors / 256) 256 ltac:(lia))
      as B1.
    pose proof (Z.mod_pos_bound (toUint32 cTotalSectors / 256 / 256) 256
                  ltac:(lia)) as B2.
    pose proof (Z.mod_pos_bound (toUint32 cTotalSectors / 256 / 256 / 256) 256
                  ltac:(lia)) as B3.
    destruct j as [|[|[|[|j]]]]; [| | | |lia];
      cbn [bytesLE nth]; unfold vs;
      match goal with
      | |- _ = if ?c then _ else _ => change c with true
      end; cbv iota;
      match goal with
      | |- _ = toInt32 (nth ?i _ _) =>
          let i' := eval vm_compute in i in change i with i'
      end; cbn [nth].
    + rewrite byte0, R by exact B0. rewrite <- T. reflexivity.
    + rewrite byte1, R by exact B1. rewrite <- T. reflexivity.
    + rewrite byte2, R by exact B2. rewrite <- T. reflexivity.
    + rewrite byte3, R by exact B3. rewrite <- T. reflexivity.
  - apply (G _ 2%nat 0xAA55);
      [lia | lia | lia | lia
      | change (256 ^ Z.of_nat 2) with 65536; lia|].
    intros j Hj.
    destruct j as [|[|j]]; [reflexivity | reflexivity | lia].
Qed.

Lemma buildMBR_partition_witness :
  getSectorData recordSector
    (partitionField 3 MBR.ENTRY_VBA_TOTAL) 4 = 20808
  /\ getSectorData recordSector MBR.SIG_OFFSET 2 = MBR.SIGNATURE.
Proof.
  destruct (buildMBR_partition 4 17 512 20808 recordCells recordSector)
    as (_ & _ & _ & _ & H4 & H5).
  - vm_compute. reflexivity.
  - split; [discriminate | reflexivity].
  - vm_compute. discriminate.
  - intros k Hk.
    assert (A : allBelow 512 (fun k => read (Some recordSector) k
                                       =? byteAt recordCells k) = true)
      by (vm_compute; reflexivity).
    apply Z.eqb_eq. exact (allBelow_spec 512 _ A k Hk).
  - split; [exact H4 | exact H5].
Defined.
